(** * CloudPaste WebDAV storage driver: a shallow embedding and its properties

    The development follows the layout of the driver:
    - [WebDAVPathUtils]      path canonicalisation and segment-wise escaping
    - [WebDAVResponseParser] regex-based PROPFIND multi-status parser
    - [WebDAVClient]         HTTP verbs over [fetch]
    - [WebDAVFileOperations], [WebDAVDirectoryOperations],
      [WebDAVUploadOperations], [WebDAVBatchOperations]
    - [WebDAVStorageDriver]  the facade
    - [webdavConfigService]  the four-stage connection diagnostic

    JavaScript strings are sequences of UTF-16 code units and are modelled as
    [list Z]; the built-ins the driver relies on ([encodeURIComponent],
    [decodeURIComponent], [TextEncoder], [String.prototype.match] with the
    regular expressions of the parser) are modelled after ECMA-262. *)

From Stdlib Require Import ZArith List Bool Lia String Ascii Permutation.
Import ListNotations.
Open Scope Z_scope.

(* ================================================================== *)
(** ** JavaScript strings *)
(* ================================================================== *)

Module JS.

(** A string value: its UTF-16 code units. *)
Definition jsstring := list Z.

Definition code_unit (c : Z) : Prop := 0 <= c < 65536.

Definition str_eqb (a b : jsstring) : bool :=
  if list_eq_dec Z.eq_dec a b then true else false.

(** [!s] on a string: only the empty string is falsy. *)
Definition falsy (s : jsstring) : bool :=
  match s with [] => true | _ => false end.

(** [a || b] on two strings. *)
Definition or_else (a b : jsstring) : jsstring :=
  if falsy a then b else a.

(** [s.startsWith(p)], [s.endsWith(p)], [s.includes(p)] (exact code units). *)
Fixpoint startsWith (s p : jsstring) {struct p} : bool :=
  match p, s with
  | [], _ => true
  | x :: p', y :: s' => (x =? y) && startsWith s' p'
  | _ :: _, [] => false
  end.

Definition endsWith (s p : jsstring) : bool := startsWith (rev s) (rev p).

Fixpoint includes (s p : jsstring) : bool :=
  startsWith s p ||
  match s with
  | [] => false
  | _ :: s' => includes s' p
  end.

(** [s.slice(0, -1)]. *)
Definition slice_0_m1 (s : jsstring) : jsstring := removelast s.

(** [s.split(sep)] for a one-unit separator: never an empty array. *)
Fixpoint split (sep : Z) (s : jsstring) : list jsstring :=
  match s with
  | [] => [[]]
  | c :: s' =>
      if c =? sep then [] :: split sep s'
      else match split sep s' with
           | seg :: segs => (c :: seg) :: segs
           | [] => [[c]]
           end
  end.

(** [a.join(sep)] for a one-unit separator. *)
Fixpoint join (sep : Z) (segs : list jsstring) : jsstring :=
  match segs with
  | [] => []
  | [seg] => seg
  | seg :: rest => seg ++ sep :: join sep rest
  end.

(** White space and line terminators, the set of [\s] and of [trim]. *)
Definition is_space (c : Z) : bool :=
  ((9 <=? c) && (c <=? 13)) || (c =? 32) || (c =? 160) || (c =? 5760) ||
  ((8192 <=? c) && (c <=? 8202)) || (c =? 8232) || (c =? 8233) ||
  (c =? 8239) || (c =? 8287) || (c =? 12288) || (c =? 65279).

Fixpoint trimStart (s : jsstring) : jsstring :=
  match s with
  | c :: s' => if is_space c then trimStart s' else s
  | [] => []
  end.

Definition trim (s : jsstring) : jsstring := rev (trimStart (rev (trimStart s))).

Definition is_digit (c : Z) : bool := (48 <=? c) && (c <=? 57).

(** *** Numbers

    The Number values the driver meets hold an integer or are infinite.
    A mathematical integer becomes a Number by rounding to the nearest
    double, ties to even (ECMA-262, 6.1.6.1); from 2^1024 - 2^970 on the
    result is infinite. *)
Inductive number : Type := Int (n : Z) | Infinity | NegInfinity.

(** The double nearest to a non-negative integer, [None] when it is
    infinite. *)
Definition nearest_double (n : Z) : option Z :=
  if n <? 2 ^ 53 then Some n
  else
    let e := Z.log2 n - 52 in
    let q := n / 2 ^ e in
    let r := n mod 2 ^ e in
    let half := 2 ^ (e - 1) in
    let q' := if r <? half then q
              else if half <? r then q + 1
              else if Z.even q then q else q + 1 in
    let v := q' * 2 ^ e in
    if v <? 2 ^ 1024 then Some v else None.

(** The Number value for an integer. *)
Definition Number_of (n : Z) : number :=
  if n <? 0 then
    match nearest_double (- n) with
    | Some v => Int (- v)
    | None => NegInfinity
    end
  else
    match nearest_double n with
    | Some v => Int v
    | None => Infinity
    end.

(** [parseInt(s, 10)] on a string of decimal digits: the Number value for
    the integer the digits denote.  (Past the twentieth significant digit
    ECMA-262 lets an implementation read the digits as zeros; the value
    here is the exact one.) *)
Definition parseInt (s : jsstring) : number :=
  Number_of (fold_left (fun acc c => acc * 10 + (c - 48)) s 0).

(** The decimal digits of a non-negative integer. *)
Fixpoint digits_fuel (fuel : nat) (n : Z) (acc : jsstring) : jsstring :=
  match fuel with
  | O => acc
  | S fuel' =>
      let acc' := (48 + n mod 10) :: acc in
      if n <? 10 then acc' else digits_fuel fuel' (n / 10) acc'
  end.

Definition decimal (n : Z) : jsstring :=
  digits_fuel (S (Z.to_nat (Z.log2 n))) n [].

(** Number::toString (ECMA-262, 6.1.6.1.20) on a double [x] >= 2^53 that
    holds an integer: the digits [s], [k] of them, and the exponent [n]
    with [s * 10^(n-k)] rounding to [x], [k] as small as possible and, of
    the digits that qualify, the ones nearest to [x]. *)
Definition is_double (x : Z) (y : Z) : bool :=
  match nearest_double y with
  | Some v => v =? x
  | None => false
  end.

(** The digits of length [k] for the exponent [n] that round to [x]. *)
Definition digits_for (x n k : Z) : list (Z * Z) :=
  let scale := 10 ^ (n - k) in
  let s := x / scale in
  List.map (fun s => (s, n))
    (List.filter
       (fun s => (10 ^ (k - 1) <=? s) && (s <? 10 ^ k) && is_double x (s * scale))
       [s; s + 1]).

(** Of two candidates of the same length the one nearer to [x]; when they
    are as near, the even one. *)
Definition nearer (x k : Z) (a b : Z * Z) : Z * Z :=
  let value (c : Z * Z) := fst c * 10 ^ (snd c - k) in
  let da := Z.abs (value a - x) in
  let db := Z.abs (value b - x) in
  if da <? db then a
  else if db <? da then b
  else if Z.even (fst a) then a else b.

Fixpoint shortest_fuel (fuel : nat) (x count k : Z) : Z * Z * Z :=
  match fuel with
  | O => (x, count, count)
  | S fuel' =>
      match digits_for x count k ++ digits_for x (count + 1) k with
      | c :: cs =>
          let best := fold_left (nearer x k) cs c in
          (fst best, k, snd best)
      | [] => shortest_fuel fuel' x count (k + 1)
      end
  end.

(** [(s, k, n)] for [x]. *)
Definition shortest (x : Z) : Z * Z * Z :=
  shortest_fuel 17 x (Z.of_nat (List.length (decimal x))) 1.

Definition zeros (n : Z) : jsstring := List.repeat 48 (Z.to_nat n).

(** The code units of [-], of [.], of [e+] and of [Infinity]. *)
Definition MINUS : Z := 45.
Definition POINT : Z := 46.
Definition EXPONENT : jsstring := [101; 43].
Definition INFINITY : jsstring := [73; 110; 102; 105; 110; 105; 116; 121].

(** The text of a double [x] >= 0 that holds an integer. *)
Definition positive_toString (x : Z) : jsstring :=
  if x <? 2 ^ 53 then decimal x
  else
    match shortest x with
    | (s, k, n) =>
        if n <=? 21 then decimal s ++ zeros (n - k)
        else
          match decimal s with
          | d :: ds =>
              (if k =? 1 then [d] else d :: POINT :: ds) ++
              EXPONENT ++ decimal (n - 1)
          | [] => []
          end
    end.

(** Number::toString, radix 10. *)
Definition number_toString (x : number) : jsstring :=
  match x with
  | Int n => if n <? 0 then MINUS :: positive_toString (- n) else positive_toString n
  | Infinity => INFINITY
  | NegInfinity => MINUS :: INFINITY
  end.

(** [n.toString()] and [`${n}`] for the Number that holds the integer
    [n]. *)
Definition toString (n : Z) : jsstring := number_toString (Number_of n).

(** *** UTF-8 (the Unicode transformation used by [TextEncoder] and by the
    URI functions) *)

Definition is_high_surrogate (c : Z) : bool := (55296 <=? c) && (c <=? 56319).
Definition is_low_surrogate (c : Z) : bool := (56320 <=? c) && (c <=? 57343).
Definition is_surrogate (c : Z) : bool := (55296 <=? c) && (c <=? 57343).

(** The code point of a surrogate pair. *)
Definition pair_code_point (hi lo : Z) : Z :=
  (hi - 55296) * 1024 + (lo - 56320) + 65536.

(** The octets of a code point. *)
Definition utf8_octets (cp : Z) : list Z :=
  if cp <? 128 then [cp]
  else if cp <? 2048 then [192 + cp / 64; 128 + cp mod 64]
  else if cp <? 65536 then
    [224 + cp / 4096; 128 + (cp / 64) mod 64; 128 + cp mod 64]
  else
    [240 + cp / 262144; 128 + (cp / 4096) mod 64;
     128 + (cp / 64) mod 64; 128 + cp mod 64].

(** The UTF-16 code units of a code point. *)
Definition utf16_units (cp : Z) : jsstring :=
  if cp <? 65536 then [cp]
  else [55296 + (cp - 65536) / 1024; 56320 + (cp - 65536) mod 1024].

Definition is_continuation (b : Z) : bool := (128 <=? b) && (b <=? 191).

(** The code point a sequence of octets encodes, when the sequence is a
    well-formed UTF-8 encoding of exactly one code point (shortest form, no
    surrogate, at most U+10FFFF). *)
Definition utf8_code_point (octets : list Z) : option Z :=
  match octets with
  | [b0] => if (0 <=? b0) && (b0 <? 128) then Some b0 else None
  | [b0; b1] =>
      if (194 <=? b0) && (b0 <=? 223) && is_continuation b1
      then Some ((b0 - 192) * 64 + (b1 - 128)) else None
  | [b0; b1; b2] =>
      if (224 <=? b0) && (b0 <=? 239) && is_continuation b1 && is_continuation b2
      then
        let cp := (b0 - 224) * 4096 + (b1 - 128) * 64 + (b2 - 128) in
        if (2048 <=? cp) && negb (is_surrogate cp) then Some cp else None
      else None
  | [b0; b1; b2; b3] =>
      if (240 <=? b0) && (b0 <=? 247) && is_continuation b1 &&
         is_continuation b2 && is_continuation b3
      then
        let cp := (b0 - 240) * 262144 + (b1 - 128) * 4096 +
                  (b2 - 128) * 64 + (b3 - 128) in
        if (65536 <=? cp) && (cp <=? 1114111) then Some cp else None
      else None
  | _ => None
  end.

(** [new TextEncoder().encode(s)]: UTF-8 octets, an unpaired surrogate
    being replaced by U+FFFD. *)
Fixpoint utf8_encode (s : jsstring) : list Z :=
  match s with
  | [] => []
  | c :: s' =>
      if is_high_surrogate c then
        match s' with
        | d :: s'' =>
            if is_low_surrogate d
            then utf8_octets (pair_code_point c d) ++ utf8_encode s''
            else utf8_octets 65533 ++ utf8_encode s'
        | [] => utf8_octets 65533
        end
      else if is_low_surrogate c then utf8_octets 65533 ++ utf8_encode s'
      else utf8_octets c ++ utf8_encode s'
  end.

(** Lead octet of a sequence: number of octets announced (0 for a
    continuation or an invalid lead). *)
Definition utf8_length_of_lead (b : Z) : nat :=
  if b <? 128 then 1
  else if b <? 192 then 0
  else if b <? 224 then 2
  else if b <? 240 then 3
  else if b <? 248 then 4
  else 0.

(** Source text literals: the UTF-8 octets of a literal of this file read
    back as UTF-16 code units. *)
Fixpoint units_of_octets (fuel : nat) (bs : list Z) : jsstring :=
  match fuel, bs with
  | S fuel', b :: _ =>
      let n := utf8_length_of_lead b in
      match utf8_code_point (firstn n bs) with
      | Some cp => utf16_units cp ++ units_of_octets fuel' (skipn n bs)
      | None => []
      end
  | _, _ => []
  end.

Definition octets_of_literal (s : string) : list Z :=
  List.map (fun b => Z.of_N (Byte.to_N b)) (list_byte_of_string s).

Definition lit (s : string) : jsstring :=
  let bs := octets_of_literal s in units_of_octets (List.length bs) bs.

End JS.

Import JS.

(* ================================================================== *)
(** ** The URI functions of the global object (ECMA-262, 19.2.6) *)
(* ================================================================== *)

Module Uri.

Definition is_alpha (c : Z) : bool :=
  ((65 <=? c) && (c <=? 90)) || ((97 <=? c) && (c <=? 122)).

(** uriMark: hyphen, underscore, dot, exclamation mark, tilde, asterisk,
    apostrophe and the two parentheses *)
Definition is_mark (c : Z) : bool :=
  (c =? 45) || (c =? 95) || (c =? 46) || (c =? 33) || (c =? 126) ||
  (c =? 42) || (c =? 39) || (c =? 40) || (c =? 41).

(** uriUnreserved, the unescaped set of [encodeURIComponent]. *)
Definition is_unreserved (c : Z) : bool :=
  is_alpha c || is_digit c || is_mark c.

Definition PERCENT : Z := 37.

(** Upper-case hexadecimal digit of a value below 16. *)
Definition hex_digit (n : Z) : Z := if n <? 10 then 48 + n else 55 + n.

(** The escape "%XY" of one octet. *)
Definition escape_octet (b : Z) : jsstring :=
  [PERCENT; hex_digit (b / 16); hex_digit (b mod 16)].

Definition escape_octets (bs : list Z) : jsstring :=
  List.concat (List.map escape_octet bs).

(** Encode(string, uriUnreserved); [None] stands for the URIError thrown
    at an unpaired surrogate. *)
Fixpoint encodeURIComponent (s : jsstring) : option jsstring :=
  match s with
  | [] => Some []
  | c :: s' =>
      if is_unreserved c then option_map (cons c) (encodeURIComponent s')
      else if is_low_surrogate c then None
      else if is_high_surrogate c then
        match s' with
        | d :: s'' =>
            if is_low_surrogate d
            then option_map (app (escape_octets (utf8_octets (pair_code_point c d))))
                            (encodeURIComponent s'')
            else None
        | [] => None
        end
      else option_map (app (escape_octets (utf8_octets c))) (encodeURIComponent s')
  end.

Definition hex_value (c : Z) : option Z :=
  if is_digit c then Some (c - 48)
  else if (65 <=? c) && (c <=? 70) then Some (c - 55)
  else if (97 <=? c) && (c <=? 102) then Some (c - 87)
  else None.

(** ParseHexOctet at the head of [s], with what follows the two digits. *)
Definition ParseHexOctet (s : jsstring) : option (Z * jsstring) :=
  match s with
  | h :: l :: rest =>
      match hex_value h, hex_value l with
      | Some a, Some b => Some (a * 16 + b, rest)
      | _, _ => None
      end
  | _ => None
  end.

(** The [n] continuation escapes "%XY" that follow a lead octet. *)
Fixpoint continuation_octets (n : nat) (s : jsstring) : option (list Z * jsstring) :=
  match n with
  | O => Some ([], s)
  | S n' =>
      match s with
      | c :: s1 =>
          if c =? PERCENT then
            match ParseHexOctet s1 with
            | Some (b, s2) =>
                match continuation_octets n' s2 with
                | Some (bs, rest) => Some (b :: bs, rest)
                | None => None
                end
            | None => None
            end
          else None
      | [] => None
      end
  end.

(** Decode(string, the empty reserved set); [None] stands for URIError.
    The fuel bounds the number of loop iterations. *)
Fixpoint decode_fuel (fuel : nat) (s : jsstring) : option jsstring :=
  match fuel with
  | O => None
  | S fuel' =>
      match s with
      | [] => Some []
      | c :: s' =>
          if c =? PERCENT then
            match ParseHexOctet s' with
            | None => None
            | Some (b, s1) =>
                if b <? 128 then option_map (cons b) (decode_fuel fuel' s1)
                else
                  match utf8_length_of_lead b with
                  | S n =>
                      match continuation_octets n s1 with
                      | Some (bs, rest) =>
                          match utf8_code_point (b :: bs) with
                          | Some cp =>
                              option_map (app (utf16_units cp)) (decode_fuel fuel' rest)
                          | None => None
                          end
                      | None => None
                      end
                  | O => None
                  end
            end
          else option_map (cons c) (decode_fuel fuel' s')
      end
  end.

Definition decodeURIComponent (s : jsstring) : option jsstring :=
  decode_fuel (S (List.length s)) s.

End Uri.

Import Uri.

(* ================================================================== *)
(** ** utils/WebDAVPathUtils.js *)
(* ================================================================== *)

Module WebDAVPathUtils.

Definition SLASH : Z := 47.

(** [s.replace(/\/+/g, '/')]: every maximal run of '/' becomes one '/'
    (a '/' that is followed by another '/' is dropped). *)
Fixpoint collapse_slashes (s : jsstring) : jsstring :=
  match s with
  | [] => []
  | c :: s' =>
      if c =? SLASH then
        match s' with
        | d :: _ => if d =? SLASH then collapse_slashes s'
                    else SLASH :: collapse_slashes s'
        | [] => [SLASH]
        end
      else c :: collapse_slashes s'
  end.

(** [normalizeWebDAVPath(path, isDirectory = false)].  An [undefined] or
    [null] path is falsy like the empty string. *)
Definition normalizeWebDAVPath (path : jsstring) (isDirectory : bool) : jsstring :=
  if falsy path then [SLASH]
  else
    let normalizedPath := if startsWith path [SLASH] then path else SLASH :: path in
    let normalizedPath := collapse_slashes normalizedPath in
    let normalizedPath :=
      if isDirectory && negb (endsWith normalizedPath [SLASH])
      then normalizedPath ++ [SLASH] else normalizedPath in
    let normalizedPath :=
      if negb isDirectory && endsWith normalizedPath [SLASH] &&
         negb (str_eqb normalizedPath [SLASH])
      then slice_0_m1 normalizedPath else normalizedPath in
    normalizedPath.

(** [paths.filter(p => p && p.length > 0).map(p => p.replace(/^\/+|\/+$/g, '')).join('/')] *)
Fixpoint strip_leading_slashes (s : jsstring) : jsstring :=
  match s with
  | c :: s' => if c =? SLASH then strip_leading_slashes s' else s
  | [] => []
  end.

Definition strip_slashes (s : jsstring) : jsstring :=
  rev (strip_leading_slashes (rev (strip_leading_slashes s))).

Definition joinWebDAVPath (paths : list jsstring) : jsstring :=
  SLASH :: join SLASH (List.map strip_slashes
                         (List.filter (fun p => negb (falsy p)) paths)).

(** [s.lastIndexOf('/')] as the split around the last '/': what precedes
    it and what follows it. *)
Fixpoint split_last_slash (s : jsstring) : option (jsstring * jsstring) :=
  match s with
  | [] => None
  | c :: s' =>
      match split_last_slash s' with
      | Some (before, after) => Some (c :: before, after)
      | None => if c =? SLASH then Some ([], s') else None
      end
  end.

Definition getWebDAVParentPath (path : jsstring) : jsstring :=
  let normalizedPath := normalizeWebDAVPath path false in
  if str_eqb normalizedPath [SLASH] then [SLASH]
  else match split_last_slash normalizedPath with
       | Some ([], _) => [SLASH]
       | Some (before, _) => before
       | None => []
       end.

Definition getWebDAVFileName (path : jsstring) : jsstring :=
  let normalizedPath := normalizeWebDAVPath path false in
  if str_eqb normalizedPath [SLASH] then []
  else match split_last_slash normalizedPath with
       | Some (_, after) => after
       | None => normalizedPath
       end.

Definition isWebDAVRootPath (path : jsstring) : bool :=
  str_eqb (normalizeWebDAVPath path true) [SLASH].

(** [xs.map(f)] where [f] may throw: the first exception aborts the map. *)
Fixpoint map_throwing {A B} (f : A -> option B) (xs : list A) : option (list B) :=
  match xs with
  | [] => Some []
  | x :: xs' =>
      match f x with
      | Some y => option_map (cons y) (map_throwing f xs')
      | None => None
      end
  end.

(** [encodeWebDAVPath], [decodeWebDAVPath]; [None] is the URIError of the
    built-in. *)
Definition encodeWebDAVPath (path : jsstring) : option jsstring :=
  option_map (join SLASH) (map_throwing encodeURIComponent (split SLASH path)).

Definition decodeWebDAVPath (path : jsstring) : option jsstring :=
  option_map (join SLASH) (map_throwing decodeURIComponent (split SLASH path)).

End WebDAVPathUtils.



Import WebDAVPathUtils.

(* ================================================================== *)
(** ** Regular expressions of the parser

    The fragment the parser uses: a sequence of single-character atoms,
    each possibly under a greedy or a lazy star, with one capture group.
    Matching is the backtracking search of ECMA-262 (22.2.2): leftmost
    start, greedy stars take the longest run first, lazy stars the
    shortest. *)
(* ================================================================== *)

Module Regex.

Inductive atom : Type :=
  | Chr (c : Z)        (** a pattern character *)
  | NotChr (c : Z)     (** [[^c]] *)
  | AnyChar            (** [[\s\S]] *)
  | Dot                (** [.]: anything but a line terminator *)
  | Digit              (** [\d] *)
  | Space.             (** [\s] *)

Inductive node : Type :=
  | One (a : atom)
  | Star (a : atom)       (** [a*] *)
  | LazyStar (a : atom)   (** [a*?] *)
  | GroupOpen
  | GroupClose.

Definition regex := list node.

(** [a+] *)
Definition plus (a : atom) : regex := [One a; Star a].

(** Canonicalize of the [i] flag, on the ASCII range.  No code unit
    outside ASCII canonicalizes to an ASCII one, so against the ASCII
    patterns of this parser the comparison is exact. *)
Definition canonicalize (c : Z) : Z :=
  if (97 <=? c) && (c <=? 122) then c - 32 else c.

Definition is_line_terminator (c : Z) : bool :=
  (c =? 10) || (c =? 13) || (c =? 8232) || (c =? 8233).

Definition atom_matches (ignoreCase : bool) (a : atom) (c : Z) : bool :=
  match a with
  | Chr x => if ignoreCase then canonicalize x =? canonicalize c else x =? c
  | NotChr x => negb (if ignoreCase then canonicalize x =? canonicalize c else x =? c)
  | AnyChar => true
  | Dot => negb (is_line_terminator c)
  | Digit => is_digit c
  | Space => is_space c
  end.

(** The state of the capture group: whether it is open, and the units
    captured so far, last first. *)
Record capture : Type := { is_open : bool; captured : jsstring }.

Definition no_capture : capture := {| is_open := false; captured := [] |}.

Definition push (g : capture) (c : Z) : capture :=
  if is_open g then {| is_open := true; captured := c :: captured g |} else g.

Definition result : Type := capture * jsstring.

(** [a*] followed by the continuation [k]. *)
Fixpoint greedy (p : Z -> bool) (k : jsstring -> capture -> option result)
         (s : jsstring) (g : capture) : option result :=
  match s with
  | c :: s' =>
      if p c then
        match greedy p k s' (push g c) with
        | Some r => Some r
        | None => k s g
        end
      else k s g
  | [] => k s g
  end.

(** [a*?] followed by the continuation [k]. *)
Fixpoint lazy (p : Z -> bool) (k : jsstring -> capture -> option result)
         (s : jsstring) (g : capture) : option result :=
  match k s g with
  | Some r => Some r
  | None =>
      match s with
      | c :: s' => if p c then lazy p k s' (push g c) else None
      | [] => None
      end
  end.

(** A match of [r] that starts at the head of [s]: the capture and what
    follows the match. *)
Fixpoint run (ignoreCase : bool) (r : regex) (s : jsstring) (g : capture)
  : option result :=
  match r with
  | [] => Some (g, s)
  | One a :: r' =>
      match s with
      | c :: s' =>
          if atom_matches ignoreCase a c then run ignoreCase r' s' (push g c)
          else None
      | [] => None
      end
  | Star a :: r' => greedy (atom_matches ignoreCase a) (run ignoreCase r') s g
  | LazyStar a :: r' => lazy (atom_matches ignoreCase a) (run ignoreCase r') s g
  | GroupOpen :: r' => run ignoreCase r' s {| is_open := true; captured := [] |}
  | GroupClose :: r' =>
      run ignoreCase r' s {| is_open := false; captured := captured g |}
  end.

(** The leftmost match: group 1 and the text after the match. *)
Fixpoint search (ignoreCase : bool) (r : regex) (s : jsstring)
  : option (jsstring * jsstring) :=
  match run ignoreCase r s no_capture with
  | Some (g, rest) => Some (rev (captured g), rest)
  | None =>
      match s with
      | [] => None
      | _ :: s' => search ignoreCase r s'
      end
  end.

(** [s.match(/r/i)]: group 1 of the first match, or [null]. *)
Definition match_i (r : regex) (s : jsstring) : option jsstring :=
  option_map fst (search true r s).

(** The loop [while ((m = re.exec(s)) !== null)] of a [/gi] regex: group 1
    of the successive matches.  Every match of the parser's regexes
    consumes input, so [length s] iterations suffice. *)
Fixpoint exec_loop (fuel : nat) (r : regex) (s : jsstring) : list jsstring :=
  match fuel with
  | O => []
  | S fuel' =>
      match search true r s with
      | Some (g1, rest) => g1 :: exec_loop fuel' r rest
      | None => []
      end
  end.

Definition exec_all_gi (r : regex) (s : jsstring) : list jsstring :=
  exec_loop (S (List.length s)) r s.

(** The pattern characters of a literal text. *)
Definition literal (text : jsstring) : regex := List.map (fun c => One (Chr c)) text.

Definition chars (text : string) : regex := literal (lit text).

Definition GT := 62.

(** [<d:TAG[^>]*>([\s\S]*?)<\/d:TAG>] *)
Definition element_any (tag : string) : regex :=
  chars "<d:" ++ chars tag ++ [Star (NotChr GT); One (Chr GT);
                              GroupOpen; LazyStar AnyChar; GroupClose] ++
  chars "</d:" ++ chars tag ++ chars ">".

(** [<d:TAG[^>]*>(.*?)<\/d:TAG>] *)
Definition element_line (tag : string) : regex :=
  chars "<d:" ++ chars tag ++ [Star (NotChr GT); One (Chr GT);
                              GroupOpen; LazyStar Dot; GroupClose] ++
  chars "</d:" ++ chars tag ++ chars ">".

End Regex.

Import Regex.

(* ================================================================== *)
(** ** utils/WebDAVResponseParser.js *)
(* ================================================================== *)

Module WebDAVResponseParser.

(** [item.size]: a number or [null]. *)
Inductive size_value : Type := Num (n : number) | Null.

(** The object built for one [<response>]; a field that was never
    assigned is [None] ([undefined]). *)
Record Item : Type := {
  href : option jsstring;
  path : option jsstring;
  name : option jsstring;
  isDirectory : option bool;
  size : option size_value;
  lastModified : option jsstring;
  contentType : option jsstring;
  etag : option jsstring;
  creationDate : option jsstring;
  displayName : option jsstring
}.

Definition empty_item : Item :=
  {| href := None; path := None; name := None; isDirectory := None;
     size := None; lastModified := None; contentType := None; etag := None;
     creationDate := None; displayName := None |}.

(** /<d:response[^>]*>([\s\S]*?)<\/d:response>/gi *)
Definition responseRegex : regex := element_any "response".
(** /<d:href[^>]*>(.*?)<\/d:href>/i *)
Definition hrefRegex : regex := element_line "href".
(** /<d:propstat[^>]*>([\s\S]*?)<\/d:propstat>/i *)
Definition propstatRegex : regex := element_any "propstat".
(** /<d:status[^>]*>HTTP\/\d\.\d\s+(\d+)/i *)
Definition statusRegex : regex :=
  chars "<d:status" ++ [Star (NotChr GT); One (Chr GT)] ++ chars "HTTP/" ++
  [One Digit; One (Chr 46); One Digit] ++ plus Space ++
  [GroupOpen] ++ plus Digit ++ [GroupClose].
(** /<d:prop[^>]*>([\s\S]*?)<\/d:prop>/i *)
Definition propRegex : regex := element_any "prop".
(** /<d:resourcetype[^>]*>([\s\S]*?)<\/d:resourcetype>/i *)
Definition resourcetypeRegex : regex := element_any "resourcetype".
(** /<d:getcontentlength[^>]*>(\d+)<\/d:getcontentlength>/i *)
Definition getcontentlengthRegex : regex :=
  chars "<d:getcontentlength" ++ [Star (NotChr GT); One (Chr GT); GroupOpen] ++
  plus Digit ++ [GroupClose] ++ chars "</d:getcontentlength>".
(** /<d:getlastmodified[^>]*>(.*?)<\/d:getlastmodified>/i and its siblings *)
Definition getlastmodifiedRegex : regex := element_line "getlastmodified".
Definition getcontenttypeRegex : regex := element_line "getcontenttype".
Definition getetagRegex : regex := element_line "getetag".
Definition creationdateRegex : regex := element_line "creationdate".
Definition displaynameRegex : regex := element_line "displayname".

Definition QUOTE : Z := 34.

(** [s.replace(re, '')] where [re] is the global regex of one double quote *)
Definition remove_quotes (s : jsstring) : jsstring :=
  List.filter (fun c => negb (c =? QUOTE)) s.

(** [href.split('/').filter(Boolean)] and [parts[parts.length - 1] || ''] *)
Definition last_segment (s : jsstring) : jsstring :=
  last (List.filter (fun seg => negb (falsy seg)) (split SLASH s)) [].

Section Dates.

(** [new Date(text).toISOString()], [None] when the date is invalid (the
    call then throws a RangeError), and [new Date().toISOString()]: the
    host's clock and date parser. *)
Variable toISOString : jsstring -> option jsstring.
Variable nowISOString : jsstring.

(** [parseProperties(properties, item)]: the item after the assignments. *)
Definition parseProperties (properties : jsstring) (item : Item) : Item :=
  let isDirectory' :=
    match match_i resourcetypeRegex properties with
    | Some resourceType =>
        includes resourceType (lit "<d:collection") ||
        includes resourceType (lit "<d:collection/>")
    | None => false
    end in
  let size' :=
    match match_i getcontentlengthRegex properties with
    | Some digits => Num (parseInt digits)
    | None => if isDirectory' then Num (Int 0) else Null
    end in
  let lastModified' :=
    match match_i getlastmodifiedRegex properties with
    | Some text =>
        match toISOString (trim text) with
        | Some iso => iso
        | None => nowISOString
        end
    | None => nowISOString
    end in
  let contentType' :=
    match match_i getcontenttypeRegex properties with
    | Some text => trim text
    | None => if isDirectory' then lit "httpd/unix-directory"
              else lit "application/octet-stream"
    end in
  let etag' :=
    match match_i getetagRegex properties with
    | Some text => Some (remove_quotes (trim text))
    | None => etag item
    end in
  let creationDate' :=
    match match_i creationdateRegex properties with
    | Some text =>
        match toISOString (trim text) with
        | Some iso => iso
        | None => lastModified'
        end
    | None => lastModified'
    end in
  let renamed :=
    match match_i displaynameRegex properties with
    | Some text =>
        let displayName' := trim text in
        if negb (falsy displayName') &&
           negb (match name item with
                 | Some n => str_eqb displayName' n
                 | None => false
                 end)
        then Some displayName' else None
    | None => None
    end in
  {| href := href item;
     path := path item;
     name := match renamed with Some d => Some d | None => name item end;
     isDirectory := Some isDirectory';
     size := Some size';
     lastModified := Some lastModified';
     contentType := Some contentType';
     etag := etag';
     creationDate := Some creationDate';
     displayName := match renamed with Some d => Some d | None => displayName item end |}.

(** The first statements of [parseResponseItem]: the item after the href
    was read; [None] when [decodeURIComponent] throws (the [catch] then
    returns [null]). *)
Definition item_of_href (responseContent : jsstring) : option Item :=
  match match_i hrefRegex responseContent with
  | Some h =>
      match decodeURIComponent (trim h) with
      | Some decoded =>
          Some {| href := Some decoded; path := Some decoded;
                  name := Some (last_segment decoded);
                  isDirectory := None; size := None; lastModified := None;
                  contentType := None; etag := None; creationDate := None;
                  displayName := None |}
      | None => None
      end
  | None => Some empty_item
  end.

(** [if (statusMatch && statusMatch[1] !== '200')] *)
Definition status_not_200 (propContent : jsstring) : bool :=
  match match_i statusRegex propContent with
  | Some code => negb (str_eqb code (lit "200"))
  | None => false
  end.

(** The assignments made from the [<d:prop>] block of a propstat. *)
Definition read_properties (propContent : jsstring) (item : Item) : Item :=
  match match_i propRegex propContent with
  | Some properties => parseProperties properties item
  | None => item
  end.

(** [parseResponseItem(responseContent)]; [None] is the [null] returned for
    a skipped entry. *)
Definition parseResponseItem (responseContent : jsstring) : option Item :=
  match item_of_href responseContent with
  | None => None
  | Some item =>
      match match_i propstatRegex responseContent with
      | Some propContent =>
          if status_not_200 propContent then None
          else Some (read_properties propContent item)
      | None => Some item
      end
  end.

(** [items.push(item)] for every response whose item is not [null]. *)
Fixpoint collect_items (responses : list jsstring) : list Item :=
  match responses with
  | [] => []
  | responseContent :: rest =>
      match parseResponseItem responseContent with
      | Some item => item :: collect_items rest
      | None => collect_items rest
      end
  end.

(** [parseWebDAVResponse(xmlText)] *)
Definition parseWebDAVResponse (xmlText : jsstring) : list Item :=
  collect_items (exec_all_gi responseRegex xmlText).

End Dates.

(** The object [parseWebDAVError] returns. *)
Record ErrorInfo : Type := { is_error : bool; error_message : jsstring }.

(** /<d:error[^>]*>([\s\S]*?)<\/d:error>/i *)
Definition errorRegex : regex := element_any "error".
(** /<d:human-readable[^>]*>(.*?)<\/d:human-readable>/i *)
Definition humanReadableRegex : regex := element_line "human-readable".

(** [parseWebDAVError(xmlText)].  An argument that is no string ([None])
    makes [xmlText.match] throw, which the [catch] answers. *)
Definition parseWebDAVError (xmlText : option jsstring) : ErrorInfo :=
  match xmlText with
  | Some text =>
      match match_i errorRegex text with
      | Some errorContent =>
          match match_i humanReadableRegex errorContent with
          | Some description =>
              {| is_error := true; error_message := trim description |}
          | None => {| is_error := true; error_message := lit "WebDAV操作失败" |}
          end
      | None => {| is_error := true; error_message := lit "WebDAV操作失败" |}
      end
  | None => {| is_error := true; error_message := lit "解析WebDAV错误响应失败" |}
  end.

End WebDAVResponseParser.

Import WebDAVResponseParser.

(* ================================================================== *)
(** ** HTTP: requests, responses, the remote server and exceptions *)
(* ================================================================== *)

Module Http.

(** The status names of [ApiStatus] (constants/index.js, whose numeric
    values play no role here). *)
Inductive ApiStatus : Type :=
  | SUCCESS | CREATED | BAD_REQUEST | NOT_FOUND | CONFLICT | INTERNAL_ERROR.

(** What a [throw] carries: an [HTTPException], or any other error with
    its [name] and [message]. *)
Inductive exn : Type :=
  | HTTPException (code : ApiStatus) (message : jsstring)
  | Error (name : jsstring) (message : jsstring).

Definition message_of (e : exn) : jsstring :=
  match e with
  | HTTPException _ m => m
  | Error _ m => m
  end.

(** A headers object: keys in insertion order, assignment overrides. *)
Definition headers : Type := list (jsstring * jsstring).

Fixpoint set_header (k v : jsstring) (h : headers) : headers :=
  match h with
  | [] => [(k, v)]
  | (k', v') :: h' =>
      if str_eqb k k' then (k, v) :: h' else (k', v') :: set_header k v h'
  end.

Fixpoint get_header (k : jsstring) (h : headers) : option jsstring :=
  match h with
  | [] => None
  | (k', v) :: h' => if str_eqb k k' then Some v else get_header k h'
  end.

(** [Object.assign(target, source)] and the spread [{...target, ...source}]. *)
Definition assign (target source : headers) : headers :=
  fold_left (fun acc kv => set_header (fst kv) (snd kv) acc) source target.

(** A value given as a body: a string, a typed array of octets (a Buffer
    or a Uint8Array), or an ArrayBuffer. *)
Inductive payload : Type :=
  | Text (s : jsstring)
  | Octets (bs : list Z)
  | ArrayBuffer (bs : list Z).

(** The octets [fetch] writes for a body: a string goes out as UTF-8. *)
Definition octets_written (b : payload) : list Z :=
  match b with
  | Text s => utf8_encode s
  | Octets bs => bs
  | ArrayBuffer bs => bs
  end.

Record Request : Type := {
  method : jsstring;
  url : jsstring;
  requestHeaders : headers;
  body : option payload
}.

Record Response : Type := {
  status : Z;
  statusText : jsstring;
  responseHeaders : headers;
  responseText : jsstring
}.

(** [response.ok] *)
Definition ok (r : Response) : bool := (200 <=? status r) && (status r <=? 299).

(** The world outside the driver: the remote server, which answers a
    request knowing the requests sent before it (a response, or a network
    failure with its error), and the log of the requests sent so far. *)
Record World : Type := {
  remote : list Request -> Request -> Response + jsstring * jsstring;
  sent : list Request
}.

(** Computations that may send requests and may throw. *)
Definition M (A : Type) : Type := World -> (A + exn) * World.

Definition ret {A} (a : A) : M A := fun w => (inl a, w).

Definition throw {A} (e : exn) : M A := fun w => (inr e, w).

Definition bind {A B} (m : M A) (k : A -> M B) : M B :=
  fun w =>
    match m w with
    | (inl a, w') => k a w'
    | (inr e, w') => (inr e, w')
    end.

(** [try { m } catch (error) { handler(error) }] *)
Definition try_catch {A} (m : M A) (handler : exn -> M A) : M A :=
  fun w =>
    match m w with
    | (inl a, w') => (inl a, w')
    | (inr e, w') => handler e w'
    end.

(** [fetch(url, init)] *)
Definition fetch (rq : Request) : M Response :=
  fun w =>
    let w' := {| remote := remote w; sent := sent w ++ [rq] |} in
    match remote w (sent w) rq with
    | inl response => (inl response, w')
    | inr (name, message) => (inr (Error name message), w')
    end.

(** The handler shared by the operations:
    [if (error instanceof HTTPException) throw error;
     throw new HTTPException(INTERNAL_ERROR, prefix + error.message)]. *)
Definition rethrow_internal {A} (prefix : jsstring) (e : exn) : M A :=
  match e with
  | HTTPException _ _ => throw e
  | Error _ m => throw (HTTPException INTERNAL_ERROR (prefix ++ m))
  end.

End Http.

Import Http.

Notation "x <- m ;; k" := (bind m (fun x => k))
  (at level 61, m at next level, right associativity).

(* ================================================================== *)
(** ** utils/WebDAVClient.js *)
(* ================================================================== *)

Module WebDAVClient.

(** The configuration object of a storage (the fields the driver reads). *)
Record Config : Type := {
  config_name : jsstring;
  config_url : jsstring;
  config_username : option jsstring;
  config_password : option jsstring
}.

Record Client : Type := {
  baseUrl : jsstring;
  username : option jsstring;
  password : option jsstring;
  authHeader : headers
}.

Section Host.

(** [btoa] of the host and [decryptValue] of utils/crypto.js; both may
    throw. *)
Variable btoa : jsstring -> jsstring + exn.
Variable decryptValue : jsstring -> jsstring -> M jsstring.

(** [url.replace(/\/$/, '')] *)
Definition strip_trailing_slash (u : jsstring) : jsstring :=
  if endsWith u [SLASH] then slice_0_m1 u else u.

Definition truthy (o : option jsstring) : bool :=
  match o with
  | Some s => negb (falsy s)
  | None => false
  end.

(** [_createAuthHeader()] *)
Definition _createAuthHeader (user pass : option jsstring) : headers + exn :=
  match user, pass with
  | Some u, Some p =>
      if negb (falsy u) && negb (falsy p) then
        match btoa (u ++ lit ":" ++ p) with
        | inl credentials => inl [(lit "Authorization", lit "Basic " ++ credentials)]
        | inr e => inr e
        end
      else inl []
  | _, _ => inl []
  end.

(** [new WebDAVClient(config)] with the decrypted credentials. *)
Definition new_WebDAVClient (cfg : Config) (user pass : option jsstring)
  : Client + exn :=
  match _createAuthHeader user pass with
  | inl h => inl {| baseUrl := strip_trailing_slash (config_url cfg);
                    username := user; password := pass; authHeader := h |}
  | inr e => inr e
  end.

Definition decrypt_if_present (v : option jsstring) (secret : jsstring)
  : M (option jsstring) :=
  if truthy v then
    match v with
    | Some s => (d <- decryptValue s secret ;; ret (Some d))
    | None => ret None
    end
  else ret None.

(** [createWebDAVClient(config, encryptionSecret)] *)
Definition createWebDAVClient (cfg : Config) (secret : jsstring) : M Client :=
  try_catch
    (user <- decrypt_if_present (config_username cfg) secret ;;
     pass <- decrypt_if_present (config_password cfg) secret ;;
     match new_WebDAVClient cfg user pass with
     | inl c => ret c
     | inr e => throw e
     end)
    (fun e => throw (HTTPException INTERNAL_ERROR
                       (lit "创建WebDAV客户端失败: " ++ message_of e))).

End Host.

(** [request(method, path, options)] *)
Definition request (c : Client) (method : jsstring) (path : jsstring)
           (hs : headers) (b : option payload) : M Response :=
  let rq := {| method := method; url := baseUrl c ++ path;
               requestHeaders := assign (authHeader c) hs; body := b |} in
  try_catch (fetch rq)
    (fun e => throw (HTTPException INTERNAL_ERROR
                       (lit "WebDAV请求失败: " ++ message_of e))).

Definition dq : jsstring := [34].

Definition default_propfind_body : jsstring :=
  lit "<?xml version=" ++ dq ++ lit "1.0" ++ dq ++ lit " encoding=" ++ dq ++
  lit "utf-8" ++ dq ++ lit " ?>
<D:propfind xmlns:D=" ++ dq ++ lit "DAV:" ++ dq ++ lit ">
  <D:allprop/>
</D:propfind>".

(** [propfind(path, {depth})]: the callers of this driver pass a depth and
    no body. *)
Definition propfind (c : Client) (path : jsstring) (depth : Z) : M Response :=
  request c (lit "PROPFIND") path
    [(lit "Depth", toString depth); (lit "Content-Type", lit "application/xml")]
    (Some (Text default_propfind_body)).

Definition get (c : Client) (path : jsstring) : M Response :=
  request c (lit "GET") path [] None.

(** [put(path, body, {headers})] *)
Definition put (c : Client) (path : jsstring) (b : payload) (hs : headers)
  : M Response :=
  request c (lit "PUT") path hs (Some b).

Definition delete (c : Client) (path : jsstring) : M Response :=
  request c (lit "DELETE") path [] None.

Definition mkcol (c : Client) (path : jsstring) : M Response :=
  request c (lit "MKCOL") path [] None.

Definition overwrite_flag (overwrite : bool) : jsstring :=
  if overwrite then lit "T" else lit "F".

(** [move(sourcePath, targetPath, {overwrite})] *)
Definition move (c : Client) (sourcePath targetPath : jsstring) (overwrite : bool)
  : M Response :=
  request c (lit "MOVE") sourcePath
    [(lit "Destination", baseUrl c ++ targetPath);
     (lit "Overwrite", overwrite_flag overwrite)] None.

(** [copy(sourcePath, targetPath, {overwrite, depth})] *)
Definition copy (c : Client) (sourcePath targetPath : jsstring) (overwrite : bool)
           (depth : jsstring) : M Response :=
  request c (lit "COPY") sourcePath
    [(lit "Destination", baseUrl c ++ targetPath);
     (lit "Overwrite", overwrite_flag overwrite);
     (lit "Depth", depth)] None.

Definition head (c : Client) (path : jsstring) : M Response :=
  request c (lit "HEAD") path [] None.

End WebDAVClient.

Import WebDAVClient.

(* ================================================================== *)
(** ** Options of the operations *)
(* ================================================================== *)

Module Options.

(** The mount object handed in by the file system layer. *)
Record Mount : Type := { mount_id : option jsstring }.

(** The [options] argument: a field that is absent is [None]. *)
Record t : Type := {
  subPath : option jsstring;
  db : bool;                       (** whether a database handle is given *)
  mount : option Mount;
  overwrite : option bool;
  depth : option jsstring;
  contentType : option jsstring;
  headers : option Http.headers
}.

Definition empty : t :=
  {| subPath := None; db := false; mount := None; overwrite := None;
     depth := None; contentType := None; headers := None |}.

(** [options.overwrite !== false] *)
Definition overwrite_not_false (o : t) : bool :=
  match overwrite o with
  | Some false => false
  | _ => true
  end.

(** [options.depth || 'infinity'] *)
Definition depth_or_infinity (o : t) : jsstring :=
  match depth o with
  | Some d => or_else d (lit "infinity")
  | None => lit "infinity"
  end.

(** [value || ''] for a path that may be [undefined]. *)
Definition string_or_empty (v : option jsstring) : jsstring :=
  match v with
  | Some s => s
  | None => []
  end.

End Options.

(* ================================================================== *)
(** ** operations/WebDAVFileOperations.js *)
(* ================================================================== *)

Module WebDAVFileOperations.

Record FileInfo : Type := {
  info_name : jsstring;
  info_path : jsstring;
  info_type : jsstring;
  info_size : number;
  info_lastModified : jsstring;
  info_etag : option jsstring;
  info_contentType : jsstring;
  info_isDirectory : bool
}.

Record RenameResult : Type := {
  rename_success : bool;
  rename_message : jsstring;
  oldPath : jsstring;
  newPath : jsstring
}.

Record CopyResult : Type := {
  copy_success : bool;
  copy_message : jsstring;
  copy_sourcePath : jsstring;
  copy_targetPath : jsstring
}.

Record UpdateResult : Type := {
  update_success : bool;
  update_message : jsstring;
  update_path : jsstring;
  update_size : option Z
}.

(** [content.length]: the number of code units of a string, the number of
    octets of a Buffer or Uint8Array, [undefined] ([None]) for an
    ArrayBuffer, which has no such property. *)
Definition content_length (content : payload) : option Z :=
  match content with
  | Text s => Some (Z.of_nat (List.length s))
  | Octets bs => Some (Z.of_nat (List.length bs))
  | ArrayBuffer bs => None
  end.

Section Ops.

Variable toISOString : jsstring -> option jsstring.
Variable nowISOString : jsstring.
Variable webdavClient : Client.

(** [size || 0] *)
Definition size_or_zero (v : option size_value) : number :=
  match v with
  | Some (Num n) => n
  | _ => Int 0
  end.

(** [_formatFileInfo(rawInfo, path)] *)
Definition _formatFileInfo (rawInfo : Item) (path : jsstring) : FileInfo :=
  let dir := match isDirectory rawInfo with Some b => b | None => false end in
  {| info_name := or_else (Options.string_or_empty (name rawInfo))
                          (last (split SLASH path) []);
     info_path := path;
     info_type := if dir then lit "directory" else lit "file";
     info_size := size_or_zero (size rawInfo);
     info_lastModified :=
       or_else (Options.string_or_empty (lastModified rawInfo)) nowISOString;
     info_etag := match etag rawInfo with
                  | Some e => if falsy e then None else Some e
                  | None => None
                  end;
     info_contentType :=
       or_else (Options.string_or_empty (WebDAVResponseParser.contentType rawInfo))
               (lit "application/octet-stream");
     info_isDirectory := dir |}.

(** [getFileInfo(path, options)] *)
Definition getFileInfo (path : jsstring) : M FileInfo :=
  try_catch
    (response <- propfind webdavClient path 0 ;;
     if negb (ok response) then
       if status response =? 404
       then throw (HTTPException NOT_FOUND (lit "文件不存在: " ++ path))
       else throw (HTTPException INTERNAL_ERROR
                     (lit "获取文件信息失败: " ++ statusText response))
     else
       match parseWebDAVResponse toISOString nowISOString (responseText response) with
       | [] => throw (HTTPException NOT_FOUND (lit "文件不存在: " ++ path))
       | first :: _ => ret (_formatFileInfo first path)
       end)
    (rethrow_internal (lit "获取文件信息失败: ")).

(** [downloadFile(path, options)] *)
Definition downloadFile (path : jsstring) : M Response :=
  try_catch
    (response <- get webdavClient path ;;
     if negb (ok response) then
       if status response =? 404
       then throw (HTTPException NOT_FOUND (lit "文件不存在: " ++ path))
       else throw (HTTPException INTERNAL_ERROR
                     (lit "下载文件失败: " ++ statusText response))
     else ret response)
    (rethrow_internal (lit "下载文件失败: ")).

(** [renameItem(oldPath, newPath, options)] *)
Definition renameItem (old new : jsstring) (options : Options.t) : M RenameResult :=
  try_catch
    (response <- move webdavClient old new (Options.overwrite_not_false options) ;;
     if negb (ok response) then
       if status response =? 404
       then throw (HTTPException NOT_FOUND (lit "源文件不存在: " ++ old))
       else if status response =? 409
       then throw (HTTPException CONFLICT (lit "目标路径已存在: " ++ new))
       else throw (HTTPException INTERNAL_ERROR
                     (lit "重命名失败: " ++ statusText response))
     else ret {| rename_success := true; rename_message := lit "重命名成功";
                 oldPath := old; newPath := new |})
    (rethrow_internal (lit "重命名失败: ")).

(** [copyItem(sourcePath, targetPath, options)] *)
Definition copyItem (sourcePath targetPath : jsstring) (options : Options.t)
  : M CopyResult :=
  try_catch
    (response <- copy webdavClient sourcePath targetPath
                      (Options.overwrite_not_false options)
                      (Options.depth_or_infinity options) ;;
     if negb (ok response) then
       if status response =? 404
       then throw (HTTPException NOT_FOUND (lit "源文件不存在: " ++ sourcePath))
       else if status response =? 409
       then throw (HTTPException CONFLICT (lit "目标路径已存在: " ++ targetPath))
       else throw (HTTPException INTERNAL_ERROR
                     (lit "复制失败: " ++ statusText response))
     else ret {| copy_success := true; copy_message := lit "复制成功";
                 copy_sourcePath := sourcePath; copy_targetPath := targetPath |})
    (rethrow_internal (lit "复制失败: ")).

(** [options.contentType || 'text/plain'] *)
Definition contentType_or_text_plain (options : Options.t) : jsstring :=
  match Options.contentType options with
  | Some ct => or_else ct (lit "text/plain")
  | None => lit "text/plain"
  end.

(** [updateFile(path, content, options)] *)
Definition updateFile (path : jsstring) (content : payload) (options : Options.t)
  : M UpdateResult :=
  try_catch
    (response <- put webdavClient path content
                     [(lit "Content-Type", contentType_or_text_plain options)] ;;
     if negb (ok response) then
       throw (HTTPException INTERNAL_ERROR
                (lit "更新文件失败: " ++ statusText response))
     else ret {| update_success := true; update_message := lit "文件更新成功";
                 update_path := path; update_size := content_length content |})
    (rethrow_internal (lit "更新文件失败: ")).

(** [exists(path, options)] *)
Definition exists_ (path : jsstring) : M bool :=
  try_catch
    (response <- head webdavClient path ;; ret (ok response))
    (fun _ => ret false).

End Ops.

End WebDAVFileOperations.

(* ================================================================== *)
(** ** operations/WebDAVDirectoryOperations.js *)
(* ================================================================== *)

Module WebDAVDirectoryOperations.

(** The names of [FILE_TYPES] (constants/index.js). *)
Inductive FILE_TYPES : Type :=
  | FOLDER | IMAGE | VIDEO | AUDIO | TEXT | OFFICE | DOCUMENT | UNKNOWN.

(** A formatted directory entry: the fields that depend on the item (the
    remaining ones, [sign], [thumb], [raw_url] and so on, are constants). *)
Record Entry : Type := {
  entry_name : jsstring;
  entry_size : number;
  is_dir : bool;
  modified : jsstring;
  created : jsstring;
  entry_type : FILE_TYPES
}.

Record Listing : Type := {
  content : list Entry;
  listing_write : bool;
  provider : jsstring
}.

Record MkdirResult : Type := {
  mkdir_success : bool;
  mkdir_message : jsstring;
  mkdir_path : jsstring;
  mkdir_type : jsstring
}.

Definition DOT : Z := 46.

Definition one_of (exts : list string) (e : jsstring) : bool :=
  existsb (fun x => str_eqb (lit x) e) exts.

(** [item.href || item.path] with [undefined] read as falsy. *)
Definition href_or_path (item : Item) : jsstring :=
  or_else (Options.string_or_empty (href item))
          (Options.string_or_empty (path item)).

(** [item.isDirectory] as the argument of a parameter that defaults to
    [false]. *)
Definition isDirectory_flag (item : Item) : bool :=
  match isDirectory item with
  | Some b => b
  | None => false
  end.

(** The path the filter of [listDirectory] compares for an item. *)
Definition itemPath (item : Item) : jsstring :=
  normalizeWebDAVPath (href_or_path item) (isDirectory_flag item).

Section Ops.

(** [String.prototype.toLowerCase] of the host: the case mappings of the
    Unicode Character Database. *)
Variable toLowerCase : jsstring -> jsstring.
Variable toISOString : jsstring -> option jsstring.
Variable nowISOString : jsstring.
Variable webdavClient : Client.

(** [_getFileType(name, isDirectory)] *)
Definition _getFileType (name : jsstring) (isDirectory : bool) : FILE_TYPES :=
  if isDirectory then FOLDER
  else
    let extension := last (split DOT (toLowerCase name)) [] in
    if one_of ["jpg"; "jpeg"; "png"; "gif"; "bmp"; "webp"; "svg"]%string extension
    then IMAGE
    else if one_of ["mp4"; "avi"; "mkv"; "mov"; "wmv"; "flv"; "webm"]%string extension
    then VIDEO
    else if one_of ["mp3"; "wav"; "flac"; "aac"; "ogg"; "wma"]%string extension
    then AUDIO
    else if one_of ["txt"; "md"; "json"; "xml"; "html"; "css"; "js"; "py";
                    "java"; "cpp"; "c"]%string extension
    then TEXT
    else if one_of ["doc"; "docx"; "xls"; "xlsx"; "ppt"; "pptx"]%string extension
    then OFFICE
    else if one_of ["pdf"; "rtf"; "odt"; "ods"; "odp"]%string extension
    then DOCUMENT
    else UNKNOWN.

(** [_formatDirectoryItem(item, parentPath)] *)
Definition _formatDirectoryItem (item : Item) (parentPath : jsstring) : Entry :=
  let name' :=
    or_else (Options.string_or_empty (name item))
            (last_segment (href_or_path item)) in
  let isDirectory' := isDirectory_flag item in
  let lastModified' :=
    or_else (Options.string_or_empty (lastModified item)) nowISOString in
  {| entry_name := name';
     entry_size := WebDAVFileOperations.size_or_zero (size item);
     is_dir := isDirectory';
     modified := lastModified';
     created := lastModified';
     entry_type := _getFileType name' isDirectory' |}.

(** The filter of [listDirectory]: the items whose path differs from the
    path of the listed directory. *)
Definition childItems (path : jsstring) (items : list Item) : list Item :=
  List.filter
    (fun item =>
       let currentPath := normalizeWebDAVPath path true in
       negb (str_eqb (itemPath item) currentPath))
    items.

(** [listDirectory(path, options)] *)
Definition listDirectory (path : jsstring) : M Listing :=
  try_catch
    (response <- propfind webdavClient path 1 ;;
     if negb (ok response) then
       if status response =? 404
       then throw (HTTPException NOT_FOUND (lit "目录不存在: " ++ path))
       else throw (HTTPException INTERNAL_ERROR
                     (lit "列出目录失败: " ++ statusText response))
     else
       let items :=
         parseWebDAVResponse toISOString nowISOString (responseText response) in
       match items with
       | [] => ret {| content := []; listing_write := true; provider := lit "WebDAV" |}
       | _ =>
           ret {| content := List.map (fun item => _formatDirectoryItem item path)
                                      (childItems path items);
                  listing_write := true; provider := lit "WebDAV" |}
       end)
    (rethrow_internal (lit "列出目录失败: ")).

(** [createDirectory(path, options)] *)
Definition createDirectory (path : jsstring) : M MkdirResult :=
  try_catch
    (response <- mkcol webdavClient path ;;
     if negb (ok response) then
       if status response =? 405
       then throw (HTTPException CONFLICT (lit "目录已存在: " ++ path))
       else if status response =? 409
       then throw (HTTPException CONFLICT (lit "父目录不存在: " ++ path))
       else throw (HTTPException INTERNAL_ERROR
                     (lit "创建目录失败: " ++ statusText response))
     else ret {| mkdir_success := true; mkdir_message := lit "目录创建成功";
                 mkdir_path := path; mkdir_type := lit "directory" |})
    (rethrow_internal (lit "创建目录失败: ")).

End Ops.

End WebDAVDirectoryOperations.

(* ================================================================== *)
(** ** operations/WebDAVUploadOperations.js *)
(* ================================================================== *)

Module WebDAVUploadOperations.

(** The [file] argument by the tests [uploadFile] applies to it. *)
Inductive FileInput : Type :=
  | AFile (data : list Z) (type : jsstring) (name : jsstring)
      (** [file instanceof File]; [file.size] is the length of the data *)
  | AnArrayBuffer (bytes : list Z)
  | ABuffer (bytes : list Z)
  | AString (text : jsstring)
  | Unsupported.

Record UploadResult : Type := {
  upload_success : bool;
  upload_message : jsstring;
  upload_path : jsstring;
  fileName : jsstring;
  upload_size : Z;
  upload_contentType : jsstring;
  upload_etag : option jsstring;
  upload_lastModified : jsstring
}.

Definition ascii_lower (s : jsstring) : jsstring :=
  List.map (fun c => if (65 <=? c) && (c <=? 90) then c + 32 else c) s.

(** [response.headers.get(name)]: header names compare without case. *)
Fixpoint headers_get (name : jsstring) (h : Http.headers) : option jsstring :=
  match h with
  | [] => None
  | (k, v) :: h' =>
      if str_eqb (ascii_lower k) (ascii_lower name) then Some v
      else headers_get name h'
  end.

(** The first part of [uploadFile]: data, content type, file name and size
    by the kind of input; [None] for the input that makes it throw. *)
Definition inspect (path : jsstring) (file : FileInput)
  : option (payload * jsstring * jsstring * Z) :=
  let contentType := lit "application/octet-stream" in
  let fileName := last (split SLASH path) [] in
  match file with
  | AFile data type name =>
      Some (ArrayBuffer data, or_else type contentType, or_else name fileName,
            Z.of_nat (List.length data))
  | AnArrayBuffer bytes =>
      Some (ArrayBuffer bytes, contentType, fileName, Z.of_nat (List.length bytes))
  | ABuffer bytes =>
      Some (Octets bytes, contentType, fileName, Z.of_nat (List.length bytes))
  | AString text =>
      let fileData := utf8_encode text in
      Some (Octets fileData, lit "text/plain", fileName,
            Z.of_nat (List.length fileData))
  | Unsupported => None
  end.

(** The headers object handed to [put]. *)
Definition upload_headers (contentType : jsstring) (fileSize : Z)
           (options : Options.t) : Http.headers :=
  let headers := [(lit "Content-Type", contentType);
                  (lit "Content-Length", toString fileSize)] in
  match Options.headers options with
  | Some custom => assign headers custom
  | None => headers
  end.

(** What [checkUploadConditions] returns; a field that is absent is
    [None]. *)
Record UploadCheck : Type := {
  canUpload : bool;
  check_reason : option jsstring;
  fileExists : bool;
  check_message : option jsstring
}.

(** [{...options, contentType: value}] *)
Definition with_contentType (options : Options.t) (value : jsstring) : Options.t :=
  {| Options.subPath := Options.subPath options;
     Options.db := Options.db options;
     Options.mount := Options.mount options;
     Options.overwrite := Options.overwrite options;
     Options.depth := Options.depth options;
     Options.contentType := Some value;
     Options.headers := Options.headers options |}.

(** [options.contentType || fallback] *)
Definition contentType_or (options : Options.t) (fallback : jsstring) : jsstring :=
  match Options.contentType options with
  | Some ct => or_else ct fallback
  | None => fallback
  end.

(** [if (options.contentType) contentType = options.contentType] *)
Definition chosen_contentType (inferred : jsstring) (options : Options.t) : jsstring :=
  match Options.contentType options with
  | Some ct => if falsy ct then inferred else ct
  | None => inferred
  end.

Section Ops.

Variable nowISOString : jsstring.
Variable webdavClient : Client.

(** [uploadFile(path, file, options)] *)
Definition uploadFile (path : jsstring) (file : FileInput) (options : Options.t)
  : M UploadResult :=
  try_catch
    (match inspect path file with
     | None => throw (Error (lit "Error") (lit "不支持的文件类型"))
     | Some (fileData, inferred, fileName', fileSize) =>
         let contentType := chosen_contentType inferred options in
         let headers := upload_headers contentType fileSize options in
         response <- put webdavClient path fileData headers ;;
         if negb (ok response) then
           if status response =? 409
           then throw (HTTPException CONFLICT (lit "父目录不存在或路径冲突: " ++ path))
           else if status response =? 507
           then throw (HTTPException INTERNAL_ERROR (lit "存储空间不足"))
           else throw (HTTPException INTERNAL_ERROR
                         (lit "上传文件失败: " ++ statusText response))
         else
           let etag := headers_get (lit "ETag") (responseHeaders response) in
           ret {| upload_success := true;
                  upload_message := lit "文件上传成功";
                  upload_path := path;
                  fileName := fileName';
                  upload_size := fileSize;
                  upload_contentType := contentType;
                  upload_etag := match etag with
                                 | Some e => if falsy e then None else Some e
                                 | None => None
                                 end;
                  upload_lastModified := nowISOString |}
     end)
    (rethrow_internal (lit "上传文件失败: ")).

(** [uploadTextContent(path, content, options)] *)
Definition uploadTextContent (path : jsstring) (content : FileInput)
           (options : Options.t) : M UploadResult :=
  let textOptions :=
    with_contentType options
      (contentType_or options (lit "text/plain; charset=utf-8")) in
  uploadFile path content textOptions.

(** [uploadJsonData(path, data, options)].  [JSON.stringify(data, null, 2)]
    is the host's: it gives a text, or [undefined] ([None]) for a value
    that has no JSON form, or throws. *)
Definition uploadJsonData {Data : Type}
           (stringify : Data -> option jsstring + exn)
           (path : jsstring) (data : Data) (options : Options.t) : M UploadResult :=
  match stringify data with
  | inr e => throw e
  | inl jsonContent =>
      let jsonOptions :=
        with_contentType options (lit "application/json; charset=utf-8") in
      uploadFile path
        (match jsonContent with
         | Some text => AString text
         | None => Unsupported
         end)
        jsonOptions
  end.

(** [checkUploadConditions(path, options)] *)
Definition checkUploadConditions (path : jsstring) (options : Options.t)
  : M UploadCheck :=
  try_catch
    (existsResponse <- head webdavClient path ;;
     let fileExists' := ok existsResponse in
     if fileExists' && negb (Options.overwrite_not_false options) then
       ret {| canUpload := false;
              check_reason := Some (lit "文件已存在且不允许覆盖");
              fileExists := true;
              check_message := None |}
     else
       ret {| canUpload := true;
              check_reason := None;
              fileExists := fileExists';
              check_message :=
                Some (if fileExists' then lit "文件将被覆盖" else lit "可以上传") |})
    (fun _ =>
       ret {| canUpload := true;
              check_reason := None;
              fileExists := false;
              check_message := Some (lit "无法检查文件状态，但可以尝试上传") |}).

End Ops.

End WebDAVUploadOperations.

(* ================================================================== *)
(** ** operations/WebDAVBatchOperations.js *)
(* ================================================================== *)

Module WebDAVBatchOperations.

(** An entry of [results] or [errors] of a batch removal. *)
Record RemoveOutcome : Type := {
  removed_path : jsstring;
  removed_success : bool;
  removed_message : jsstring;
  removed_status : option Z
}.

(** The items of a batch copy or move. *)
Record TransferItem : Type := { sourcePath : jsstring; targetPath : jsstring }.

(** An entry of [results] or [errors] of a batch copy or move. *)
Record TransferOutcome : Type := {
  transfer_sourcePath : jsstring;
  transfer_targetPath : jsstring;
  transfer_success : bool;
  transfer_message : jsstring;
  transfer_status : option Z
}.

Record BatchResult (Outcome : Type) : Type := {
  success : bool;
  message : jsstring;
  results : list Outcome;
  errors : list Outcome;
  total : Z;
  successCount : Z;
  errorCount : Z
}.

Arguments success {Outcome}.
Arguments message {Outcome}.
Arguments results {Outcome}.
Arguments errors {Outcome}.
Arguments total {Outcome}.
Arguments successCount {Outcome}.
Arguments errorCount {Outcome}.

(** The object returned after the loop. *)
Definition summary {Outcome N : Type} (what : jsstring) (input : list N)
           (results errors : list Outcome) : BatchResult Outcome :=
  let successCount := Z.of_nat (List.length results) in
  let errorCount := Z.of_nat (List.length errors) in
  {| success := errorCount =? 0;
     message := what ++ lit "完成: 成功 " ++ toString successCount ++
                lit " 个，失败 " ++ toString errorCount ++ lit " 个";
     results := results;
     errors := errors;
     total := Z.of_nat (List.length input);
     successCount := successCount;
     errorCount := errorCount |}.

Section Ops.

Variable webdavClient : Client.

(** One iteration of the loop of [batchRemoveItems]: [inl] is pushed on
    [results], [inr] on [errors]. *)
Definition remove_one (path : jsstring) : M (RemoveOutcome + RemoveOutcome) :=
  try_catch
    (response <- delete webdavClient path ;;
     if ok response then
       ret (inl {| removed_path := path; removed_success := true;
                   removed_message := lit "删除成功"; removed_status := None |})
     else
       let errorMessage :=
         if status response =? 404 then lit "文件不存在"
         else lit "删除失败: " ++ statusText response in
       ret (inr {| removed_path := path; removed_success := false;
                   removed_message := errorMessage;
                   removed_status := Some (status response) |}))
    (fun error =>
       ret (inr {| removed_path := path; removed_success := false;
                   removed_message := lit "删除失败: " ++ message_of error;
                   removed_status := None |})).

(** The [for (const item of items)] loop with its two arrays. *)
Fixpoint batch_loop {I O : Type} (one : I -> M (O + O)) (items : list I)
         (results errors : list O) : M (list O * list O) :=
  match items with
  | [] => ret (results, errors)
  | item :: rest =>
      outcome <- one item ;;
      match outcome with
      | inl r => batch_loop one rest (results ++ [r]) errors
      | inr e => batch_loop one rest results (errors ++ [e])
      end
  end.

(** [batchRemoveItems(paths, options)] *)
Definition batchRemoveItems (paths : list jsstring) : M (BatchResult RemoveOutcome) :=
  arrays <- batch_loop remove_one paths [] [] ;;
  ret (summary (lit "批量删除") paths (fst arrays) (snd arrays)).

Definition transfer_failure (verb : jsstring) (response : Response) : jsstring :=
  if status response =? 404 then lit "源文件不存在"
  else if status response =? 409 then lit "目标路径已存在"
  else verb ++ lit "失败: " ++ statusText response.

(** One iteration of the loop of [batchCopyItems]. *)
Definition copy_one (options : Options.t) (item : TransferItem)
  : M (TransferOutcome + TransferOutcome) :=
  try_catch
    (response <- copy webdavClient (sourcePath item) (targetPath item)
                      (Options.overwrite_not_false options)
                      (Options.depth_or_infinity options) ;;
     if ok response then
       ret (inl {| transfer_sourcePath := sourcePath item;
                   transfer_targetPath := targetPath item;
                   transfer_success := true;
                   transfer_message := lit "复制成功";
                   transfer_status := None |})
     else
       ret (inr {| transfer_sourcePath := sourcePath item;
                   transfer_targetPath := targetPath item;
                   transfer_success := false;
                   transfer_message := transfer_failure (lit "复制") response;
                   transfer_status := Some (status response) |}))
    (fun error =>
       ret (inr {| transfer_sourcePath := sourcePath item;
                   transfer_targetPath := targetPath item;
                   transfer_success := false;
                   transfer_message := lit "复制失败: " ++ message_of error;
                   transfer_status := None |})).

(** [batchCopyItems(items, options)] *)
Definition batchCopyItems (items : list TransferItem) (options : Options.t)
  : M (BatchResult TransferOutcome) :=
  arrays <- batch_loop (copy_one options) items [] [] ;;
  ret (summary (lit "批量复制") items (fst arrays) (snd arrays)).

(** One iteration of the loop of [batchMoveItems]. *)
Definition move_one (options : Options.t) (item : TransferItem)
  : M (TransferOutcome + TransferOutcome) :=
  try_catch
    (response <- move webdavClient (sourcePath item) (targetPath item)
                      (Options.overwrite_not_false options) ;;
     if ok response then
       ret (inl {| transfer_sourcePath := sourcePath item;
                   transfer_targetPath := targetPath item;
                   transfer_success := true;
                   transfer_message := lit "移动成功";
                   transfer_status := None |})
     else
       ret (inr {| transfer_sourcePath := sourcePath item;
                   transfer_targetPath := targetPath item;
                   transfer_success := false;
                   transfer_message := transfer_failure (lit "移动") response;
                   transfer_status := Some (status response) |}))
    (fun error =>
       ret (inr {| transfer_sourcePath := sourcePath item;
                   transfer_targetPath := targetPath item;
                   transfer_success := false;
                   transfer_message := lit "移动失败: " ++ message_of error;
                   transfer_status := None |})).

(** [batchMoveItems(items, options)] *)
Definition batchMoveItems (items : list TransferItem) (options : Options.t)
  : M (BatchResult TransferOutcome) :=
  arrays <- batch_loop (move_one options) items [] [] ;;
  ret (summary (lit "批量移动") items (fst arrays) (snd arrays)).

End Ops.

End WebDAVBatchOperations.

(* ================================================================== *)
(** ** WebDAVStorageDriver.js: the facade *)
(* ================================================================== *)

Module WebDAVStorageDriver.

(** The names of [CAPABILITIES] (interfaces/capabilities/index.js). *)
Inductive CAPABILITIES : Type := READER | WRITER | ATOMIC.

(** The fields of a driver instance.  The four operation modules are
    created together with the client and hold nothing else, so they are
    present exactly when [webdavClient] is. *)
Record Driver : Type := {
  config : Config;
  encryptionSecret : jsstring;
  webdavClient : option Client;
  initialized : bool
}.

Record Stats : Type := {
  stats_type : jsstring;
  stats_name : jsstring;
  stats_url : jsstring;
  stats_capabilities : list CAPABILITIES;
  stats_initialized : bool
}.

(** What the methods of the facade return. *)
Inductive value : Type :=
  | Undefined
  | OfListing (l : WebDAVDirectoryOperations.Listing)
  | OfResponse (r : Response)
  | OfFileInfo (i : WebDAVFileOperations.FileInfo)
  | OfUpload (u : WebDAVUploadOperations.UploadResult)
  | OfMkdir (m : WebDAVDirectoryOperations.MkdirResult)
  | OfRename (r : WebDAVFileOperations.RenameResult)
  | OfCopy (c : WebDAVFileOperations.CopyResult)
  | OfBatchRemove (b : WebDAVBatchOperations.BatchResult WebDAVBatchOperations.RemoveOutcome)
  | OfBatchCopy (b : WebDAVBatchOperations.BatchResult WebDAVBatchOperations.TransferOutcome)
  | OfUpdate (u : WebDAVFileOperations.UpdateResult)
  | OfBoolean (b : bool)
  | OfStats (s : Stats).

(** A call of a method of the facade with its arguments. *)
Module Method.

Inductive call : Type :=
  | initialize
  | listDirectory (path : jsstring) (options : Options.t)
  | list (path : jsstring) (options : Options.t)
  | get (path : jsstring) (options : Options.t)
  | getInfo (path : jsstring) (options : Options.t)
  | getFileInfo (path : jsstring) (options : Options.t)
  | downloadFile (path : jsstring) (options : Options.t)
  | uploadFile (path : jsstring) (file : WebDAVUploadOperations.FileInput)
               (options : Options.t)
  | put (path : jsstring) (data : WebDAVUploadOperations.FileInput)
        (options : Options.t)
  | mkdir (path : jsstring) (options : Options.t)
  | createDirectory (path : jsstring) (options : Options.t)
  | renameItem (oldPath newPath : jsstring) (options : Options.t)
  | rename (sourcePath targetPath : jsstring) (options : Options.t)
  | move (sourcePath targetPath : jsstring) (options : Options.t)
  | copy (sourcePath targetPath : jsstring) (options : Options.t)
  | batchRemoveItems (paths : list jsstring) (options : Options.t)
  | copyItem (sourcePath targetPath : jsstring) (options : Options.t)
  | batchCopyItems (items : list WebDAVBatchOperations.TransferItem)
                   (options : Options.t)
  | generatePresignedUrl (path : jsstring) (options : Options.t)
  | updateFile (path : jsstring) (content : payload) (options : Options.t)
  | handleCrossStorageCopy (sourcePath targetPath : jsstring) (options : Options.t)
  | exists_ (path : jsstring) (options : Options.t)
  | getStats
  | stat (path : jsstring) (options : Options.t)
  | abortBackendMultipartUpload (path : jsstring) (options : Options.t).

End Method.


Section Host.

(** Host and collaborators outside the driver: [btoa], [decryptValue]
    (utils/crypto.js), [updateMountLastUsed] (fs/utils/MountResolver.js),
    [String.prototype.toLowerCase], the date parser and the clock. *)
Variable btoa : jsstring -> jsstring + exn.
Variable decryptValue : jsstring -> jsstring -> M jsstring.
Variable updateMountLastUsed : jsstring -> M unit.
Variable toLowerCase : jsstring -> jsstring.
Variable toISOString : jsstring -> option jsstring.
Variable nowISOString : jsstring.

(** [_ensureInitialized()] *)
Definition _ensureInitialized (this : Driver) : M unit :=
  if negb (initialized this)
  then throw (HTTPException INTERNAL_ERROR (lit "WebDAV存储驱动未初始化"))
  else ret tt.

(** A method call on an operation module: a TypeError while the module is
    still [null]. *)
Definition module {A} (this : Driver) (k : Client -> M A) : M A :=
  match webdavClient this with
  | Some c => k c
  | None => throw (Error (lit "TypeError")
                         (lit "Cannot read properties of null"))
  end.

(** [if (db && mount.id) await updateMountLastUsed(db, mount.id)] *)
Definition touch_mount (options : Options.t) : M unit :=
  if Options.db options then
    match Options.mount options with
    | None => throw (Error (lit "TypeError")
                           (lit "Cannot read properties of undefined"))
    | Some m =>
        match Options.mount_id m with
        | Some id => if falsy id then ret tt else updateMountLastUsed id
        | None => ret tt
        end
    end
  else ret tt.

Definition subPath_of (options : Options.t) : jsstring :=
  Options.string_or_empty (Options.subPath options).

Definition do_listDirectory (this : Driver) (options : Options.t) : M value :=
  _ <- _ensureInitialized this ;;
  let webdavPath := normalizeWebDAVPath (subPath_of options) true in
  _ <- touch_mount options ;;
  l <- module this (fun c =>
         WebDAVDirectoryOperations.listDirectory toLowerCase toISOString nowISOString
           c webdavPath) ;;
  ret (OfListing l).

Definition do_getFileInfo (this : Driver) (options : Options.t) : M value :=
  _ <- _ensureInitialized this ;;
  let webdavPath := normalizeWebDAVPath (subPath_of options) false in
  i <- module this (fun c =>
         WebDAVFileOperations.getFileInfo toISOString nowISOString c webdavPath) ;;
  ret (OfFileInfo i).

Definition do_downloadFile (this : Driver) (options : Options.t) : M value :=
  _ <- _ensureInitialized this ;;
  let webdavPath := normalizeWebDAVPath (subPath_of options) false in
  r <- module this (fun c => WebDAVFileOperations.downloadFile c webdavPath) ;;
  ret (OfResponse r).

Definition do_uploadFile (this : Driver) (file : WebDAVUploadOperations.FileInput)
           (options : Options.t) : M value :=
  _ <- _ensureInitialized this ;;
  let webdavPath := normalizeWebDAVPath (subPath_of options) false in
  u <- module this (fun c =>
         WebDAVUploadOperations.uploadFile nowISOString c webdavPath file options) ;;
  ret (OfUpload u).

Definition do_createDirectory (this : Driver) (options : Options.t) : M value :=
  _ <- _ensureInitialized this ;;
  let webdavPath := normalizeWebDAVPath (subPath_of options) true in
  m <- module this (fun c => WebDAVDirectoryOperations.createDirectory c webdavPath) ;;
  ret (OfMkdir m).

Definition do_renameItem (this : Driver) (oldPath newPath : jsstring)
           (options : Options.t) : M value :=
  _ <- _ensureInitialized this ;;
  let oldWebdavPath := normalizeWebDAVPath oldPath false in
  let newWebdavPath := normalizeWebDAVPath newPath false in
  r <- module this (fun c =>
         WebDAVFileOperations.renameItem c oldWebdavPath newWebdavPath options) ;;
  ret (OfRename r).

Definition do_copyItem (this : Driver) (sourcePath targetPath : jsstring)
           (options : Options.t) : M value :=
  _ <- _ensureInitialized this ;;
  let sourceWebdavPath := normalizeWebDAVPath sourcePath false in
  let targetWebdavPath := normalizeWebDAVPath targetPath false in
  r <- module this (fun c =>
         WebDAVFileOperations.copyItem c sourceWebdavPath targetWebdavPath options) ;;
  ret (OfCopy r).

Definition do_batchRemoveItems (this : Driver) (paths : list jsstring) : M value :=
  _ <- _ensureInitialized this ;;
  let webdavPaths := List.map (fun path => normalizeWebDAVPath path false) paths in
  b <- module this (fun c => WebDAVBatchOperations.batchRemoveItems c webdavPaths) ;;
  ret (OfBatchRemove b).

Definition do_batchCopyItems (this : Driver)
           (items : list WebDAVBatchOperations.TransferItem) (options : Options.t)
  : M value :=
  _ <- _ensureInitialized this ;;
  let webdavItems :=
    List.map (fun item =>
                {| WebDAVBatchOperations.sourcePath :=
                     normalizeWebDAVPath (WebDAVBatchOperations.sourcePath item) false;
                   WebDAVBatchOperations.targetPath :=
                     normalizeWebDAVPath (WebDAVBatchOperations.targetPath item) false |})
             items in
  b <- module this (fun c => WebDAVBatchOperations.batchCopyItems c webdavItems options) ;;
  ret (OfBatchCopy b).

Definition do_updateFile (this : Driver) (path : jsstring) (content : payload)
           (options : Options.t) : M value :=
  _ <- _ensureInitialized this ;;
  let webdavPath := normalizeWebDAVPath path false in
  u <- module this (fun c =>
         WebDAVFileOperations.updateFile c webdavPath content options) ;;
  ret (OfUpdate u).

Definition do_exists (this : Driver) (path : jsstring) : M value :=
  _ <- _ensureInitialized this ;;
  let webdavPath := normalizeWebDAVPath path false in
  b <- module this (fun c => WebDAVFileOperations.exists_ c webdavPath) ;;
  ret (OfBoolean b).

Definition do_getStats (this : Driver) : M value :=
  _ <- _ensureInitialized this ;;
  ret (OfStats {| stats_type := lit "WebDAV";
                  stats_name := config_name (config this);
                  stats_url := config_url (config this);
                  stats_capabilities := [READER; WRITER; ATOMIC];
                  stats_initialized := initialized this |}).

(** [initialize()]: the instance after the call. *)
Definition do_initialize (this : Driver) (w : World)
  : (value + exn) * Driver * World :=
  match createWebDAVClient btoa decryptValue (config this) (encryptionSecret this) w with
  | (inl client, w') =>
      (inl Undefined,
       {| config := config this; encryptionSecret := encryptionSecret this;
          webdavClient := Some client; initialized := true |},
       w')
  | (inr error, w') =>
      (inr (HTTPException INTERNAL_ERROR
              (lit "WebDAV存储驱动初始化失败: " ++ message_of error)),
       this, w')
  end.

(** The methods other than [initialize] assign no field of the instance. *)
Definition method (c : Method.call) (this : Driver) : M value :=
  match c with
  | Method.initialize => ret Undefined
  | Method.listDirectory _ options | Method.list _ options => do_listDirectory this options
  | Method.get _ options | Method.downloadFile _ options => do_downloadFile this options
  | Method.getInfo _ options | Method.getFileInfo _ options | Method.stat _ options =>
      do_getFileInfo this options
  | Method.uploadFile _ file options | Method.put _ file options => do_uploadFile this file options
  | Method.mkdir _ options | Method.createDirectory _ options => do_createDirectory this options
  | Method.renameItem a b options | Method.rename a b options | Method.move a b options =>
      do_renameItem this a b options
  | Method.copy a b options | Method.copyItem a b options => do_copyItem this a b options
  | Method.batchRemoveItems paths _ => do_batchRemoveItems this paths
  | Method.batchCopyItems items options => do_batchCopyItems this items options
  | Method.generatePresignedUrl _ _ =>
      throw (HTTPException BAD_REQUEST (lit "WebDAV存储不支持预签名URL功能"))
  | Method.updateFile path content options => do_updateFile this path content options
  | Method.handleCrossStorageCopy _ _ _ =>
      throw (HTTPException BAD_REQUEST (lit "WebDAV存储不支持跨存储复制功能"))
  | Method.exists_ path _ => do_exists this path
  | Method.getStats => do_getStats this
  | Method.abortBackendMultipartUpload _ _ =>
      throw (HTTPException BAD_REQUEST (lit "WebDAV存储不支持分片上传功能"))
  end.

(** A call on an instance: the outcome, the instance and the world after
    it. *)
Definition invoke (c : Method.call) (this : Driver) (w : World)
  : (value + exn) * Driver * World :=
  match c with
  | Method.initialize => do_initialize this w
  | _ => let (outcome, w') := method c this w in (outcome, this, w')
  end.

(** A sequence of calls on one instance, whatever their outcomes. *)
Fixpoint lifetime (calls : list Method.call) (this : Driver) (w : World) : Driver * World :=
  match calls with
  | [] => (this, w)
  | c :: rest =>
      match invoke c this w with
      | (_, this', w') => lifetime rest this' w'
      end
  end.

End Host.

End WebDAVStorageDriver.

(* ================================================================== *)
(** ** services/webdavConfigService.js: the connection diagnostic *)
(* ================================================================== *)

Module webdavConfigService.

(** The stored configuration (the fields the diagnostic reads); a
    time-out is absent ([null]) or a Number that holds an integer. *)
Record StoredConfig : Type := {
  server_url : jsstring;
  default_folder : option jsstring;
  connection_timeout : option Z;
  read_timeout : option Z
}.

(** The result object of one stage; a field never assigned is [None]. *)
Record Stage : Type := {
  success : bool;
  error : option jsstring;
  note : jsstring;
  statusCode : option Z;
  fileCount : option Z;
  uploadTime : option Z;
  testFile : option jsstring;
  cleaned : option bool;
  cleanupError : option jsstring
}.

Record ConnectionInfo : Type := {
  serverUrl : jsstring;
  info_username : jsstring;
  defaultFolder : jsstring;
  connectionTimeout : jsstring;
  readTimeout : jsstring
}.

Record TestResult : Type := {
  connect : Stage;
  auth : Stage;
  read : Stage;
  write : Stage;
  connectionInfo : ConnectionInfo
}.

Record Summary : Type := { overallSuccess : bool; summary_message : jsstring }.

Record Report : Type := {
  report_success : bool;
  report_message : jsstring;
  result : TestResult
}.

Definition fresh_stage (note : jsstring) : Stage :=
  {| success := false; error := None; note := note; statusCode := None;
     fileCount := None; uploadTime := None; testFile := None; cleaned := None;
     cleanupError := None |}.

(** [generateWebDAVTestSummary(testResult)] *)
Definition generateWebDAVTestSummary (testResult : TestResult) : Summary :=
  let message := lit "WebDAV配置测试" in
  let connectSuccess := success (connect testResult) in
  let authSuccess := success (auth testResult) in
  let readSuccess := success (read testResult) in
  let writeSuccess := success (write testResult) in
  let overallSuccess := connectSuccess && authSuccess && readSuccess in
  let message :=
    if connectSuccess then
      if authSuccess then
        if readSuccess then
          if writeSuccess then
            message ++ lit "成功 (连接、认证、读写权限均可用)"
          else
            message ++ lit "部分成功 (连接、认证、读取权限可用，写入权限不可用)"
        else message ++ lit "部分成功 (连接、认证成功，但读取权限不可用)"
      else message ++ lit "失败 (连接成功但认证失败)"
    else message ++ lit "失败 (无法连接到WebDAV服务器)" in
  {| overallSuccess := overallSuccess; summary_message := message |}.

(** [(text.match(re) || []).length] for the global, case-sensitive regex of
    the literal [<D:response>]. *)
Fixpoint count_response_tags (text : jsstring) : Z :=
  match text with
  | [] => 0
  | _ :: rest =>
      if startsWith text (lit "<D:response>")
      then 1 + count_response_tags rest
      else count_response_tags rest
  end.

Section Host.

Variable btoa : jsstring -> jsstring + exn.
(** [AbortSignal.timeout(delay)] of the host: a signal, or the exception
    thrown for a delay that is not accepted (a negative one, one out of
    range). *)
Variable AbortSignal_timeout : number -> unit + exn.
Variable nowISOString : jsstring.
(** [Date.now()] and the difference of the two [performance.now()]. *)
Variable timestamp : Z.
Variable elapsed : Z.
(** The update of the last-used time through the repository. *)
Variable updateWebDAVLastUsedTime : M unit.

Definition serverUrl_of (config : StoredConfig) : jsstring :=
  if endsWith (server_url config) [SLASH] then slice_0_m1 (server_url config)
  else server_url config.

Definition defaultFolder_of (config : StoredConfig) : jsstring :=
  Options.string_or_empty (default_folder config).

(** The path of the auth and read stages. *)
Definition testPath_of (config : StoredConfig) : jsstring :=
  let defaultFolder := defaultFolder_of config in
  if falsy defaultFolder then [SLASH]
  else if startsWith defaultFolder [SLASH] then defaultFolder
  else SLASH :: defaultFolder.

(** [configured || fallback] for a time-out. *)
Definition or_seconds (configured : option Z) (fallback : Z) : Z :=
  match configured with
  | Some n => if n =? 0 then fallback else n
  | None => fallback
  end.

(** [AbortSignal.timeout((configured || fallback) * 1000)] *)
Definition signal (configured : option Z) (fallback : Z) : M unit :=
  match AbortSignal_timeout (Number_of (or_seconds configured fallback * 1000)) with
  | inl _ => ret tt
  | inr e => throw e
  end.

(** The [Authorization] header; [btoa] may throw. *)
Definition basic (username password : jsstring) : M Http.headers :=
  match btoa (username ++ lit ":" ++ password) with
  | inl credentials => ret [(lit "Authorization", lit "Basic " ++ credentials)]
  | inr e => throw e
  end.

Definition http_error (response : Response) : jsstring :=
  lit "HTTP " ++ toString (status response) ++ lit ": " ++ statusText response.

(** [executeWebDAVConnectTest]: the [connect] stage after the call. *)
Definition executeWebDAVConnectTest (stage : Stage) (config : StoredConfig)
           (username password : jsstring) : M Stage :=
  try_catch
    (let testUrl := serverUrl_of config ++ [SLASH] in
     authorization <- basic username password ;;
     _ <- signal (connection_timeout config) 30 ;;
     response <- fetch {| method := lit "OPTIONS"; url := testUrl;
                          requestHeaders := authorization; body := None |} ;;
     if ok response || (status response =? 401) then
       ret {| success := true; error := error stage;
              note := lit "WebDAV服务器连接成功";
              statusCode := Some (status response);
              fileCount := fileCount stage; uploadTime := uploadTime stage;
              testFile := testFile stage; cleaned := cleaned stage;
              cleanupError := cleanupError stage |}
     else
       ret {| success := false; error := Some (http_error response);
              note := note stage;
              statusCode := Some (status response);
              fileCount := fileCount stage; uploadTime := uploadTime stage;
              testFile := testFile stage; cleaned := cleaned stage;
              cleanupError := cleanupError stage |})
    (fun e =>
       ret {| success := false; error := Some (message_of e);
              note := match e with
                      | Error name _ =>
                          if str_eqb name (lit "TimeoutError")
                          then lit "连接超时，请检查服务器地址和网络连接"
                          else note stage
                      | HTTPException _ _ => note stage
                      end;
              statusCode := statusCode stage;
              fileCount := fileCount stage; uploadTime := uploadTime stage;
              testFile := testFile stage; cleaned := cleaned stage;
              cleanupError := cleanupError stage |}).

Definition propfind_request (config : StoredConfig) (authorization : Http.headers)
           (depth : string) (props : string) : Request :=
  {| method := lit "PROPFIND";
     url := serverUrl_of config ++ testPath_of config;
     requestHeaders := assign authorization
                         [(lit "Depth", lit depth);
                          (lit "Content-Type", lit "application/xml")];
     body := Some (Text (lit "<?xml version=" ++ dq ++ lit "1.0" ++ dq ++
                         lit " encoding=" ++ dq ++ lit "utf-8" ++ dq ++
                         lit "?><propfind xmlns=" ++ dq ++ lit "DAV:" ++ dq ++
                         lit "><prop>" ++ lit props ++ lit "</prop></propfind>")) |}.

(** [executeWebDAVAuthTest]: the [auth] stage after the call. *)
Definition executeWebDAVAuthTest (stage : Stage) (config : StoredConfig)
           (username password : jsstring) : M Stage :=
  try_catch
    (authorization <- basic username password ;;
     _ <- signal (connection_timeout config) 30 ;;
     response <- fetch (propfind_request config authorization "0" "<resourcetype/>") ;;
     if ok response then
       ret {| success := true; error := error stage;
              note := lit "WebDAV认证成功";
              statusCode := Some (status response);
              fileCount := fileCount stage; uploadTime := uploadTime stage;
              testFile := testFile stage; cleaned := cleaned stage;
              cleanupError := cleanupError stage |}
     else
       ret {| success := false;
              error := Some (if status response =? 401
                             then lit "认证失败，请检查用户名和密码"
                             else http_error response);
              note := note stage;
              statusCode := Some (status response);
              fileCount := fileCount stage; uploadTime := uploadTime stage;
              testFile := testFile stage; cleaned := cleaned stage;
              cleanupError := cleanupError stage |})
    (fun e =>
       ret {| success := false; error := Some (message_of e);
              note := note stage; statusCode := statusCode stage;
              fileCount := fileCount stage; uploadTime := uploadTime stage;
              testFile := testFile stage; cleaned := cleaned stage;
              cleanupError := cleanupError stage |}).

(** [executeWebDAVReadTest]: the [read] stage after the call. *)
Definition executeWebDAVReadTest (stage : Stage) (config : StoredConfig)
           (username password : jsstring) : M Stage :=
  try_catch
    (authorization <- basic username password ;;
     _ <- signal (read_timeout config) 60 ;;
     response <- fetch (propfind_request config authorization "1"
                          "<resourcetype/><getcontentlength/><getlastmodified/>") ;;
     if ok response then
       let fileCount' := count_response_tags (responseText response) - 1 in
       ret {| success := true; error := error stage;
              note := lit "WebDAV读取权限测试成功";
              statusCode := Some (status response);
              fileCount := Some (Z.max 0 fileCount');
              uploadTime := uploadTime stage;
              testFile := testFile stage; cleaned := cleaned stage;
              cleanupError := cleanupError stage |}
     else
       ret {| success := false; error := Some (http_error response);
              note := note stage;
              statusCode := Some (status response);
              fileCount := fileCount stage; uploadTime := uploadTime stage;
              testFile := testFile stage; cleaned := cleaned stage;
              cleanupError := cleanupError stage |})
    (fun e =>
       ret {| success := false; error := Some (message_of e);
              note := note stage; statusCode := statusCode stage;
              fileCount := fileCount stage; uploadTime := uploadTime stage;
              testFile := testFile stage; cleaned := cleaned stage;
              cleanupError := cleanupError stage |}).

(** [executeWebDAVWriteTest]: the [write] stage after the call. *)
Definition executeWebDAVWriteTest (stage : Stage) (config : StoredConfig)
           (username password : jsstring) : M Stage :=
  try_catch
    (let defaultFolder := defaultFolder_of config in
     let testFileName :=
       lit "__cloudpaste_test_" ++ toString timestamp ++ lit ".txt" in
     let testPath :=
       if falsy defaultFolder then SLASH :: testFileName
       else if startsWith defaultFolder [SLASH]
       then defaultFolder ++ SLASH :: testFileName
       else SLASH :: defaultFolder ++ SLASH :: testFileName in
     let testUrl := serverUrl_of config ++ testPath in
     let testContent :=
       lit "CloudPaste WebDAV测试文件" ++ [10] ++ lit "时间: " ++ nowISOString ++
       [10] ++ lit "测试ID: " ++ toString timestamp in
     authorization <- basic username password ;;
     _ <- signal (read_timeout config) 60 ;;
     uploadResponse <-
       fetch {| method := lit "PUT"; url := testUrl;
                requestHeaders :=
                  assign authorization
                    [(lit "Content-Type", lit "text/plain");
                     (lit "Content-Length",
                      toString (Z.of_nat (List.length testContent)))];
                body := Some (Text testContent) |} ;;
     if ok uploadResponse || (status uploadResponse =? 201) then
       cleanup <-
         try_catch
           (authorization' <- basic username password ;;
            _ <- signal (connection_timeout config) 30 ;;
            deleteResponse <-
              fetch {| method := lit "DELETE"; url := testUrl;
                       requestHeaders := authorization'; body := None |} ;;
            ret (Some (ok deleteResponse), cleanupError stage))
           (fun cleanupError' => ret (Some false, Some (message_of cleanupError'))) ;;
       ret {| success := true; error := error stage;
              note := lit "WebDAV写入权限测试成功";
              statusCode := Some (status uploadResponse);
              fileCount := fileCount stage;
              uploadTime := Some elapsed;
              testFile := Some testPath;
              cleaned := fst cleanup;
              cleanupError := snd cleanup |}
     else
       ret {| success := false; error := Some (http_error uploadResponse);
              note := note stage;
              statusCode := Some (status uploadResponse);
              fileCount := fileCount stage; uploadTime := uploadTime stage;
              testFile := testFile stage; cleaned := cleaned stage;
              cleanupError := cleanupError stage |})
    (fun e =>
       ret {| success := false; error := Some (message_of e);
              note := note stage; statusCode := statusCode stage;
              fileCount := fileCount stage; uploadTime := uploadTime stage;
              testFile := testFile stage; cleaned := cleaned stage;
              cleanupError := cleanupError stage |}).

Definition seconds (configured : option Z) (fallback : Z) : jsstring :=
  toString (or_seconds configured fallback) ++ lit "秒".

(** [testWebDAVConnection], from the point where the configuration has
    been read from the repository and its credentials decrypted. *)
Definition testWebDAVConnection (config : StoredConfig)
           (username password : jsstring) : M Report :=
  let info :=
    {| serverUrl := server_url config;
       info_username := username;
       defaultFolder := defaultFolder_of config;
       connectionTimeout := seconds (connection_timeout config) 30;
       readTimeout := seconds (read_timeout config) 60 |} in
  connect' <- executeWebDAVConnectTest (fresh_stage (lit "测试WebDAV服务器连接"))
                config username password ;;
  auth' <- executeWebDAVAuthTest (fresh_stage (lit "测试WebDAV认证"))
             config username password ;;
  read' <- executeWebDAVReadTest (fresh_stage (lit "测试WebDAV读取权限"))
             config username password ;;
  write' <- executeWebDAVWriteTest (fresh_stage (lit "测试WebDAV写入权限"))
              config username password ;;
  _ <- updateWebDAVLastUsedTime ;;
  let testResult :=
    {| connect := connect'; auth := auth'; read := read'; write := write';
       connectionInfo := info |} in
  let summary := generateWebDAVTestSummary testResult in
  ret {| report_success := overallSuccess summary;
         report_message := summary_message summary;
         result := testResult |}.

End Host.

End webdavConfigService.

(* ================================================================== *)
(** ** Notions used in the statements *)
(* ================================================================== *)

(** Two code units that the [i] flag identifies. *)
Definition ci_eqb (a b : Z) : bool := canonicalize a =? canonicalize b.

(** [s] starts with [needle], letter case apart. *)
Fixpoint starts_ci (s needle : jsstring) {struct needle} : bool :=
  match needle, s with
  | [], _ => true
  | a :: needle', c :: s' => ci_eqb a c && starts_ci s' needle'
  | _ :: _, [] => false
  end.

(** [needle] occurs in [s], letter case apart. *)
Fixpoint contains_ci (s needle : jsstring) : bool :=
  starts_ci s needle ||
  match s with
  | [] => false
  | _ :: s' => contains_ci s' needle
  end.

(** [part] is a piece of [whole]. *)
Definition infix (part whole : jsstring) : Prop :=
  exists before after, whole = before ++ part ++ after.

(** No two separators in a row. *)
Fixpoint no_double_slash (s : jsstring) : bool :=
  match s with
  | c :: ((d :: _) as s') => negb ((c =? SLASH) && (d =? SLASH)) && no_double_slash s'
  | _ => true
  end.

(** A string without unpaired surrogates. *)
Fixpoint well_formed (s : jsstring) : bool :=
  match s with
  | [] => true
  | c :: s' =>
      if is_high_surrogate c then
        match s' with
        | d :: s'' => is_low_surrogate d && well_formed s''
        | [] => false
        end
      else negb (is_low_surrogate c) && well_formed s'
  end.

(** Every element is a UTF-16 code unit. *)
Definition code_units (s : jsstring) : bool :=
  forallb (fun c => (0 <=? c) && (c <? 65536)) s.

(* ================================================================== *)
(** ** Notions and scenarios of the statements *)
(* ================================================================== *)

Definition octet (b : Z) : Prop := 0 <= b < 256.

(** A Unicode scalar value: a code point that is no surrogate. *)
Definition scalar (cp : Z) : Prop :=
  0 <= cp <= 1114111 /\ is_surrogate cp = false.

(** A path with a space, a hash, a percent sign, an accented letter and an
    astral character. *)
Definition reserved_path : jsstring := lit "/my docs/50% #1/é😀.txt".

(** A space followed by a high surrogate that no low surrogate follows. *)
Definition unpaired_path : jsstring := [32; 55357].

(** The units of [u] pushed on the capture, in order. *)
Definition push_all (g : capture) (u : jsstring) : capture := fold_left push u g.

(** The capture with respect to the text [h] read so far: while the group
    is open it holds the last units read, afterwards a piece of what was
    read. *)
Definition capture_of (g : capture) (h : jsstring) : Prop :=
  if is_open g then exists before, h = before ++ rev (captured g)
  else infix (rev (captured g)) h.

(** A continuation that reads a prefix of its input and keeps the capture
    in step with it. *)
Definition reads_prefix (k : jsstring -> capture -> option result) : Prop :=
  forall s g h g' rest,
    capture_of g h -> k s g = Some (g', rest) ->
    exists consumed, s = consumed ++ rest /\ capture_of g' (h ++ consumed).

(** [text] spells [word], letter case apart. *)
Fixpoint spells (text word : jsstring) : bool :=
  match text, word with
  | [], [] => true
  | c :: text', a :: word' => ci_eqb a c && spells text' word'
  | _, _ => false
  end.

(** No [>] in the attributes of a tag. *)
Definition no_gt (attrs : jsstring) : bool :=
  forallb (fun c => negb (c =? GT)) attrs.

Definition any_unit (c : Z) : bool := true.

Definition no_line_break (c : Z) : bool := negb (is_line_terminator c).

(** [<d:TAG] and [</d:TAG>] *)
Definition opening (tag : string) : jsstring := lit "<d:" ++ lit tag.
Definition closing (tag : string) : jsstring := lit "</d:" ++ lit tag ++ lit ">".

(** [s] starts with an element: an opening tag in any letter case, its
    attributes up to the first [>], the content [inner], made of units
    that are [allowed], up to the first closing tag, in any letter case,
    and then [rest]. *)
Definition element_at (allowed : Z -> bool) (tag : string)
           (s inner rest : jsstring) : Prop :=
  exists open attrs close : jsstring,
    s = open ++ attrs ++ GT :: inner ++ close ++ rest /\
    spells open (opening tag) = true /\
    no_gt attrs = true /\
    forallb allowed inner = true /\
    contains_ci inner (closing tag) = false /\
    spells close (closing tag) = true.

(** The leftmost place of [text] where a text of the given shape starts:
    what the shape holds there and what follows it, or [None] when no
    place of the text starts such a text. *)
Definition leftmost (shape : jsstring -> jsstring -> jsstring -> Prop)
           (text : jsstring) (found : option (jsstring * jsstring)) : Prop :=
  match found with
  | Some (group, rest) =>
      exists before s : jsstring,
        text = before ++ s /\ shape s group rest /\
        forall before' s' group' rest',
          text = before' ++ s' ->
          (List.length before' < List.length before)%nat ->
          ~ shape s' group' rest'
  | None =>
      forall before s group rest, text = before ++ s -> ~ shape s group rest
  end.

(** The texts of the given shape found one after the other, each search
    starting where the text found before ends. *)
Fixpoint successive (shape : jsstring -> jsstring -> jsstring -> Prop)
         (text : jsstring) (groups : list jsstring) : Prop :=
  match groups with
  | [] => leftmost shape text None
  | group :: groups' =>
      exists rest, leftmost shape text (Some (group, rest)) /\
                   successive shape rest groups'
  end.

(** Group 1 and the rest of a match of [r] at the head of [s]. *)
Definition matches_at (r : regex) (s : jsstring) : option (jsstring * jsstring) :=
  match run true r s no_capture with
  | Some (g, rest) => Some (rev (captured g), rest)
  | None => None
  end.

(** The middle of an element expression: [[^>]*>(a*?)]. *)
Definition content_of (a : atom) : regex :=
  [Star (NotChr GT); One (Chr GT); GroupOpen; LazyStar a; GroupClose].

Definition starts_with_digit (s : jsstring) : bool :=
  match s with
  | c :: _ => is_digit c
  | [] => false
  end.

(** [s] starts with a status line: [<d:status], attributes, [>], [HTTP/],
    a digit, a dot and a digit, white space, and the digits [code], all
    the digits that stand there, before [rest]. *)
Definition status_line_at (s code rest : jsstring) : Prop :=
  exists (open attrs http : jsstring) (v1 v2 : Z) (spaces : jsstring),
    s = open ++ attrs ++ GT :: http ++ v1 :: 46 :: v2 :: spaces ++ code ++ rest /\
    spells open (lit "<d:status") = true /\
    no_gt attrs = true /\
    spells http (lit "HTTP/") = true /\
    is_digit v1 = true /\ is_digit v2 = true /\
    spaces <> [] /\ forallb is_space spaces = true /\
    code <> [] /\ forallb is_digit code = true /\
    starts_with_digit rest = false.

(** [s] starts with a content length: [<d:getcontentlength], attributes,
    [>], the digits and the closing tag. *)
Definition contentlength_at (s digits rest : jsstring) : Prop :=
  exists open attrs close : jsstring,
    s = open ++ attrs ++ GT :: digits ++ close ++ rest /\
    spells open (lit "<d:getcontentlength") = true /\
    no_gt attrs = true /\
    digits <> [] /\ forallb is_digit digits = true /\
    spells close (lit "</d:getcontentlength>") = true.

(** The status line [<d:status>HTTP/1.1 CODE REASON</d:status>]. *)
Definition status_line (code reason : jsstring) : jsstring :=
  lit "<d:status>HTTP/1.1 " ++ code ++ reason ++ lit "</d:status>".

(** The first element of a tag in a text: its content and what follows
    it, or [None]. *)
Definition first_element (tag : string) :=
  leftmost (element_at any_unit tag).

(** The same for an element whose content stays on one line. *)
Definition first_line_element (tag : string) :=
  leftmost (element_at no_line_break tag).

Definition first_status_line := leftmost status_line_at.

Definition first_contentlength := leftmost contentlength_at.

(** The closing tag starts with the only [<] it holds. *)
Definition plain_tag (tag : string) : bool :=
  str_eqb (closing tag) (60 :: tl (closing tag)) &&
  forallb (fun u => negb (ci_eqb u 60)) (tl (closing tag)).

(** A response with two propstat elements: the first reports a property
    that was not found (404), the second the properties found (200). *)
Definition not_found_propstat : jsstring :=
  lit "<d:prop><d:quota/></d:prop>" ++ status_line (lit "404") (lit " Not Found").

Definition found_propstat : jsstring :=
  lit "<d:prop><d:resourcetype/><d:getcontentlength>7</d:getcontentlength></d:prop>" ++
  status_line (lit "200") (lit " OK").

Definition propstat_element (propContent : jsstring) : jsstring :=
  lit "<d:propstat" ++ [] ++ GT :: propContent ++ lit "</d:propstat>".

Definition response_element (responseContent : jsstring) : jsstring :=
  lit "<d:response>" ++ responseContent ++ lit "</d:response>".

Definition href_x : jsstring := lit "<d:href>/docs/x</d:href>".

(** A first propstat written as some servers write it (prefix [D:], an
    attribute, HTTP/1.0, two spaces) with status 404, followed by a
    propstat with 200. *)
Definition upper_case_not_found_propstat : jsstring :=
  lit "<D:prop><D:quota/></D:prop><D:status xmlns:D='DAV:'>HTTP/1.0  404 Not Found</D:status>".

Definition upper_case_propstat_element (propContent : jsstring) : jsstring :=
  lit "<D:propstat>" ++ propContent ++ lit "</D:propstat>".

(** A first propstat whose status line the parser does not read. *)
Definition http2_not_found_propstat : jsstring :=
  lit "<d:prop><d:getcontentlength>7</d:getcontentlength></d:prop><d:status>HTTP/2 404</d:status>".

(** The response elements of an answer, in the order of the text. *)
Definition response_elements := successive (element_at any_unit "response").

(** A depth-1 answer in which the collection reports a content length, as
    servers that list a directory like a file do, and one in which it
    reports none. *)
Definition sized_collection_answer : jsstring :=
  response_element
    (lit "<d:href>/docs/</d:href>" ++
     propstat_element
       (lit "<d:prop><d:resourcetype><d:collection/></d:resourcetype><d:getcontentlength>4096</d:getcontentlength></d:prop>" ++
        status_line (lit "200") (lit " OK"))).

Definition plain_collection_answer : jsstring :=
  response_element
    (lit "<d:href>/docs/</d:href>" ++
     propstat_element
       (lit "<d:prop><d:resourcetype><d:collection/></d:resourcetype></d:prop>" ++
        status_line (lit "200") (lit " OK"))).

Definition first_item (xmlText : jsstring) : Item :=
  hd empty_item
     (parseWebDAVResponse (fun _ => None) (lit "2024-01-01T00:00:00.000Z") xmlText).

(** The answer to a depth-1 PROPFIND on [/docs/] as Apache's mod_dav
    writes it, with the prefix in upper case: the collection itself, the
    collection [sub/] and the file [a.txt]. *)
Definition upper_case_listing_answer : Response :=
  {| status := 207; statusText := lit "Multi-Status"; responseHeaders := [];
     responseText := lit "<?xml version='1.0' encoding='utf-8'?>
<D:multistatus xmlns:D='DAV:'>
 <D:response><D:href>/docs/</D:href><D:propstat><D:prop><D:resourcetype><D:collection/></D:resourcetype></D:prop><D:status>HTTP/1.1 200 OK</D:status></D:propstat></D:response>
 <D:response><D:href>/docs/sub/</D:href><D:propstat><D:prop><D:resourcetype><D:collection/></D:resourcetype></D:prop><D:status>HTTP/1.1 200 OK</D:status></D:propstat></D:response>
 <D:response><D:href>/docs/a.txt</D:href><D:propstat><D:prop><D:resourcetype/><D:getcontentlength>120</D:getcontentlength></D:prop><D:status>HTTP/1.1 200 OK</D:status></D:propstat></D:response>
</D:multistatus>" |}.

Definition upper_case_world : World :=
  {| remote := fun _ _ => inl upper_case_listing_answer; sent := [] |}.

Definition scenario_B_client : Client :=
  {| baseUrl := lit "https://dav.example.org"; username := None;
     password := None; authHeader := [] |}.

(** The listing of [/docs/] made from that answer: the first entry is the
    listed directory itself, reported as a file named [docs]. *)
Definition listing_with_self : WebDAVDirectoryOperations.Listing :=
  let now := lit "2024-01-01T00:00:00.000Z" in
  {| WebDAVDirectoryOperations.content :=
       [ {| WebDAVDirectoryOperations.entry_name := lit "docs";
            WebDAVDirectoryOperations.entry_size := Int 0;
            WebDAVDirectoryOperations.is_dir := false;
            WebDAVDirectoryOperations.modified := now;
            WebDAVDirectoryOperations.created := now;
            WebDAVDirectoryOperations.entry_type := WebDAVDirectoryOperations.UNKNOWN |};
         {| WebDAVDirectoryOperations.entry_name := lit "sub";
            WebDAVDirectoryOperations.entry_size := Int 0;
            WebDAVDirectoryOperations.is_dir := false;
            WebDAVDirectoryOperations.modified := now;
            WebDAVDirectoryOperations.created := now;
            WebDAVDirectoryOperations.entry_type := WebDAVDirectoryOperations.UNKNOWN |};
         {| WebDAVDirectoryOperations.entry_name := lit "a.txt";
            WebDAVDirectoryOperations.entry_size := Int 120;
            WebDAVDirectoryOperations.is_dir := false;
            WebDAVDirectoryOperations.modified := now;
            WebDAVDirectoryOperations.created := now;
            WebDAVDirectoryOperations.entry_type := WebDAVDirectoryOperations.TEXT |} ];
     WebDAVDirectoryOperations.listing_write := true;
     WebDAVDirectoryOperations.provider := lit "WebDAV" |}.

(** Scenario B: the same three descriptors written with the prefix in
    lower case; the listing holds the two children. *)
Definition scenario_B_answer : Response :=
  {| status := 207; statusText := lit "Multi-Status"; responseHeaders := [];
     responseText := lit "<?xml version='1.0' encoding='utf-8'?>
<d:multistatus xmlns:d='DAV:'>
 <d:response><d:href>/docs/</d:href><d:propstat><d:prop><d:resourcetype><d:collection/></d:resourcetype></d:prop><d:status>HTTP/1.1 200 OK</d:status></d:propstat></d:response>
 <d:response><d:href>/docs/sub/</d:href><d:propstat><d:prop><d:resourcetype><d:collection/></d:resourcetype></d:prop><d:status>HTTP/1.1 200 OK</d:status></d:propstat></d:response>
 <d:response><d:href>/docs/a.txt</d:href><d:propstat><d:prop><d:resourcetype/><d:getcontentlength>120</d:getcontentlength></d:prop><d:status>HTTP/1.1 200 OK</d:status></d:propstat></d:response>
</d:multistatus>" |}.

Definition scenario_B_world : World :=
  {| remote := fun _ _ => inl scenario_B_answer; sent := [] |}.

(** The same descriptors written with the prefix in lower case by a
    server that serves the files under [/dav]: the hrefs carry that
    path, the listed directory is asked for as [/docs/]. *)
Definition based_answer : Response :=
  {| status := 207; statusText := lit "Multi-Status"; responseHeaders := [];
     responseText := lit "<?xml version='1.0' encoding='utf-8'?>
<d:multistatus xmlns:d='DAV:'>
 <d:response><d:href>/dav/docs/</d:href><d:propstat><d:prop><d:resourcetype><d:collection/></d:resourcetype></d:prop><d:status>HTTP/1.1 200 OK</d:status></d:propstat></d:response>
 <d:response><d:href>/dav/docs/a.txt</d:href><d:propstat><d:prop><d:resourcetype/><d:getcontentlength>120</d:getcontentlength></d:prop><d:status>HTTP/1.1 200 OK</d:status></d:propstat></d:response>
</d:multistatus>" |}.

Definition based_client : Client :=
  {| baseUrl := lit "https://dav.example.org/dav"; username := None;
     password := None; authHeader := [] |}.

Definition keys (h : headers) : list jsstring := List.map fst h.

(** The value [options.headers] gives to the name [k], if any. *)
Definition custom_header (k : jsstring) (options : Options.t) : option jsstring :=
  match Options.headers options with
  | Some custom => get_header k (rev custom)
  | None => None
  end.

Definition CONTENT_LENGTH : jsstring := lit "Content-Length".
Definition CONTENT_TYPE : jsstring := lit "Content-Type".
Definition TEXT_PLAIN : jsstring := lit "text/plain".

(** No usable [contentType] option: absent or empty. *)
Definition no_contentType (options : Options.t) : Prop :=
  match Options.contentType options with
  | Some ct => ct = []
  | None => True
  end.

(** Scenario F: a text of four code units and nine octets, no option. *)
Definition scenario_F_text : jsstring := lit "é测😀".

Definition plain_client : Client :=
  {| baseUrl := lit "https://dav.example.org"; username := None;
     password := None; authHeader := [] |}.

Definition created_world : World :=
  {| remote := fun _ _ =>
       inl {| status := 201; statusText := lit "Created";
              responseHeaders := [(lit "etag", lit "v1")]; responseText := [] |};
     sent := [] |}.

(** An upload of the text [abc] with a [Content-Length] of its own among
    the custom headers and no [contentType] option. *)
Definition overriding_options : Options.t :=
  {| Options.subPath := None; Options.db := false; Options.mount := None;
     Options.overwrite := None; Options.depth := None;
     Options.contentType := None;
     Options.headers := Some [(lit "Content-Length", lit "0")] |}.

(** A text of one code unit and two octets. *)
Definition one_accented_letter : jsstring := lit "é".

Definition ok_world : World :=
  {| remote := fun _ _ =>
       inl {| status := 204; statusText := lit "No Content";
              responseHeaders := []; responseText := [] |};
     sent := [] |}.

(** What a batch result owes to its input: every item is counted once,
    and the flag tells whether a failure was recorded. *)
Definition accounts_for {I O : Type} (input_of : O -> I) (input : list I)
           (r : WebDAVBatchOperations.BatchResult O) : Prop :=
  WebDAVBatchOperations.successCount r + WebDAVBatchOperations.errorCount r
    = Z.of_nat (List.length input) /\
  WebDAVBatchOperations.total r = Z.of_nat (List.length input) /\
  WebDAVBatchOperations.successCount r
    = Z.of_nat (List.length (WebDAVBatchOperations.results r)) /\
  WebDAVBatchOperations.errorCount r
    = Z.of_nat (List.length (WebDAVBatchOperations.errors r)) /\
  Permutation
    (List.map input_of (WebDAVBatchOperations.results r ++ WebDAVBatchOperations.errors r))
    input /\
  (WebDAVBatchOperations.success r = true <-> WebDAVBatchOperations.errors r = []).

(** The item an outcome of a copy or move reports. *)
Definition transfer_input (o : WebDAVBatchOperations.TransferOutcome)
  : WebDAVBatchOperations.TransferItem :=
  {| WebDAVBatchOperations.sourcePath := WebDAVBatchOperations.transfer_sourcePath o;
     WebDAVBatchOperations.targetPath := WebDAVBatchOperations.transfer_targetPath o |}.

(** A server for Scenario E: OPTIONS, the two PROPFIND and the probe PUT
    are answered 200, 200, 200 (three entries) and 500. *)
Definition scenario_E_remote (history : list Request) (rq : Request)
  : Response + jsstring * jsstring :=
  let answer (code : Z) (text body : jsstring) : Response + jsstring * jsstring :=
    inl {| status := code; statusText := text; responseHeaders := [];
           responseText := body |} in
  match List.length history with
  | 0%nat => answer 200 (lit "OK") []
  | 1%nat => answer 200 (lit "OK")
               (lit "<D:multistatus><D:response></D:response></D:multistatus>")
  | 2%nat => answer 200 (lit "OK")
               (lit "<D:multistatus><D:response></D:response><D:response></D:response><D:response></D:response></D:multistatus>")
  | _ => answer 500 (lit "Internal Server Error") []
  end.

Definition scenario_E_config : webdavConfigService.StoredConfig :=
  {| webdavConfigService.server_url := lit "https://dav.example.org/remote/";
     webdavConfigService.default_folder := Some (lit "docs");
     webdavConfigService.connection_timeout := None;
     webdavConfigService.read_timeout := None |}.

Definition scenario_E_run
  : (webdavConfigService.Report + exn) * World :=
  webdavConfigService.testWebDAVConnection
    (fun s => inl s) (fun _ => inl tt)
    (lit "2024-01-01T00:00:00.000Z") 1700000000000 12 (ret tt)
    scenario_E_config (lit "alice") (lit "secret")
    {| remote := scenario_E_remote; sent := [] |}.

Definition partial_success_message : jsstring :=
  lit "WebDAV配置测试部分成功 (连接、认证、读取权限可用，写入权限不可用)".



(** A fresh instance and a first use: a listing is asked for before
    [initialize], then the instance is initialized and used. *)
Definition fresh_driver : WebDAVStorageDriver.Driver :=
  {| WebDAVStorageDriver.config :=
       {| config_name := lit "dav"; config_url := lit "https://dav.example.org/";
          config_username := Some (lit "enc-user");
          config_password := Some (lit "enc-pass") |};
     WebDAVStorageDriver.encryptionSecret := lit "secret";
     WebDAVStorageDriver.webdavClient := None;
     WebDAVStorageDriver.initialized := false |}.

Definition quiet_world : World :=
  {| remote := fun _ _ =>
       inl {| status := 404; statusText := lit "Not Found";
              responseHeaders := []; responseText := [] |};
     sent := [] |}.


(** A code unit other than the separator. *)
Definition not_slash (c : Z) : bool := negb (c =? SLASH).

(** What is left of a text without its separators. *)
Definition without_slashes (s : jsstring) : jsstring := List.filter not_slash s.

(** A path segment as a caller names it: not empty, no separator. *)
Definition plain_name (s : jsstring) : bool :=
  negb (falsy s) && forallb not_slash s.

(** What an encoded segment is made of: unreserved characters and the
    escapes, whose digits are unreserved too. *)
Definition segment_safe (c : Z) : bool := is_unreserved c || (c =? PERCENT).

(** What an encoded path is made of. *)
Definition url_safe (c : Z) : bool := segment_safe c || (c =? SLASH).

(** A hexadecimal digit, either case. *)
Definition is_hex_digit (c : Z) : bool :=
  is_digit c || ((65 <=? c) && (c <=? 70)) || ((97 <=? c) && (c <=? 102)).

(** The text starts with two hexadecimal digits. *)
Definition two_hex_digits (s : jsstring) : bool :=
  match s with
  | h :: l :: _ => is_hex_digit h && is_hex_digit l
  | _ => false
  end.

(** No percent sign. *)
Definition no_percent (s : jsstring) : bool :=
  forallb (fun c => negb (c =? PERCENT)) s.


(** A multi-status answer as Apache's mod_dav writes it, with the prefix
    in upper case. *)
Definition upper_case_answer : jsstring :=
  lit "<?xml version='1.0' encoding='utf-8'?>
<D:multistatus xmlns:D='DAV:'>
<D:response><D:href>/docs/</D:href><D:propstat><D:prop><D:resourcetype><D:collection/></D:resourcetype></D:prop><D:status>HTTP/1.1 200 OK</D:status></D:propstat></D:response>
</D:multistatus>".

(** A multi-status answer in the default namespace, without prefix. *)
Definition unprefixed_answer : jsstring :=
  lit "<?xml version='1.0' encoding='utf-8'?>
<multistatus xmlns='DAV:'>
<response><href>/docs/a.txt</href><propstat><prop><getcontentlength>120</getcontentlength></prop><status>HTTP/1.1 200 OK</status></propstat></response>
</multistatus>".

(** The fixed message of [parseWebDAVError]. *)
Definition operation_failed : jsstring := lit "WebDAV操作失败".

(** An error body the way servers write it, and one whose description
    spans two lines. *)
Definition locked_error : jsstring :=
  lit "<?xml version='1.0'?><D:error xmlns:D='DAV:'><D:human-readable>  The resource is locked </D:human-readable></D:error>".

Definition two_line_error : jsstring :=
  lit "<d:error><d:human-readable>The resource
is locked</d:human-readable></d:error>".

(** The request a verb of the client hands to [fetch]: the address is the
    base address followed by the path as given. *)
Definition request_of (c : Client) (verb : string) (path : jsstring)
           (hs : headers) (b : option payload) : Request :=
  {| Http.method := lit verb; url := baseUrl c ++ path;
     requestHeaders := assign (authHeader c) hs; body := b |}.

Definition propfind_of (c : Client) (path : jsstring) (depth : Z) : Request :=
  request_of c "PROPFIND" path
    [(lit "Depth", toString depth); (lit "Content-Type", lit "application/xml")]
    (Some (Text default_propfind_body)).

Definition move_of (c : Client) (old new : jsstring) (options : Options.t) : Request :=
  request_of c "MOVE" old
    [(lit "Destination", baseUrl c ++ new);
     (lit "Overwrite", overwrite_flag (Options.overwrite_not_false options))]
    None.

Definition copy_of (c : Client) (source target : jsstring) (options : Options.t)
  : Request :=
  request_of c "COPY" source
    [(lit "Destination", baseUrl c ++ target);
     (lit "Overwrite", overwrite_flag (Options.overwrite_not_false options));
     (lit "Depth", Options.depth_or_infinity options)]
    None.

(** The status names by the status of the answer. *)
Definition missing_or_internal (status : Z) : ApiStatus :=
  if status =? 404 then NOT_FOUND else INTERNAL_ERROR.

Definition missing_conflict_or_internal (status : Z) : ApiStatus :=
  if status =? 404 then NOT_FOUND
  else if status =? 409 then CONFLICT else INTERNAL_ERROR.

Definition conflict_or_internal (status : Z) : ApiStatus :=
  if (status =? 405) || (status =? 409) then CONFLICT else INTERNAL_ERROR.

Definition upload_conflict_or_internal (status : Z) : ApiStatus :=
  if status =? 409 then CONFLICT else INTERNAL_ERROR.

Definition always_internal (status : Z) : ApiStatus := INTERNAL_ERROR.

(** An operation that sends the one request [rq] whatever happens, reports
    a failure of the network as the client does, and reports an answer
    outside 2xx by an [HTTPException] whose status name [code_of] gives. *)
Definition classifies_failures {A : Type} (operation : M A) (rq : Request)
           (code_of : Z -> ApiStatus) : Prop :=
  forall w : World,
    sent (snd (operation w)) = sent w ++ [rq] /\
    match remote w (sent w) rq with
    | inr (_, message) =>
        fst (operation w) =
        inr (HTTPException INTERNAL_ERROR (lit "WebDAV请求失败: " ++ message))
    | inl answer =>
        ok answer = true \/
        exists message,
          fst (operation w) = inr (HTTPException (code_of (status answer)) message)
    end.

(** Whether the answer to the request [rq] in the world [w] is a 2xx. *)
Definition answered_ok (w : World) (rq : Request) : bool :=
  match remote w (sent w) rq with
  | inl answer => ok answer
  | inr _ => false
  end.

Definition unprefixed_world : World :=
  {| remote := fun _ _ =>
       inl {| status := 207; statusText := lit "Multi-Status";
              responseHeaders := []; responseText := unprefixed_answer |};
     sent := [] |}.

Definition TEXT_UTF8 : jsstring := lit "text/plain; charset=utf-8".
Definition JSON_UTF8 : jsstring := lit "application/json; charset=utf-8".

(** A text of ASCII characters. *)
Definition ascii_text (s : jsstring) : bool :=
  forallb (fun c => (0 <=? c) && (c <? 128)) s.

Definition no_dot (s : jsstring) : bool :=
  forallb (fun c => negb (c =? WebDAVDirectoryOperations.DOT)) s.

(** What [String.prototype.toLowerCase] does to a text of ASCII
    characters: the letters A to Z become a to z. *)
Definition lower_case_on_ascii (toLowerCase : jsstring -> jsstring) : Prop :=
  forall s : jsstring,
    ascii_text s = true -> toLowerCase s = WebDAVUploadOperations.ascii_lower s.

(** A configuration whose credentials decrypt to alice and secret. *)
Definition alice_config : Config :=
  {| config_name := lit "dav"; config_url := lit "https://dav.example.org/";
     config_username := Some (lit "enc-user");
     config_password := Some (lit "enc-pass") |}.

Definition alice_decrypt (value secret : jsstring) : M jsstring :=
  ret (if str_eqb value (lit "enc-user") then lit "alice" else lit "secret").

(** The world once [fetch] was given the request [rq]. *)
Definition world_after (w : World) (rq : Request) : World :=
  {| remote := remote w; sent := sent w ++ [rq] |}.

(** For the requests [rq item] sent one after the other from the world
    [w]: whether each was answered by a 2xx. *)
Fixpoint answers_ok {I : Type} (rq : I -> Request) (items : list I) (w : World)
  : list bool :=
  match items with
  | [] => []
  | item :: rest =>
      answered_ok w (rq item) :: answers_ok rq rest (world_after w (rq item))
  end.

(** The elements whose flag is set, in their order. *)
Fixpoint select {A : Type} (flags : list bool) (xs : list A) : list A :=
  match flags, xs with
  | f :: flags', x :: xs' =>
      if f then x :: select flags' xs' else select flags' xs'
  | _, _ => []
  end.

Definition delete_of (c : Client) (path : jsstring) : Request :=
  request_of c "DELETE" path [] None.

Definition copy_of_item (c : Client) (options : Options.t)
           (item : WebDAVBatchOperations.TransferItem) : Request :=
  copy_of c (WebDAVBatchOperations.sourcePath item)
          (WebDAVBatchOperations.targetPath item) options.

Definition move_of_item (c : Client) (options : Options.t)
           (item : WebDAVBatchOperations.TransferItem) : Request :=
  move_of c (WebDAVBatchOperations.sourcePath item)
          (WebDAVBatchOperations.targetPath item) options.

(** What the entries of a batch result report about themselves. *)
Definition removed_as_done (o : WebDAVBatchOperations.RemoveOutcome) : Prop :=
  WebDAVBatchOperations.removed_success o = true /\
  WebDAVBatchOperations.removed_status o = None.

Definition removed_as_failed (o : WebDAVBatchOperations.RemoveOutcome) : Prop :=
  WebDAVBatchOperations.removed_success o = false.

Definition transferred_as_done (o : WebDAVBatchOperations.TransferOutcome) : Prop :=
  WebDAVBatchOperations.transfer_success o = true /\
  WebDAVBatchOperations.transfer_status o = None.

Definition transferred_as_failed (o : WebDAVBatchOperations.TransferOutcome) : Prop :=
  WebDAVBatchOperations.transfer_success o = false.

(** A batch result that follows the answers: the entries of [results] are
    the items whose request was answered by a 2xx, the entries of
    [errors] are the other items, both in the order of the input. *)
Definition follows_answers {I O : Type} (input_of : O -> I) (done failed : O -> Prop)
           (flags : list bool) (input : list I)
           (r : WebDAVBatchOperations.BatchResult O) : Prop :=
  List.map input_of (WebDAVBatchOperations.results r) = select flags input /\
  List.map input_of (WebDAVBatchOperations.errors r) =
    select (List.map negb flags) input /\
  Forall done (WebDAVBatchOperations.results r) /\
  Forall failed (WebDAVBatchOperations.errors r).

(** The paths whose resources a call of the facade addresses, one for
    every request it sends: the normalized [options.subPath] for the
    methods that list, read, write and create (their [path] argument is
    not read), the normalized path arguments for the others. *)
Definition targets (c : WebDAVStorageDriver.Method.call) : list jsstring :=
  let directory (o : Options.t) :=
    normalizeWebDAVPath (WebDAVStorageDriver.subPath_of o) true in
  let file (o : Options.t) :=
    normalizeWebDAVPath (WebDAVStorageDriver.subPath_of o) false in
  match c with
  | WebDAVStorageDriver.Method.listDirectory _ o
  | WebDAVStorageDriver.Method.list _ o
  | WebDAVStorageDriver.Method.mkdir _ o
  | WebDAVStorageDriver.Method.createDirectory _ o => [directory o]
  | WebDAVStorageDriver.Method.get _ o
  | WebDAVStorageDriver.Method.downloadFile _ o
  | WebDAVStorageDriver.Method.getInfo _ o
  | WebDAVStorageDriver.Method.getFileInfo _ o
  | WebDAVStorageDriver.Method.stat _ o => [file o]
  | WebDAVStorageDriver.Method.uploadFile _ input o
  | WebDAVStorageDriver.Method.put _ input o =>
      match input with
      | WebDAVUploadOperations.Unsupported => []
      | _ => [file o]
      end
  | WebDAVStorageDriver.Method.renameItem source _ _
  | WebDAVStorageDriver.Method.rename source _ _
  | WebDAVStorageDriver.Method.move source _ _
  | WebDAVStorageDriver.Method.copy source _ _
  | WebDAVStorageDriver.Method.copyItem source _ _ =>
      [normalizeWebDAVPath source false]
  | WebDAVStorageDriver.Method.batchRemoveItems paths _ =>
      List.map (fun path => normalizeWebDAVPath path false) paths
  | WebDAVStorageDriver.Method.batchCopyItems items _ =>
      List.map (fun item =>
                  normalizeWebDAVPath (WebDAVBatchOperations.sourcePath item) false)
               items
  | WebDAVStorageDriver.Method.updateFile path _ _
  | WebDAVStorageDriver.Method.exists_ path _ => [normalizeWebDAVPath path false]
  | WebDAVStorageDriver.Method.initialize
  | WebDAVStorageDriver.Method.generatePresignedUrl _ _
  | WebDAVStorageDriver.Method.handleCrossStorageCopy _ _ _
  | WebDAVStorageDriver.Method.getStats
  | WebDAVStorageDriver.Method.abortBackendMultipartUpload _ _ => []
  end.

(** The paths named in the [Destination] headers of a call that renames
    or copies; [None] for the other calls. *)
Definition destinations (c : WebDAVStorageDriver.Method.call)
  : option (list jsstring) :=
  match c with
  | WebDAVStorageDriver.Method.renameItem _ target _
  | WebDAVStorageDriver.Method.rename _ target _
  | WebDAVStorageDriver.Method.move _ target _
  | WebDAVStorageDriver.Method.copy _ target _
  | WebDAVStorageDriver.Method.copyItem _ target _ =>
      Some [normalizeWebDAVPath target false]
  | WebDAVStorageDriver.Method.batchCopyItems items _ =>
      Some (List.map
              (fun item =>
                 normalizeWebDAVPath (WebDAVBatchOperations.targetPath item) false)
              items)
  | _ => None
  end.

(** A listing is asked with a database handle only together with a
    mount. *)
Definition mount_given (c : WebDAVStorageDriver.Method.call) : bool :=
  match c with
  | WebDAVStorageDriver.Method.listDirectory _ o
  | WebDAVStorageDriver.Method.list _ o =>
      negb (Options.db o) ||
      match Options.mount o with Some _ => true | None => false end
  | _ => true
  end.

(** A path as the normalisation leaves it: rooted, no two separators in a
    row. *)
Definition normal_path (p : jsstring) : bool :=
  startsWith p [SLASH] && no_double_slash p.

Definition DESTINATION : jsstring := lit "Destination".

Definition mounted_driver : WebDAVStorageDriver.Driver :=
  {| WebDAVStorageDriver.config := WebDAVStorageDriver.config fresh_driver;
     WebDAVStorageDriver.encryptionSecret := lit "secret";
     WebDAVStorageDriver.webdavClient := Some plain_client;
     WebDAVStorageDriver.initialized := true |}.

(** Two copies asked in one batch, with paths that are not normalized. *)
Definition copy_batch : WebDAVStorageDriver.Method.call :=
  WebDAVStorageDriver.Method.batchCopyItems
    [ {| WebDAVBatchOperations.sourcePath := lit "docs//a.txt";
         WebDAVBatchOperations.targetPath := lit "/backup/a.txt/" |};
      {| WebDAVBatchOperations.sourcePath := lit "/docs/b.txt";
         WebDAVBatchOperations.targetPath := lit "backup///b.txt" |} ]
    Options.empty.

(** A probe was answered, and by a status from 200 to 299. *)
Definition accepted (answer : Response + jsstring * jsstring) : bool :=
  match answer with
  | inl response => ok response
  | inr _ => false
  end.

(** A probe was answered by such a status or by 401. *)
Definition reached (answer : Response + jsstring * jsstring) : bool :=
  match answer with
  | inl response => ok response || (status response =? 401)
  | inr _ => false
  end.

(** The probes of the first three stages, for the base-64 form
    [credentials] of the user name and the password. *)
Definition basic_header (credentials : jsstring) : headers :=
  [(lit "Authorization", lit "Basic " ++ credentials)].

Definition options_probe (config : webdavConfigService.StoredConfig)
           (credentials : jsstring) : Request :=
  {| Http.method := lit "OPTIONS";
     url := webdavConfigService.serverUrl_of config ++ [SLASH];
     requestHeaders := basic_header credentials; body := None |}.

Definition auth_probe (config : webdavConfigService.StoredConfig)
           (credentials : jsstring) : Request :=
  webdavConfigService.propfind_request config (basic_header credentials)
    "0" "<resourcetype/>".

Definition read_probe (config : webdavConfigService.StoredConfig)
           (credentials : jsstring) : Request :=
  webdavConfigService.propfind_request config (basic_header credentials)
    "1" "<resourcetype/><getcontentlength/><getlastmodified/>".

(** The text of the file the write stage uploads. *)
Definition probe_text (nowISOString : jsstring) (timestamp : Z) : jsstring :=
  lit "CloudPaste WebDAV测试文件" ++ [10] ++ lit "时间: " ++ nowISOString ++
  [10] ++ lit "测试ID: " ++ toString timestamp.

Definition no_surrogate (s : jsstring) : bool :=
  forallb (fun c => negb (is_surrogate c)) s.

Definition scenario_E_world : World :=
  {| remote := scenario_E_remote; sent := [] |}.

(* ================================================================== *)
(** * Properties *)
(* ================================================================== *)

(** ** Path normalisation *)

Lemma endsWith_single c : endsWith [c] [SLASH] = (SLASH =? c).
Proof. unfold endsWith. simpl. now rewrite andb_true_r. Qed.

Lemma endsWith_cons c d s : endsWith (c :: d :: s) [SLASH] = endsWith (d :: s) [SLASH].
Proof.
  unfold endsWith. change (rev (c :: d :: s)) with (rev (d :: s) ++ [c]).
  change (rev [SLASH]) with [SLASH].
  destruct (rev (d :: s)) as [|x r] eqn:E.
  - apply (f_equal (@List.length Z)) in E. rewrite length_rev in E. discriminate.
  - reflexivity.
Qed.

Lemma endsWith_snoc s c : endsWith (s ++ [c]) [SLASH] = (SLASH =? c).
Proof.
  unfold endsWith. rewrite rev_app_distr. simpl. now rewrite andb_true_r.
Qed.

Lemma collapse_head s : hd_error (collapse_slashes s) = hd_error s.
Proof.
  induction s as [|c s IH]; simpl; auto.
  destruct (c =? SLASH) eqn:Ec; auto.
  apply Z.eqb_eq in Ec. subst c.
  destruct s as [|d s]; auto.
  destruct (d =? SLASH) eqn:Ed; auto.
  apply Z.eqb_eq in Ed. subst d. exact IH.
Qed.

Lemma collapse_no_double s : no_double_slash (collapse_slashes s) = true.
Proof.
  induction s as [|c s IH]; auto.
  simpl. destruct (c =? SLASH) eqn:Ec.
  - destruct s as [|d s]; auto.
    destruct (d =? SLASH) eqn:Ed; auto.
    pose proof (collapse_head (d :: s)) as H.
    destruct (collapse_slashes (d :: s)) as [|x r]; auto.
    simpl in H. injection H as ->.
    change (negb ((SLASH =? SLASH) && (d =? SLASH)) && no_double_slash (d :: r) = true).
    rewrite Ed, andb_false_r. exact IH.
  - pose proof (collapse_head s) as H.
    destruct (collapse_slashes s) as [|x r]; auto.
    change (negb ((c =? SLASH) && (x =? SLASH)) && no_double_slash (x :: r) = true).
    rewrite Ec. exact IH.
Qed.

Lemma collapse_fixed s : no_double_slash s = true -> collapse_slashes s = s.
Proof.
  induction s as [|c s IH]; auto.
  intros H. simpl.
  destruct s as [|d s].
  - destruct (c =? SLASH) eqn:Ec; auto. apply Z.eqb_eq in Ec. now subst.
  - change (negb ((c =? SLASH) && (d =? SLASH)) && no_double_slash (d :: s) = true) in H.
    apply andb_true_iff in H. destruct H as [H1 H2].
    specialize (IH H2).
    destruct (c =? SLASH) eqn:Ec.
    + apply Z.eqb_eq in Ec. subst c. simpl in H1.
      destruct (d =? SLASH); [discriminate|]. now rewrite IH.
    + now rewrite IH.
Qed.

Lemma no_double_snoc s :
  no_double_slash s = true -> endsWith s [SLASH] = false ->
  no_double_slash (s ++ [SLASH]) = true.
Proof.
  induction s as [|c s IH]; auto.
  intros H E. destruct s as [|d s].
  - rewrite endsWith_single in E. simpl. rewrite Z.eqb_sym, E. reflexivity.
  - rewrite endsWith_cons in E.
    change (negb ((c =? SLASH) && (d =? SLASH)) && no_double_slash (d :: s) = true) in H.
    apply andb_true_iff in H. destruct H as [H1 H2].
    change (negb ((c =? SLASH) && (d =? SLASH)) && no_double_slash ((d :: s) ++ [SLASH]) = true).
    rewrite H1. now apply IH.
Qed.

Lemma no_double_removelast s :
  no_double_slash s = true ->
  no_double_slash (removelast s) = true /\
  (endsWith s [SLASH] = true -> endsWith (removelast s) [SLASH] = false).
Proof.
  induction s as [|c s IH]; auto.
  intros H. destruct s as [|d s].
  - split; auto.
  - change (negb ((c =? SLASH) && (d =? SLASH)) && no_double_slash (d :: s) = true) in H.
    apply andb_true_iff in H. destruct H as [H1 H2].
    destruct (IH H2) as [IH1 IH2].
    destruct s as [|e s].
    + simpl. split; auto. intros E. rewrite endsWith_cons, endsWith_single in E.
      rewrite endsWith_single. rewrite (Z.eqb_sym d) in H1. rewrite E, andb_true_r in H1.
      rewrite Z.eqb_sym. now destruct (c =? SLASH).
    + split.
      * change (removelast (c :: d :: e :: s)) with (c :: d :: removelast (e :: s)).
        change (removelast (d :: e :: s)) with (d :: removelast (e :: s)) in IH1.
        change (negb ((c =? SLASH) && (d =? SLASH)) && no_double_slash (d :: removelast (e :: s)) = true).
        now rewrite H1.
      * intros E. rewrite endsWith_cons in E.
        change (removelast (c :: d :: e :: s)) with (c :: d :: removelast (e :: s)).
        rewrite endsWith_cons.
        change (removelast (d :: e :: s)) with (d :: removelast (e :: s)) in IH2.
        now apply IH2.
Qed.

Lemma str_eqb_eq a b : str_eqb a b = true <-> a = b.
Proof. unfold str_eqb. destruct (list_eq_dec Z.eq_dec a b); split; congruence. Qed.

Lemma str_eqb_neq a b : str_eqb a b = false <-> a <> b.
Proof. unfold str_eqb. destruct (list_eq_dec Z.eq_dec a b); split; congruence. Qed.

(** A normal form: rooted, no repeated separator. *)
Lemma normalize_fixed_dir s :
  hd_error s = Some SLASH -> no_double_slash s = true ->
  endsWith s [SLASH] = true ->
  normalizeWebDAVPath s true = s.
Proof.
  intros Hh Hn He. unfold normalizeWebDAVPath.
  destruct s as [|x s]; [discriminate|]. simpl in Hh. injection Hh as ->.
  cbn [falsy startsWith]. rewrite Z.eqb_refl. cbn [andb].
  rewrite (collapse_fixed _ Hn). rewrite He. reflexivity.
Qed.

Lemma normalize_fixed_file s :
  hd_error s = Some SLASH -> no_double_slash s = true ->
  endsWith s [SLASH] = false \/ s = [SLASH] ->
  normalizeWebDAVPath s false = s.
Proof.
  intros Hh Hn He. unfold normalizeWebDAVPath.
  destruct s as [|x s]; [discriminate|]. simpl in Hh. injection Hh as ->.
  cbn [falsy startsWith]. rewrite Z.eqb_refl. cbn [andb negb].
  rewrite (collapse_fixed _ Hn).
  destruct He as [He | He]; rewrite He; reflexivity.
Qed.

Lemma normalize_normal (P : jsstring) (c : bool) :
  let N := normalizeWebDAVPath P c in
  hd_error N = Some SLASH /\ no_double_slash N = true /\
  (c = true -> endsWith N [SLASH] = true) /\
  (c = false -> endsWith N [SLASH] = false \/ N = [SLASH]).
Proof.
  destruct P as [|p P'].
  - cbv zeta. unfold normalizeWebDAVPath. cbn [falsy].
    split; [|split; [|split]]; auto.
  - set (P := p :: P'). cbv zeta.
    unfold normalizeWebDAVPath. cbn [falsy P]. fold P. cbv zeta.
    match goal with |- context [collapse_slashes ?x] => set (s1 := x) end.
    assert (H1 : hd_error s1 = Some SLASH).
    { unfold s1, P. cbn [startsWith]. destruct (SLASH =? p) eqn:E; auto.
      apply Z.eqb_eq in E. now subst. }
    set (s2 := collapse_slashes s1).
    assert (H2 : hd_error s2 = Some SLASH) by (unfold s2; now rewrite collapse_head).
    assert (N2 : no_double_slash s2 = true) by apply collapse_no_double.
    clearbody s2. clear H1. clearbody s1.
    destruct c; cbn [negb andb].
    + destruct (endsWith s2 [SLASH]) eqn:E; cbn [negb].
      * split; [|split; [|split]]; auto. discriminate.
      * split; [|split; [|split]].
        -- destruct s2; [discriminate|]. exact H2.
        -- now apply no_double_snoc.
        -- intros _. apply endsWith_snoc.
        -- discriminate.
    + destruct (endsWith s2 [SLASH]) eqn:E; cbn [andb].
      * destruct (str_eqb s2 [SLASH]) eqn:E1; cbn [negb].
        -- split; [|split; [|split]]; auto; try discriminate.
           intros _. right. now apply str_eqb_eq.
        -- apply str_eqb_neq in E1. unfold slice_0_m1.
           destruct (no_double_removelast s2 N2) as [A B].
           split; [|split; [|split]]; auto; try discriminate.
           destruct s2 as [|x [|y r]]; try discriminate.
           ++ simpl in H2. injection H2 as ->. congruence.
           ++ exact H2.
      * split; [|split; [|split]]; auto. discriminate.
Qed.

(** C5: normalizing a normalized path with the same collection flag
    changes nothing. *)
Theorem normalizeWebDAVPath_idempotent (P : jsstring) (c : bool) :
  normalizeWebDAVPath (normalizeWebDAVPath P c) c = normalizeWebDAVPath P c.
Proof.
  destruct (normalize_normal P c) as (Hh & Hn & Hd & Hf).
  destruct c; [apply normalize_fixed_dir | apply normalize_fixed_file]; auto.
Qed.

(** ** Percent-encoding of paths *)

(** Linear arithmetic with quotients and remainders by constants. *)
Ltac dlia := Z.div_mod_to_equations; lia.

(** Decides the comparisons of a goal by linear arithmetic. *)
Ltac zbool :=
  repeat match goal with
         | |- context [?a <=? ?b] => destruct (Z.leb_spec a b); try dlia
         | |- context [?a <? ?b] => destruct (Z.ltb_spec a b); try dlia
         | |- context [?a =? ?b] => destruct (Z.eqb_spec a b); try dlia
         end;
  cbn [andb orb negb].

Lemma hex_value_digit (n : Z) : 0 <= n < 16 -> hex_value (hex_digit n) = Some n.
Proof.
  intros H. unfold hex_value, hex_digit, is_digit.
  destruct (Z.ltb_spec n 10); zbool; f_equal; lia.
Qed.

Lemma ParseHexOctet_escape (b : Z) (rest : jsstring) :
  octet b ->
  ParseHexOctet (hex_digit (b / 16) :: hex_digit (b mod 16) :: rest) = Some (b, rest).
Proof.
  intros H. unfold octet in H. unfold ParseHexOctet.
  rewrite !hex_value_digit by dlia.
  f_equal. f_equal. dlia.
Qed.

Lemma continuation_escapes (bs : list Z) (rest : jsstring) :
  Forall octet bs ->
  continuation_octets (List.length bs) (escape_octets bs ++ rest) = Some (bs, rest).
Proof.
  induction 1 as [|b bs Hb Hbs IH]; [reflexivity|].
  unfold escape_octets in *. cbn [List.length List.map List.concat escape_octet app].
  cbn [continuation_octets]. rewrite Z.eqb_refl.
  rewrite ParseHexOctet_escape by exact Hb. rewrite IH. reflexivity.
Qed.

(** One escaped sequence of octets at the head of the input of [Decode]. *)
Lemma decode_escape (b : Z) (bs : list Z) (rest : jsstring) (fuel : nat) :
  Forall octet (b :: bs) ->
  decode_fuel (S fuel) (escape_octets (b :: bs) ++ rest) =
  if b <? 128
  then option_map (cons b) (decode_fuel fuel (escape_octets bs ++ rest))
  else
    match utf8_length_of_lead b with
    | S n =>
        match continuation_octets n (escape_octets bs ++ rest) with
        | Some (bs', rest') =>
            match utf8_code_point (b :: bs') with
            | Some cp => option_map (app (utf16_units cp)) (decode_fuel fuel rest')
            | None => None
            end
        | None => None
        end
    | O => None
    end.
Proof.
  intros H. inversion H as [|? ? Hb Hbs]; subst.
  unfold escape_octets. cbn [List.map List.concat escape_octet app].
  cbn [decode_fuel]. rewrite Z.eqb_refl.
  rewrite ParseHexOctet_escape by exact Hb. reflexivity.
Qed.

(** The octets of a scalar value are read back as that value. *)
Lemma utf8_octets_spec (cp : Z) :
  scalar cp ->
  exists b bs,
    utf8_octets cp = b :: bs /\
    Forall octet (b :: bs) /\
    (b <? 128) = (cp <? 128) /\
    (128 <= cp -> utf8_length_of_lead b = S (List.length bs)) /\
    (cp < 128 -> bs = [] /\ b = cp) /\
    utf8_code_point (b :: bs) = Some cp.
Proof.
  intros [Hr Hs]. unfold is_surrogate in Hs.
  unfold utf8_octets.
  destruct (Z.ltb_spec cp 128) as [H1|H1].
  { exists cp, []. split; [reflexivity|]. split; [repeat constructor; unfold octet; dlia|].
    split; [zbool; reflexivity|]. split; [lia|]. split; [auto|].
    unfold utf8_code_point. zbool. reflexivity. }
  destruct (Z.ltb_spec cp 2048) as [H2|H2].
  { eexists _, _. split; [reflexivity|].
    split; [repeat constructor; unfold octet; dlia|].
    split; [zbool; reflexivity|]. split.
    - intros _. unfold utf8_length_of_lead. zbool. reflexivity.
    - split; [lia|]. unfold utf8_code_point, is_continuation. zbool. f_equal. dlia. }
  destruct (Z.ltb_spec cp 65536) as [H3|H3].
  { eexists _, _. split; [reflexivity|].
    split; [repeat constructor; unfold octet; dlia|].
    split; [zbool; reflexivity|]. split.
    - intros _. unfold utf8_length_of_lead. zbool. reflexivity.
    - split; [lia|]. unfold utf8_code_point, is_continuation, is_surrogate.
      assert (E : (224 + cp / 4096 - 224) * 4096 + (128 + (cp / 64) mod 64 - 128) * 64 +
                  (128 + cp mod 64 - 128) = cp) by dlia.
      rewrite E.
      revert Hs. zbool; intros Hs; try discriminate; reflexivity. }
  { eexists _, _. split; [reflexivity|].
    split; [repeat constructor; unfold octet; dlia|].
    split; [zbool; reflexivity|]. split.
    - intros _. unfold utf8_length_of_lead. zbool. reflexivity.
    - split; [lia|]. unfold utf8_code_point, is_continuation.
      assert (E : (240 + cp / 262144 - 240) * 262144 +
                  (128 + (cp / 4096) mod 64 - 128) * 4096 +
                  (128 + (cp / 64) mod 64 - 128) * 64 +
                  (128 + cp mod 64 - 128) = cp) by dlia.
      rewrite E. zbool. reflexivity. }
Qed.

Lemma decode_encoded_point (cp : Z) (rest : jsstring) (fuel : nat) :
  scalar cp ->
  decode_fuel (S fuel) (escape_octets (utf8_octets cp) ++ rest) =
  option_map (app (utf16_units cp)) (decode_fuel fuel rest).
Proof.
  intros Hcp.
  destruct (utf8_octets_spec cp Hcp) as (b & bs & -> & Hoct & Hlt & Hlead & Hone & Hback).
  rewrite (decode_escape b bs rest fuel Hoct). rewrite Hlt.
  destruct (Z.ltb_spec cp 128) as [H|H].
  - destruct (Hone H) as [-> ->]. unfold escape_octets. cbn [List.map List.concat app].
    unfold utf16_units. destruct (Z.ltb_spec cp 65536); [|lia].
    destruct (decode_fuel fuel rest); reflexivity.
  - rewrite (Hlead H).
    inversion Hoct as [|? ? _ Hbs]; subst.
    rewrite (continuation_escapes bs rest Hbs). rewrite Hback. reflexivity.
Qed.

Lemma unreserved_facts (c : Z) :
  is_unreserved c = true ->
  c <> PERCENT /\ c <> SLASH /\ is_surrogate c = false.
Proof.
  unfold is_unreserved, is_alpha, is_digit, is_mark, is_surrogate, PERCENT, SLASH.
  intros H. repeat split; try (intros ->; discriminate H).
  destruct (Z.leb_spec 55296 c); [|reflexivity].
  revert H. zbool; try discriminate; try reflexivity.
Qed.

Lemma hex_digit_no_slash (n : Z) : 0 <= n < 16 -> hex_digit n <> SLASH.
Proof. unfold hex_digit, SLASH. intros H. destruct (Z.ltb_spec n 10); lia. Qed.

Lemma escape_octets_no_slash (bs : list Z) :
  Forall octet bs -> Forall (fun c => c <> SLASH) (escape_octets bs).
Proof.
  unfold escape_octets. induction 1 as [|b bs Hb Hbs IH]; [constructor|].
  cbn [List.map List.concat escape_octet app]. unfold octet in Hb.
  repeat constructor; try (apply hex_digit_no_slash; dlia); [discriminate | exact IH].
Qed.

Lemma utf8_octets_are_octets (cp : Z) : scalar cp -> Forall octet (utf8_octets cp).
Proof.
  intros H. destruct (utf8_octets_spec cp H) as (b & bs & -> & Hoct & _). exact Hoct.
Qed.

Lemma pair_is_scalar (hi lo : Z) :
  is_high_surrogate hi = true -> is_low_surrogate lo = true ->
  scalar (pair_code_point hi lo) /\ utf16_units (pair_code_point hi lo) = [hi; lo].
Proof.
  unfold is_high_surrogate, is_low_surrogate, scalar, is_surrogate, pair_code_point,
    utf16_units.
  intros H1 H2.
  apply andb_true_iff in H1. destruct H1 as [A B].
  apply andb_true_iff in H2. destruct H2 as [C D].
  apply Z.leb_le in A, B, C, D.
  split.
  - split; [lia|]. zbool; try reflexivity.
  - destruct (Z.ltb_spec ((hi - 55296) * 1024 + (lo - 56320) + 65536) 65536); [lia|].
    f_equal; [dlia|]. f_equal. dlia.
Qed.

Lemma unit_is_scalar (c : Z) :
  code_unit c -> is_high_surrogate c = false -> is_low_surrogate c = false ->
  scalar c /\ utf16_units c = [c].
Proof.
  unfold code_unit, is_high_surrogate, is_low_surrogate, scalar, is_surrogate,
    utf16_units.
  intros H A B. split.
  - split; [lia|]. revert A B. zbool; intros; try discriminate; try reflexivity.
  - destruct (Z.ltb_spec c 65536); [reflexivity | lia].
Qed.

(** What [encodeURIComponent] makes of a well-formed string: it does not
    throw, its result holds no separator, and [Decode] reads the string
    back from it within [length s + 1] iterations. *)
Lemma encode_then_decode (n : nat) :
  forall s : jsstring,
    (List.length s <= n)%nat ->
    Forall code_unit s -> well_formed s = true ->
    exists e,
      encodeURIComponent s = Some e /\
      Forall (fun c => c <> SLASH) e /\
      (List.length s <= List.length e)%nat /\
      forall fuel, (List.length s < fuel)%nat -> decode_fuel fuel e = Some s.
Proof.
  induction n as [|n IH]; intros s Hn Hu Hw.
  - destruct s; [|cbn in Hn; lia].
    exists []. repeat split; auto.
    intros [|fuel] Hf; [cbn in Hf; lia | reflexivity].
  - destruct s as [|c s]; [exists []; repeat split; auto;
                           intros [|fuel] Hf; [cbn in Hf; lia | reflexivity]|].
    inversion Hu as [|? ? Hc Hs]; subst.
    cbn [encodeURIComponent well_formed] in *.
    destruct (is_unreserved c) eqn:Eu.
    + destruct (unreserved_facts c Eu) as (Hp & Hsl & Hsur).
      assert (Hh : is_high_surrogate c = false).
      { unfold is_surrogate in Hsur. unfold is_high_surrogate.
        revert Hsur. zbool; intros; try discriminate; try reflexivity. }
      assert (Hl : is_low_surrogate c = false).
      { unfold is_surrogate in Hsur. unfold is_low_surrogate.
        revert Hsur. zbool; intros; try discriminate; try reflexivity. }
      rewrite Hh, Hl in Hw. cbn [negb andb] in Hw.
      destruct (IH s ltac:(cbn in Hn; lia) Hs Hw) as (e & He & Hno & Hlen & Hdec).
      exists (c :: e). rewrite He. split; [reflexivity|].
      split; [constructor; assumption|]. split; [cbn; lia|].
      intros [|fuel] Hf; [cbn in Hf; lia|].
      cbn [decode_fuel]. destruct (Z.eqb_spec c PERCENT); [contradiction|].
      rewrite Hdec by (cbn in Hf; lia). reflexivity.
    + destruct (is_high_surrogate c) eqn:Eh.
      * destruct s as [|d s]; [discriminate|].
        apply andb_true_iff in Hw. destruct Hw as [Ed Hw].
        assert (El : is_low_surrogate c = false).
        { unfold is_high_surrogate in Eh. unfold is_low_surrogate.
          revert Eh. zbool; intros; try discriminate; try reflexivity. }
        rewrite El, Ed.
        inversion Hs as [|? ? Hd Hs']; subst.
        destruct (pair_is_scalar c d Eh Ed) as [Hsc Hunits].
        destruct (IH s ltac:(cbn in Hn; lia) Hs' Hw) as (e & He & Hno & Hlen & Hdec).
        exists (escape_octets (utf8_octets (pair_code_point c d)) ++ e).
        rewrite He. split; [reflexivity|].
        split; [apply Forall_app; split;
                [apply escape_octets_no_slash, utf8_octets_are_octets, Hsc | exact Hno]|].
        split.
        { rewrite length_app.
          destruct (utf8_octets_spec _ Hsc) as (b & bs & E & _ & Hlt & _).
          rewrite E. unfold escape_octets.
          cbn [List.map List.concat escape_octet app List.length].
          destruct bs as [|b' bs].
          - exfalso. unfold utf8_octets in E. revert E.
            destruct Hsc as [Hr _]. unfold pair_code_point in *.
            unfold is_high_surrogate, is_low_surrogate in Eh, Ed.
            apply andb_true_iff in Eh, Ed.
            repeat rewrite Z.leb_le in Eh. repeat rewrite Z.leb_le in Ed.
            zbool; try discriminate.
          - cbn [List.map List.concat escape_octet app List.length]. lia. }
        intros [|fuel] Hf; [cbn in Hf; lia|].
        rewrite (decode_encoded_point _ e fuel Hsc), Hunits.
        rewrite Hdec by (cbn in Hf; lia). reflexivity.
      * destruct (is_low_surrogate c) eqn:El; [discriminate|]. cbn [negb andb] in Hw.
        destruct (unit_is_scalar c Hc Eh El) as [Hsc Hunits].
        destruct (IH s ltac:(cbn in Hn; lia) Hs Hw) as (e & He & Hno & Hlen & Hdec).
        exists (escape_octets (utf8_octets c) ++ e).
        rewrite He. split; [reflexivity|].
        split; [apply Forall_app; split;
                [apply escape_octets_no_slash, utf8_octets_are_octets, Hsc | exact Hno]|].
        split.
        { rewrite length_app.
          destruct (utf8_octets_spec _ Hsc) as (b & bs & E & _).
          rewrite E. unfold escape_octets.
          cbn [List.map List.concat escape_octet app List.length]. lia. }
        intros [|fuel] Hf; [cbn in Hf; lia|].
        rewrite (decode_encoded_point _ e fuel Hsc), Hunits.
        rewrite Hdec by (cbn in Hf; lia). reflexivity.
Qed.

Lemma decodeURIComponent_encodeURIComponent (s : jsstring) :
  Forall code_unit s -> well_formed s = true ->
  exists e,
    encodeURIComponent s = Some e /\
    Forall (fun c => c <> SLASH) e /\
    decodeURIComponent e = Some s.
Proof.
  intros Hu Hw.
  destruct (encode_then_decode (List.length s) s (le_n _) Hu Hw)
    as (e & He & Hno & Hlen & Hdec).
  exists e. split; [exact He|]. split; [exact Hno|].
  unfold decodeURIComponent. apply Hdec. lia.
Qed.

Lemma code_units_Forall (s : jsstring) : code_units s = true -> Forall code_unit s.
Proof.
  unfold code_units. rewrite forallb_forall. intros H. apply Forall_forall.
  intros c Hc. specialize (H c Hc). apply andb_true_iff in H. destruct H as [A B].
  apply Z.leb_le in A. apply Z.ltb_lt in B. split; assumption.
Qed.

(** *** Segments *)

Lemma split_not_nil (sep : Z) (s : jsstring) : split sep s <> [].
Proof.
  destruct s as [|c s]; cbn [split]; [discriminate|].
  destruct (c =? sep); [discriminate|].
  destruct (split sep s); discriminate.
Qed.

Lemma split_cons_other (sep c : Z) (s : jsstring) :
  c <> sep ->
  split sep (c :: s) = (c :: hd [] (split sep s)) :: tl (split sep s).
Proof.
  intros H. cbn [split]. destruct (Z.eqb_spec c sep); [contradiction|].
  destruct (split sep s) eqn:E; [now apply split_not_nil in E | reflexivity].
Qed.

Lemma join_cons (sep : Z) (seg : jsstring) (segs : list jsstring) :
  segs <> [] -> join sep (seg :: segs) = seg ++ sep :: join sep segs.
Proof. destruct segs; [congruence | reflexivity]. Qed.

Lemma join_split (sep : Z) (s : jsstring) : join sep (split sep s) = s.
Proof.
  induction s as [|c s IH]; [reflexivity|].
  cbn [split]. destruct (Z.eqb_spec c sep) as [->|Hne].
  - rewrite join_cons by apply split_not_nil. now rewrite IH.
  - destruct (split sep s) as [|seg segs] eqn:E; [now apply split_not_nil in E|].
    destruct segs as [|seg' segs].
    + cbn [join] in *. now rewrite IH.
    + rewrite join_cons by discriminate. rewrite join_cons in IH by discriminate.
      cbn [app]. now rewrite IH.
Qed.

Lemma split_app_sep (sep : Z) (seg rest : jsstring) :
  Forall (fun c => c <> sep) seg ->
  split sep (seg ++ sep :: rest) = seg :: split sep rest.
Proof.
  induction 1 as [|c seg Hc Hseg IH].
  - cbn [app split]. now rewrite Z.eqb_refl.
  - cbn [app]. rewrite split_cons_other by exact Hc. now rewrite IH.
Qed.

Lemma split_no_sep (sep : Z) (seg : jsstring) :
  Forall (fun c => c <> sep) seg -> split sep seg = [seg].
Proof.
  induction 1 as [|c seg Hc Hseg IH]; [reflexivity|].
  rewrite split_cons_other by exact Hc. now rewrite IH.
Qed.

Lemma split_join (sep : Z) (segs : list jsstring) :
  segs <> [] ->
  Forall (Forall (fun c => c <> sep)) segs ->
  split sep (join sep segs) = segs.
Proof.
  intros Hne H. induction H as [|seg segs Hseg Hsegs IH]; [now contradiction Hne|].
  destruct segs as [|seg' segs].
  - cbn [join]. now apply split_no_sep.
  - rewrite join_cons by discriminate. rewrite split_app_sep by exact Hseg.
    rewrite IH by discriminate. reflexivity.
Qed.

(** Cutting a well-formed string at a separator cuts no surrogate pair. *)
Lemma split_well_formed (n : nat) :
  forall s : jsstring,
    (List.length s <= n)%nat -> Forall code_unit s -> well_formed s = true ->
    Forall (fun seg => Forall code_unit seg /\ well_formed seg = true) (split SLASH s).
Proof.
  induction n as [|n IH]; intros s Hn Hu Hw.
  - destruct s; [|cbn in Hn; lia]. repeat constructor.
  - destruct s as [|c s]; [repeat constructor|].
    inversion Hu as [|? ? Hc Hs]; subst.
    cbn [well_formed] in Hw.
    destruct (is_high_surrogate c) eqn:Eh.
    + destruct s as [|d s]; [discriminate|].
      apply andb_true_iff in Hw. destruct Hw as [Ed Hw].
      inversion Hs as [|? ? Hd Hs']; subst.
      assert (Hcs : c <> SLASH).
      { unfold is_high_surrogate in Eh. apply andb_true_iff in Eh.
        destruct Eh as [A _]. apply Z.leb_le in A. unfold SLASH. lia. }
      assert (Hds : d <> SLASH).
      { unfold is_low_surrogate in Ed. apply andb_true_iff in Ed.
        destruct Ed as [A _]. apply Z.leb_le in A. unfold SLASH. lia. }
      rewrite split_cons_other by exact Hcs. rewrite split_cons_other by exact Hds.
      pose proof (IH s ltac:(cbn in Hn; lia) Hs' Hw) as Hrec.
      destruct (split SLASH s) as [|seg segs] eqn:E; [now apply split_not_nil in E|].
      inversion Hrec as [|? ? [Hsu Hsw] Hrest]; subst. cbn [hd tl].
      constructor; [|exact Hrest]. split.
      * constructor; [exact Hc|]. constructor; assumption.
      * cbn [well_formed]. now rewrite Eh, Ed.
    + apply andb_true_iff in Hw. destruct Hw as [El Hw].
      pose proof (IH s ltac:(cbn in Hn; lia) Hs Hw) as Hrec.
      cbn [split]. destruct (c =? SLASH).
      * constructor; [split; [constructor | reflexivity] | exact Hrec].
      * destruct (split SLASH s) as [|seg segs] eqn:E; [now apply split_not_nil in E|].
        inversion Hrec as [|? ? [Hsu Hsw] Hrest]; subst.
        constructor; [|exact Hrest]. split.
        -- constructor; assumption.
        -- cbn [well_formed]. now rewrite Eh, El.
Qed.

Lemma map_throwing_round_trip (segs : list jsstring) :
  Forall (fun seg => Forall code_unit seg /\ well_formed seg = true) segs ->
  exists encoded,
    map_throwing encodeURIComponent segs = Some encoded /\
    Forall (Forall (fun c => c <> SLASH)) encoded /\
    List.length encoded = List.length segs /\
    map_throwing decodeURIComponent encoded = Some segs.
Proof.
  induction 1 as [|seg segs [Hu Hw] Hsegs IH].
  - exists []. repeat split; constructor.
  - destruct IH as (encoded & He & Hno & Hlen & Hd).
    destruct (decodeURIComponent_encodeURIComponent seg Hu Hw) as (e & Ee & Ene & Ed).
    exists (e :: encoded). cbn [map_throwing]. rewrite Ee, He, Ed, Hd.
    repeat split; [constructor; assumption | cbn; now rewrite Hlen].
Qed.

(** C6 (amended): for every path [P] without unpaired surrogate,
    [encodeWebDAVPath(P)] returns a text [E] whose segments are the
    encoded segments of [P], one for one (the separators are those of
    [P]), and [decodeWebDAVPath(E)] returns [P]. *)
Theorem decodeWebDAVPath_encodeWebDAVPath (P : jsstring) :
  code_units P = true ->
  well_formed P = true ->
  exists E : jsstring,
    encodeWebDAVPath P = Some E /\
    map_throwing encodeURIComponent (split SLASH P) = Some (split SLASH E) /\
    decodeWebDAVPath E = Some P.
Proof.
  intros Hu Hw. apply code_units_Forall in Hu.
  pose proof (split_well_formed (List.length P) P (le_n _) Hu Hw) as Hsegs.
  destruct (map_throwing_round_trip _ Hsegs) as (encoded & He & Hno & Hlen & Hd).
  assert (Hne : encoded <> []).
  { intros ->. cbn in Hlen. symmetry in Hlen. apply length_zero_iff_nil in Hlen.
    now apply split_not_nil in Hlen. }
  exists (join SLASH encoded).
  unfold encodeWebDAVPath, decodeWebDAVPath. rewrite He. cbn [option_map].
  rewrite (split_join SLASH encoded Hne Hno). rewrite Hd. cbn [option_map].
  rewrite join_split. repeat split; reflexivity.
Qed.

Lemma decodeWebDAVPath_encodeWebDAVPath_reserved :
  exists E : jsstring,
    encodeWebDAVPath reserved_path = Some E /\
    map_throwing encodeURIComponent (split SLASH reserved_path) = Some (split SLASH E) /\
    decodeWebDAVPath E = Some reserved_path.
Proof.
  apply (decodeWebDAVPath_encodeWebDAVPath reserved_path); vm_compute; reflexivity.
Defined.

(** C6 as stated fails: the path holds a reserved character, and
    encoding it throws (URIError), so that nothing is decoded back. *)
Lemma encodeWebDAVPath_throws_on_unpaired_surrogate :
  code_units unpaired_path = true /\
  In 32 unpaired_path /\
  encodeWebDAVPath unpaired_path = None /\
  (forall E, encodeWebDAVPath unpaired_path = Some E ->
             decodeWebDAVPath E = Some unpaired_path) /\
  ~ (exists E, encodeWebDAVPath unpaired_path = Some E /\
               decodeWebDAVPath E = Some unpaired_path).
Proof.
  split; [reflexivity|].
  split; [now left|].
  split; [vm_compute; reflexivity|].
  split; [intros E H; vm_compute in H; discriminate|].
  intros (E & H & _). vm_compute in H. discriminate.
Qed.

(** ** The regular expression matcher *)

Lemma push_all_app g u v : push_all g (u ++ v) = push_all (push_all g u) v.
Proof. unfold push_all. apply fold_left_app. Qed.

Lemma push_all_open (u : jsstring) : forall cap,
  push_all {| is_open := true; captured := cap |} u =
  {| is_open := true; captured := rev u ++ cap |}.
Proof.
  induction u as [|c u IH]; intros cap; [reflexivity|].
  cbn [push_all fold_left]. unfold push at 2. cbn [is_open captured].
  change (fold_left push u ?g) with (push_all g u).
  rewrite IH. cbn [rev]. now rewrite <- app_assoc.
Qed.

Lemma push_all_closed (u : jsstring) : forall cap,
  push_all {| is_open := false; captured := cap |} u =
  {| is_open := false; captured := cap |}.
Proof.
  induction u as [|c u IH]; intros cap; [reflexivity|].
  cbn [push_all fold_left]. unfold push at 2. cbn [is_open].
  apply IH.
Qed.

Lemma ci_eqb_refl a : ci_eqb a a = true.
Proof. apply Z.eqb_refl. Qed.

Lemma starts_ci_self (L s : jsstring) : starts_ci (L ++ s) L = true.
Proof. induction L as [|a L IH]; [reflexivity|]. cbn. now rewrite ci_eqb_refl. Qed.

(** A literal at the head of the regex: it is matched unit by unit. *)
Lemma run_literal (L : jsstring) (r : regex) : forall (s : jsstring) (g : capture),
  run true (literal L ++ r) (L ++ s) g = run true r s (push_all g L).
Proof.
  induction L as [|a L IH]; intros s g; [reflexivity|].
  cbn [literal List.map app run atom_matches].
  fold (ci_eqb a a). rewrite ci_eqb_refl. apply IH.
Qed.

Lemma run_literal_fails (L : jsstring) (r : regex) : forall (s : jsstring) (g : capture),
  starts_ci s L = false -> run true (literal L ++ r) s g = None.
Proof.
  induction L as [|a L IH]; intros s g H; [discriminate|].
  cbn [literal List.map app run atom_matches].
  destruct s as [|c s]; [reflexivity|].
  cbn [starts_ci] in H. fold (ci_eqb a c).
  destruct (ci_eqb a c); [|reflexivity].
  apply IH. exact H.
Qed.

(** The search moves on from a start where the literal does not match. *)
Lemma search_skip (L : jsstring) (r : regex) (c : Z) (s : jsstring) :
  starts_ci (c :: s) L = false ->
  search true (literal L ++ r) (c :: s) = search true (literal L ++ r) s.
Proof.
  intros H. cbn [search]. now rewrite run_literal_fails.
Qed.

(** An occurrence that starts in [t] and runs into what follows [t] would
    need a unit of the needle, other than the first, to match the unit
    that follows. *)
Lemma no_straddle (needle : jsstring) (x : Z) :
  forallb (fun a => negb (ci_eqb a x)) (tl needle) = true ->
  forall (t s : jsstring),
    t <> [] -> starts_ci (t ++ x :: s) needle = true -> starts_ci t needle = true.
Proof.
  induction needle as [|a needle IH]; intros Hx t s Ht H; [reflexivity|].
  destruct t as [|c t]; [congruence|].
  cbn [app starts_ci] in *.
  apply andb_true_iff in H. destruct H as [Hac Hrest]. rewrite Hac. cbn [andb].
  cbn [tl] in Hx.
  destruct needle as [|b needle]; [reflexivity|].
  destruct t as [|c' t].
  - cbn [app starts_ci] in Hrest. cbn [forallb] in Hx.
    apply andb_true_iff in Hrest. destruct Hrest as [Hbx _].
    apply andb_true_iff in Hx. destruct Hx as [Hx _].
    rewrite Hbx in Hx. discriminate.
  - apply (IH (proj2 (proj1 (andb_true_iff _ _) Hx)) (c' :: t) s); [discriminate | exact Hrest].
Qed.

(** The search passes over a prefix that does not hold the literal. *)
Lemma search_passes (L : jsstring) (r : regex) (x : Z) (s : jsstring) :
  forallb (fun a => negb (ci_eqb a x)) (tl L) = true ->
  forall pre : jsstring,
    contains_ci pre L = false ->
    search true (literal L ++ r) (pre ++ x :: s) =
    search true (literal L ++ r) (x :: s).
Proof.
  intros Hx. induction pre as [|c pre IH]; intros H; [reflexivity|].
  cbn [contains_ci] in H. apply orb_false_iff in H. destruct H as [Hhere Hlater].
  change ((c :: pre) ++ x :: s) with (c :: (pre ++ x :: s)).
  rewrite search_skip; [now apply IH|].
  destruct (starts_ci (c :: pre ++ x :: s) L) eqn:E; [|reflexivity].
  apply (no_straddle L x Hx (c :: pre) s) in E; [congruence | discriminate].
Qed.

(** [[^>]*>]: the star stops at the first [>]. *)
Lemma greedy_until (stop : Z) (k : jsstring -> capture -> option result)
      (u s : jsstring) :
  forallb (fun c => negb (ci_eqb stop c)) u = true ->
  (forall c t g, ci_eqb stop c = false -> k (c :: t) g = None) ->
  forall g,
    greedy (atom_matches true (NotChr stop)) k (u ++ stop :: s) g =
    k (stop :: s) (push_all g u).
Proof.
  intros Hu Hk. induction u as [|c u IH]; intros g.
  - cbn [app greedy atom_matches push_all fold_left].
    fold (ci_eqb stop stop). rewrite ci_eqb_refl. reflexivity.
  - cbn [forallb] in Hu. apply andb_true_iff in Hu. destruct Hu as [Hc Hu].
    cbn [app greedy atom_matches]. fold (ci_eqb stop c).
    rewrite Hc. rewrite (IH Hu).
    apply negb_true_iff in Hc.
    cbn [push_all fold_left].
    change (fold_left push u (push g c)) with (push_all (push g c) u).
    destruct (k (stop :: s) (push_all (push g c) u)); [reflexivity|].
    apply Hk. exact Hc.
Qed.

(** A greedy star over units that all match, up to a unit that does not. *)
Lemma greedy_all (p : Z -> bool) (k : jsstring -> capture -> option result)
      (u s : jsstring) (res : result) :
  forallb p u = true ->
  match s with c :: _ => p c = false | [] => True end ->
  forall g,
    k s (push_all g u) = Some res ->
    greedy p k (u ++ s) g = Some res.
Proof.
  intros Hu Hs. induction u as [|c u IH]; intros g Hk.
  - cbn [app push_all fold_left] in *. destruct s as [|c s]; cbn [greedy].
    + exact Hk.
    + now rewrite Hs.
  - cbn [forallb] in Hu. apply andb_true_iff in Hu. destruct Hu as [Hc Hu].
    cbn [app greedy]. rewrite Hc. rewrite (IH Hu (push g c) Hk). reflexivity.
Qed.

(** [([\s\S]*?)LITERAL] at the end of a regex: the lazy star stops at the
    first occurrence of the literal, and the group holds what precedes
    it. *)
Lemma lazy_until (p : Z -> bool) (x : Z) (L' : jsstring) (inner rest : jsstring) :
  forallb (fun a => negb (ci_eqb a x)) L' = true ->
  forallb p inner = true ->
  contains_ci inner (x :: L') = false ->
  forall cap,
    lazy p (run true (GroupClose :: literal (x :: L'))) (inner ++ (x :: L') ++ rest)
         {| is_open := true; captured := cap |} =
    Some ({| is_open := false; captured := rev inner ++ cap |}, rest).
Proof.
  intros Hx. induction inner as [|c inner IH]; intros Hp Hno cap.
  - cbn [app rev].
    assert (E : run true (GroupClose :: literal (x :: L')) (x :: L' ++ rest)
                  {| is_open := true; captured := cap |} =
                Some ({| is_open := false; captured := cap |}, rest)).
    { cbn [run captured].
      pose proof (run_literal (x :: L') [] rest {| is_open := false; captured := cap |}) as R.
      rewrite app_nil_r in R. cbn [app] in R. rewrite R.
      rewrite push_all_closed. reflexivity. }
    cbn [lazy]. rewrite E. reflexivity.
  - cbn [forallb] in Hp. apply andb_true_iff in Hp. destruct Hp as [Hc Hp].
    cbn [contains_ci] in Hno. apply orb_false_iff in Hno. destruct Hno as [Hhere Hlater].
    assert (F : run true (GroupClose :: literal (x :: L'))
                  ((c :: inner) ++ (x :: L') ++ rest)
                  {| is_open := true; captured := cap |} = None).
    { cbn [run captured].
      pose proof (run_literal_fails (x :: L') [] ((c :: inner) ++ (x :: L') ++ rest)
                    {| is_open := false; captured := cap |}) as R.
      rewrite app_nil_r in R. apply R.
      destruct (starts_ci ((c :: inner) ++ (x :: L') ++ rest) (x :: L')) eqn:E;
        [|reflexivity].
      change ((x :: L') ++ rest) with (x :: (L' ++ rest)) in E.
      apply (no_straddle (x :: L') x Hx (c :: inner) (L' ++ rest)) in E;
        [congruence | discriminate]. }
    change ((c :: inner) ++ (x :: L') ++ rest) with (c :: (inner ++ (x :: L') ++ rest)) in *.
    cbn [lazy]. rewrite F, Hc.
    unfold push. cbn [is_open captured].
    rewrite (IH Hp Hlater). cbn [rev]. now rewrite <- app_assoc.
Qed.

Lemma search_at_head (r : regex) (s : jsstring) (g : capture) (rest : jsstring) :
  run true r s no_capture = Some (g, rest) ->
  search true r s = Some (rev (captured g), rest).
Proof. intros H. destruct s; cbn [search]; rewrite H; reflexivity. Qed.

Lemma search_passes_literal (L L' : jsstring) (x : Z) (r : regex) (pre s : jsstring) :
  L = x :: L' ->
  forallb (fun a => negb (ci_eqb a x)) L' = true ->
  contains_ci pre L = false ->
  search true (literal L ++ r) (pre ++ L ++ s) = search true (literal L ++ r) (L ++ s).
Proof. intros -> Hx Hpre. now apply (search_passes (x :: L') r x (L' ++ s) Hx). Qed.

(** An element [<d:TAG ATTRS>INNER</d:TAG>] whose opening tag is the first
    of its name in the text and whose closing tag is the first after it:
    the group of the regex holds [INNER]. *)
Lemma search_element (a : atom) (OPEN CLOSE : jsstring)
      (pre attrs inner rest : jsstring) :
  OPEN = 60 :: tl OPEN ->
  forallb (fun u => negb (ci_eqb u 60)) (tl OPEN) = true ->
  CLOSE = 60 :: tl CLOSE ->
  forallb (fun u => negb (ci_eqb u 60)) (tl CLOSE) = true ->
  contains_ci pre OPEN = false ->
  forallb (fun c => negb (ci_eqb GT c)) attrs = true ->
  forallb (atom_matches true a) inner = true ->
  contains_ci inner CLOSE = false ->
  search true
    (literal OPEN ++
     [Star (NotChr GT); One (Chr GT); GroupOpen; LazyStar a; GroupClose] ++
     literal CLOSE)
    (pre ++ OPEN ++ attrs ++ GT :: inner ++ CLOSE ++ rest)
  = Some (inner, rest).
Proof.
  intros Eopen Hopen Eclose Hclose Hpre Hattrs Hinner Hno.
  rewrite (search_passes_literal OPEN (tl OPEN) 60 _ pre _ Eopen Hopen Hpre).
  match goal with |- search true ?r ?s = _ =>
    enough (R : run true r s no_capture
                = Some ({| is_open := false; captured := rev inner |}, rest)) end.
  { rewrite (search_at_head _ _ _ _ R). cbn [captured]. now rewrite rev_involutive. }
  rewrite run_literal. unfold no_capture. rewrite push_all_closed.
  cbn [app run].
  rewrite greedy_until; [| exact Hattrs |].
  - cbn [atom_matches]. fold (ci_eqb GT GT). rewrite ci_eqb_refl.
    revert Hno. rewrite Eclose. intros Hno.
    pose proof (lazy_until (atom_matches true a) 60 (tl CLOSE) inner rest
                  Hclose Hinner Hno []) as Lz.
    rewrite app_nil_r in Lz. exact Lz.
  - intros c t g Hc. cbn [run atom_matches]. fold (ci_eqb GT c). now rewrite Hc.
Qed.

Lemma digit_is_no_space (c : Z) : is_digit c = true -> is_space c = false.
Proof.
  unfold is_digit, is_space. intros H.
  apply andb_true_iff in H. destruct H as [H1 H2].
  apply Z.leb_le in H1. apply Z.leb_le in H2.
  repeat match goal with
         | |- context [?a <=? ?b] => destruct (Z.leb_spec a b); try lia
         | |- context [?a =? ?b] => destruct (Z.eqb_spec a b); try lia
         end; reflexivity.
Qed.

(** The status line [<d:status ATTRS>HTTP/v.v SPACES CODE TAIL], the first
    of the text: the group of [statusRegex] holds the digits of the code. *)
Lemma search_status (b1 attrs spaces code tail : jsstring) (v1 v2 : Z) :
  contains_ci b1 (lit "<d:status") = false ->
  forallb (fun c => negb (ci_eqb GT c)) attrs = true ->
  is_digit v1 = true -> is_digit v2 = true ->
  spaces <> [] -> forallb is_space spaces = true ->
  code <> [] -> forallb is_digit code = true ->
  match tail with c :: _ => is_digit c = false | [] => True end ->
  search true statusRegex
    (b1 ++ lit "<d:status" ++ attrs ++ GT :: lit "HTTP/" ++ v1 :: 46 :: v2 ::
     spaces ++ code ++ tail)
  = Some (code, tail).
Proof.
  intros Hb1 Hattrs Hv1 Hv2 Hsp0 Hsp Hcode0 Hcode Htail.
  unfold statusRegex, chars.
  set (OPEN := lit "<d:status") in *. set (HTTP := lit "HTTP/").
  set (r := [Star (NotChr GT); One (Chr GT)] ++ literal HTTP ++
            [One Digit; One (Chr 46); One Digit] ++ plus Space ++
            [GroupOpen] ++ plus Digit ++ [GroupClose]).
  set (text := attrs ++ GT :: HTTP ++ v1 :: 46 :: v2 :: spaces ++ code ++ tail).
  rewrite (search_passes_literal OPEN (tl OPEN) 60 r b1 text);
    [| vm_compute; reflexivity | vm_compute; reflexivity | exact Hb1].
  enough (R : run true (literal OPEN ++ r) (OPEN ++ text) no_capture
              = Some ({| is_open := false; captured := rev code |}, tail)).
  { rewrite (search_at_head _ _ _ _ R). cbn [captured]. now rewrite rev_involutive. }
  rewrite run_literal. unfold no_capture. rewrite push_all_closed.
  unfold r, text. cbn [app run].
  rewrite greedy_until; [| exact Hattrs |].
  - rewrite push_all_closed. cbn [run atom_matches].
    fold (ci_eqb GT GT). rewrite ci_eqb_refl.
    unfold push at 1. cbn [is_open].
    rewrite run_literal. rewrite push_all_closed.
    destruct spaces as [|sp spaces]; [congruence|].
    destruct code as [|d code]; [congruence|].
    cbn [forallb] in Hsp, Hcode.
    apply andb_true_iff in Hsp. destruct Hsp as [Hs1 Hsp].
    apply andb_true_iff in Hcode. destruct Hcode as [Hd1 Hcode].
    cbn [app plus run atom_matches]. rewrite Hv1, Hv2, Hs1.
    change (canonicalize 46 =? canonicalize 46) with true. cbv iota.
    unfold push. cbn [is_open].
    apply greedy_all with (u := spaces); [exact Hsp | now apply digit_is_no_space |].
    rewrite ?push_all_closed.
    cbn [run atom_matches]. rewrite Hd1. cbn [is_open captured].
    apply greedy_all with (u := code); [exact Hcode | exact Htail |].
    rewrite push_all_open. cbn [run captured rev]. reflexivity.
  - intros c t g Hc. cbn [run atom_matches]. fold (ci_eqb GT c). now rewrite Hc.
Qed.

(** *** Where a capture comes from *)

Lemma infix_refl (s : jsstring) : infix s s.
Proof. exists [], []. now rewrite app_nil_r. Qed.

Lemma infix_trans (a b c : jsstring) : infix a b -> infix b c -> infix a c.
Proof.
  intros (p & q & ->) (p' & q' & ->). exists (p' ++ p), (q ++ q').
  now rewrite <- !app_assoc.
Qed.

Lemma infix_app_l (a b pre : jsstring) : infix a b -> infix a (pre ++ b).
Proof. intros (p & q & ->). exists (pre ++ p), q. now rewrite <- !app_assoc. Qed.

Lemma infix_app_r (a b post : jsstring) : infix a b -> infix a (b ++ post).
Proof. intros (p & q & ->). exists p, (q ++ post). now rewrite <- !app_assoc. Qed.

Lemma capture_of_push (g : capture) (h : jsstring) (c : Z) :
  capture_of g h -> capture_of (push g c) (h ++ [c]).
Proof.
  unfold capture_of, push. destruct (is_open g) eqn:E; cbn [is_open captured].
  - intros (before & ->). exists before. cbn [rev]. now rewrite app_assoc.
  - rewrite E. apply infix_app_r.
Qed.

Lemma reads_prefix_step (k : jsstring -> capture -> option result) (c : Z)
      (s : jsstring) (g g' : capture) (h rest : jsstring) :
  reads_prefix k -> capture_of g h ->
  k s (push g c) = Some (g', rest) ->
  exists consumed, c :: s = consumed ++ rest /\ capture_of g' (h ++ consumed).
Proof.
  intros Hk Hg H.
  destruct (Hk s (push g c) (h ++ [c]) g' rest (capture_of_push g h c Hg) H)
    as (consumed & -> & Hc).
  exists (c :: consumed). split; [reflexivity|].
  now rewrite <- app_assoc in Hc.
Qed.

Lemma greedy_reads_prefix (p : Z -> bool) (k : jsstring -> capture -> option result) :
  reads_prefix k -> reads_prefix (greedy p k).
Proof.
  intros Hk s. induction s as [|c s IH]; intros g h g' rest Hg H.
  - cbn [greedy] in H. now apply (Hk [] g h).
  - cbn [greedy] in H. destruct (p c).
    + destruct (greedy p k s (push g c)) as [[g1 rest1]|] eqn:E.
      * injection H as <- <-.
        destruct (IH (push g c) (h ++ [c]) g1 rest1 (capture_of_push g h c Hg) E)
          as (consumed & -> & Hc).
        exists (c :: consumed). split; [reflexivity|].
        now rewrite <- app_assoc in Hc.
      * now apply (Hk (c :: s) g h).
    + now apply (Hk (c :: s) g h).
Qed.

Lemma lazy_reads_prefix (p : Z -> bool) (k : jsstring -> capture -> option result) :
  reads_prefix k -> reads_prefix (lazy p k).
Proof.
  intros Hk s. induction s as [|c s IH]; intros g h g' rest Hg H.
  - cbn [lazy] in H. destruct (k [] g) as [[g1 rest1]|] eqn:E; [|discriminate].
    injection H as <- <-. now apply (Hk [] g h).
  - cbn [lazy] in H. destruct (k (c :: s) g) as [[g1 rest1]|] eqn:E.
    + injection H as <- <-. now apply (Hk (c :: s) g h).
    + destruct (p c); [|discriminate].
      destruct (IH (push g c) (h ++ [c]) g' rest (capture_of_push g h c Hg) H)
        as (consumed & -> & Hc).
      exists (c :: consumed). split; [reflexivity|].
      now rewrite <- app_assoc in Hc.
Qed.

Lemma run_reads_prefix (ci : bool) (r : regex) : reads_prefix (run ci r).
Proof.
  induction r as [|n r IH]; intros s g h g' rest Hg H.
  - cbn [run] in H. injection H as <- <-. exists []. now rewrite app_nil_r.
  - destruct n; cbn [run] in H.
    + destruct s as [|c s]; [discriminate|].
      destruct (atom_matches ci a c); [|discriminate].
      now apply (reads_prefix_step (run ci r) c s g g' h rest IH).
    + exact (greedy_reads_prefix (atom_matches ci a) _ IH s g h g' rest Hg H).
    + exact (lazy_reads_prefix (atom_matches ci a) _ IH s g h g' rest Hg H).
    + apply (IH s {| is_open := true; captured := [] |} h g' rest); [|exact H].
      unfold capture_of. cbn [is_open captured rev]. exists h. now rewrite app_nil_r.
    + apply (IH s {| is_open := false; captured := captured g |} h g' rest); [|exact H].
      unfold capture_of in *. cbn [is_open captured].
      destruct (is_open g).
      * destruct Hg as (before & ->). exists before, []. now rewrite app_nil_r.
      * exact Hg.
Qed.

Lemma capture_of_infix (g : capture) (h : jsstring) :
  capture_of g h -> infix (rev (captured g)) h.
Proof.
  unfold capture_of. destruct (is_open g); [|auto].
  intros (before & ->). exists before, []. now rewrite app_nil_r.
Qed.

(** What [search] returns: the group is a piece of the text matched,
    which is followed in the text by the rest. *)
Lemma search_provenance (ci : bool) (r : regex) (s : jsstring) :
  forall g1 rest,
    search ci r s = Some (g1, rest) ->
    exists before matched, s = before ++ matched ++ rest /\ infix g1 matched.
Proof.
  assert (Hit : forall s g rest0,
             run ci r s no_capture = Some (g, rest0) ->
             exists matched, s = matched ++ rest0 /\ infix (rev (captured g)) matched).
  { intros s0 g rest0 E.
    destruct (run_reads_prefix ci r s0 no_capture [] g rest0) as (consumed & Hs & Hc);
      [unfold capture_of; cbn; apply infix_refl | exact E |].
    exists consumed. split; [exact Hs|]. now apply capture_of_infix in Hc. }
  induction s as [|c s IH]; intros g1 rest H.
  - cbn [search] in H.
    destruct (run ci r [] no_capture) as [[g rest0]|] eqn:E; [|discriminate].
    injection H as <- <-.
    destruct (Hit _ _ _ E) as (matched & Hs & Hin).
    exists [], matched. split; assumption.
  - cbn [search] in H.
    destruct (run ci r (c :: s) no_capture) as [[g rest0]|] eqn:E.
    + injection H as <- <-.
      destruct (Hit _ _ _ E) as (matched & Hs & Hin).
      exists [], matched. split; assumption.
    + destruct (IH g1 rest H) as (before & matched & -> & Hin).
      exists (c :: before), matched. split; [reflexivity | assumption].
Qed.

Lemma match_i_infix (r : regex) (s g1 : jsstring) :
  match_i r s = Some g1 -> infix g1 s.
Proof.
  unfold match_i. destruct (search true r s) as [[g rest]|] eqn:E; [|discriminate].
  intros H. injection H as <-.
  destruct (search_provenance true r s g rest E) as (before & matched & -> & Hin).
  apply infix_app_l, infix_app_r. exact Hin.
Qed.

(** A regex that starts with a literal matches only where the literal
    occurs. *)
Lemma search_needs_literal (L : jsstring) (r : regex) (s : jsstring) :
  contains_ci s L = false -> search true (literal L ++ r) s = None.
Proof.
  induction s as [|c s IH]; intros H; cbn [contains_ci] in H;
    apply orb_false_iff in H; destruct H as [Hhere Hlater].
  - cbn [search]. now rewrite run_literal_fails.
  - rewrite search_skip; auto.
Qed.

Lemma exec_loop_infix (r : regex) (fuel : nat) :
  forall s g1, In g1 (exec_loop fuel r s) -> infix g1 s.
Proof.
  induction fuel as [|fuel IH]; intros s g1 H; [destruct H|].
  cbn [exec_loop] in H.
  destruct (search true r s) as [[g rest]|] eqn:E; [|destruct H].
  destruct (search_provenance true r s g rest E) as (before & matched & -> & Hin).
  destruct H as [<- | H].
  - apply infix_app_l, infix_app_r. exact Hin.
  - apply infix_app_l, infix_app_l. now apply IH.
Qed.

(** ** What the regular expressions of the parser find

    The texts the expressions match are described without the matcher:
    an element is an opening tag, its attributes, [>], its content and the
    first closing tag that follows; a regular expression finds the
    leftmost place of the text where such a text starts. *)

Lemma ci_eqb_GT (c : Z) : ci_eqb GT c = (c =? GT).
Proof.
  unfold ci_eqb, canonicalize, GT.
  change ((97 <=? 62) && (62 <=? 122)) with false. cbv iota.
  destruct ((97 <=? c) && (c <=? 122)) eqn:E.
  - apply andb_true_iff in E. destruct E as [E1 E2].
    apply Z.leb_le in E1. apply Z.leb_le in E2.
    destruct (Z.eqb_spec 62 (c - 32)); destruct (Z.eqb_spec c 62); try lia; reflexivity.
  - apply Z.eqb_sym.
Qed.

Lemma no_gt_ci (attrs : jsstring) :
  no_gt attrs = true -> forallb (fun c => negb (ci_eqb GT c)) attrs = true.
Proof.
  unfold no_gt. induction attrs as [|c attrs IH]; [reflexivity|].
  cbn [forallb]. rewrite ci_eqb_GT. intros H.
  apply andb_true_iff in H. destruct H as [H1 H2]. now rewrite H1, IH.
Qed.

(** A unit that the [i] flag identifies with [<] is [<]. *)
Lemma ci_eqb_LT (c : Z) : ci_eqb 60 c = true -> c = 60.
Proof.
  unfold ci_eqb, canonicalize.
  change ((97 <=? 60) && (60 <=? 122)) with false. cbv iota.
  destruct ((97 <=? c) && (c <=? 122)) eqn:E; intros H; apply Z.eqb_eq in H.
  - apply andb_true_iff in E. destruct E as [E1 E2].
    apply Z.leb_le in E1. apply Z.leb_le in E2. lia.
  - congruence.
Qed.

Lemma ci_eqb_sym (a b : Z) : ci_eqb a b = ci_eqb b a.
Proof. apply Z.eqb_sym. Qed.

(** *** Literals *)

Lemma literal_app (a b : jsstring) : literal (a ++ b) = literal a ++ literal b.
Proof. apply map_app. Qed.

Lemma element_any_literal (tag : string) :
  element_any tag = literal (opening tag) ++ content_of AnyChar ++ literal (closing tag).
Proof.
  unfold element_any, opening, closing, chars, content_of.
  now rewrite !literal_app, <- !app_assoc.
Qed.

Lemma element_line_literal (tag : string) :
  element_line tag = literal (opening tag) ++ content_of Dot ++ literal (closing tag).
Proof.
  unfold element_line, opening, closing, chars, content_of.
  now rewrite !literal_app, <- !app_assoc.
Qed.

Lemma spells_length (o : jsstring) : forall L, spells o L = true -> List.length o = List.length L.
Proof.
  induction o as [|c o IH]; intros [|a L] H; try discriminate; [reflexivity|].
  cbn [spells] in H. apply andb_true_iff in H. cbn [List.length]. f_equal. now apply IH.
Qed.

Lemma spells_self (L : jsstring) : spells L L = true.
Proof. induction L as [|a L IH]; [reflexivity|]. cbn [spells]. now rewrite ci_eqb_refl. Qed.

Lemma starts_ci_spells (L : jsstring) :
  forall s, starts_ci s L = true <-> exists o rest, s = o ++ rest /\ spells o L = true.
Proof.
  induction L as [|a L IH]; intros s.
  - split; [intros _; now exists [], s|reflexivity].
  - destruct s as [|c s]; cbn [starts_ci].
    + split; [discriminate|]. intros (o & rest & E & H).
      destruct o; [discriminate H | discriminate E].
    + rewrite andb_true_iff, IH. split.
      * intros (Hc & o & rest & -> & Ho). exists (c :: o), rest.
        split; [reflexivity|]. cbn [spells]. now rewrite Hc.
      * intros (o & rest & E & H). destruct o as [|c' o]; [discriminate H|].
        cbn [app] in E. injection E as -> ->. cbn [spells] in H.
        apply andb_true_iff in H. destruct H as [Hc Ho].
        split; [exact Hc|]. now exists o, rest.
Qed.

Lemma run_literal_ci (L : jsstring) (r : regex) :
  forall (o s : jsstring) (g : capture),
    spells o L = true ->
    run true (literal L ++ r) (o ++ s) g = run true r s (push_all g o).
Proof.
  induction L as [|a L IH]; intros [|c o] s g H; try discriminate; [reflexivity|].
  cbn [spells] in H. apply andb_true_iff in H. destruct H as [Hc Ho].
  cbn [literal List.map app run atom_matches]. fold (ci_eqb a c). rewrite Hc.
  exact (IH o s (push g c) Ho).
Qed.

Lemma run_literal_inv (L : jsstring) (r : regex) :
  forall (s : jsstring) (g : capture) (res : result),
    run true (literal L ++ r) s g = Some res ->
    exists o s', s = o ++ s' /\ spells o L = true /\
                 run true r s' (push_all g o) = Some res.
Proof.
  induction L as [|a L IH]; intros s g res H.
  - exists [], s. repeat split. exact H.
  - cbn [literal List.map app run atom_matches] in H.
    destruct s as [|c s]; [discriminate|]. fold (ci_eqb a c) in H.
    destruct (ci_eqb a c) eqn:Hc; [|discriminate].
    destruct (IH s (push g c) res H) as (o & s' & -> & Ho & Hr).
    exists (c :: o), s'. split; [reflexivity|]. split; [|exact Hr].
    cbn [spells]. now rewrite Hc.
Qed.

(** *** Stars *)

Lemma greedy_stop_inv (k : jsstring -> capture -> option result) :
  (forall c t g, (c =? GT) = false -> k (c :: t) g = None) ->
  (forall g, k [] g = None) ->
  forall (s : jsstring) (g : capture) (res : result),
    greedy (atom_matches true (NotChr GT)) k s g = Some res ->
    exists attrs s', s = attrs ++ GT :: s' /\ no_gt attrs = true /\
                     k (GT :: s') (push_all g attrs) = Some res.
Proof.
  intros Hk Hnil. induction s as [|c s IH]; intros g res H.
  - cbn [greedy] in H. rewrite Hnil in H. discriminate.
  - cbn [greedy atom_matches] in H. fold (ci_eqb GT c) in H. rewrite ci_eqb_GT in H.
    destruct (c =? GT) eqn:Hc; cbn [negb] in H.
    + apply Z.eqb_eq in Hc. subst c. exists [], s. repeat split. exact H.
    + destruct (greedy _ k s (push g c)) as [r1|] eqn:E.
      * injection H as <-. destruct (IH _ _ E) as (attrs & s' & -> & Ha & Hr).
        exists (c :: attrs), s'. split; [reflexivity|]. split; [|exact Hr].
        unfold no_gt in *. cbn [forallb]. now rewrite Hc, Ha.
      * rewrite (Hk c s g Hc) in H. discriminate.
Qed.

Lemma greedy_inv (p : Z -> bool) (k : jsstring -> capture -> option result) :
  forall (s : jsstring) (g : capture) (res : result),
    greedy p k s g = Some res ->
    exists u s', s = u ++ s' /\ forallb p u = true /\ k s' (push_all g u) = Some res.
Proof.
  induction s as [|c s IH]; intros g res H.
  - exists [], []. repeat split. exact H.
  - cbn [greedy] in H. destruct (p c) eqn:Hc.
    + destruct (greedy p k s (push g c)) as [r1|] eqn:E.
      * injection H as <-. destruct (IH _ _ E) as (u & s' & -> & Hu & Hr).
        exists (c :: u), s'. split; [reflexivity|]. split; [|exact Hr].
        cbn [forallb]. now rewrite Hc, Hu.
      * exists [], (c :: s). repeat split. exact H.
    + exists [], (c :: s). repeat split. exact H.
Qed.

(** A greedy star before a continuation that always succeeds takes all
    the units it can. *)
Lemma greedy_maximal (p : Z -> bool) (k : jsstring -> capture -> option result) :
  (forall s g, k s g <> None) ->
  forall (s : jsstring) (g : capture) (res : result),
    greedy p k s g = Some res ->
    exists u s', s = u ++ s' /\ forallb p u = true /\
                 match s' with c :: _ => p c = false | [] => True end /\
                 k s' (push_all g u) = Some res.
Proof.
  intros Hk. induction s as [|c s IH]; intros g res H.
  - exists [], []. repeat split. exact H.
  - cbn [greedy] in H. destruct (p c) eqn:Hc.
    + destruct (greedy p k s (push g c)) as [r1|] eqn:E.
      * injection H as <-. destruct (IH _ _ E) as (u & s' & -> & Hu & Hs & Hr).
        exists (c :: u), s'. split; [reflexivity|]. split; [|split; assumption].
        cbn [forallb]. now rewrite Hc, Hu.
      * exfalso. revert E. clear -Hk. revert g.
        induction s as [|d s IHs]; intros g E; cbn [greedy] in E.
        -- now apply (Hk [] (push g c)).
        -- destruct (p d).
           ++ destruct (greedy p k s (push (push g c) d)) eqn:E2; [discriminate|].
              now apply (Hk (d :: s) (push g c)).
           ++ now apply (Hk (d :: s) (push g c)).
    + exists [], (c :: s). repeat split; assumption.
Qed.

Lemma lazy_inv (p : Z -> bool) (k : jsstring -> capture -> option result) :
  forall (s : jsstring) (g : capture) (res : result),
    lazy p k s g = Some res ->
    exists u s', s = u ++ s' /\ forallb p u = true /\
                 k s' (push_all g u) = Some res /\
                 forall u1 u2, u = u1 ++ u2 -> u2 <> [] ->
                               k (u2 ++ s') (push_all g u1) = None.
Proof.
  induction s as [|c s IH]; intros g res H.
  - cbn [lazy] in H. destruct (k [] g) as [r1|] eqn:E; [|discriminate].
    injection H as <-. exists [], []. repeat split; [exact E|].
    intros u1 u2 Hu Hne. destruct u1; destruct u2; try discriminate. congruence.
  - cbn [lazy] in H. destruct (k (c :: s) g) as [r1|] eqn:E.
    + injection H as <-. exists [], (c :: s). repeat split; [exact E|].
      intros u1 u2 Hu Hne. destruct u1; destruct u2; try discriminate. congruence.
    + destruct (p c) eqn:Hc; [|discriminate].
      destruct (IH _ _ H) as (u & s' & -> & Hu & Hr & Hmin).
      exists (c :: u), s'. split; [reflexivity|]. split; [cbn [forallb]; now rewrite Hc, Hu|].
      split; [exact Hr|].
      intros u1 u2 Hsplit Hne. destruct u1 as [|c1 u1].
      * cbn [app] in Hsplit. subst u2. exact E.
      * cbn [app] in Hsplit. injection Hsplit as <- ->.
        cbn [push_all fold_left].
        change (fold_left push u1 (push g c)) with (push_all (push g c) u1).
        now apply Hmin.
Qed.

(** *** Elements *)

Lemma spells_head_LT (close L' : jsstring) :
  spells close (60 :: L') = true ->
  exists close', close = 60 :: close' /\ spells close' L' = true.
Proof.
  destruct close as [|c close]; [discriminate|]. cbn [spells].
  intros H. apply andb_true_iff in H. destruct H as [Hc Hs].
  apply ci_eqb_LT in Hc. subst c. now exists close.
Qed.

Lemma contains_ci_split (L : jsstring) :
  forall u, contains_ci u L = true ->
            exists u1 u2, u = u1 ++ u2 /\ starts_ci u2 L = true.
Proof.
  induction u as [|c u IH]; cbn [contains_ci]; intros H.
  - rewrite orb_false_r in H. now exists [], [].
  - apply orb_true_iff in H. destruct H as [H | H].
    + now exists [], (c :: u).
    + destruct (IH H) as (u1 & u2 & -> & Hs). now exists (c :: u1), u2.
Qed.

Lemma contains_ci_at (L : jsstring) :
  forall u1 u2, starts_ci u2 L = true -> contains_ci (u1 ++ u2) L = true.
Proof.
  induction u1 as [|c u1 IH]; intros u2 H.
  - cbn [app]. destruct u2; cbn [contains_ci]; now rewrite H.
  - cbn [app contains_ci]. rewrite (IH u2 H). apply orb_true_r.
Qed.

Lemma starts_ci_more (L : jsstring) :
  forall s post, starts_ci s L = true -> starts_ci (s ++ post) L = true.
Proof.
  induction L as [|a L IH]; intros s post H; [reflexivity|].
  destruct s as [|c s]; [discriminate|]. cbn [starts_ci app] in *.
  apply andb_true_iff in H. destruct H as [H1 H2]. now rewrite H1, IH.
Qed.

(** The continuation of the lazy star of an element: the closing tag. *)
Lemma closing_run (CLOSE : jsstring) (s : jsstring) (cap : jsstring) (res : result) :
  run true (GroupClose :: literal CLOSE) s {| is_open := true; captured := cap |}
    = Some res <->
  exists close rest, s = close ++ rest /\ spells close CLOSE = true /\
                     res = ({| is_open := false; captured := cap |}, rest).
Proof.
  cbn [run captured]. split.
  - intros H.
    pose proof (run_literal_inv CLOSE [] s {| is_open := false; captured := cap |} res) as R.
    rewrite app_nil_r in R. destruct (R H) as (o & s' & -> & Ho & Hr).
    rewrite push_all_closed in Hr. cbn [run] in Hr. injection Hr as <-.
    now exists o, s'.
  - intros (close & rest & -> & Hs & ->).
    pose proof (run_literal_ci CLOSE [] close rest
                  {| is_open := false; captured := cap |} Hs) as R.
    rewrite app_nil_r in R. rewrite R, push_all_closed. reflexivity.
Qed.

Lemma closing_fails (CLOSE : jsstring) (s : jsstring) (cap : jsstring) :
  starts_ci s CLOSE = false ->
  run true (GroupClose :: literal CLOSE) s {| is_open := true; captured := cap |} = None.
Proof.
  intros H.
  destruct (run true (GroupClose :: literal CLOSE) s _) as [res|] eqn:E; [|reflexivity].
  apply closing_run in E. destruct E as (close & rest & -> & Hs & _).
  assert (S : starts_ci (close ++ rest) CLOSE = true)
    by (apply starts_ci_spells; now exists close, rest).
  congruence.
Qed.

Lemma lazy_until_ci (p : Z -> bool) (CLOSE inner close rest : jsstring) :
  CLOSE = 60 :: tl CLOSE ->
  forallb (fun a => negb (ci_eqb a 60)) (tl CLOSE) = true ->
  forallb p inner = true ->
  contains_ci inner CLOSE = false ->
  spells close CLOSE = true ->
  forall cap,
    lazy p (run true (GroupClose :: literal CLOSE)) (inner ++ close ++ rest)
         {| is_open := true; captured := cap |} =
    Some ({| is_open := false; captured := rev inner ++ cap |}, rest).
Proof.
  intros Eclose Hx Hp Hno Hs.
  assert (Hhead : exists close', close = 60 :: close').
  { rewrite Eclose in Hs. destruct (spells_head_LT _ _ Hs) as (c' & -> & _). now exists c'. }
  destruct Hhead as (close' & ->).
  induction inner as [|c inner IH]; intros cap.
  - cbn [app rev].
    assert (E : run true (GroupClose :: literal CLOSE) ((60 :: close') ++ rest)
                  {| is_open := true; captured := cap |} =
                Some ({| is_open := false; captured := cap |}, rest)).
    { apply closing_run. now exists (60 :: close'), rest. }
    change ((60 :: close') ++ rest) with (60 :: (close' ++ rest)) in *.
    cbn [lazy]. rewrite E. reflexivity.
  - cbn [forallb] in Hp. apply andb_true_iff in Hp. destruct Hp as [Hc Hp].
    cbn [contains_ci] in Hno. apply orb_false_iff in Hno. destruct Hno as [Hhere Hlater].
    assert (F : run true (GroupClose :: literal CLOSE)
                  ((c :: inner) ++ (60 :: close') ++ rest)
                  {| is_open := true; captured := cap |} = None).
    { apply closing_fails.
      destruct (starts_ci ((c :: inner) ++ (60 :: close') ++ rest) CLOSE) eqn:E;
        [|reflexivity].
      change ((60 :: close') ++ rest) with (60 :: (close' ++ rest)) in E.
      apply (no_straddle CLOSE 60 Hx (c :: inner) (close' ++ rest)) in E;
        [congruence | discriminate]. }
    change ((c :: inner) ++ (60 :: close') ++ rest)
      with (c :: (inner ++ (60 :: close') ++ rest)) in *.
    cbn [lazy]. rewrite F, Hc.
    unfold push. cbn [is_open captured].
    rewrite (IH Hp Hlater). cbn [rev]. now rewrite <- app_assoc.
Qed.

Section Element.

Variable a : atom.
Variable allowed : Z -> bool.
Variable tag : string.
Hypothesis Hallowed : forall c, atom_matches true a c = allowed c.
Hypothesis Eclose : closing tag = 60 :: tl (closing tag).
Hypothesis Hclose :
  forallb (fun u => negb (ci_eqb u 60)) (tl (closing tag)) = true.

Let r : regex := literal (opening tag) ++ content_of a ++ literal (closing tag).

Lemma forallb_allowed (u : jsstring) :
  forallb (atom_matches true a) u = forallb allowed u.
Proof. induction u as [|c u IH]; [reflexivity|]. cbn [forallb]. now rewrite Hallowed, IH. Qed.

Lemma element_run_complete (s inner rest : jsstring) :
  element_at allowed tag s inner rest ->
  run true r s no_capture =
    Some ({| is_open := false; captured := rev inner |}, rest).
Proof.
  intros (open & attrs & close & -> & Hopen & Hattrs & Hinner & Hno & Hcl).
  unfold r. rewrite run_literal_ci by exact Hopen.
  unfold no_capture. rewrite push_all_closed.
  unfold content_of. cbn [app run].
  rewrite greedy_until; [| now apply no_gt_ci |].
  - cbn [atom_matches]. fold (ci_eqb GT GT). rewrite ci_eqb_refl.
    pose proof (lazy_until_ci (atom_matches true a) (closing tag) inner close rest
                  Eclose Hclose) as Lz.
    rewrite forallb_allowed in Lz. specialize (Lz Hinner Hno Hcl []).
    rewrite app_nil_r in Lz. exact Lz.
  - intros c t g Hc. cbn [run atom_matches]. fold (ci_eqb GT c). now rewrite Hc.
Qed.

Lemma element_run_sound (s : jsstring) (g : capture) (rest : jsstring) :
  run true r s no_capture = Some (g, rest) ->
  element_at allowed tag s (rev (captured g)) rest.
Proof.
  unfold r. intros H.
  destruct (run_literal_inv _ _ _ _ _ H) as (open & s1 & -> & Hopen & H1).
  unfold no_capture in H1. rewrite push_all_closed in H1.
  unfold content_of in H1. cbn [app run] in H1.
  apply greedy_stop_inv in H1.
  - destruct H1 as (attrs & s2 & -> & Hattrs & H2).
    cbn [atom_matches] in H2.
    fold (ci_eqb GT GT) in H2. rewrite ci_eqb_refl in H2.
    apply (lazy_inv (atom_matches true a)
             (run true (GroupClose :: literal (closing tag)))) in H2.
    destruct H2 as (u & s3 & -> & Hu & H3 & Hmin).
    rewrite push_all_open, app_nil_r in H3.
    apply closing_run in H3. destruct H3 as (close & rest' & -> & Hcl & E).
    injection E as -> ->. cbn [captured]. rewrite rev_involutive.
    exists open, attrs, close. split; [reflexivity|].
    split; [exact Hopen|]. split; [exact Hattrs|].
    split; [now rewrite <- forallb_allowed|]. split; [|exact Hcl].
    destruct (contains_ci u (closing tag)) eqn:Ec; [|reflexivity]. exfalso.
    destruct (contains_ci_split _ _ Ec) as (u1 & u2 & -> & Hs).
    assert (Hne : u2 <> []).
    { intros ->. rewrite Eclose in Hs. discriminate. }
    specialize (Hmin u1 u2 eq_refl Hne).
    rewrite push_all_open, app_nil_r in Hmin.
    pose proof (starts_ci_more _ _ (close ++ rest') Hs) as S.
    destruct (proj1 (starts_ci_spells _ _) S) as (o & post & E & Ho).
    rewrite E in Hmin.
    assert (G : run true (GroupClose :: literal (closing tag)) (o ++ post)
                  {| is_open := true; captured := rev u1 |} =
                Some ({| is_open := false; captured := rev u1 |}, post))
      by (apply closing_run; now exists o, post).
    congruence.
  - intros c t g0 Hc. cbn [run atom_matches]. fold (ci_eqb GT c).
    rewrite ci_eqb_GT. now rewrite Hc.
  - intros g0. reflexivity.
Qed.

(** The expression of an element matches at the head of a text exactly
    when the text starts with the element. *)
Lemma element_matches (s group rest : jsstring) :
  matches_at r s = Some (group, rest) <-> element_at allowed tag s group rest.
Proof.
  unfold matches_at. split.
  - destruct (run true r s no_capture) as [[g rest0]|] eqn:E; [|discriminate].
    intros H. injection H as <- <-. now apply element_run_sound.
  - intros H. rewrite (element_run_complete _ _ _ H). cbn [captured].
    now rewrite rev_involutive.
Qed.

End Element.

(** *** The leftmost match *)

Lemma search_step (r : regex) (s : jsstring) :
  search true r s =
  match matches_at r s with
  | Some found => Some found
  | None => match s with
            | [] => None
            | _ :: s' => search true r s'
            end
  end.
Proof.
  unfold matches_at.
  destruct s; cbn [search]; destruct (run true r _ no_capture) as [[g rest]|]; reflexivity.
Qed.

Section Leftmost.

Variable r : regex.
Variable shape : jsstring -> jsstring -> jsstring -> Prop.
Hypothesis Hshape :
  forall s group rest, matches_at r s = Some (group, rest) <-> shape s group rest.

Lemma no_shape (s : jsstring) :
  matches_at r s = None -> forall group rest, ~ shape s group rest.
Proof. intros H group rest Hs. apply Hshape in Hs. congruence. Qed.

(** What the search returns is the leftmost text of the shape. *)
Lemma search_leftmost (text : jsstring) : leftmost shape text (search true r text).
Proof.
  induction text as [|c text IH]; rewrite search_step.
  - destruct (matches_at r []) as [[group rest]|] eqn:E.
    + exists [], []. split; [reflexivity|]. split; [now apply Hshape|].
      intros before' s' g' r' _ Hlt. cbn in Hlt. lia.
    + intros before s group rest Hs. destruct before; [|discriminate].
      cbn [app] in Hs. subst s. now apply no_shape.
  - destruct (matches_at r (c :: text)) as [[group rest]|] eqn:E.
    + exists [], (c :: text). split; [reflexivity|]. split; [now apply Hshape|].
      intros before' s' g' r' _ Hlt. cbn in Hlt. lia.
    + destruct (search true r text) as [[group rest]|].
      * destruct IH as (before & s & -> & Hs & Hmin).
        exists (c :: before), s. split; [reflexivity|]. split; [exact Hs|].
        intros before' s' g' r' Heq Hlt. destruct before' as [|c' before'].
        -- cbn [app] in Heq. subst s'. now apply no_shape.
        -- cbn [app] in Heq. injection Heq as -> Heq.
           apply (Hmin before' s' g' r' Heq). cbn in Hlt. lia.
      * intros before s group rest Heq. destruct before as [|c' before].
        -- cbn [app] in Heq. subst s. now apply no_shape.
        -- cbn [app] in Heq. injection Heq as -> Heq. now apply (IH before s group rest).
Qed.

(** The leftmost text of the shape is what the search returns. *)
Lemma leftmost_search (text : jsstring) (found : option (jsstring * jsstring)) :
  leftmost shape text found -> search true r text = found.
Proof.
  destruct found as [[group rest]|]; cbn [leftmost].
  - intros (before & s & -> & Hs & Hmin). revert Hmin.
    induction before as [|c before IH]; intros Hmin.
    + cbn [app]. rewrite search_step. apply Hshape in Hs. now rewrite Hs.
    + cbn [app]. rewrite search_step.
      destruct (matches_at r (c :: before ++ s)) as [[g0 r0]|] eqn:E.
      * exfalso. apply Hshape in E.
        apply (Hmin [] (c :: before ++ s) g0 r0 eq_refl); [cbn; lia | exact E].
      * apply IH. intros before' s' g' r' Heq Hlt.
        apply (Hmin (c :: before') s' g' r'); [cbn [app]; now rewrite Heq | cbn; lia].
  - induction text as [|c text IH]; intros Hnone; rewrite search_step.
    + destruct (matches_at r []) as [[g0 r0]|] eqn:E; [|reflexivity].
      exfalso. apply Hshape in E. now apply (Hnone [] [] g0 r0 eq_refl).
    + destruct (matches_at r (c :: text)) as [[g0 r0]|] eqn:E.
      * exfalso. apply Hshape in E. now apply (Hnone [] (c :: text) g0 r0 eq_refl).
      * apply IH. intros before s group rest Heq.
        apply (Hnone (c :: before) s group rest). cbn [app]. now rewrite Heq.
Qed.

Lemma leftmost_match_i (text : jsstring) (found : option (jsstring * jsstring)) :
  leftmost shape text found -> match_i r text = option_map fst found.
Proof. intros H. unfold match_i. now rewrite (leftmost_search text found H). Qed.

(** The loop of a global expression, each match taking at least one
    unit. *)
Hypothesis Hconsumes :
  forall s group rest, shape s group rest -> (List.length rest < List.length s)%nat.

Lemma successive_exec_loop (groups : list jsstring) :
  forall (text : jsstring) (fuel : nat),
    (List.length text < fuel)%nat ->
    successive shape text groups -> exec_loop fuel r text = groups.
Proof.
  induction groups as [|group groups IH]; intros text fuel Hfuel H.
  - destruct fuel; [lia|]. cbn [successive] in H. cbn [exec_loop].
    now rewrite (leftmost_search text None H).
  - destruct fuel; [lia|]. cbn [successive] in H. destruct H as (rest & Hl & Hrest).
    cbn [exec_loop]. rewrite (leftmost_search text _ Hl). f_equal.
    apply IH; [|exact Hrest].
    destruct Hl as (before & s & -> & Hs & _). apply Hconsumes in Hs.
    rewrite length_app in Hfuel. lia.
Qed.

Lemma successive_exec_all (text : jsstring) (groups : list jsstring) :
  successive shape text groups -> exec_all_gi r text = groups.
Proof. intros H. unfold exec_all_gi. apply successive_exec_loop; [lia | exact H]. Qed.

Lemma exec_loop_successive (fuel : nat) :
  forall text, (List.length text < fuel)%nat ->
               successive shape text (exec_loop fuel r text).
Proof.
  induction fuel as [|fuel IH]; intros text Hfuel; [lia|].
  cbn [exec_loop]. pose proof (search_leftmost text) as Hl.
  destruct (search true r text) as [[group rest]|]; cbn [successive]; [|exact Hl].
  exists rest. split; [exact Hl|]. apply IH.
  destruct Hl as (before & s & -> & Hs & _). apply Hconsumes in Hs.
  rewrite length_app in Hfuel. lia.
Qed.

Lemma exec_all_successive (text : jsstring) :
  successive shape text (exec_all_gi r text).
Proof. unfold exec_all_gi. apply exec_loop_successive. lia. Qed.

End Leftmost.

Lemma element_consumes (allowed : Z -> bool) (tag : string) (s inner rest : jsstring) :
  element_at allowed tag s inner rest -> (List.length rest < List.length s)%nat.
Proof.
  intros (open & attrs & close & -> & _). rewrite !length_app. cbn [List.length].
  rewrite !length_app. lia.
Qed.

(** *** The status line of a propstat *)

Lemma ci_eqb_dot (c : Z) : ci_eqb 46 c = true -> c = 46.
Proof.
  unfold ci_eqb, canonicalize.
  change ((97 <=? 46) && (46 <=? 122)) with false. cbv iota.
  destruct ((97 <=? c) && (c <=? 122)) eqn:E; intros H; apply Z.eqb_eq in H.
  - apply andb_true_iff in E. destruct E as [E1 E2].
    apply Z.leb_le in E1. apply Z.leb_le in E2. lia.
  - congruence.
Qed.

Lemma push_closed (cap : jsstring) (c : Z) :
  push {| is_open := false; captured := cap |} c = {| is_open := false; captured := cap |}.
Proof. reflexivity. Qed.

Lemma status_run_sound (s : jsstring) (g : capture) (rest : jsstring) :
  run true statusRegex s no_capture = Some (g, rest) ->
  status_line_at s (rev (captured g)) rest.
Proof.
  unfold statusRegex, chars. intros H.
  apply run_literal_inv in H. destruct H as (open & s1 & -> & Hopen & H).
  unfold no_capture in H. rewrite push_all_closed in H.
  cbn [app run] in H.
  apply greedy_stop_inv in H;
    [| intros c t g0 Hc; cbn [atom_matches]; fold (ci_eqb GT c);
       rewrite ci_eqb_GT, Hc; reflexivity
     | reflexivity ].
  destruct H as (attrs & s2 & -> & Hattrs & H).
  cbn [atom_matches] in H. fold (ci_eqb GT GT) in H. rewrite ci_eqb_refl in H.
  rewrite push_all_closed, push_closed in H.
  apply run_literal_inv in H. destruct H as (http & s3 & -> & Hhttp & H).
  rewrite push_all_closed in H.
  unfold plus in H. cbn [app run atom_matches] in H.
  destruct s3 as [|v1 s3]; [discriminate|].
  destruct (is_digit v1) eqn:Hv1; [|discriminate].
  destruct s3 as [|dot s3]; [discriminate|].
  fold (ci_eqb 46 dot) in H.
  destruct (ci_eqb 46 dot) eqn:Hdot; [|discriminate].
  apply ci_eqb_dot in Hdot. subst dot.
  destruct s3 as [|v2 s3]; [discriminate|].
  destruct (is_digit v2) eqn:Hv2; [|discriminate].
  destruct s3 as [|sp s3]; [discriminate|].
  destruct (is_space sp) eqn:Hsp; [|discriminate].
  rewrite !push_closed in H.
  apply greedy_inv in H. destruct H as (sps & s4 & -> & Hsps & H).
  rewrite ?push_all_closed in H.
  destruct s4 as [|d s4]; [discriminate|].
  destruct (is_digit d) eqn:Hd; [|discriminate].
  unfold push in H. cbn [is_open captured] in H.
  apply greedy_maximal in H; [|intros s0 g0; discriminate].
  destruct H as (ds & s5 & -> & Hds & Hrest & H).
  rewrite push_all_open in H. cbn [captured] in H. injection H as <- <-.
  cbn [captured]. rewrite rev_app_distr, rev_involutive. cbn [rev app].
  exists open, attrs, http, v1, v2, (sp :: sps).
  split; [reflexivity|].
  repeat split; try assumption; try discriminate.
  - cbn [forallb]. rewrite Hsp. exact Hsps.
  - cbn [forallb]. rewrite Hd. exact Hds.
  - destruct s5; [reflexivity | exact Hrest].
Qed.

Lemma status_run_complete (s code rest : jsstring) :
  status_line_at s code rest ->
  run true statusRegex s no_capture =
    Some ({| is_open := false; captured := rev code |}, rest).
Proof.
  intros (open & attrs & http & v1 & v2 & spaces & -> & Hopen & Hattrs & Hhttp &
          Hv1 & Hv2 & Hsp0 & Hsp & Hcode0 & Hcode & Hrest).
  unfold statusRegex, chars.
  rewrite run_literal_ci by exact Hopen.
  unfold no_capture. rewrite push_all_closed.
  cbn [app run].
  rewrite greedy_until; [| now apply no_gt_ci |].
  - rewrite push_all_closed. cbn [atom_matches].
    fold (ci_eqb GT GT). rewrite ci_eqb_refl. rewrite push_closed.
    rewrite run_literal_ci by exact Hhttp. rewrite push_all_closed.
    destruct spaces as [|sp spaces]; [congruence|].
    destruct code as [|d code]; [congruence|].
    cbn [forallb] in Hsp, Hcode.
    apply andb_true_iff in Hsp. destruct Hsp as [Hs1 Hsp].
    apply andb_true_iff in Hcode. destruct Hcode as [Hd1 Hcode].
    cbn [app plus run atom_matches]. rewrite Hv1, Hv2, Hs1.
    change (canonicalize 46 =? canonicalize 46) with true. cbv iota.
    rewrite !push_closed.
    apply greedy_all with (u := spaces); [exact Hsp | now apply digit_is_no_space |].
    rewrite ?push_all_closed.
    cbn [run atom_matches]. rewrite Hd1. cbn [is_open captured].
    apply greedy_all with (u := code);
      [exact Hcode | destruct rest; [exact I | exact Hrest] |].
    unfold push at 1. cbn [is_open captured].
    rewrite push_all_open. cbn [run captured rev]. reflexivity.
  - intros c t g Hc. cbn [run atom_matches]. fold (ci_eqb GT c). now rewrite Hc.
Qed.

Lemma status_matches (s code rest : jsstring) :
  matches_at statusRegex s = Some (code, rest) <-> status_line_at s code rest.
Proof.
  unfold matches_at. split.
  - destruct (run true statusRegex s no_capture) as [[g rest0]|] eqn:E; [|discriminate].
    intros H. injection H as <- <-. now apply status_run_sound.
  - intros H. rewrite (status_run_complete _ _ _ H). cbn [captured].
    now rewrite rev_involutive.
Qed.

(** *** The content length *)

Lemma contentlength_run_sound (s : jsstring) (g : capture) (rest : jsstring) :
  run true getcontentlengthRegex s no_capture = Some (g, rest) ->
  contentlength_at s (rev (captured g)) rest.
Proof.
  unfold getcontentlengthRegex, chars, contentlength_at.
  generalize (lit "<d:getcontentlength"), (lit "</d:getcontentlength>").
  intros OPEN CLOSE H.
  apply run_literal_inv in H. destruct H as (open & s1 & -> & Hopen & H).
  unfold no_capture in H. rewrite push_all_closed in H.
  cbn [app run] in H.
  apply greedy_stop_inv in H;
    [| intros c t g0 Hc; cbn [atom_matches]; fold (ci_eqb GT c);
       rewrite ci_eqb_GT, Hc; reflexivity
     | reflexivity ].
  destruct H as (attrs & s2 & -> & Hattrs & H).
  cbn [atom_matches] in H. fold (ci_eqb GT GT) in H. rewrite ci_eqb_refl in H.
  unfold plus in H. cbn [app run atom_matches] in H.
  destruct s2 as [|d s2]; [discriminate|].
  destruct (is_digit d) eqn:Hd; [|discriminate].
  unfold push in H. cbn [is_open captured] in H.
  apply (greedy_inv (atom_matches true Digit)
           (run true (GroupClose :: literal CLOSE))) in H.
  destruct H as (ds & s3 & -> & Hds & H).
  rewrite push_all_open in H.
  apply closing_run in H. destruct H as (close & rest' & -> & Hcl & E).
  injection E as -> ->. cbn [captured].
  rewrite rev_app_distr, rev_involutive. cbn [rev app].
  exists open, attrs, close. split; [reflexivity|].
  repeat split; try assumption; try discriminate.
  cbn [forallb]. rewrite Hd. exact Hds.
Qed.

Lemma contentlength_run_complete (s digits rest : jsstring) :
  contentlength_at s digits rest ->
  run true getcontentlengthRegex s no_capture =
    Some ({| is_open := false; captured := rev digits |}, rest).
Proof.
  unfold getcontentlengthRegex, chars, contentlength_at.
  assert (EC : lit "</d:getcontentlength>" = 60 :: tl (lit "</d:getcontentlength>"))
    by (vm_compute; reflexivity).
  revert EC.
  generalize (lit "<d:getcontentlength"), (lit "</d:getcontentlength>").
  intros OPEN CLOSE EC.
  intros (open & attrs & close & -> & Hopen & Hattrs & Hd0 & Hd & Hcl).
  rewrite run_literal_ci by exact Hopen.
  unfold no_capture. rewrite push_all_closed.
  cbn [app run].
  rewrite greedy_until; [| now apply no_gt_ci |].
  - cbn [atom_matches]. fold (ci_eqb GT GT). rewrite ci_eqb_refl.
    destruct digits as [|d digits]; [congruence|].
    cbn [forallb] in Hd. apply andb_true_iff in Hd. destruct Hd as [Hd1 Hd].
    unfold plus. cbn [app run atom_matches]. rewrite Hd1.
    assert (Hhead : exists close', close = 60 :: close').
    { pose proof Hcl as Hcl'. rewrite EC in Hcl'.
      destruct (spells_head_LT _ _ Hcl') as (c' & -> & _). now exists c'. }
    destruct Hhead as (close' & ->).
    apply (greedy_all (atom_matches true Digit)
             (run true (GroupClose :: literal CLOSE))
             digits ((60 :: close') ++ rest));
      [exact Hd | reflexivity |].
    unfold push. cbn [is_open captured].
    rewrite push_all_open.
    apply closing_run. exists (60 :: close'), rest.
    split; [reflexivity|]. split; [exact Hcl|]. reflexivity.
  - intros c t g Hc. cbn [run atom_matches]. fold (ci_eqb GT c). now rewrite Hc.
Qed.

Lemma contentlength_matches (s digits rest : jsstring) :
  matches_at getcontentlengthRegex s = Some (digits, rest) <->
  contentlength_at s digits rest.
Proof.
  unfold matches_at. split.
  - destruct (run true getcontentlengthRegex s no_capture) as [[g rest0]|] eqn:E;
      [|discriminate].
    intros H. injection H as <- <-. now apply contentlength_run_sound.
  - intros H. rewrite (contentlength_run_complete _ _ _ H). cbn [captured].
    now rewrite rev_involutive.
Qed.

(** ** The multi-status parser *)

Lemma forallb_any (s : jsstring) : forallb (atom_matches true AnyChar) s = true.
Proof. induction s; auto. Qed.

(** *** What the expressions of the parser find *)

Lemma any_element_matches (tag : string) :
  plain_tag tag = true ->
  forall s group rest,
    matches_at (element_any tag) s = Some (group, rest) <->
    element_at any_unit tag s group rest.
Proof.
  intros H. apply andb_true_iff in H. destruct H as [H1 H2]. apply str_eqb_eq in H1.
  rewrite element_any_literal.
  apply (element_matches AnyChar any_unit tag); auto.
Qed.

Lemma line_element_matches (tag : string) :
  plain_tag tag = true ->
  forall s group rest,
    matches_at (element_line tag) s = Some (group, rest) <->
    element_at no_line_break tag s group rest.
Proof.
  intros H. apply andb_true_iff in H. destruct H as [H1 H2]. apply str_eqb_eq in H1.
  rewrite element_line_literal.
  apply (element_matches Dot no_line_break tag); auto.
Qed.

Lemma first_element_match_i (tag : string) (text : jsstring)
      (found : option (jsstring * jsstring)) :
  plain_tag tag = true ->
  first_element tag text found ->
  match_i (element_any tag) text = option_map fst found.
Proof.
  intros Ht H.
  apply (leftmost_match_i _ _ (any_element_matches tag Ht) text found H).
Qed.

Lemma first_line_element_match_i (tag : string) (text : jsstring)
      (found : option (jsstring * jsstring)) :
  plain_tag tag = true ->
  first_line_element tag text found ->
  match_i (element_line tag) text = option_map fst found.
Proof.
  intros Ht H.
  apply (leftmost_match_i _ _ (line_element_matches tag Ht) text found H).
Qed.

Lemma first_status_line_match_i (text : jsstring)
      (found : option (jsstring * jsstring)) :
  first_status_line text found -> match_i statusRegex text = option_map fst found.
Proof. apply (leftmost_match_i _ _ status_matches). Qed.

Lemma first_contentlength_match_i (text : jsstring)
      (found : option (jsstring * jsstring)) :
  first_contentlength text found ->
  match_i getcontentlengthRegex text = option_map fst found.
Proof. apply (leftmost_match_i _ _ contentlength_matches). Qed.

(** What a search computes is the first text of the shape. *)
Lemma first_element_of_search (tag : string) (text : jsstring)
      (found : option (jsstring * jsstring)) :
  plain_tag tag = true ->
  search true (element_any tag) text = found -> first_element tag text found.
Proof.
  intros Ht <-. apply (search_leftmost _ _ (any_element_matches tag Ht)).
Qed.

Lemma first_line_element_of_search (tag : string) (text : jsstring)
      (found : option (jsstring * jsstring)) :
  plain_tag tag = true ->
  search true (element_line tag) text = found -> first_line_element tag text found.
Proof.
  intros Ht <-. apply (search_leftmost _ _ (line_element_matches tag Ht)).
Qed.

Lemma first_status_line_of_search (text : jsstring)
      (found : option (jsstring * jsstring)) :
  search true statusRegex text = found -> first_status_line text found.
Proof. intros <-. apply (search_leftmost _ _ status_matches). Qed.

Lemma first_contentlength_of_search (text : jsstring)
      (found : option (jsstring * jsstring)) :
  search true getcontentlengthRegex text = found -> first_contentlength text found.
Proof. intros <-. apply (search_leftmost _ _ contentlength_matches). Qed.

(** C1 (amended): only the first propstat element of a response counts,
    and within it the first status line of the form
    [<d:status ...>HTTP/d.d], white space, digits (letter case apart).
    For every response: without a propstat element the descriptor is the
    one made from the href; with one, the response yields no descriptor
    when the digits of that status line are not [200], whatever follows
    the element (also a propstat with 200); it yields the descriptor,
    with the properties read from that first propstat, when the digits
    are [200] and also when the propstat holds no status line of that
    form (none at all, or one written otherwise, as [HTTP/2 404]). *)
Theorem first_propstat_decides
        (toISOString : jsstring -> option jsstring) (nowISOString : jsstring)
        (responseContent : jsstring)
        (propstat status : option (jsstring * jsstring)) :
  first_element "propstat" responseContent propstat ->
  (forall propContent rest,
     propstat = Some (propContent, rest) -> first_status_line propContent status) ->
  parseResponseItem toISOString nowISOString responseContent =
    match propstat with
    | None => item_of_href responseContent
    | Some (propContent, _) =>
        let described :=
          option_map (read_properties toISOString nowISOString propContent)
                     (item_of_href responseContent) in
        match status with
        | Some (code, _) => if str_eqb code (lit "200") then described else None
        | None => described
        end
    end.
Proof.
  intros Hp Hs. unfold parseResponseItem, propstatRegex.
  rewrite (first_element_match_i "propstat" _ propstat eq_refl Hp).
  destruct propstat as [[propContent rest]|]; cbn [option_map fst].
  - unfold status_not_200.
    rewrite (first_status_line_match_i propContent status (Hs _ _ eq_refl)).
    cbv zeta.
    destruct (item_of_href responseContent) as [item|];
      destruct status as [[code rest']|]; cbn [option_map fst];
      try destruct (str_eqb code (lit "200")); reflexivity.
  - destruct (item_of_href responseContent); reflexivity.
Qed.

Lemma first_propstat_decides_not_found_first :
  parseResponseItem (fun _ => None) (lit "2024-01-01T00:00:00.000Z")
    (href_x ++ upper_case_propstat_element upper_case_not_found_propstat ++
     propstat_element found_propstat) = None /\
  option_map size
    (parseResponseItem (fun _ => None) (lit "2024-01-01T00:00:00.000Z")
       (href_x ++ propstat_element http2_not_found_propstat))
  = Some (Some (Num (Int 7))).
Proof.
  split.
  - rewrite (first_propstat_decides (fun _ => None) (lit "2024-01-01T00:00:00.000Z")
               (href_x ++ upper_case_propstat_element upper_case_not_found_propstat ++
                propstat_element found_propstat)
               (Some (upper_case_not_found_propstat,
                      propstat_element found_propstat))
               (Some (lit "404", lit " Not Found</D:status>"))).
    + vm_compute. reflexivity.
    + apply first_element_of_search; vm_compute; reflexivity.
    + intros propContent rest E. injection E as <- _.
      apply first_status_line_of_search. vm_compute. reflexivity.
  - rewrite (first_propstat_decides (fun _ => None) (lit "2024-01-01T00:00:00.000Z")
               (href_x ++ propstat_element http2_not_found_propstat)
               (Some (http2_not_found_propstat, [])) None).
    + vm_compute. reflexivity.
    + apply first_element_of_search; vm_compute; reflexivity.
    + intros propContent rest E. injection E as <- _.
      apply first_status_line_of_search. vm_compute. reflexivity.
Defined.

(** C1 as stated fails: a response whose second propstat carries 200 and
    the properties yields no descriptor when a 404 propstat comes first;
    the same two propstat elements in the other order yield the
    descriptor. *)
Lemma later_200_propstat_is_not_selected :
  parseWebDAVResponse (fun _ => None) (lit "2024-01-01T00:00:00.000Z")
    (response_element (href_x ++ propstat_element not_found_propstat ++
                       propstat_element found_propstat)) = [] /\
  List.map size
    (parseWebDAVResponse (fun _ => None) (lit "2024-01-01T00:00:00.000Z")
       (response_element (href_x ++ propstat_element found_propstat ++
                          propstat_element not_found_propstat)))
  = [Some (Num (Int 7))].
Proof. split; vm_compute; reflexivity. Qed.

(** *** Size of a collection *)

Lemma collect_items_In (toISOString : jsstring -> option jsstring)
      (nowISOString : jsstring) (responses : list jsstring) (item : Item) :
  In item (collect_items toISOString nowISOString responses) ->
  exists responseContent,
    In responseContent responses /\
    parseResponseItem toISOString nowISOString responseContent = Some item.
Proof.
  induction responses as [|rc responses IH]; [intros []|].
  cbn [collect_items].
  destruct (parseResponseItem toISOString nowISOString rc) as [i|] eqn:E.
  - intros [<- | H].
    + exists rc. split; [now left | exact E].
    + destruct (IH H) as (rc' & Hin & Hp). exists rc'. split; [now right | exact Hp].
  - intros H. destruct (IH H) as (rc' & Hin & Hp). exists rc'. split; [now right | exact Hp].
Qed.

(** An item whose [isDirectory] is set went through [parseProperties]. *)
Lemma directory_flag_origin (toISOString : jsstring -> option jsstring)
      (nowISOString : jsstring) (responseContent : jsstring) (item : Item) (b : bool) :
  parseResponseItem toISOString nowISOString responseContent = Some item ->
  isDirectory item = Some b ->
  exists properties before,
    infix properties responseContent /\
    item = parseProperties toISOString nowISOString properties before.
Proof.
  unfold parseResponseItem.
  destruct (item_of_href responseContent) as [item0|] eqn:Eh; [|discriminate].
  assert (H0 : isDirectory item0 = None).
  { unfold item_of_href in Eh.
    destruct (match_i hrefRegex responseContent); [|injection Eh as <-; reflexivity].
    destruct (Uri.decodeURIComponent _); [|discriminate].
    injection Eh as <-. reflexivity. }
  destruct (match_i propstatRegex responseContent) as [propContent|] eqn:Ep.
  - destruct (status_not_200 propContent); [discriminate|].
    unfold read_properties.
    destruct (match_i propRegex propContent) as [properties|] eqn:Er.
    + intros H _. injection H as <-. exists properties, item0. split; [|reflexivity].
      apply infix_trans with propContent; eapply match_i_infix; eassumption.
    + intros H Hd. injection H as <-. congruence.
  - intros H Hd. injection H as <-. congruence.
Qed.

Lemma item_of_href_no_flag (responseContent : jsstring) (item : Item) :
  item_of_href responseContent = Some item -> isDirectory item = None.
Proof.
  unfold item_of_href.
  destruct (match_i hrefRegex responseContent); [|intros H; injection H as <-; reflexivity].
  destruct (Uri.decodeURIComponent _); [|discriminate].
  intros H. injection H as <-. reflexivity.
Qed.

Lemma response_elements_exec (xmlText : jsstring) :
  response_elements xmlText (exec_all_gi responseRegex xmlText).
Proof.
  apply (exec_all_successive _ _ (any_element_matches "response" eq_refl)).
  intros s group rest. apply element_consumes.
Qed.

(** C4 (amended): a descriptor marked as a collection is the descriptor
    of one response element of the answer, which has a first propstat
    element, which has a first prop element; the size of the descriptor
    is read from that prop element: it is the number given by the first
    [getcontentlength] element whose content is digits only, as
    [parseInt] reads it, when the prop element holds one (also for a
    collection), and 0 when it holds none. *)
Theorem collection_size_is_zero_without_contentlength
        (toISOString : jsstring -> option jsstring) (nowISOString : jsstring)
        (xmlText : jsstring) (item : Item) :
  In item (parseWebDAVResponse toISOString nowISOString xmlText) ->
  isDirectory item = Some true ->
  exists (responses : list jsstring) (responseContent : jsstring)
         (propContent rest properties rest' : jsstring),
    response_elements xmlText responses /\
    In responseContent responses /\
    parseResponseItem toISOString nowISOString responseContent = Some item /\
    first_element "propstat" responseContent (Some (propContent, rest)) /\
    first_element "prop" propContent (Some (properties, rest')) /\
    forall found : option (jsstring * jsstring),
      first_contentlength properties found ->
      size item =
        Some (Num match found with
                  | Some (digits, _) => parseInt digits
                  | None => Int 0
                  end).
Proof.
  intros Hin Hd. unfold parseWebDAVResponse in Hin.
  apply collect_items_In in Hin. destruct Hin as (rc & Hrc & Hitem).
  exists (exec_all_gi responseRegex xmlText), rc.
  pose proof Hitem as Hparse. unfold parseResponseItem in Hitem.
  destruct (item_of_href rc) as [item0|] eqn:Eh; [|discriminate].
  apply item_of_href_no_flag in Eh.
  unfold match_i, propstatRegex in Hitem.
  destruct (search true (element_any "propstat") rc) as [[propContent rest]|] eqn:Ep;
    cbn [option_map fst] in Hitem;
    [|injection Hitem as <-; congruence].
  destruct (status_not_200 propContent); [discriminate|].
  unfold read_properties, match_i, propRegex in Hitem.
  destruct (search true (element_any "prop") propContent) as [[properties rest']|] eqn:Er;
    cbn [option_map fst] in Hitem;
    [|injection Hitem as <-; congruence].
  exists propContent, rest, properties, rest'.
  split; [apply response_elements_exec|].
  split; [exact Hrc|]. split; [exact Hparse|].
  split; [apply first_element_of_search; [reflexivity | exact Ep]|].
  split; [apply first_element_of_search; [reflexivity | exact Er]|].
  intros found Hfound. apply first_contentlength_match_i in Hfound.
  injection Hitem as <-. unfold parseProperties in *. cbn [size isDirectory] in *.
  rewrite Hfound. destruct found as [[digits r]|]; cbn [option_map fst]; [reflexivity|].
  injection Hd as ->. reflexivity.
Qed.

Lemma collection_size_is_zero_without_contentlength_scenario :
  (exists (responses : list jsstring) (responseContent : jsstring)
          (propContent rest properties rest' : jsstring),
     response_elements plain_collection_answer responses /\
     In responseContent responses /\
     parseResponseItem (fun _ => None) (lit "2024-01-01T00:00:00.000Z") responseContent
       = Some (first_item plain_collection_answer) /\
     first_element "propstat" responseContent (Some (propContent, rest)) /\
     first_element "prop" propContent (Some (properties, rest')) /\
     forall found : option (jsstring * jsstring),
       first_contentlength properties found ->
       size (first_item plain_collection_answer) =
         Some (Num match found with
                   | Some (digits, _) => parseInt digits
                   | None => Int 0
                   end)) /\
  size (first_item plain_collection_answer) = Some (Num (Int 0)).
Proof.
  split.
  - apply (collection_size_is_zero_without_contentlength (fun _ => None)
             (lit "2024-01-01T00:00:00.000Z") plain_collection_answer).
    + vm_compute. left. reflexivity.
    + vm_compute. reflexivity.
  - vm_compute. reflexivity.
Defined.

(** C4 as stated fails: a descriptor marked as a collection whose size is
    the content length the server reported for it. *)
Lemma collection_with_contentlength_has_that_size :
  List.map (fun item => (isDirectory item, size item))
    (parseWebDAVResponse (fun _ => None) (lit "2024-01-01T00:00:00.000Z")
       sized_collection_answer)
  = [(Some true, Some (Num (Int 4096)))].
Proof. vm_compute. reflexivity. Qed.

Lemma startsWith_prefix (p s : jsstring) : startsWith (p ++ s) p = true.
Proof.
  induction p as [|x p IH]; [reflexivity|].
  cbn [app startsWith]. now rewrite Z.eqb_refl, IH.
Qed.

Lemma startsWith_split (p : jsstring) :
  forall s, startsWith s p = true -> exists rest, s = p ++ rest.
Proof.
  induction p as [|x p IH]; intros s H.
  - now exists s.
  - destruct s as [|y s]; [discriminate|]. cbn [startsWith] in H.
    apply andb_true_iff in H. destruct H as [Hx Hp].
    apply Z.eqb_eq in Hx. subst y.
    destruct (IH s Hp) as (rest & ->). now exists rest.
Qed.

Lemma includes_infix (s p : jsstring) : includes s p = true <-> infix p s.
Proof.
  split.
  - induction s as [|c s IH]; cbn [includes]; intros H.
    + rewrite orb_false_r in H. destruct (startsWith_split p [] H) as (rest & E).
      exists [], rest. exact E.
    + apply orb_true_iff in H. destruct H as [H | H].
      * destruct (startsWith_split p _ H) as (rest & E). exists [], rest. exact E.
      * destruct (IH H) as (before & after & ->). now exists (c :: before), after.
  - intros (before & after & ->).
    induction before as [|c before IH].
    + cbn [app]. destruct (p ++ after) eqn:E; cbn [includes];
        rewrite <- E, startsWith_prefix; reflexivity.
    + cbn [app includes]. rewrite IH. apply orb_true_r.
Qed.

Lemma infix_of_prefix (a b s : jsstring) : infix (a ++ b) s -> infix a s.
Proof.
  intros (before & after & ->). exists before, (b ++ after).
  now rewrite <- app_assoc.
Qed.

(** The test for a collection compares letter case: a descriptor marked
    as a collection comes from an answer that holds the text
    [<d:collection] in lower case. *)
Lemma collection_flag_needs_lower_case_tag
      (toISOString : jsstring -> option jsstring) (nowISOString : jsstring)
      (xmlText : jsstring) (item : Item) :
  In item (parseWebDAVResponse toISOString nowISOString xmlText) ->
  isDirectory item = Some true ->
  includes xmlText (lit "<d:collection") = true.
Proof.
  intros Hin Hdir. unfold parseWebDAVResponse in Hin.
  destruct (collect_items_In _ _ _ _ Hin) as (rc & Hrc & Hparse).
  apply exec_loop_infix in Hrc.
  destruct (directory_flag_origin _ _ _ _ _ Hparse Hdir)
    as (properties & before & Hp & ->).
  unfold parseProperties in Hdir. cbn [isDirectory] in Hdir.
  destruct (match_i resourcetypeRegex properties) as [resourceType|] eqn:Er;
    [|discriminate].
  apply match_i_infix in Er.
  assert (Hfound : infix (lit "<d:collection") resourceType).
  { injection Hdir as Hdir. apply orb_true_iff in Hdir.
    destruct Hdir as [H | H]; apply includes_infix in H; [exact H|].
    apply (infix_of_prefix (lit "<d:collection") (lit "/>")).
    replace (lit "<d:collection" ++ lit "/>") with (lit "<d:collection/>")
      by (vm_compute; reflexivity).
    exact H. }
  assert (Hall : infix (lit "<d:collection") xmlText).
  { apply infix_trans with resourceType; [exact Hfound|].
    apply infix_trans with properties; [exact Er|].
    now apply infix_trans with rc. }
  now apply includes_infix.
Qed.

(** ** Directory listing *)

Lemma childItems_spec (D : jsstring) (items : list Item) (item : Item) :
  In item (WebDAVDirectoryOperations.childItems D items) <->
  In item items /\
  WebDAVDirectoryOperations.itemPath item <> normalizeWebDAVPath D true.
Proof.
  unfold WebDAVDirectoryOperations.childItems. rewrite filter_In.
  cbv zeta. rewrite negb_true_iff, str_eqb_neq. reflexivity.
Qed.

(** The path of a file never is the path of a collection other than the
    root. *)
Lemma file_path_is_no_collection_path (p D : jsstring) :
  normalizeWebDAVPath D true <> [SLASH] ->
  normalizeWebDAVPath p false <> normalizeWebDAVPath D true.
Proof.
  intros Hroot E.
  destruct (normalize_normal p false) as (_ & _ & _ & Hf).
  destruct (normalize_normal D true) as (_ & _ & Hd & _).
  cbv zeta in *. specialize (Hd eq_refl).
  destruct (Hf eq_refl) as [H | H]; rewrite E in H; congruence.
Qed.

(** Nothing is filtered from items of which none is marked as a
    collection, unless the root is listed. *)
Lemma childItems_without_collections (D : jsstring) (items : list Item) :
  normalizeWebDAVPath D true <> [SLASH] ->
  Forall (fun item => isDirectory item <> Some true) items ->
  WebDAVDirectoryOperations.childItems D items = items.
Proof.
  intros Hroot H. unfold WebDAVDirectoryOperations.childItems.
  induction H as [|item items Hitem _ IH]; [reflexivity|].
  cbn [List.filter]. cbv zeta.
  assert (E : str_eqb (WebDAVDirectoryOperations.itemPath item)
                      (normalizeWebDAVPath D true) = false).
  { apply str_eqb_neq. unfold WebDAVDirectoryOperations.itemPath.
    replace (WebDAVDirectoryOperations.isDirectory_flag item) with false.
    - now apply file_path_is_no_collection_path.
    - unfold WebDAVDirectoryOperations.isDirectory_flag.
      destruct (isDirectory item) as [[|]|]; congruence. }
  rewrite E. cbn [negb]. now rewrite IH.
Qed.

(** C2 (the code departs from it): the filter of [listDirectory] compares
    the path of the listed directory, normalized as a collection, with
    the href of each item normalized with the item's own collection
    flag, and that flag is set only when the answer holds the text
    [<d:collection] in lower case.  For every directory [D] other than
    the root and every successful answer that does not hold that text
    (an answer written with another prefix, as [<D:collection/>]), the
    listing holds one entry for every item of the answer, in order: none
    is filtered out, the descriptor of [D] itself included. *)
Theorem listDirectory_keeps_self_without_lower_case_tag
        (toLowerCase : jsstring -> jsstring)
        (toISOString : jsstring -> option jsstring) (nowISOString : jsstring)
        (c : Client) (D : jsstring) (w w' : World) (answer : Response) :
  propfind c D 1 w = (inl answer, w') ->
  ok answer = true ->
  includes (responseText answer) (lit "<d:collection") = false ->
  normalizeWebDAVPath D true <> [SLASH] ->
  WebDAVDirectoryOperations.listDirectory toLowerCase toISOString nowISOString c D w =
    (inl {| WebDAVDirectoryOperations.content :=
              List.map (fun item =>
                          WebDAVDirectoryOperations._formatDirectoryItem
                            toLowerCase nowISOString item D)
                       (parseWebDAVResponse toISOString nowISOString
                                            (responseText answer));
            WebDAVDirectoryOperations.listing_write := true;
            WebDAVDirectoryOperations.provider := lit "WebDAV" |}, w').
Proof.
  intros Hp Hok Hno Hroot.
  unfold WebDAVDirectoryOperations.listDirectory, try_catch, bind.
  rewrite Hp, Hok. cbn [negb].
  assert (Hnone : Forall (fun item => isDirectory item <> Some true)
                     (parseWebDAVResponse toISOString nowISOString
                                          (responseText answer))).
  { apply Forall_forall. intros item Hin Hdir.
    pose proof (collection_flag_needs_lower_case_tag _ _ _ _ Hin Hdir) as Hyes.
    congruence. }
  rewrite (childItems_without_collections D _ Hroot Hnone).
  destruct (parseWebDAVResponse toISOString nowISOString (responseText answer));
    reflexivity.
Qed.

Lemma listDirectory_keeps_self_upper_case_answer :
  fst (WebDAVDirectoryOperations.listDirectory
         WebDAVUploadOperations.ascii_lower (fun _ => None)
         (lit "2024-01-01T00:00:00.000Z")
         scenario_B_client (lit "/docs/") upper_case_world)
  = inl listing_with_self.
Proof.
  rewrite (listDirectory_keeps_self_without_lower_case_tag
             WebDAVUploadOperations.ascii_lower (fun _ => None)
             (lit "2024-01-01T00:00:00.000Z")
             scenario_B_client (lit "/docs/") upper_case_world
             (snd (propfind scenario_B_client (lit "/docs/") 1 upper_case_world))
             upper_case_listing_answer).
  - vm_compute. reflexivity.
  - vm_compute. reflexivity.
  - vm_compute. reflexivity.
  - vm_compute. reflexivity.
  - vm_compute. discriminate.
Defined.

Lemma listDirectory_scenario_B :
  option_map
    (fun listing =>
       List.map (fun e => (WebDAVDirectoryOperations.entry_name e,
                           WebDAVDirectoryOperations.is_dir e,
                           WebDAVDirectoryOperations.entry_size e))
                (WebDAVDirectoryOperations.content listing))
    (match fst (WebDAVDirectoryOperations.listDirectory
                  WebDAVUploadOperations.ascii_lower (fun _ => None)
                  (lit "2024-01-01T00:00:00.000Z")
                  scenario_B_client (lit "/docs/") scenario_B_world) with
     | inl listing => Some listing
     | inr _ => None
     end)
  = Some [(lit "sub", true, Int 0); (lit "a.txt", false, Int 120)].
Proof. vm_compute. reflexivity. Qed.

(** There too the listed directory is among the entries: its href is
    compared with the path as it was asked for. *)
Lemma listDirectory_based_answer :
  option_map
    (fun listing =>
       List.map (fun e => (WebDAVDirectoryOperations.entry_name e,
                           WebDAVDirectoryOperations.is_dir e))
                (WebDAVDirectoryOperations.content listing))
    (match fst (WebDAVDirectoryOperations.listDirectory
                  WebDAVUploadOperations.ascii_lower (fun _ => None)
                  (lit "2024-01-01T00:00:00.000Z")
                  based_client (lit "/docs/")
                  {| remote := fun _ _ => inl based_answer; sent := [] |}) with
     | inl listing => Some listing
     | inr _ => None
     end)
  = Some [(lit "docs", true); (lit "a.txt", false)].
Proof. vm_compute. reflexivity. Qed.

(** ** Headers objects *)

Lemma str_eqb_refl (k : jsstring) : str_eqb k k = true.
Proof. now apply str_eqb_eq. Qed.

Lemma get_set_same (k v : jsstring) (h : headers) :
  get_header k (set_header k v h) = Some v.
Proof.
  induction h as [|[k' v'] h IH]; cbn [get_header set_header].
  - now rewrite str_eqb_refl.
  - destruct (str_eqb k k') eqn:E; cbn [get_header]; rewrite ?E, ?str_eqb_refl; auto.
Qed.

Lemma get_set_other (k k' v : jsstring) (h : headers) :
  k <> k' -> get_header k (set_header k' v h) = get_header k h.
Proof.
  intros Hne. apply str_eqb_neq in Hne.
  induction h as [|[k2 v2] h IH]; cbn [get_header set_header].
  - now rewrite Hne.
  - destruct (str_eqb k' k2) eqn:E; cbn [get_header].
    + apply str_eqb_eq in E. subst k2. now rewrite Hne.
    + destruct (str_eqb k k2); auto.
Qed.

Lemma get_header_app (k : jsstring) (a b : headers) :
  get_header k (a ++ b) =
  match get_header k a with
  | Some v => Some v
  | None => get_header k b
  end.
Proof.
  induction a as [|[k' v'] a IH]; cbn [get_header app]; auto.
  destruct (str_eqb k k'); auto.
Qed.

(** After [Object.assign(target, source)] a name holds the value of its
    last entry in [source], and else what it held in [target]. *)
Lemma get_assign (k : jsstring) (source : headers) :
  forall target,
    get_header k (assign target source) =
    match get_header k (rev source) with
    | Some v => Some v
    | None => get_header k target
    end.
Proof.
  unfold assign.
  induction source as [|[k' v'] source IH]; intros target; [reflexivity|].
  cbn [fold_left fst snd rev]. rewrite IH, get_header_app.
  destruct (get_header k (rev source)); auto.
  cbn [get_header]. destruct (str_eqb k k') eqn:E.
  - apply str_eqb_eq in E. subst k'. apply get_set_same.
  - apply get_set_other. now apply str_eqb_neq.
Qed.

(** ** Upload *)

Lemma set_header_keys (k v : jsstring) (h : headers) :
  keys (set_header k v h) = keys h \/ keys (set_header k v h) = keys h ++ [k].
Proof.
  induction h as [|[k' v'] h IH]; cbn [set_header keys List.map fst app].
  - now right.
  - destruct (str_eqb k k') eqn:E.
    + apply str_eqb_eq in E. subst k'. now left.
    + cbn [List.map fst]. fold (keys h). fold (keys (set_header k v h)).
      destruct IH as [-> | ->]; [now left | now right].
Qed.

Lemma get_header_absent (k : jsstring) (h : headers) :
  get_header k h = None <-> ~ In k (keys h).
Proof.
  induction h as [|[k' v'] h IH]; cbn [get_header keys List.map fst In].
  - tauto.
  - fold (keys h). destruct (str_eqb k k') eqn:E.
    + apply str_eqb_eq in E. subst k'. split; [discriminate | tauto].
    + apply str_eqb_neq in E. rewrite IH. split; [intros H [H1 | H1]; auto | tauto].
Qed.

Lemma set_header_NoDup (k v : jsstring) (h : headers) :
  NoDup (keys h) -> NoDup (keys (set_header k v h)).
Proof.
  induction h as [|[k' v'] h IH]; cbn [set_header keys List.map fst]; intros H.
  - constructor; [intros [] | constructor].
  - fold (keys h) in *. inversion H as [|x l Hx Hl]; subst.
    destruct (str_eqb k k') eqn:E.
    + apply str_eqb_eq in E. subst k'. cbn [List.map fst]. now constructor.
    + cbn [List.map fst]. fold (keys (set_header k v h)). constructor; [|now apply IH].
      apply str_eqb_neq in E.
      destruct (set_header_keys k v h) as [-> | ->]; [exact Hx|].
      rewrite in_app_iff. cbn [In]. intros [H1 | [H1 | []]]; auto.
Qed.

Lemma assign_NoDup (source : headers) :
  forall target, NoDup (keys target) -> NoDup (keys (assign target source)).
Proof.
  unfold assign. induction source as [|[k v] source IH]; intros target H; [exact H|].
  cbn [fold_left fst snd]. apply IH. now apply set_header_NoDup.
Qed.

(** In an object the order of the names plays no role for a lookup. *)
Lemma get_header_rev (k : jsstring) (h : headers) :
  NoDup (keys h) -> get_header k (rev h) = get_header k h.
Proof.
  induction h as [|[k' v'] h IH]; [reflexivity|].
  cbn [keys List.map fst rev get_header]. fold (keys h). intros H.
  inversion H as [|x l Hx Hl]; subst.
  rewrite get_header_app, (IH Hl). cbn [get_header].
  destruct (str_eqb k k') eqn:E.
  - apply str_eqb_eq in E. subst k'.
    apply get_header_absent in Hx. now rewrite Hx.
  - now destruct (get_header k h).
Qed.

(** The headers of the PUT of an upload: a custom header first, then the
    two derived headers, then the headers of the client. *)
Lemma sent_header (k : jsstring) (contentType : jsstring) (fileSize : Z)
      (options : Options.t) (c : Client) :
  get_header k
    (assign (authHeader c)
       (WebDAVUploadOperations.upload_headers contentType fileSize options))
  = match custom_header k options with
    | Some v => Some v
    | None =>
        match get_header k [(lit "Content-Type", contentType);
                            (lit "Content-Length", toString fileSize)] with
        | Some v => Some v
        | None => get_header k (authHeader c)
        end
    end.
Proof.
  rewrite get_assign.
  assert (Hbase : NoDup (keys [(lit "Content-Type", contentType);
                               (lit "Content-Length", toString fileSize)])).
  { cbn [keys List.map fst]. constructor; [|constructor; [intros [] | constructor]].
    cbn [In]. intros [H | []]. revert H. vm_compute. discriminate. }
  unfold WebDAVUploadOperations.upload_headers, custom_header.
  revert Hbase. generalize [(lit "Content-Type", contentType);
                            (lit "Content-Length", toString fileSize)].
  intros base Hbase.
  destruct (Options.headers options) as [custom|].
  - rewrite (get_header_rev k _ (assign_NoDup custom base Hbase)), get_assign.
    destruct (get_header k (rev custom)); [reflexivity|].
    destruct (get_header k base); reflexivity.
  - rewrite (get_header_rev k base Hbase). reflexivity.
Qed.

(** The world after a call of [put]: the request was sent, whatever came
    back. *)
Lemma put_sends (c : Client) (path : jsstring) (b : payload) (hs : headers)
      (w : World) :
  sent (snd (put c path b hs w)) =
  sent w ++ [{| method := lit "PUT"; url := baseUrl c ++ path;
                requestHeaders := assign (authHeader c) hs; body := Some b |}].
Proof.
  unfold put, request, try_catch, fetch.
  destruct (remote w (sent w) _) as [r | [n m]]; reflexivity.
Qed.

Lemma uploadFile_text_sends (nowISOString : jsstring) (c : Client)
      (path text : jsstring) (options : Options.t) (w : World) :
  let fileData := utf8_encode text in
  let contentType := WebDAVUploadOperations.chosen_contentType TEXT_PLAIN options in
  let headers := WebDAVUploadOperations.upload_headers contentType
                   (Z.of_nat (List.length fileData)) options in
  let run := WebDAVUploadOperations.uploadFile nowISOString c path
               (WebDAVUploadOperations.AString text) options w in
  sent (snd run) = sent (snd (put c path (Octets fileData) headers w)) /\
  forall result, fst run = inl result ->
    WebDAVUploadOperations.upload_size result = Z.of_nat (List.length fileData) /\
    WebDAVUploadOperations.upload_contentType result = contentType.
Proof.
  cbv zeta.
  unfold WebDAVUploadOperations.uploadFile, try_catch, bind.
  cbn [WebDAVUploadOperations.inspect].
  fold TEXT_PLAIN.
  destruct (put c path _ _ w) as [[response | e] w1] eqn:Hput; cbn [snd fst].
  - destruct (ok response); cbn [negb].
    + split; [reflexivity|]. intros result H. cbn in H. injection H as <-.
      split; reflexivity.
    + destruct (status response =? 409); [split; [reflexivity | discriminate]|].
      destruct (status response =? 507); split; try reflexivity; discriminate.
  - destruct e; split; try reflexivity; discriminate.
Qed.

(** C7 (amended): [uploadFile] of a string sends one PUT whose body is the
    UTF-8 encoding of the string, and the size it reports is the number
    of octets of that encoding, not the number of code units.  The
    [Content-Length] sent is the value [options.headers] gives to that
    name when it gives one, and the decimal octet count otherwise.  The
    content type reported is [text/plain] when the [contentType] option
    is absent or empty and the option when it is not empty; the
    [Content-Type] sent is the value [options.headers] gives to that
    name when it gives one, and the content type reported otherwise. *)
Theorem uploadFile_text_length_and_type
        (nowISOString : jsstring) (c : Client) (path text : jsstring)
        (options : Options.t) (w : World) :
  let octets := utf8_encode text in
  let size := Z.of_nat (List.length octets) in
  let contentType := WebDAVUploadOperations.chosen_contentType TEXT_PLAIN options in
  let run := WebDAVUploadOperations.uploadFile nowISOString c path
               (WebDAVUploadOperations.AString text) options w in
  (exists rq : Request,
     sent (snd run) = sent w ++ [rq] /\
     method rq = lit "PUT" /\
     body rq = Some (Octets octets) /\
     get_header CONTENT_LENGTH (requestHeaders rq) =
       Some match custom_header CONTENT_LENGTH options with
            | Some value => value
            | None => toString size
            end /\
     get_header CONTENT_TYPE (requestHeaders rq) =
       Some match custom_header CONTENT_TYPE options with
            | Some value => value
            | None => contentType
            end) /\
  (forall result, fst run = inl result ->
     WebDAVUploadOperations.upload_size result = size /\
     WebDAVUploadOperations.upload_contentType result = contentType) /\
  (no_contentType options -> contentType = TEXT_PLAIN) /\
  (forall ct, Options.contentType options = Some ct -> ct <> [] -> contentType = ct).
Proof.
  cbv zeta.
  destruct (uploadFile_text_sends nowISOString c path text options w) as [Hsent Hres].
  split; [|split; [exact Hres|split]].
  - rewrite Hsent, put_sends. eexists. split; [reflexivity|].
    cbn [method body requestHeaders].
    split; [reflexivity|]. split; [reflexivity|].
    split.
    + rewrite sent_header.
      destruct (custom_header CONTENT_LENGTH options); [reflexivity|].
      change (lit "Content-Length") with CONTENT_LENGTH.
      change (lit "Content-Type") with CONTENT_TYPE.
      cbn [get_header].
      replace (str_eqb CONTENT_LENGTH CONTENT_TYPE) with false
        by (vm_compute; reflexivity).
      now rewrite str_eqb_refl.
    + rewrite sent_header.
      destruct (custom_header CONTENT_TYPE options); [reflexivity|].
      change (lit "Content-Type") with CONTENT_TYPE.
      cbn [get_header]. now rewrite str_eqb_refl.
  - unfold no_contentType, WebDAVUploadOperations.chosen_contentType.
    destruct (Options.contentType options) as [ct|]; [|reflexivity].
    intros ->. reflexivity.
  - intros ct Hct Hne. unfold WebDAVUploadOperations.chosen_contentType.
    rewrite Hct. destruct ct; [congruence | reflexivity].
Qed.

Lemma scenario_F_lengths :
  List.length scenario_F_text = 4%nat /\
  List.length (utf8_encode scenario_F_text) = 9%nat.
Proof. split; vm_compute; reflexivity. Qed.

Lemma uploadFile_text_scenario_F :
  let run := WebDAVUploadOperations.uploadFile (lit "2024-01-01T00:00:00.000Z")
               plain_client (lit "/notes.txt")
               (WebDAVUploadOperations.AString scenario_F_text)
               Options.empty created_world in
  (exists rq : Request,
     sent (snd run) = [rq] /\
     method rq = lit "PUT" /\
     body rq = Some (Octets (utf8_encode scenario_F_text)) /\
     get_header CONTENT_LENGTH (requestHeaders rq) = Some (lit "9") /\
     get_header CONTENT_TYPE (requestHeaders rq) = Some TEXT_PLAIN) /\
  (forall result, fst run = inl result ->
     WebDAVUploadOperations.upload_size result = 9 /\
     WebDAVUploadOperations.upload_contentType result = TEXT_PLAIN).
Proof.
  cbv zeta.
  destruct (uploadFile_text_length_and_type (lit "2024-01-01T00:00:00.000Z")
              plain_client (lit "/notes.txt") scenario_F_text Options.empty
              created_world) as ((rq & Hsent & Hm & Hb & Hl & Ht) & Hres & _).
  split.
  - exists rq. repeat split; assumption.
  - exact Hres.
Defined.

(** C7 as stated fails: with no [contentType] option the PUT that is sent
    carries the custom [Content-Length], not the octet length of the text. *)
Lemma uploadFile_custom_header_wins :
  let run := WebDAVUploadOperations.uploadFile (lit "2024-01-01T00:00:00.000Z")
               plain_client (lit "/notes.txt")
               (WebDAVUploadOperations.AString (lit "abc"))
               overriding_options created_world in
  Options.contentType overriding_options = None /\
  toString (Z.of_nat (List.length (utf8_encode (lit "abc")))) = lit "3" /\
  exists rq : Request,
    sent (snd run) = [rq] /\
    get_header CONTENT_LENGTH (requestHeaders rq) = Some (lit "0") /\
    get_header CONTENT_LENGTH (requestHeaders rq)
      <> Some (toString (Z.of_nat (List.length (utf8_encode (lit "abc"))))).
Proof.
  cbv zeta. split; [reflexivity|]. split; [vm_compute; reflexivity|].
  eexists. split; [vm_compute; reflexivity|].
  split; [vm_compute; reflexivity | vm_compute; discriminate].
Qed.

(** ** Update of a file *)

(** C8 (the code at the failing input): [updateFile] throws Internal on
    every answer that is not 2xx, and on a 2xx answer reports
    [content.length] as the size.  For the text of one accented letter the
    PUT writes two octets and the size reported is 1. *)
Theorem updateFile_reports_code_units :
  (forall (c : Client) (path : jsstring) (content : payload)
          (options : Options.t) (w w' : World) (answer : Response),
     put c path content
         [(CONTENT_TYPE, WebDAVFileOperations.contentType_or_text_plain options)] w
       = (inl answer, w') ->
     WebDAVFileOperations.updateFile c path content options w =
       if ok answer
       then (inl {| WebDAVFileOperations.update_success := true;
                    WebDAVFileOperations.update_message := lit "文件更新成功";
                    WebDAVFileOperations.update_path := path;
                    WebDAVFileOperations.update_size :=
                      WebDAVFileOperations.content_length content |}, w')
       else (inr (HTTPException INTERNAL_ERROR
                    (lit "更新文件失败: " ++ statusText answer)), w')) /\
  (exists result w',
     WebDAVFileOperations.updateFile plain_client (lit "/a.txt")
       (Text one_accented_letter) Options.empty ok_world = (inl result, w') /\
     WebDAVFileOperations.update_success result = true /\
     WebDAVFileOperations.update_size result = Some 1 /\
     List.map body (sent w') = [Some (Text one_accented_letter)] /\
     Z.of_nat (List.length (octets_written (Text one_accented_letter))) = 2).
Proof.
  split.
  - intros c path content options w w' answer Hput.
    unfold WebDAVFileOperations.updateFile, try_catch, bind.
    fold CONTENT_TYPE. rewrite Hput.
    destruct (ok answer); reflexivity.
  - eexists. eexists. split; [vm_compute; reflexivity|].
    split; [vm_compute; reflexivity|]. split; [vm_compute; reflexivity|].
    split; vm_compute; reflexivity.
Qed.

(** ** Batch operations *)

Section BatchLoop.

Import WebDAVBatchOperations.

Context {I O : Type}.
Variable one : I -> M (O + O).
(** The input an outcome reports. *)
Variable input_of : O -> I.

(** An iteration that never throws and reports the item it was given. *)
Hypothesis one_total :
  forall (item : I) (w : World),
    exists (o : O) (w' : World),
      (one item w = (inl (inl o), w') \/ one item w = (inl (inr o), w')) /\
      input_of o = item.

Lemma batch_loop_spec (items : list I) :
  forall (results errors : list O) (w : World),
    exists (results' errors' : list O) (w' : World),
      batch_loop one items results errors w = (inl (results', errors'), w') /\
      (List.length results' + List.length errors' =
       List.length results + List.length errors + List.length items)%nat /\
      Permutation (List.map input_of (results' ++ errors'))
                  (List.map input_of (results ++ errors) ++ items) /\
      (items = [] -> results' = results /\ errors' = errors).
Proof.
  induction items as [|item rest IH]; intros results errors w.
  - exists results, errors, w. cbn. rewrite app_nil_r.
    split; [reflexivity|]. split; [lia|]. split; [reflexivity|]. auto.
  - destruct (one_total item w) as (o & w1 & Hone & Hin).
    cbn [batch_loop]. unfold bind at 1.
    destruct Hone as [Hone | Hone]; rewrite Hone.
    + destruct (IH (results ++ [o]) errors w1) as (rs & es & w2 & Hrun & Hlen & Hperm & _).
      exists rs, es, w2. split; [exact Hrun|]. split.
      * rewrite length_app in Hlen. cbn in Hlen. cbn. lia.
      * split; [|discriminate].
        eapply Permutation_trans; [exact Hperm|].
        rewrite !map_app. cbn. rewrite Hin.
        rewrite <- !app_assoc. apply Permutation_app_head.
        cbn. apply Permutation_middle.
    + destruct (IH results (errors ++ [o]) w1) as (rs & es & w2 & Hrun & Hlen & Hperm & _).
      exists rs, es, w2. split; [exact Hrun|]. split.
      * rewrite length_app in Hlen. cbn in Hlen. cbn. lia.
      * split; [|discriminate].
        eapply Permutation_trans; [exact Hperm|].
        rewrite !map_app. cbn. rewrite Hin.
        rewrite <- !app_assoc. reflexivity.
Qed.

End BatchLoop.

Lemma summary_accounts {I O : Type} (input_of : O -> I) (what : jsstring)
      (input : list I) (results errors : list O) :
  (List.length results + List.length errors = List.length input)%nat ->
  Permutation (List.map input_of (results ++ errors)) input ->
  accounts_for input_of input (WebDAVBatchOperations.summary what input results errors).
Proof.
  intros Hlen Hperm. unfold accounts_for, WebDAVBatchOperations.summary. cbn.
  repeat split; auto; try lia.
  - intros H. apply Z.eqb_eq in H. destruct errors; [reflexivity | cbn in H; lia].
  - intros ->. reflexivity.
Qed.

Lemma request_never_raw (c : Client) (method path : jsstring) (hs : headers)
      (b : option payload) (w : World) :
  exists w', (exists r, request c method path hs b w = (inl r, w')) \/
             (exists m, request c method path hs b w = (inr (HTTPException INTERNAL_ERROR m), w')).
Proof.
  unfold request, try_catch, fetch.
  destruct (remote w (sent w) _) as [r | [n m]]; eexists; [left | right]; eexists; reflexivity.
Qed.

Lemma remove_one_total (c : Client) (path : jsstring) (w : World) :
  exists o w',
    (WebDAVBatchOperations.remove_one c path w = (inl (inl o), w') \/
     WebDAVBatchOperations.remove_one c path w = (inl (inr o), w')) /\
    WebDAVBatchOperations.removed_path o = path.
Proof.
  unfold WebDAVBatchOperations.remove_one, try_catch, bind, delete.
  destruct (request_never_raw c (lit "DELETE") path [] None w) as (w' & [[r H] | [m H]]);
    rewrite H.
  - destruct (ok r); eexists; eexists; split; [left; reflexivity | reflexivity | right; reflexivity | reflexivity].
  - eexists; eexists; split; [right; reflexivity | reflexivity].
Qed.

Lemma copy_one_total (c : Client) (options : Options.t)
      (item : WebDAVBatchOperations.TransferItem) (w : World) :
  exists o w',
    (WebDAVBatchOperations.copy_one c options item w = (inl (inl o), w') \/
     WebDAVBatchOperations.copy_one c options item w = (inl (inr o), w')) /\
    {| WebDAVBatchOperations.sourcePath := WebDAVBatchOperations.transfer_sourcePath o;
       WebDAVBatchOperations.targetPath := WebDAVBatchOperations.transfer_targetPath o |}
    = item.
Proof.
  destruct item as [src tgt].
  unfold WebDAVBatchOperations.copy_one, try_catch, bind, copy.
  match goal with |- context [request ?c ?m ?p ?h ?b ?w] =>
    destruct (request_never_raw c m p h b w) as (w' & [[r H] | [e H]]); rewrite H end.
  - destruct (ok r); eexists; eexists; split; [left; reflexivity | reflexivity | right; reflexivity | reflexivity].
  - eexists; eexists; split; [right; reflexivity | reflexivity].
Qed.

Lemma move_one_total (c : Client) (options : Options.t)
      (item : WebDAVBatchOperations.TransferItem) (w : World) :
  exists o w',
    (WebDAVBatchOperations.move_one c options item w = (inl (inl o), w') \/
     WebDAVBatchOperations.move_one c options item w = (inl (inr o), w')) /\
    {| WebDAVBatchOperations.sourcePath := WebDAVBatchOperations.transfer_sourcePath o;
       WebDAVBatchOperations.targetPath := WebDAVBatchOperations.transfer_targetPath o |}
    = item.
Proof.
  destruct item as [src tgt].
  unfold WebDAVBatchOperations.move_one, try_catch, bind, move.
  match goal with |- context [request ?c ?m ?p ?h ?b ?w] =>
    destruct (request_never_raw c m p h b w) as (w' & [[r H] | [e H]]); rewrite H end.
  - destruct (ok r); eexists; eexists; split; [left; reflexivity | reflexivity | right; reflexivity | reflexivity].
  - eexists; eexists; split; [right; reflexivity | reflexivity].
Qed.

(** ** The connection diagnostic *)

(** A [try] whose [catch] returns does not throw. *)
Lemma try_catch_returns {A : Type} (m : M A) (handler : exn -> M A) (w : World) :
  (forall e w0, exists a w1, handler e w0 = (inl a, w1)) ->
  exists a w', try_catch m handler w = (inl a, w').
Proof.
  intros H. unfold try_catch. destruct (m w) as [[a | e] w0].
  - now exists a, w0.
  - apply H.
Qed.

Section Stages.

Import webdavConfigService.

Variable btoa : jsstring -> jsstring + exn.
Variable AbortSignal_timeout : number -> unit + exn.
Variable nowISOString : jsstring.
Variable timestamp : Z.
Variable elapsed : Z.
Variable config : StoredConfig.
Variable username password : jsstring.

(** The four stages catch whatever is thrown. *)
Lemma connect_returns (stage : Stage) (w : World) :
  exists stage' w',
    executeWebDAVConnectTest btoa AbortSignal_timeout stage config username password w
      = (inl stage', w').
Proof.
  unfold executeWebDAVConnectTest. apply try_catch_returns.
  intros e w0. eexists. eexists. reflexivity.
Qed.

Lemma auth_returns (stage : Stage) (w : World) :
  exists stage' w',
    executeWebDAVAuthTest btoa AbortSignal_timeout stage config username password w
      = (inl stage', w').
Proof.
  unfold executeWebDAVAuthTest. apply try_catch_returns.
  intros e w0. eexists. eexists. reflexivity.
Qed.

Lemma read_returns (stage : Stage) (w : World) :
  exists stage' w',
    executeWebDAVReadTest btoa AbortSignal_timeout stage config username password w
      = (inl stage', w').
Proof.
  unfold executeWebDAVReadTest. apply try_catch_returns.
  intros e w0. eexists. eexists. reflexivity.
Qed.

Lemma write_returns (stage : Stage) (w : World) :
  exists stage' w',
    executeWebDAVWriteTest btoa AbortSignal_timeout nowISOString timestamp elapsed
      stage config username password w = (inl stage', w').
Proof.
  unfold executeWebDAVWriteTest. apply try_catch_returns.
  intros e w0. eexists. eexists. reflexivity.
Qed.

End Stages.

(** ** The facade *)

Section Facade.

Import WebDAVStorageDriver.

Variable btoa : jsstring -> jsstring + exn.
Variable decryptValue : jsstring -> jsstring -> M jsstring.
Variable updateMountLastUsed : jsstring -> M unit.
Variable toLowerCase : jsstring -> jsstring.
Variable toISOString : jsstring -> option jsstring.
Variable nowISOString : jsstring.

Let call :=
  invoke btoa decryptValue updateMountLastUsed toLowerCase toISOString nowISOString.
Let run :=
  lifetime btoa decryptValue updateMountLastUsed toLowerCase toISOString nowISOString.







End Facade.


(* ================================================================== *)
(** * Further properties of the driver *)
(* ================================================================== *)

(** ** utils/WebDAVPathUtils.js: shape of the paths *)

Lemma without_slashes_cons (c : Z) (s : jsstring) :
  without_slashes (c :: s) =
  if c =? SLASH then without_slashes s else c :: without_slashes s.
Proof.
  unfold without_slashes, not_slash. cbn [List.filter].
  destruct (c =? SLASH); reflexivity.
Qed.

Lemma without_slashes_collapse (s : jsstring) :
  without_slashes (collapse_slashes s) = without_slashes s.
Proof.
  induction s as [|c s IH]; [reflexivity|].
  cbn [collapse_slashes]. destruct (c =? SLASH) eqn:Ec.
  - rewrite (without_slashes_cons c s), Ec.
    destruct s as [|d s]; [reflexivity|].
    destruct (d =? SLASH) eqn:Ed; [exact IH|].
    rewrite without_slashes_cons. change (SLASH =? SLASH) with true. exact IH.
  - rewrite !without_slashes_cons, Ec. now rewrite IH.
Qed.

Lemma without_slashes_snoc (s : jsstring) :
  without_slashes (s ++ [SLASH]) = without_slashes s.
Proof.
  induction s as [|c s IH]; [reflexivity|].
  cbn [app]. rewrite !without_slashes_cons, IH. reflexivity.
Qed.

Lemma endsWith_last (s : jsstring) :
  endsWith s [SLASH] = true -> s = removelast s ++ [SLASH].
Proof.
  intros E. destruct s as [|c s]; [discriminate|].
  assert (N : c :: s <> []) by discriminate.
  rewrite (app_removelast_last 0 N) in E at 1.
  rewrite endsWith_snoc in E. apply Z.eqb_eq in E.
  rewrite (app_removelast_last 0 N) at 1. now rewrite <- E.
Qed.

Lemma without_slashes_removelast (s : jsstring) :
  endsWith s [SLASH] = true -> without_slashes (removelast s) = without_slashes s.
Proof.
  intros E. rewrite (endsWith_last s E) at 2. now rewrite without_slashes_snoc.
Qed.

(** The path before its trailing separator is fixed: rooted and collapsed. *)
Lemma normalize_core (p : Z) (P' : jsstring) :
  exists core : jsstring,
    hd_error core = Some SLASH /\ no_double_slash core = true /\
    without_slashes core = without_slashes (p :: P') /\
    normalizeWebDAVPath (p :: P') true =
      (if endsWith core [SLASH] then core else core ++ [SLASH]) /\
    normalizeWebDAVPath (p :: P') false =
      (if endsWith core [SLASH] && negb (str_eqb core [SLASH])
       then removelast core else core).
Proof.
  unfold normalizeWebDAVPath. cbn [falsy]. cbv zeta.
  match goal with |- context [collapse_slashes ?x] => set (rooted := x) end.
  assert (Hr : hd_error rooted = Some SLASH).
  { unfold rooted. cbn [startsWith]. destruct (SLASH =? p) eqn:E; auto.
    apply Z.eqb_eq in E. now subst. }
  assert (Hw : without_slashes rooted = without_slashes (p :: P')).
  { unfold rooted. destruct (startsWith (p :: P') [SLASH]); [reflexivity|].
    rewrite without_slashes_cons. reflexivity. }
  clearbody rooted.
  exists (collapse_slashes rooted).
  split; [now rewrite collapse_head|].
  split; [apply collapse_no_double|].
  split; [now rewrite without_slashes_collapse|].
  split.
  - cbn [andb negb].
    destruct (endsWith (collapse_slashes rooted) [SLASH]); reflexivity.
  - cbn [andb negb]. reflexivity.
Qed.

(** Normalisation of a path that is rooted and collapsed. *)
Lemma normalize_rooted (s : jsstring) :
  hd_error s = Some SLASH -> no_double_slash s = true ->
  normalizeWebDAVPath s true = (if endsWith s [SLASH] then s else s ++ [SLASH]) /\
  normalizeWebDAVPath s false =
    (if endsWith s [SLASH] && negb (str_eqb s [SLASH]) then removelast s else s).
Proof.
  intros Hh Hn. unfold normalizeWebDAVPath.
  destruct s as [|x s]; [discriminate|]. simpl in Hh. injection Hh as ->.
  cbn [falsy startsWith]. rewrite Z.eqb_refl. cbn [andb].
  rewrite (collapse_fixed _ Hn). split.
  - cbn [andb negb].
    destruct (endsWith (SLASH :: s) [SLASH]); reflexivity.
  - cbn [andb negb]. reflexivity.
Qed.

Lemma removelast_snoc (s : jsstring) (c : Z) : removelast (s ++ [c]) = s.
Proof. apply removelast_last. Qed.

Lemma rooted_not_nil (s : jsstring) : hd_error s = Some SLASH -> s <> [].
Proof. destruct s; [discriminate | discriminate]. Qed.

Lemma snoc_is_not_root (s : jsstring) :
  s <> [] -> str_eqb (s ++ [SLASH]) [SLASH] = false.
Proof.
  intros N. apply str_eqb_neq. intros E.
  apply (f_equal (@List.length Z)) in E. rewrite length_app in E. simpl in E.
  destruct s; [congruence | simpl in E; lia].
Qed.

(** The flag of the last normalisation decides. *)
Lemma normalize_flag (P : jsstring) (c1 c2 : bool) :
  normalizeWebDAVPath (normalizeWebDAVPath P c1) c2 = normalizeWebDAVPath P c2.
Proof.
  destruct P as [|p P'].
  - destruct c1, c2; vm_compute; reflexivity.
  - destruct (normalize_core p P') as (core & Hh & Hn & _ & Ht & Hf).
    pose proof (rooted_not_nil core Hh) as Hne.
    destruct (normalize_normal (p :: P') c1) as (Nh & Nn & _ & _).
    cbv zeta in Nh, Nn.
    destruct (normalize_rooted _ Nh Nn) as [Rt Rf].
    destruct c2; [rewrite Rt | rewrite Rf]; clear Rt Rf Nh Nn;
      destruct c1; rewrite ?Ht, ?Hf.
    + (* directory after directory *)
      destruct (endsWith core [SLASH]) eqn:E.
      * now rewrite E.
      * now rewrite endsWith_snoc.
    + (* directory after file *)
      destruct (endsWith core [SLASH]) eqn:E; cbn [andb].
      * destruct (str_eqb core [SLASH]) eqn:E1; cbn [negb].
        -- now rewrite E.
        -- destruct (no_double_removelast core Hn) as [_ B].
           rewrite (B E). symmetry. now apply endsWith_last.
      * now rewrite E.
    + (* file after directory *)
      destruct (endsWith core [SLASH]) eqn:E; cbn [andb].
      * now rewrite E.
      * rewrite endsWith_snoc. change (SLASH =? SLASH) with true. cbn [andb].
        rewrite (snoc_is_not_root core Hne). cbn [negb].
        apply removelast_snoc.
    + (* file after file *)
      destruct (endsWith core [SLASH]) eqn:E; cbn [andb].
      * destruct (str_eqb core [SLASH]) eqn:E1; cbn [negb].
        -- now rewrite E, E1.
        -- destruct (no_double_removelast core Hn) as [_ B].
           now rewrite (B E).
      * now rewrite E.
Qed.

Lemma without_slashes_normalize (P : jsstring) (c : bool) :
  without_slashes (normalizeWebDAVPath P c) = without_slashes P.
Proof.
  destruct P as [|p P']; [reflexivity|].
  destruct (normalize_core p P') as (core & Hh & Hn & Hw & Ht & Hf).
  destruct c; [rewrite Ht | rewrite Hf]; rewrite <- Hw.
  - destruct (endsWith core [SLASH]); [reflexivity | apply without_slashes_snoc].
  - destruct (endsWith core [SLASH]) eqn:E; cbn [andb]; [|reflexivity].
    destruct (str_eqb core [SLASH]); cbn [negb]; [reflexivity|].
    now apply without_slashes_removelast.
Qed.

(** X1: the normalized path is rooted, holds no two separators in a row,
    ends with a separator exactly when the collection flag is set or the
    path is the root, and differs from the argument by separators only. *)
Theorem normalizeWebDAVPath_shape (P : jsstring) (c : bool) :
  let N := normalizeWebDAVPath P c in
  startsWith N [SLASH] = true /\
  no_double_slash N = true /\
  endsWith N [SLASH] = (c || str_eqb N [SLASH]) /\
  without_slashes N = without_slashes P.
Proof.
  cbv zeta.
  destruct (normalize_normal P c) as (Hh & Hn & Hd & Hf). cbv zeta in *.
  split; [|split; [|split]].
  - destruct (normalizeWebDAVPath P c) as [|x r]; [discriminate|].
    simpl in Hh. injection Hh as ->. reflexivity.
  - exact Hn.
  - destruct c; cbn [orb].
    + now apply Hd.
    + destruct (Hf eq_refl) as [E | E].
      * rewrite E. symmetry. apply str_eqb_neq. intros E1. rewrite E1 in E.
        discriminate.
      * rewrite E. reflexivity.
  - apply without_slashes_normalize.
Qed.

(** X2: of two normalisations in a row the flag of the second decides. *)
Theorem normalizeWebDAVPath_last_flag_decides (P : jsstring) (c1 c2 : bool) :
  normalizeWebDAVPath (normalizeWebDAVPath P c1) c2 = normalizeWebDAVPath P c2 /\
  (normalizeWebDAVPath P true = [SLASH] <-> normalizeWebDAVPath P false = [SLASH]) /\
  (normalizeWebDAVPath P false <> [SLASH] ->
   normalizeWebDAVPath P true = normalizeWebDAVPath P false ++ [SLASH]).
Proof.
  split; [apply normalize_flag|].
  assert (R : forall c, normalizeWebDAVPath [SLASH] c = [SLASH])
    by (intros [|]; vm_compute; reflexivity).
  split.
  - split; intros E.
    + rewrite <- (normalize_flag P true false), E. apply R.
    + rewrite <- (normalize_flag P false true), E. apply R.
  - intros N.
    destruct (normalize_normal P false) as (Hh & Hn & _ & Hf). cbv zeta in *.
    destruct (Hf eq_refl) as [E | E]; [|contradiction].
    rewrite <- (normalize_flag P false true).
    destruct (normalize_rooted _ Hh Hn) as [Rt _]. rewrite Rt, E. reflexivity.
Qed.

Lemma only_slashes_iff (s : jsstring) :
  without_slashes s = [] <-> forallb (fun c => c =? SLASH) s = true.
Proof.
  induction s as [|c s IH]; [split; reflexivity|].
  rewrite without_slashes_cons. cbn [forallb].
  destruct (c =? SLASH); cbn [andb]; [exact IH|].
  split; discriminate.
Qed.

Lemma normal_root_iff (s : jsstring) :
  hd_error s = Some SLASH -> no_double_slash s = true ->
  (s = [SLASH] <-> without_slashes s = []).
Proof.
  intros Hh Hn. split; [intros ->; reflexivity|].
  destruct s as [|x [|d r]]; [discriminate | |].
  - simpl in Hh. injection Hh as ->. reflexivity.
  - simpl in Hh. injection Hh as ->.
    change (negb ((SLASH =? SLASH) && (d =? SLASH)) && no_double_slash (d :: r) = true) in Hn.
    change (SLASH =? SLASH) with true in Hn. cbn [andb] in Hn.
    apply andb_true_iff in Hn. destruct Hn as [Hd _].
    apply negb_true_iff in Hd.
    rewrite !without_slashes_cons, Hd. discriminate.
Qed.

Lemma normalize_root_iff (P : jsstring) (c : bool) :
  normalizeWebDAVPath P c = [SLASH] <-> forallb (fun u => u =? SLASH) P = true.
Proof.
  destruct (normalize_normal P c) as (Hh & Hn & _ & _). cbv zeta in *.
  rewrite (normal_root_iff _ Hh Hn), without_slashes_normalize.
  apply only_slashes_iff.
Qed.

(** X3: a path is the root exactly when it holds nothing but separators
    (the empty path included); the collection flag plays no role. *)
Theorem isWebDAVRootPath_only_separators (P : jsstring) :
  isWebDAVRootPath P = forallb (fun c => c =? SLASH) P /\
  isWebDAVRootPath P = str_eqb (normalizeWebDAVPath P false) [SLASH].
Proof.
  unfold isWebDAVRootPath. split.
  - destruct (forallb (fun c => c =? SLASH) P) eqn:E.
    + apply str_eqb_eq. now apply normalize_root_iff.
    + apply str_eqb_neq. intros H. apply normalize_root_iff in H. congruence.
  - destruct (str_eqb (normalizeWebDAVPath P false) [SLASH]) eqn:E.
    + apply str_eqb_eq in E. apply str_eqb_eq.
      apply normalize_root_iff. now apply (normalize_root_iff P false).
    + apply str_eqb_neq in E. apply str_eqb_neq. intros H. apply E.
      apply normalize_root_iff. now apply (normalize_root_iff P true).
Qed.

(** ** Parent and name *)

Lemma split_last_slash_some (s before after : jsstring) :
  split_last_slash s = Some (before, after) ->
  s = before ++ SLASH :: after /\ forallb not_slash after = true.
Proof.
  revert before after. induction s as [|c s IH]; [discriminate|].
  intros before after. cbn [split_last_slash].
  destruct (split_last_slash s) as [[b a]|] eqn:E.
  - intros H. injection H as <- <-. destruct (IH b a eq_refl) as [-> Ha].
    split; [reflexivity | exact Ha].
  - destruct (c =? SLASH) eqn:Ec; [|discriminate].
    intros H. injection H as <- <-. apply Z.eqb_eq in Ec. subst c.
    split; [reflexivity|].
    clear IH. induction s as [|d s IHs]; [reflexivity|].
    cbn [split_last_slash] in E.
    destruct (split_last_slash s) as [[b a]|]; [discriminate|].
    destruct (d =? SLASH) eqn:Ed; [discriminate|].
    cbn [forallb]. unfold not_slash at 1. rewrite Ed. cbn [negb andb]. now apply IHs.
Qed.

Lemma split_last_slash_none (s : jsstring) :
  forallb not_slash s = true -> split_last_slash s = None.
Proof.
  induction s as [|c s IH]; [reflexivity|].
  cbn [forallb split_last_slash]. intros H. apply andb_true_iff in H.
  destruct H as [Hc Hs]. rewrite (IH Hs).
  unfold not_slash in Hc. now destruct (c =? SLASH).
Qed.

Lemma split_last_slash_app (before after : jsstring) :
  forallb not_slash after = true ->
  split_last_slash (before ++ SLASH :: after) = Some (before, after).
Proof.
  intros Ha. induction before as [|c b IH].
  - cbn [app split_last_slash]. rewrite (split_last_slash_none _ Ha).
    change (SLASH =? SLASH) with true. reflexivity.
  - cbn [app split_last_slash]. now rewrite IH.
Qed.

Lemma no_double_app_l (a b : jsstring) :
  no_double_slash (a ++ b) = true -> no_double_slash a = true.
Proof.
  induction a as [|c a IH]; [reflexivity|].
  destruct a as [|d a]; [reflexivity|].
  change (negb ((c =? SLASH) && (d =? SLASH)) && no_double_slash ((d :: a) ++ b) = true ->
          negb ((c =? SLASH) && (d =? SLASH)) && no_double_slash (d :: a) = true).
  intros H. apply andb_true_iff in H. destruct H as [H1 H2].
  now rewrite H1, IH.
Qed.

Lemma no_double_boundary (a b : jsstring) :
  a <> [] -> no_double_slash (a ++ SLASH :: b) = true -> endsWith a [SLASH] = false.
Proof.
  induction a as [|c a IH]; [congruence|].
  intros _ H. destruct a as [|d a].
  - cbn [app] in H.
    change (negb ((c =? SLASH) && (SLASH =? SLASH)) && no_double_slash (SLASH :: b) = true) in H.
    change (SLASH =? SLASH) with true in H. rewrite andb_true_r in H.
    apply andb_true_iff in H. destruct H as [H _].
    rewrite endsWith_single, Z.eqb_sym. now destruct (c =? SLASH).
  - rewrite endsWith_cons. apply IH; [discriminate|].
    change (negb ((c =? SLASH) && (d =? SLASH)) &&
            no_double_slash ((d :: a) ++ SLASH :: b) = true) in H.
    apply andb_true_iff in H. tauto.
Qed.

(** X4: parent and name cut the normalized path at its last separator.
    For the root the parent is the root and the name is empty; for any
    other path the name is not empty and holds no separator, the parent
    is itself a normalized path, and parent, separator and name give the
    normalized path back (the separator being the parent when the parent
    is the root). *)
Theorem parent_and_name_of_path (P : jsstring) :
  let N := normalizeWebDAVPath P false in
  let parent := getWebDAVParentPath P in
  let name := getWebDAVFileName P in
  if str_eqb N [SLASH] then parent = [SLASH] /\ name = []
  else
    name <> [] /\ forallb not_slash name = true /\
    N = (if str_eqb parent [SLASH] then [SLASH] else parent ++ [SLASH]) ++ name /\
    normalizeWebDAVPath parent false = parent.
Proof.
  cbv zeta. unfold getWebDAVParentPath, getWebDAVFileName.
  destruct (normalize_normal P false) as (Hh & Hn & _ & Hf). cbv zeta in *.
  specialize (Hf eq_refl).
  set (N := normalizeWebDAVPath P false) in *. clearbody N.
  destruct (str_eqb N [SLASH]) eqn:E; [split; reflexivity|].
  apply str_eqb_neq in E. destruct Hf as [He | He]; [|contradiction].
  destruct (split_last_slash N) as [[before after]|] eqn:S.
  - destruct (split_last_slash_some N before after S) as [EN Ha].
    assert (Hafter : after <> []).
    { intros ->. rewrite EN in He.
      change (before ++ [SLASH]) with (before ++ [SLASH]) in He.
      rewrite endsWith_snoc in He. discriminate. }
    destruct before as [|b0 before'].
    + split; [exact Hafter|]. split; [exact Ha|].
      split; [|vm_compute; reflexivity].
      change (str_eqb [SLASH] [SLASH]) with true. cbv iota. exact EN.
    + set (before := b0 :: before') in *.
      assert (Hb : before <> []) by discriminate.
      assert (Hbh : hd_error before = Some SLASH).
      { rewrite EN in Hh. exact Hh. }
      assert (Hbn : no_double_slash before = true).
      { rewrite EN in Hn. now apply no_double_app_l in Hn. }
      assert (Hbe : endsWith before [SLASH] = false).
      { rewrite EN in Hn. now apply no_double_boundary in Hn. }
      assert (Hroot : str_eqb before [SLASH] = false).
      { apply str_eqb_neq. intros R. rewrite R in Hbe. discriminate. }
      split; [exact Hafter|]. split; [exact Ha|]. split.
      * rewrite Hroot. rewrite <- app_assoc. exact EN.
      * apply normalize_fixed_file; auto.
  - exfalso. destruct N as [|x r]; [discriminate|].
    simpl in Hh. injection Hh as ->. cbn [split_last_slash] in S.
    destruct (split_last_slash r) as [[b a]|]; [discriminate|].
    change (SLASH =? SLASH) with true in S. discriminate.
Qed.

(** ** Joining *)

Lemma plain_name_spec (s : jsstring) :
  plain_name s = true -> s <> [] /\ forallb not_slash s = true.
Proof.
  unfold plain_name. intros H. apply andb_true_iff in H. destruct H as [H1 H2].
  split; [|exact H2]. destruct s; [discriminate | discriminate].
Qed.

Lemma strip_leading_plain (s : jsstring) :
  forallb not_slash s = true -> strip_leading_slashes s = s.
Proof.
  destruct s as [|c s]; [reflexivity|].
  cbn [forallb strip_leading_slashes]. intros H. apply andb_true_iff in H.
  destruct H as [Hc _]. unfold not_slash in Hc. now destruct (c =? SLASH).
Qed.

Lemma forallb_rev (p : Z -> bool) (s : jsstring) :
  forallb p (rev s) = forallb p s.
Proof.
  induction s as [|c s IH]; [reflexivity|].
  cbn [rev forallb]. rewrite forallb_app, IH. cbn [forallb].
  rewrite andb_true_r. apply andb_comm.
Qed.

Lemma strip_slashes_plain (s : jsstring) :
  forallb not_slash s = true -> strip_slashes s = s.
Proof.
  intros H. unfold strip_slashes. rewrite (strip_leading_plain s H).
  rewrite strip_leading_plain by now rewrite forallb_rev.
  apply rev_involutive.
Qed.

Lemma joinWebDAVPath_plain (ps : list jsstring) :
  forallb plain_name ps = true -> joinWebDAVPath ps = SLASH :: join SLASH ps.
Proof.
  intros H. unfold joinWebDAVPath. f_equal. f_equal.
  induction ps as [|p ps IH]; [reflexivity|].
  cbn [forallb] in H. apply andb_true_iff in H. destruct H as [Hp Hps].
  destruct (plain_name_spec p Hp) as [Hne Hns].
  cbn [List.filter]. destruct p as [|c p]; [congruence|]. cbn [falsy negb List.map].
  now rewrite (strip_slashes_plain _ Hns), IH.
Qed.

Lemma join_snoc (ps : list jsstring) (name : jsstring) :
  ps <> [] -> join SLASH (ps ++ [name]) = join SLASH ps ++ SLASH :: name.
Proof.
  induction ps as [|p ps IH]; [congruence|]. intros _.
  destruct ps as [|q ps]; [reflexivity|].
  change ((p :: q :: ps) ++ [name]) with (p :: (q :: ps) ++ [name]).
  rewrite join_cons by (destruct ps; discriminate).
  rewrite IH by discriminate.
  rewrite (join_cons SLASH p (q :: ps)) by discriminate.
  now rewrite <- app_assoc.
Qed.

Lemma no_double_plain_app (s t : jsstring) :
  forallb not_slash s = true -> no_double_slash (s ++ t) = no_double_slash t.
Proof.
  induction s as [|c s IH]; [reflexivity|].
  cbn [forallb]. intros H. apply andb_true_iff in H. destruct H as [Hc Hs].
  unfold not_slash in Hc. apply negb_true_iff in Hc.
  cbn [app]. destruct (s ++ t) as [|d r] eqn:E.
  - destruct s; [|discriminate]. cbn [app] in E. subst t. reflexivity.
  - change (negb ((c =? SLASH) && (d =? SLASH)) && no_double_slash (d :: r) =
            no_double_slash t).
    rewrite Hc. cbn [andb negb]. now apply IH.
Qed.

Lemma no_double_rooted_join (ps : list jsstring) :
  forallb plain_name ps = true -> no_double_slash (SLASH :: join SLASH ps) = true.
Proof.
  induction ps as [|p ps IH]; [reflexivity|].
  cbn [forallb]. intros H. apply andb_true_iff in H. destruct H as [Hp Hps].
  destruct (plain_name_spec p Hp) as [Hne Hns].
  assert (Hroot : forall t, no_double_slash (SLASH :: p ++ t) = no_double_slash t).
  { intros t. destruct p as [|c p]; [congruence|].
    cbn [forallb] in Hns. apply andb_true_iff in Hns. destruct Hns as [Hc Hr].
    unfold not_slash in Hc. apply negb_true_iff in Hc.
    change (negb ((SLASH =? SLASH) && (c =? SLASH)) && no_double_slash ((c :: p) ++ t) =
            no_double_slash t).
    rewrite Hc, andb_false_r. cbn [negb andb].
    apply no_double_plain_app. cbn [forallb]. unfold not_slash at 1.
    now rewrite Hc. }
  destruct ps as [|q ps].
  - cbn [join]. rewrite <- (app_nil_r p). apply Hroot.
  - rewrite join_cons by discriminate. rewrite Hroot. now apply IH.
Qed.

Lemma plain_last_unit (name : jsstring) :
  plain_name name = true ->
  exists front c, name = front ++ [c] /\ (SLASH =? c) = false.
Proof.
  intros H. destruct (plain_name_spec name H) as [Hne Hns].
  exists (removelast name), (last name 0).
  split; [now apply app_removelast_last|].
  rewrite (app_removelast_last 0 Hne) in Hns. rewrite forallb_app in Hns.
  apply andb_true_iff in Hns. destruct Hns as [_ Hl]. cbn [forallb] in Hl.
  rewrite andb_true_r in Hl. unfold not_slash in Hl.
  rewrite Z.eqb_sym. now apply negb_true_iff.
Qed.

(** X5: joining plain names and cutting the result again: the name of the
    joined path is the last name given, its parent is the join of the
    names before it. *)
Theorem join_then_parent_and_name (ps : list jsstring) (name : jsstring) :
  forallb plain_name (ps ++ [name]) = true ->
  getWebDAVFileName (joinWebDAVPath (ps ++ [name])) = name /\
  getWebDAVParentPath (joinWebDAVPath (ps ++ [name])) = joinWebDAVPath ps.
Proof.
  intros H. pose proof H as Hall.
  rewrite forallb_app in H. apply andb_true_iff in H. destruct H as [Hps Hname].
  cbn [forallb] in Hname. rewrite andb_true_r in Hname.
  destruct (plain_name_spec name Hname) as [Hne Hns].
  rewrite (joinWebDAVPath_plain _ Hall), (joinWebDAVPath_plain _ Hps).
  set (before := match ps with [] => [] | _ => SLASH :: join SLASH ps end).
  assert (EJ : SLASH :: join SLASH (ps ++ [name]) = before ++ SLASH :: name).
  { unfold before. destruct ps as [|p ps']; [reflexivity|].
    rewrite join_snoc by discriminate. reflexivity. }
  assert (Hfix : normalizeWebDAVPath (SLASH :: join SLASH (ps ++ [name])) false =
                 SLASH :: join SLASH (ps ++ [name])).
  { apply normalize_fixed_file; [reflexivity | now apply no_double_rooted_join |].
    left. rewrite EJ. destruct (plain_last_unit name Hname) as (front & c & -> & Hc).
    change (before ++ SLASH :: front ++ [c]) with (before ++ (SLASH :: front) ++ [c]).
    rewrite app_assoc, endsWith_snoc. exact Hc. }
  assert (Hroot : str_eqb (SLASH :: join SLASH (ps ++ [name])) [SLASH] = false).
  { apply str_eqb_neq. rewrite EJ. intros E.
    apply (f_equal (@List.length Z)) in E. rewrite length_app in E. simpl in E.
    destruct name; [congruence | simpl in E; lia]. }
  unfold getWebDAVFileName, getWebDAVParentPath.
  rewrite Hfix, Hroot, EJ, (split_last_slash_app before name Hns).
  split; [reflexivity|].
  unfold before. destruct ps; reflexivity.
Qed.

Lemma join_then_parent_and_name_docs :
  getWebDAVFileName (joinWebDAVPath ([lit "docs"; lit "2024"] ++ [lit "a.txt"]))
    = lit "a.txt" /\
  getWebDAVParentPath (joinWebDAVPath ([lit "docs"; lit "2024"] ++ [lit "a.txt"]))
    = joinWebDAVPath [lit "docs"; lit "2024"].
Proof.
  apply (join_then_parent_and_name [lit "docs"; lit "2024"] (lit "a.txt")).
  vm_compute. reflexivity.
Defined.

(** ** utils/WebDAVPathUtils.js: the alphabet of an encoded path *)

Lemma hex_digit_unreserved (n : Z) : 0 <= n < 16 -> is_unreserved (hex_digit n) = true.
Proof.
  intros H. unfold is_unreserved, is_alpha, is_digit, hex_digit.
  destruct (Z.ltb_spec n 10).
  - destruct (Z.leb_spec 48 (48 + n)); [|lia].
    destruct (Z.leb_spec (48 + n) 57); [|lia].
    cbn [andb]. rewrite orb_true_r. reflexivity.
  - destruct (Z.leb_spec 65 (55 + n)); [|lia].
    destruct (Z.leb_spec (55 + n) 90); [|lia].
    reflexivity.
Qed.

Lemma escape_octets_safe (bs : list Z) :
  Forall octet bs -> forallb segment_safe (escape_octets bs) = true.
Proof.
  induction 1 as [|b bs Hb Hbs IH]; [reflexivity|].
  unfold escape_octets. cbn [List.map List.concat escape_octet app forallb].
  fold (escape_octets bs). rewrite IH.
  unfold octet in Hb. unfold segment_safe at 1 2 3.
  rewrite !hex_digit_unreserved by dlia.
  change (PERCENT =? PERCENT) with true. rewrite orb_true_r. reflexivity.
Qed.

Lemma high_is_not_low (c : Z) : is_high_surrogate c = true -> is_low_surrogate c = false.
Proof.
  unfold is_high_surrogate, is_low_surrogate.
  zbool; intros; try discriminate; try reflexivity.
Qed.

(** The outcome of [encodeURIComponent] on one segment. *)
Lemma encode_alphabet (n : nat) :
  forall s : jsstring,
    (List.length s <= n)%nat -> Forall code_unit s ->
    match encodeURIComponent s with
    | Some e => forallb segment_safe e = true
    | None => well_formed s = false
    end.
Proof.
  induction n as [|n IH]; intros s Hn Hu.
  - destruct s; [reflexivity | cbn in Hn; lia].
  - destruct s as [|c s]; [reflexivity|].
    inversion Hu as [|? ? Hc Hs]; subst.
    cbn [encodeURIComponent well_formed].
    destruct (is_unreserved c) eqn:Eu.
    + destruct (unreserved_facts c Eu) as (_ & _ & Hsur).
      assert (Hh : is_high_surrogate c = false).
      { unfold is_surrogate in Hsur. unfold is_high_surrogate.
        revert Hsur. zbool; intros; try discriminate; try reflexivity. }
      assert (Hl : is_low_surrogate c = false).
      { unfold is_surrogate in Hsur. unfold is_low_surrogate.
        revert Hsur. zbool; intros; try discriminate; try reflexivity. }
      rewrite Hh, Hl. cbn [negb andb].
      specialize (IH s ltac:(cbn in Hn; lia) Hs).
      destruct (encodeURIComponent s) as [e|]; cbn [option_map]; [|exact IH].
      cbn [forallb]. unfold segment_safe at 1. now rewrite Eu, IH.
    + destruct (is_low_surrogate c) eqn:El.
      * destruct (is_high_surrogate c) eqn:Eh; [|reflexivity].
        apply high_is_not_low in Eh. congruence.
      * destruct (is_high_surrogate c) eqn:Eh.
        -- destruct s as [|d s]; [reflexivity|].
           destruct (is_low_surrogate d) eqn:Ed; [|reflexivity].
           inversion Hs as [|? ? Hd Hs']; subst.
           specialize (IH s ltac:(cbn in Hn; lia) Hs').
           destruct (encodeURIComponent s) as [e|]; cbn [option_map andb]; [|exact IH].
           rewrite forallb_app, IH, andb_true_r.
           apply escape_octets_safe, utf8_octets_are_octets.
           now destruct (pair_is_scalar c d Eh Ed).
        -- cbn [negb andb].
           specialize (IH s ltac:(cbn in Hn; lia) Hs).
           destruct (encodeURIComponent s) as [e|]; cbn [option_map]; [|exact IH].
           rewrite forallb_app, IH, andb_true_r.
           apply escape_octets_safe, utf8_octets_are_octets.
           now destruct (unit_is_scalar c Hc Eh El).
Qed.

Lemma segment_safe_no_slash (e : jsstring) :
  forallb segment_safe e = true -> Forall (fun c => c <> SLASH) e.
Proof.
  induction e as [|c e IH]; [constructor|].
  cbn [forallb]. intros H. apply andb_true_iff in H. destruct H as [Hc He].
  constructor; [|now apply IH].
  unfold segment_safe in Hc. apply orb_true_iff in Hc. destruct Hc as [Hc | Hc].
  - now destruct (unreserved_facts c Hc) as (_ & ? & _).
  - apply Z.eqb_eq in Hc. subst c. discriminate.
Qed.

Lemma map_encode_alphabet (segs : list jsstring) :
  Forall (Forall code_unit) segs ->
  match map_throwing encodeURIComponent segs with
  | Some encoded =>
      Forall (fun e => forallb segment_safe e = true) encoded /\
      List.length encoded = List.length segs
  | None => exists seg, In seg segs /\ well_formed seg = false
  end.
Proof.
  induction 1 as [|seg segs Hseg Hsegs IH]; [split; [constructor | reflexivity]|].
  cbn [map_throwing].
  pose proof (encode_alphabet (List.length seg) seg (le_n _) Hseg) as He.
  destruct (encodeURIComponent seg) as [e|].
  - destruct (map_throwing encodeURIComponent segs) as [encoded|]; cbn [option_map].
    + destruct IH as [IH1 IH2]. split; [constructor; assumption | cbn; lia].
    + destruct IH as (bad & Hin & Hbad). exists bad. split; [now right | exact Hbad].
  - exists seg. split; [now left | exact He].
Qed.

Lemma split_code_units (s : jsstring) :
  Forall code_unit s -> Forall (Forall code_unit) (split SLASH s).
Proof.
  induction 1 as [|c s Hc Hs IH]; [repeat constructor|].
  cbn [split]. destruct (c =? SLASH).
  - constructor; [constructor | exact IH].
  - destruct (split SLASH s) as [|seg segs].
    + constructor; [constructor; [exact Hc | constructor] | constructor].
    + inversion IH; subst. constructor; [constructor; assumption | assumption].
Qed.

Lemma join_url_safe (encoded : list jsstring) :
  Forall (fun e => forallb segment_safe e = true) encoded ->
  forallb url_safe (join SLASH encoded) = true.
Proof.
  assert (S : forall e, forallb segment_safe e = true -> forallb url_safe e = true).
  { induction e as [|c e IHe]; [reflexivity|]. cbn [forallb]. intros H.
    apply andb_true_iff in H. destruct H as [Hc He]. unfold url_safe at 1.
    now rewrite Hc, IHe. }
  induction 1 as [|e encoded He Hen IH]; [reflexivity|].
  destruct encoded as [|e' encoded]; [now apply S|].
  rewrite join_cons by discriminate.
  rewrite forallb_app. rewrite (S e He). cbn [forallb andb].
  unfold url_safe at 1. change (SLASH =? SLASH) with true. rewrite orb_true_r.
  exact IH.
Qed.

(** X6: what [encodeWebDAVPath] gives.  When it returns, the text holds
    unreserved characters, percent signs and separators only, and as many
    segments as the path; it throws only on a path that holds an unpaired
    surrogate. *)
Theorem encodeWebDAVPath_alphabet (P : jsstring) :
  code_units P = true ->
  match encodeWebDAVPath P with
  | Some E =>
      forallb url_safe E = true /\
      List.length (split SLASH E) = List.length (split SLASH P)
  | None => well_formed P = false
  end.
Proof.
  intros Hu. apply code_units_Forall in Hu.
  unfold encodeWebDAVPath.
  pose proof (map_encode_alphabet _ (split_code_units P Hu)) as H.
  destruct (map_throwing encodeURIComponent (split SLASH P)) as [encoded|];
    cbn [option_map].
  - destruct H as [Hsafe Hlen]. split; [now apply join_url_safe|].
    rewrite split_join; [exact Hlen | |].
    + intros ->. destruct (split SLASH P) eqn:E; [now apply split_not_nil in E|].
      discriminate.
    + apply Forall_forall. intros e He.
      apply segment_safe_no_slash. revert e He. now apply Forall_forall.
  - destruct H as (seg & Hin & Hbad).
    destruct (well_formed P) eqn:Hw; [|reflexivity].
    pose proof (split_well_formed (List.length P) P (le_n _) Hu Hw) as Hall.
    rewrite Forall_forall in Hall. destruct (Hall seg Hin) as [_ Hgood]. congruence.
Qed.

Lemma encodeWebDAVPath_alphabet_reserved :
  match encodeWebDAVPath reserved_path with
  | Some E =>
      forallb url_safe E = true /\
      List.length (split SLASH E) = List.length (split SLASH reserved_path)
  | None => well_formed reserved_path = false
  end.
Proof.
  apply (encodeWebDAVPath_alphabet reserved_path). vm_compute. reflexivity.
Defined.

(** ** Decoding *)

Lemma decode_plain (s : jsstring) :
  no_percent s = true ->
  forall fuel, (List.length s < fuel)%nat -> decode_fuel fuel s = Some s.
Proof.
  unfold no_percent.
  induction s as [|c s IH]; intros H [|fuel] Hf; try (cbn in Hf; lia); [reflexivity|].
  cbn [forallb] in H. apply andb_true_iff in H. destruct H as [Hc Hs].
  apply negb_true_iff in Hc. cbn [decode_fuel]. rewrite Hc.
  rewrite (IH Hs) by (cbn in Hf; lia). reflexivity.
Qed.

Lemma split_forallb (p : Z -> bool) (s : jsstring) :
  forallb p s = true -> Forall (fun seg => forallb p seg = true) (split SLASH s).
Proof.
  induction s as [|c s IH]; [repeat constructor|].
  cbn [forallb split]. intros H. apply andb_true_iff in H. destruct H as [Hc Hs].
  specialize (IH Hs). destruct (c =? SLASH).
  - constructor; [reflexivity | exact IH].
  - destruct (split SLASH s) as [|seg segs].
    + constructor; [cbn [forallb]; now rewrite Hc | constructor].
    + inversion IH; subst. constructor; [|assumption].
      cbn [forallb]. now rewrite Hc.
Qed.

Lemma map_decode_plain (segs : list jsstring) :
  Forall (fun seg => no_percent seg = true) segs ->
  map_throwing decodeURIComponent segs = Some segs.
Proof.
  induction 1 as [|seg segs Hseg Hsegs IH]; [reflexivity|].
  cbn [map_throwing]. unfold decodeURIComponent at 1.
  rewrite (decode_plain seg Hseg) by lia. now rewrite IH.
Qed.

(** X7: a path without percent sign decodes to itself. *)
Theorem decodeWebDAVPath_without_percent (P : jsstring) :
  no_percent P = true -> decodeWebDAVPath P = Some P.
Proof.
  intros H. unfold decodeWebDAVPath.
  rewrite map_decode_plain by now apply split_forallb.
  cbn [option_map]. now rewrite join_split.
Qed.

Lemma decodeWebDAVPath_without_percent_docs :
  decodeWebDAVPath (lit "/docs/a b#.txt") = Some (lit "/docs/a b#.txt").
Proof.
  apply (decodeWebDAVPath_without_percent (lit "/docs/a b#.txt")).
  vm_compute. reflexivity.
Defined.

Lemma hex_value_hex (c : Z) : hex_value c = None <-> is_hex_digit c = false.
Proof.
  unfold hex_value, is_hex_digit.
  destruct (is_digit c); cbn [orb]; [split; discriminate|].
  destruct ((65 <=? c) && (c <=? 70)); cbn [orb]; [split; discriminate|].
  destruct ((97 <=? c) && (c <=? 102)); split; congruence.
Qed.

Lemma ParseHexOctet_none (b : jsstring) :
  two_hex_digits b = false -> ParseHexOctet b = None.
Proof.
  destruct b as [|h [|l b]]; try reflexivity.
  cbn [two_hex_digits ParseHexOctet]. intros H.
  apply andb_false_iff in H. destruct H as [H | H]; apply hex_value_hex in H.
  - now rewrite H.
  - rewrite H. now destruct (hex_value h).
Qed.

Lemma ParseHexOctet_before (a b : jsstring) (v : Z) (rest : jsstring) :
  two_hex_digits b = false ->
  ParseHexOctet (a ++ PERCENT :: b) = Some (v, rest) ->
  exists a', rest = a' ++ PERCENT :: b /\ (List.length a' < List.length a)%nat.
Proof.
  intros Hb. destruct a as [|h [|l a]].
  - cbn [app]. destruct b as [|l b]; [discriminate|].
    cbn [ParseHexOctet]. change (hex_value PERCENT) with (@None Z). discriminate.
  - cbn [app ParseHexOctet]. change (hex_value PERCENT) with (@None Z).
    destruct (hex_value h); discriminate.
  - cbn [app ParseHexOctet].
    destruct (hex_value h); [|discriminate]. destruct (hex_value l); [|discriminate].
    intros H. injection H as _ <-. exists a. split; [reflexivity | cbn; lia].
Qed.

Lemma continuation_before (b : jsstring) (n : nat) :
  two_hex_digits b = false ->
  forall (a : jsstring) (bs : list Z) (rest : jsstring),
    continuation_octets n (a ++ PERCENT :: b) = Some (bs, rest) ->
    exists a', rest = a' ++ PERCENT :: b /\ (List.length a' <= List.length a)%nat.
Proof.
  intros Hb. induction n as [|n IH]; intros a bs rest.
  - cbn [continuation_octets]. intros H. injection H as _ <-. now exists a.
  - cbn [continuation_octets]. destruct a as [|c a]; cbn [app].
    + change (PERCENT =? PERCENT) with true. cbv iota.
      now rewrite (ParseHexOctet_none b Hb).
    + destruct (c =? PERCENT); [|discriminate].
      destruct (ParseHexOctet (a ++ PERCENT :: b)) as [[v s2]|] eqn:E; [|discriminate].
      destruct (ParseHexOctet_before a b v s2 Hb E) as (a2 & -> & Hlen).
      destruct (continuation_octets n (a2 ++ PERCENT :: b)) as [[bs' rest']|] eqn:E2;
        [|discriminate].
      intros H. injection H as _ <-.
      destruct (IH a2 bs' rest' E2) as (a3 & -> & Hlen3).
      exists a3. split; [reflexivity | cbn; lia].
Qed.

(** A percent sign that two hexadecimal digits do not follow makes
    [decodeURIComponent] throw, wherever it stands. *)
Lemma decode_stray_percent (b : jsstring) (n : nat) :
  two_hex_digits b = false ->
  forall (a : jsstring) (fuel : nat),
    (List.length a <= n)%nat -> decode_fuel fuel (a ++ PERCENT :: b) = None.
Proof.
  intros Hb. induction n as [|n IH]; intros a [|fuel] Hn; try reflexivity.
  - destruct a; [|cbn in Hn; lia]. cbn [app decode_fuel].
    change (PERCENT =? PERCENT) with true. cbv iota.
    now rewrite (ParseHexOctet_none b Hb).
  - destruct a as [|c a]; cbn [app decode_fuel].
    + change (PERCENT =? PERCENT) with true. cbv iota.
      now rewrite (ParseHexOctet_none b Hb).
    + destruct (c =? PERCENT).
      * destruct (ParseHexOctet (a ++ PERCENT :: b)) as [[v s1]|] eqn:E; [|reflexivity].
        destruct (ParseHexOctet_before a b v s1 Hb E) as (a1 & -> & Hlen).
        destruct (v <? 128).
        -- rewrite IH by (cbn in Hn; lia). reflexivity.
        -- destruct (utf8_length_of_lead v) as [|k]; [reflexivity|].
           destruct (continuation_octets k (a1 ++ PERCENT :: b)) as [[bs rest]|] eqn:E2;
             [|reflexivity].
           destruct (continuation_before b k Hb a1 bs rest E2) as (a2 & -> & Hlen2).
           destruct (utf8_code_point (v :: bs)); [|reflexivity].
           rewrite IH by (cbn in Hn; lia). reflexivity.
      * rewrite IH by (cbn in Hn; lia). reflexivity.
Qed.

Lemma first_segment_two_hex (b : jsstring) :
  two_hex_digits b = false -> two_hex_digits (hd [] (split SLASH b)) = false.
Proof.
  assert (NS : is_hex_digit SLASH = false) by reflexivity.
  destruct b as [|h [|l b]]; intros H.
  - reflexivity.
  - cbn [split]. destruct (h =? SLASH); reflexivity.
  - cbn [split]. destruct (h =? SLASH) eqn:Eh; [reflexivity|].
    destruct (l =? SLASH) eqn:El; [reflexivity|].
    destruct (split SLASH b) as [|seg segs]; exact H.
Qed.

Lemma split_stray_percent (b : jsstring) :
  two_hex_digits b = false ->
  forall a : jsstring,
    exists a' b',
      In (a' ++ PERCENT :: b') (split SLASH (a ++ PERCENT :: b)) /\
      two_hex_digits b' = false.
Proof.
  intros Hb. induction a as [|c a IH].
  - exists [], (hd [] (split SLASH b)). split; [|now apply first_segment_two_hex].
    cbn [app]. rewrite split_cons_other by discriminate. now left.
  - destruct IH as (a' & b' & Hin & Hb'). cbn [app split].
    destruct (c =? SLASH).
    + exists a', b'. split; [now right | exact Hb'].
    + destruct (split SLASH (a ++ PERCENT :: b)) as [|seg segs]; [contradiction|].
      destruct Hin as [-> | Hin].
      * exists (c :: a'), b'. split; [now left | exact Hb'].
      * exists a', b'. split; [now right | exact Hb'].
Qed.

Lemma map_throwing_fails {A B : Type} (f : A -> option B) (x : A) (xs : list A) :
  In x xs -> f x = None -> map_throwing f xs = None.
Proof.
  intros Hin Hx. induction xs as [|y xs IH]; [contradiction|].
  cbn [map_throwing]. destruct Hin as [-> | Hin].
  - now rewrite Hx.
  - destruct (f y); [|reflexivity]. now rewrite (IH Hin).
Qed.

(** X8: [decodeWebDAVPath] throws on every path that holds a percent sign
    which two hexadecimal digits do not follow. *)
Theorem decodeWebDAVPath_stray_percent (a b : jsstring) :
  two_hex_digits b = false -> decodeWebDAVPath (a ++ PERCENT :: b) = None.
Proof.
  intros Hb. unfold decodeWebDAVPath.
  destruct (split_stray_percent b Hb a) as (a' & b' & Hin & Hb').
  rewrite (map_throwing_fails decodeURIComponent _ _ Hin); [reflexivity|].
  unfold decodeURIComponent. now apply (decode_stray_percent b' (List.length a')).
Qed.

Lemma decodeWebDAVPath_stray_percent_report :
  decodeWebDAVPath (lit "/reports/100" ++ PERCENT :: lit "/q1") = None.
Proof.
  apply (decodeWebDAVPath_stray_percent (lit "/reports/100") (lit "/q1")).
  vm_compute. reflexivity.
Defined.

(** ** utils/WebDAVResponseParser.js: what the parser reads and what it
    leaves out *)

Lemma starts_ci_app (L : jsstring) :
  forall s post, starts_ci s L = true -> starts_ci (s ++ post) L = true.
Proof.
  induction L as [|a L IH]; intros s post H; [reflexivity|].
  destruct s as [|c s]; [discriminate|]. cbn [starts_ci app] in *.
  apply andb_true_iff in H. destruct H as [H1 H2]. now rewrite H1, IH.
Qed.

Lemma contains_ci_infix (L a b : jsstring) :
  infix a b -> contains_ci a L = true -> contains_ci b L = true.
Proof.
  intros (before & after & ->) H.
  assert (H1 : contains_ci (a ++ after) L = true).
  { clear before. induction a as [|c a IH].
    - cbn [contains_ci] in H. rewrite orb_false_r in H.
      cbn [app]. destruct L; [destruct after; reflexivity | discriminate H].
    - cbn [contains_ci app] in *. apply orb_true_iff in H. destruct H as [H | H].
      + pose proof (starts_ci_app L (c :: a) after H) as S.
        cbn [app] in S. now rewrite S.
      + rewrite (IH H). apply orb_true_r. }
  clear H. induction before as [|c before IH]; [exact H1|].
  cbn [app contains_ci]. rewrite IH. apply orb_true_r.
Qed.

Lemma match_i_needs_literal (L : jsstring) (r : regex) (s g1 : jsstring) :
  match_i (literal L ++ r) s = Some g1 -> contains_ci s L = true.
Proof.
  intros H. destruct (contains_ci s L) eqn:E; [reflexivity|].
  unfold match_i in H. now rewrite (search_needs_literal L r s E) in H.
Qed.

(** An answer in which the text [<d:response] does not occur, letter case
    apart, gives no descriptor. *)
Lemma no_response_element
      (toISOString : jsstring -> option jsstring) (nowISOString : jsstring)
      (xmlText : jsstring) :
  contains_ci xmlText (lit "<d:response") = false ->
  parseWebDAVResponse toISOString nowISOString xmlText = [].
Proof.
  intros H. unfold parseWebDAVResponse, exec_all_gi, responseRegex.
  assert (E : element_any "response" =
              literal (lit "<d:response") ++
              [Star (NotChr GT); One (Chr GT); GroupOpen; LazyStar AnyChar; GroupClose] ++
              literal (lit "</d:response>")) by (vm_compute; reflexivity).
  rewrite E. cbn [exec_loop]. now rewrite (search_needs_literal _ _ _ H).
Qed.





(** X10: the test for a collection compares letter case: a descriptor is
    marked as a collection only when the answer holds the text
    [<d:collection] in lower case, although the elements around it are
    found in either case. *)
Theorem collection_needs_lower_case_tag
        (toISOString : jsstring -> option jsstring) (nowISOString : jsstring)
        (xmlText : jsstring) :
  includes xmlText (lit "<d:collection") = false ->
  Forall (fun item => isDirectory item <> Some true)
         (parseWebDAVResponse toISOString nowISOString xmlText).
Proof.
  intros Hno. apply Forall_forall. intros item Hin Hdir.
  pose proof (collection_flag_needs_lower_case_tag _ _ _ _ Hin Hdir) as Hyes.
  congruence.
Qed.

Lemma collection_needs_lower_case_tag_upper_case_answer :
  List.map (fun item => (name item, isDirectory item))
    (parseWebDAVResponse (fun _ => None) (lit "2024-01-01T00:00:00.000Z")
       upper_case_answer)
  = [(Some (lit "docs"), Some false)] /\
  Forall (fun item => isDirectory item <> Some true)
         (parseWebDAVResponse (fun _ => None) (lit "2024-01-01T00:00:00.000Z")
            upper_case_answer).
Proof.
  split; [vm_compute; reflexivity|].
  apply (collection_needs_lower_case_tag (fun _ => None)
           (lit "2024-01-01T00:00:00.000Z") upper_case_answer).
  vm_compute. reflexivity.
Defined.

(** X11: [parseWebDAVError] always reports an error.  Its message is the
    content, without its leading and trailing white space, of the first
    [human-readable] element that stays on one line within the first
    [error] element of the text; it is the fixed message when there is
    no [error] element, or no such [human-readable] element in it (none
    at all, or one whose content holds a line break). *)
Theorem parseWebDAVError_message
        (xmlText : jsstring) (error description : option (jsstring * jsstring)) :
  first_element "error" xmlText error ->
  (forall errorContent rest,
     error = Some (errorContent, rest) ->
     first_line_element "human-readable" errorContent description) ->
  parseWebDAVError (Some xmlText) =
    {| is_error := true;
       error_message :=
         match error, description with
         | Some _, Some (text, _) => trim text
         | _, _ => operation_failed
         end |}.
Proof.
  intros He Hd. unfold parseWebDAVError, errorRegex, humanReadableRegex.
  rewrite (first_element_match_i "error" xmlText error eq_refl He).
  destruct error as [[errorContent rest]|]; cbn [option_map fst]; [|reflexivity].
  rewrite (first_line_element_match_i "human-readable" errorContent description
             eq_refl (Hd _ _ eq_refl)).
  destruct description as [[text rest']|]; reflexivity.
Qed.

Lemma parseWebDAVError_message_locked :
  error_message (parseWebDAVError (Some locked_error)) = lit "The resource is locked" /\
  error_message (parseWebDAVError (Some two_line_error)) = operation_failed.
Proof.
  split.
  - rewrite (parseWebDAVError_message locked_error
               (Some (lit "<D:human-readable>  The resource is locked </D:human-readable>", []))
               (Some (lit "  The resource is locked ", []))).
    + vm_compute. reflexivity.
    + apply first_element_of_search; vm_compute; reflexivity.
    + intros errorContent rest E. injection E as <- _.
      apply first_line_element_of_search; vm_compute; reflexivity.
  - rewrite (parseWebDAVError_message two_line_error
               (Some (lit "<d:human-readable>The resource
is locked</d:human-readable>", []))
               None).
    + reflexivity.
    + apply first_element_of_search; vm_compute; reflexivity.
    + intros errorContent rest E. injection E as <- _.
      apply first_line_element_of_search; vm_compute; reflexivity.
Defined.

(** ** The operations: one request each, and how its failure is reported *)

Lemma request_outcome (c : Client) (verb path : jsstring) (hs : headers)
      (b : option payload) (w : World) :
  request c verb path hs b w =
  (match remote w (sent w)
           {| Http.method := verb; url := baseUrl c ++ path;
              requestHeaders := assign (authHeader c) hs; body := b |} with
   | inl r => inl r
   | inr (_, message) =>
       inr (HTTPException INTERNAL_ERROR (lit "WebDAV请求失败: " ++ message))
   end,
   {| remote := remote w;
      sent := sent w ++
              [{| Http.method := verb; url := baseUrl c ++ path;
                  requestHeaders := assign (authHeader c) hs; body := b |}] |}).
Proof.
  unfold request, try_catch, fetch.
  destruct (remote w (sent w) _) as [r | [n m]]; reflexivity.
Qed.

Lemma getFileInfo_classifies
      (toISOString : jsstring -> option jsstring) (nowISOString : jsstring)
      (c : Client) (path : jsstring) :
  classifies_failures
    (WebDAVFileOperations.getFileInfo toISOString nowISOString c path)
    (propfind_of c path 0) missing_or_internal.
Proof.
  intros w. unfold propfind_of, request_of, missing_or_internal.
  unfold WebDAVFileOperations.getFileInfo, try_catch, bind, propfind.
  rewrite request_outcome.
  destruct (remote w (sent w) _) as [answer | [n msg]]; cbv beta iota.
  - destruct (ok answer); cbn [negb]; cbv beta iota.
    + split; [|now left].
      destruct (parseWebDAVResponse _ _ _); reflexivity.
    + unfold throw, rethrow_internal.
      destruct (status answer =? 404); cbv beta iota; cbn [fst snd sent];
        (split; [reflexivity | right; eexists; reflexivity]).
  - cbn [fst snd sent]. split; reflexivity.
Qed.

Lemma downloadFile_classifies (c : Client) (path : jsstring) :
  classifies_failures (WebDAVFileOperations.downloadFile c path)
    (request_of c "GET" path [] None) missing_or_internal.
Proof.
  intros w. unfold request_of, missing_or_internal.
  unfold WebDAVFileOperations.downloadFile, try_catch, bind, get.
  rewrite request_outcome.
  destruct (remote w (sent w) _) as [answer | [n msg]]; cbv beta iota.
  - destruct (ok answer); cbn [negb]; cbv beta iota.
    + split; [reflexivity | now left].
    + unfold throw, rethrow_internal.
      destruct (status answer =? 404); cbv beta iota; cbn [fst snd sent];
        (split; [reflexivity | right; eexists; reflexivity]).
  - cbn [fst snd sent]. split; reflexivity.
Qed.

Lemma renameItem_classifies (c : Client) (old new : jsstring) (options : Options.t) :
  classifies_failures (WebDAVFileOperations.renameItem c old new options)
    (move_of c old new options) missing_conflict_or_internal.
Proof.
  intros w. unfold move_of, request_of, missing_conflict_or_internal.
  unfold WebDAVFileOperations.renameItem, try_catch, bind, move.
  rewrite request_outcome.
  destruct (remote w (sent w) _) as [answer | [n msg]]; cbv beta iota.
  - destruct (ok answer); cbn [negb]; cbv beta iota.
    + split; [reflexivity | now left].
    + unfold throw, rethrow_internal.
      destruct (status answer =? 404); [|destruct (status answer =? 409)];
        cbv beta iota; cbn [fst snd sent];
        (split; [reflexivity | right; eexists; reflexivity]).
  - cbn [fst snd sent]. split; reflexivity.
Qed.

Lemma copyItem_classifies (c : Client) (source target : jsstring)
      (options : Options.t) :
  classifies_failures (WebDAVFileOperations.copyItem c source target options)
    (copy_of c source target options) missing_conflict_or_internal.
Proof.
  intros w. unfold copy_of, request_of, missing_conflict_or_internal.
  unfold WebDAVFileOperations.copyItem, try_catch, bind, copy.
  rewrite request_outcome.
  destruct (remote w (sent w) _) as [answer | [n msg]]; cbv beta iota.
  - destruct (ok answer); cbn [negb]; cbv beta iota.
    + split; [reflexivity | now left].
    + unfold throw, rethrow_internal.
      destruct (status answer =? 404); [|destruct (status answer =? 409)];
        cbv beta iota; cbn [fst snd sent];
        (split; [reflexivity | right; eexists; reflexivity]).
  - cbn [fst snd sent]. split; reflexivity.
Qed.

Lemma updateFile_classifies (c : Client) (path : jsstring) (content : payload)
      (options : Options.t) :
  classifies_failures (WebDAVFileOperations.updateFile c path content options)
    (request_of c "PUT" path
       [(lit "Content-Type", WebDAVFileOperations.contentType_or_text_plain options)]
       (Some content))
    always_internal.
Proof.
  intros w. unfold request_of, always_internal.
  unfold WebDAVFileOperations.updateFile, try_catch, bind, put.
  rewrite request_outcome.
  destruct (remote w (sent w) _) as [answer | [n msg]]; cbv beta iota.
  - destruct (ok answer); cbn [negb]; cbv beta iota.
    + split; [reflexivity | now left].
    + unfold throw, rethrow_internal. cbn [fst snd sent].
      split; [reflexivity | right; eexists; reflexivity].
  - cbn [fst snd sent]. split; reflexivity.
Qed.

Lemma listDirectory_classifies
      (toLowerCase : jsstring -> jsstring)
      (toISOString : jsstring -> option jsstring) (nowISOString : jsstring)
      (c : Client) (path : jsstring) :
  classifies_failures
    (WebDAVDirectoryOperations.listDirectory toLowerCase toISOString nowISOString
       c path)
    (propfind_of c path 1) missing_or_internal.
Proof.
  intros w. unfold propfind_of, request_of, missing_or_internal.
  unfold WebDAVDirectoryOperations.listDirectory, try_catch, bind, propfind.
  rewrite request_outcome.
  destruct (remote w (sent w) _) as [answer | [n msg]]; cbv beta iota.
  - destruct (ok answer); cbn [negb]; cbv beta iota.
    + split; [|now left].
      destruct (parseWebDAVResponse _ _ _); reflexivity.
    + unfold throw, rethrow_internal.
      destruct (status answer =? 404); cbv beta iota; cbn [fst snd sent];
        (split; [reflexivity | right; eexists; reflexivity]).
  - cbn [fst snd sent]. split; reflexivity.
Qed.

Lemma createDirectory_classifies (c : Client) (path : jsstring) :
  classifies_failures (WebDAVDirectoryOperations.createDirectory c path)
    (request_of c "MKCOL" path [] None) conflict_or_internal.
Proof.
  intros w. unfold request_of, conflict_or_internal.
  unfold WebDAVDirectoryOperations.createDirectory, try_catch, bind, mkcol.
  rewrite request_outcome.
  destruct (remote w (sent w) _) as [answer | [n msg]]; cbv beta iota.
  - destruct (ok answer); cbn [negb]; cbv beta iota.
    + split; [reflexivity | now left].
    + unfold throw, rethrow_internal.
      destruct (status answer =? 405); [|destruct (status answer =? 409)];
        cbv beta iota; cbn [fst snd sent orb];
        (split; [reflexivity | right; eexists; reflexivity]).
  - cbn [fst snd sent]. split; reflexivity.
Qed.

Lemma uploadFile_classifies (nowISOString : jsstring) (c : Client)
      (path : jsstring) (file : WebDAVUploadOperations.FileInput)
      (options : Options.t) :
  match WebDAVUploadOperations.inspect path file with
  | Some (fileData, inferred, _, fileSize) =>
      classifies_failures
        (WebDAVUploadOperations.uploadFile nowISOString c path file options)
        (request_of c "PUT" path
           (WebDAVUploadOperations.upload_headers
              (WebDAVUploadOperations.chosen_contentType inferred options)
              fileSize options)
           (Some fileData))
        upload_conflict_or_internal
  | None =>
      forall w : World,
        WebDAVUploadOperations.uploadFile nowISOString c path file options w =
        (inr (HTTPException INTERNAL_ERROR (lit "上传文件失败: 不支持的文件类型")), w)
  end.
Proof.
  unfold WebDAVUploadOperations.uploadFile.
  destruct (WebDAVUploadOperations.inspect path file)
    as [[[[fileData inferred] fileName'] fileSize]|].
  - intros w. unfold request_of, upload_conflict_or_internal.
    unfold try_catch, bind, put. rewrite request_outcome.
    destruct (remote w (sent w) _) as [answer | [n msg]]; cbv beta iota.
    + destruct (ok answer); cbn [negb]; cbv beta iota.
      * split; [reflexivity | now left].
      * unfold throw, rethrow_internal.
        destruct (status answer =? 409); [|destruct (status answer =? 507)];
          cbv beta iota; cbn [fst snd sent];
          (split; [reflexivity | right; eexists; reflexivity]).
    + cbn [fst snd sent]. split; reflexivity.
  - intros w. unfold try_catch, throw, rethrow_internal.
    vm_compute. reflexivity.
Qed.

(** X12: every operation on one resource sends exactly one request,
    addressed to the base address followed by the path as it was given,
    whatever the outcome.  A failure of the network is reported with the
    status name INTERNAL_ERROR and the message of the client; an answer
    outside 2xx is reported by an [HTTPException] whose status name is:
    NOT_FOUND on 404 for getFileInfo, downloadFile and listDirectory;
    NOT_FOUND on 404 and CONFLICT on 409 for renameItem and copyItem;
    CONFLICT on 405 and on 409 for createDirectory; CONFLICT on 409 for
    uploadFile; INTERNAL_ERROR in every other case, and always for
    updateFile.  An input of [uploadFile] that is no File, ArrayBuffer,
    Buffer or string is refused with INTERNAL_ERROR before any request. *)
Theorem operations_classify_failures
        (toLowerCase : jsstring -> jsstring)
        (toISOString : jsstring -> option jsstring) (nowISOString : jsstring)
        (c : Client) (path target : jsstring) (content : payload)
        (file : WebDAVUploadOperations.FileInput) (options : Options.t) :
  classifies_failures
    (WebDAVFileOperations.getFileInfo toISOString nowISOString c path)
    (propfind_of c path 0) missing_or_internal /\
  classifies_failures (WebDAVFileOperations.downloadFile c path)
    (request_of c "GET" path [] None) missing_or_internal /\
  classifies_failures (WebDAVFileOperations.renameItem c path target options)
    (move_of c path target options) missing_conflict_or_internal /\
  classifies_failures (WebDAVFileOperations.copyItem c path target options)
    (copy_of c path target options) missing_conflict_or_internal /\
  classifies_failures (WebDAVFileOperations.updateFile c path content options)
    (request_of c "PUT" path
       [(lit "Content-Type", WebDAVFileOperations.contentType_or_text_plain options)]
       (Some content))
    always_internal /\
  classifies_failures
    (WebDAVDirectoryOperations.listDirectory toLowerCase toISOString nowISOString
       c path)
    (propfind_of c path 1) missing_or_internal /\
  classifies_failures (WebDAVDirectoryOperations.createDirectory c path)
    (request_of c "MKCOL" path [] None) conflict_or_internal /\
  match WebDAVUploadOperations.inspect path file with
  | Some (fileData, inferred, _, fileSize) =>
      classifies_failures
        (WebDAVUploadOperations.uploadFile nowISOString c path file options)
        (request_of c "PUT" path
           (WebDAVUploadOperations.upload_headers
              (WebDAVUploadOperations.chosen_contentType inferred options)
              fileSize options)
           (Some fileData))
        upload_conflict_or_internal
  | None =>
      forall w : World,
        WebDAVUploadOperations.uploadFile nowISOString c path file options w =
        (inr (HTTPException INTERNAL_ERROR (lit "上传文件失败: 不支持的文件类型")), w)
  end.
Proof.
  split; [apply getFileInfo_classifies|].
  split; [apply downloadFile_classifies|].
  split; [apply renameItem_classifies|].
  split; [apply copyItem_classifies|].
  split; [apply updateFile_classifies|].
  split; [apply listDirectory_classifies|].
  split; [apply createDirectory_classifies|].
  apply uploadFile_classifies.
Qed.

(** ** The probes *)

(** X13: [exists] and [checkUploadConditions] never throw.  Each sends one
    HEAD request; [exists] gives whether the answer was a 2xx, a failure
    of the network counting as absent; the check refuses the upload
    exactly when the answer was a 2xx and [options.overwrite] is [false]. *)
Theorem probes_never_throw (c : Client) (path : jsstring) (options : Options.t)
        (w : World) :
  let rq := request_of c "HEAD" path [] None in
  let found := answered_ok w rq in
  (exists w',
     WebDAVFileOperations.exists_ c path w = (inl found, w') /\
     sent w' = sent w ++ [rq]) /\
  (exists check w',
     WebDAVUploadOperations.checkUploadConditions c path options w = (inl check, w') /\
     sent w' = sent w ++ [rq] /\
     WebDAVUploadOperations.fileExists check = found /\
     WebDAVUploadOperations.canUpload check =
       negb (found && negb (Options.overwrite_not_false options))).
Proof.
  cbv zeta. unfold answered_ok, request_of. split.
  - unfold WebDAVFileOperations.exists_, try_catch, bind, head.
    rewrite request_outcome.
    destruct (remote w (sent w) _) as [answer | [n msg]]; cbv beta iota;
      eexists; split; reflexivity.
  - unfold WebDAVUploadOperations.checkUploadConditions, try_catch, bind, head.
    rewrite request_outcome.
    destruct (remote w (sent w) _) as [answer | [n msg]]; cbv beta iota.
    + destruct (ok answer); cbn [andb].
      * destruct (Options.overwrite_not_false options); cbn [negb]; cbv beta iota;
          eexists; eexists; repeat split.
      * eexists; eexists; repeat split.
    + eexists; eexists; repeat split.
Qed.

(** ** An answer the parser cannot read *)

(** X14: a 2xx answer in which the text [<d:response] does not occur,
    letter case apart (a multi-status in the default namespace or with
    another prefix), gives no descriptor; [getFileInfo] then reports the
    file as missing and [listDirectory] returns an empty listing. *)
Theorem answer_without_prefix_d
        (toLowerCase : jsstring -> jsstring)
        (toISOString : jsstring -> option jsstring) (nowISOString : jsstring)
        (c : Client) (path : jsstring) (w : World) (answer : Response) :
  (forall rq, remote w (sent w) rq = inl answer) ->
  ok answer = true ->
  contains_ci (responseText answer) (lit "<d:response") = false ->
  parseWebDAVResponse toISOString nowISOString (responseText answer) = [] /\
  fst (WebDAVFileOperations.getFileInfo toISOString nowISOString c path w) =
    inr (HTTPException NOT_FOUND (lit "文件不存在: " ++ path)) /\
  exists listing,
    fst (WebDAVDirectoryOperations.listDirectory toLowerCase toISOString
           nowISOString c path w) =
      inl listing /\
    WebDAVDirectoryOperations.content listing = [].
Proof.
  intros Hremote Hok Hno.
  pose proof (no_response_element toISOString nowISOString _ Hno) as Hparse.
  split; [exact Hparse|]. split.
  - unfold WebDAVFileOperations.getFileInfo, try_catch, bind, propfind.
    rewrite request_outcome, Hremote. cbv beta iota.
    rewrite Hok. cbn [negb]. cbv beta iota. rewrite Hparse. reflexivity.
  - unfold WebDAVDirectoryOperations.listDirectory, try_catch, bind, propfind.
    rewrite request_outcome, Hremote. cbv beta iota.
    rewrite Hok. cbn [negb]. cbv beta iota. rewrite Hparse.
    eexists. split; reflexivity.
Qed.

Lemma answer_without_prefix_d_unprefixed :
  parseWebDAVResponse (fun _ => None) (lit "2024-01-01T00:00:00.000Z")
    (responseText
       {| status := 207; statusText := lit "Multi-Status";
          responseHeaders := []; responseText := unprefixed_answer |}) = [] /\
  fst (WebDAVFileOperations.getFileInfo (fun _ => None)
         (lit "2024-01-01T00:00:00.000Z") plain_client (lit "/docs/a.txt")
         unprefixed_world) =
    inr (HTTPException NOT_FOUND (lit "文件不存在: " ++ lit "/docs/a.txt")) /\
  exists listing,
    fst (WebDAVDirectoryOperations.listDirectory (fun s => s) (fun _ => None)
           (lit "2024-01-01T00:00:00.000Z") plain_client (lit "/docs/a.txt")
           unprefixed_world) = inl listing /\
    WebDAVDirectoryOperations.content listing = [].
Proof.
  apply (answer_without_prefix_d (fun s => s) (fun _ => None)
           (lit "2024-01-01T00:00:00.000Z")
           plain_client (lit "/docs/a.txt") unprefixed_world
           {| status := 207; statusText := lit "Multi-Status";
              responseHeaders := []; responseText := unprefixed_answer |}).
  - intros rq. reflexivity.
  - vm_compute. reflexivity.
  - vm_compute. reflexivity.
Defined.

(** ** Uploads of text and of JSON *)

Lemma chosen_contentType_set (inferred value : jsstring) (options : Options.t) :
  falsy value = false ->
  WebDAVUploadOperations.chosen_contentType inferred
    (WebDAVUploadOperations.with_contentType options value) = value.
Proof.
  intros H. unfold WebDAVUploadOperations.chosen_contentType,
    WebDAVUploadOperations.with_contentType.
  cbn [Options.contentType]. now rewrite H.
Qed.

Lemma contentType_or_truthy (options : Options.t) (fallback : jsstring) :
  falsy fallback = false ->
  falsy (WebDAVUploadOperations.contentType_or options fallback) = false.
Proof.
  intros H. unfold WebDAVUploadOperations.contentType_or, or_else.
  destruct (Options.contentType options) as [[|x ct]|]; cbn [falsy]; auto.
Qed.

(** X15: [uploadTextContent] reports the content type of the options
    when it is not empty and [text/plain; charset=utf-8] otherwise.
    [uploadJsonData] sends the UTF-8 octets of the serialised value and
    reports [application/json; charset=utf-8] whatever content type the
    options carry; a value without JSON form is refused with
    INTERNAL_ERROR before any request, and an exception of the
    serialisation leaves the function as it is. *)
Theorem text_and_json_uploads_choose_the_type
        {Data : Type} (stringify : Data -> option jsstring + exn)
        (nowISOString : jsstring) (c : Client) (path text : jsstring)
        (data : Data) (options : Options.t) (w : World) :
  (forall result,
     fst (WebDAVUploadOperations.uploadTextContent nowISOString c path
            (WebDAVUploadOperations.AString text) options w) = inl result ->
     WebDAVUploadOperations.upload_contentType result =
       WebDAVUploadOperations.contentType_or options TEXT_UTF8 /\
     WebDAVUploadOperations.upload_size result =
       Z.of_nat (List.length (utf8_encode text))) /\
  let run :=
    WebDAVUploadOperations.uploadJsonData nowISOString c stringify path data
      options w in
  match stringify data with
  | inl (Some json) =>
      (exists rq,
         sent (snd run) = sent w ++ [rq] /\
         body rq = Some (Octets (utf8_encode json))) /\
      (forall result,
         fst run = inl result ->
         WebDAVUploadOperations.upload_contentType result = JSON_UTF8 /\
         WebDAVUploadOperations.upload_size result =
           Z.of_nat (List.length (utf8_encode json)))
  | inl None =>
      run = (inr (HTTPException INTERNAL_ERROR
                    (lit "上传文件失败: 不支持的文件类型")), w)
  | inr e => run = (inr e, w)
  end.
Proof.
  assert (T : falsy TEXT_UTF8 = false) by reflexivity.
  assert (J : falsy JSON_UTF8 = false) by reflexivity.
  split.
  - intros result H. unfold WebDAVUploadOperations.uploadTextContent in H.
    fold TEXT_UTF8 in H.
    destruct (uploadFile_text_sends nowISOString c path text
                (WebDAVUploadOperations.with_contentType options
                   (WebDAVUploadOperations.contentType_or options TEXT_UTF8)) w)
      as [_ R].
    destruct (R result H) as [Rs Rt]. split; [|exact Rs].
    rewrite Rt. apply chosen_contentType_set. now apply contentType_or_truthy.
  - cbv zeta. unfold WebDAVUploadOperations.uploadJsonData. fold JSON_UTF8.
    destruct (stringify data) as [[json|]|e].
    + destruct (uploadFile_text_sends nowISOString c path json
                  (WebDAVUploadOperations.with_contentType options JSON_UTF8) w)
        as [S R].
      split.
      * eexists. split; [rewrite S; apply put_sends | reflexivity].
      * intros result H. destruct (R result H) as [Rs Rt]. split; [|exact Rs].
        rewrite Rt. now apply chosen_contentType_set.
    + pose proof (uploadFile_classifies nowISOString c path
                    WebDAVUploadOperations.Unsupported
                    (WebDAVUploadOperations.with_contentType options JSON_UTF8)) as U.
      cbn [WebDAVUploadOperations.inspect] in U. apply U.
    + reflexivity.
Qed.

(** ** The type of a directory entry *)

Lemma ascii_lower_app (a b : jsstring) :
  WebDAVUploadOperations.ascii_lower (a ++ b) =
  WebDAVUploadOperations.ascii_lower a ++ WebDAVUploadOperations.ascii_lower b.
Proof. apply map_app. Qed.

Lemma ascii_lower_no_dot (s : jsstring) :
  no_dot s = true -> no_dot (WebDAVUploadOperations.ascii_lower s) = true.
Proof.
  unfold no_dot, WebDAVUploadOperations.ascii_lower, WebDAVDirectoryOperations.DOT.
  induction s as [|c s IH]; [reflexivity|].
  cbn [forallb List.map]. intros H. apply andb_true_iff in H. destruct H as [Hc Hs].
  rewrite (IH Hs), andb_true_r.
  apply negb_true_iff in Hc. apply Z.eqb_neq in Hc. apply negb_true_iff.
  destruct ((65 <=? c) && (c <=? 90)) eqn:E; apply Z.eqb_neq; [|exact Hc].
  apply andb_true_iff in E. destruct E as [E1 E2].
  apply Z.leb_le in E1. lia.
Qed.

Lemma ascii_lower_idempotent (s : jsstring) :
  WebDAVUploadOperations.ascii_lower (WebDAVUploadOperations.ascii_lower s) =
  WebDAVUploadOperations.ascii_lower s.
Proof.
  unfold WebDAVUploadOperations.ascii_lower. rewrite map_map.
  apply map_ext. intros c.
  destruct ((65 <=? c) && (c <=? 90)) eqn:E; [|now rewrite E].
  apply andb_true_iff in E. destruct E as [E1 E2].
  apply Z.leb_le in E1. apply Z.leb_le in E2.
  destruct (Z.leb_spec (c + 32) 90); [lia|]. now rewrite andb_false_r.
Qed.

Lemma ascii_lower_ascii (s : jsstring) :
  ascii_text s = true -> ascii_text (WebDAVUploadOperations.ascii_lower s) = true.
Proof.
  unfold ascii_text, WebDAVUploadOperations.ascii_lower.
  induction s as [|c s IH]; [reflexivity|].
  cbn [forallb List.map]. intros H. apply andb_true_iff in H. destruct H as [Hc Hs].
  rewrite (IH Hs), andb_true_r.
  apply andb_true_iff in Hc. destruct Hc as [H0 H1].
  apply Z.leb_le in H0. apply Z.ltb_lt in H1.
  destruct ((65 <=? c) && (c <=? 90)) eqn:E.
  - apply andb_true_iff in E. destruct E as [E1 E2].
    apply Z.leb_le in E1. apply Z.leb_le in E2.
    apply andb_true_iff. split; [apply Z.leb_le | apply Z.ltb_lt]; lia.
  - apply andb_true_iff. split; [apply Z.leb_le | apply Z.ltb_lt]; lia.
Qed.

Lemma ascii_text_app (a b : jsstring) :
  ascii_text (a ++ b) = ascii_text a && ascii_text b.
Proof. apply forallb_app. Qed.

Lemma split_front (sep : Z) (e : jsstring) :
  forall a : jsstring,
    exists front, front <> [] /\ split sep (a ++ sep :: e) = front ++ split sep e.
Proof.
  induction a as [|c a IH].
  - exists [[]]. split; [discriminate|]. cbn [app split]. now rewrite Z.eqb_refl.
  - destruct IH as (front & Hne & E). cbn [app split]. rewrite E.
    destruct (c =? sep).
    + exists ([] :: front). split; [discriminate | reflexivity].
    + destruct front as [|f0 fs]; [congruence|].
      exists ((c :: f0) :: fs). split; [discriminate | reflexivity].
Qed.

Lemma last_after (A : Type) (l1 l2 : list A) (d : A) :
  l2 <> [] -> last (l1 ++ l2) d = last l2 d.
Proof.
  intros H. induction l1 as [|x l1 IH]; [reflexivity|].
  cbn [app]. destruct (l1 ++ l2) eqn:E.
  - apply app_eq_nil in E. destruct E. congruence.
  - exact IH.
Qed.

Lemma no_dot_Forall (s : jsstring) :
  no_dot s = true -> Forall (fun c => c <> WebDAVDirectoryOperations.DOT) s.
Proof.
  unfold no_dot. induction s as [|c s IH]; [constructor|].
  cbn [forallb]. intros H. apply andb_true_iff in H. destruct H as [Hc Hs].
  constructor; [|now apply IH].
  apply negb_true_iff in Hc. now apply Z.eqb_neq.
Qed.

Lemma extension_of (a e : jsstring) :
  no_dot e = true ->
  last (split WebDAVDirectoryOperations.DOT (a ++ WebDAVDirectoryOperations.DOT :: e)) []
  = e /\
  last (split WebDAVDirectoryOperations.DOT e) [] = e.
Proof.
  intros H. apply no_dot_Forall in H.
  rewrite (split_no_sep _ e H).
  destruct (split_front WebDAVDirectoryOperations.DOT e a) as (front & _ & E).
  rewrite E, (split_no_sep _ e H).
  split; [|reflexivity]. apply last_after. discriminate.
Qed.

(** X16: the type of an entry that is no directory depends on what
    follows the last dot of its name only, letter case apart: a name has
    the type of its bare extension.  This holds for names of ASCII
    characters, whatever the host's [toLowerCase] does outside ASCII. *)
Theorem _getFileType_by_extension
        (toLowerCase : jsstring -> jsstring) (base ext : jsstring) :
  lower_case_on_ascii toLowerCase ->
  ascii_text (base ++ ext) = true ->
  no_dot ext = true ->
  WebDAVDirectoryOperations._getFileType toLowerCase
    (base ++ WebDAVDirectoryOperations.DOT :: ext) false =
  WebDAVDirectoryOperations._getFileType toLowerCase ext false /\
  WebDAVDirectoryOperations._getFileType toLowerCase
    (toLowerCase (base ++ WebDAVDirectoryOperations.DOT :: ext)) false =
  WebDAVDirectoryOperations._getFileType toLowerCase ext false.
Proof.
  intros Hlower Hascii Hext.
  rewrite ascii_text_app in Hascii. apply andb_true_iff in Hascii.
  destruct Hascii as [Hbase Hex].
  assert (Hname : ascii_text (base ++ WebDAVDirectoryOperations.DOT :: ext) = true).
  { rewrite ascii_text_app, Hbase. unfold ascii_text in *. cbn [forallb].
    now rewrite Hex. }
  assert (Hlow : no_dot (WebDAVUploadOperations.ascii_lower ext) = true)
    by now apply ascii_lower_no_dot.
  assert (E : WebDAVUploadOperations.ascii_lower
                (base ++ WebDAVDirectoryOperations.DOT :: ext) =
              WebDAVUploadOperations.ascii_lower base ++
              WebDAVDirectoryOperations.DOT ::
              WebDAVUploadOperations.ascii_lower ext).
  { rewrite ascii_lower_app. reflexivity. }
  destruct (extension_of (WebDAVUploadOperations.ascii_lower base) _ Hlow)
    as [E1 E2].
  unfold WebDAVDirectoryOperations._getFileType.
  rewrite (Hlower _ Hname), (Hlower _ (ascii_lower_ascii _ Hname)), (Hlower _ Hex).
  rewrite ascii_lower_idempotent, E, E1, E2. split; reflexivity.
Qed.

Lemma _getFileType_by_extension_report :
  WebDAVDirectoryOperations._getFileType WebDAVUploadOperations.ascii_lower
    (lit "Report.final" ++ WebDAVDirectoryOperations.DOT :: lit "PDF") false =
  WebDAVDirectoryOperations._getFileType WebDAVUploadOperations.ascii_lower
    (lit "PDF") false /\
  WebDAVDirectoryOperations._getFileType WebDAVUploadOperations.ascii_lower
    (WebDAVUploadOperations.ascii_lower
       (lit "Report.final" ++ WebDAVDirectoryOperations.DOT :: lit "PDF")) false =
  WebDAVDirectoryOperations._getFileType WebDAVUploadOperations.ascii_lower
    (lit "PDF") false.
Proof.
  apply (_getFileType_by_extension WebDAVUploadOperations.ascii_lower
           (lit "Report.final") (lit "PDF")).
  - intros s _. reflexivity.
  - vm_compute. reflexivity.
  - vm_compute. reflexivity.
Defined.

(** ** The client *)

Lemma decrypt_if_absent (decryptValue : jsstring -> jsstring -> M jsstring)
      (v : option jsstring) (secret : jsstring) (w : World) :
  truthy v = false ->
  decrypt_if_present decryptValue v secret w = (inl None, w).
Proof.
  intros H. unfold decrypt_if_present. rewrite H. reflexivity.
Qed.

(** X17: the client [createWebDAVClient] returns has the address of the
    configuration without one trailing separator and keeps the decrypted
    credentials.  It carries no [Authorization] header unless a user name
    and a password are both configured and both decrypt to a text that
    is not empty; when they do, the header is [Basic] followed by the
    base-64 form of the decrypted user name, a colon and the decrypted
    password.  Every failure, of the decryption or of [btoa], is
    reported with the status name INTERNAL_ERROR. *)
Theorem createWebDAVClient_credentials
        (btoa : jsstring -> jsstring + exn)
        (decryptValue : jsstring -> jsstring -> M jsstring)
        (cfg : Config) (secret : jsstring) (w : World) :
  match createWebDAVClient btoa decryptValue cfg secret w with
  | (inl c, _) =>
      baseUrl c = strip_trailing_slash (config_url cfg) /\
      (truthy (config_username cfg) && truthy (config_password cfg) = false ->
       authHeader c = []) /\
      match username c, password c with
      | Some user, Some pass =>
          if negb (falsy user) && negb (falsy pass)
          then exists credentials,
                 btoa (user ++ lit ":" ++ pass) = inl credentials /\
                 authHeader c = [(lit "Authorization", lit "Basic " ++ credentials)]
          else authHeader c = []
      | _, _ => authHeader c = []
      end
  | (inr e, _) =>
      exists message,
        e = HTTPException INTERNAL_ERROR (lit "创建WebDAV客户端失败: " ++ message)
  end /\
  (forall (u p user pass credentials : jsstring) (w1 w2 : World),
     config_username cfg = Some u -> u <> [] ->
     config_password cfg = Some p -> p <> [] ->
     decryptValue u secret w = (inl user, w1) -> user <> [] ->
     decryptValue p secret w1 = (inl pass, w2) -> pass <> [] ->
     btoa (user ++ lit ":" ++ pass) = inl credentials ->
     createWebDAVClient btoa decryptValue cfg secret w =
       (inl {| baseUrl := strip_trailing_slash (config_url cfg);
               username := Some user; password := Some pass;
               authHeader := [(lit "Authorization", lit "Basic " ++ credentials)] |},
        w2)).
Proof.
  split.
  - unfold createWebDAVClient, try_catch, bind.
    destruct (decrypt_if_present decryptValue (config_username cfg) secret w)
      as [[user|e] w1] eqn:Eu; [|unfold throw; eexists; reflexivity].
    destruct (decrypt_if_present decryptValue (config_password cfg) secret w1)
      as [[pass|e] w2] eqn:Ep; [|unfold throw; eexists; reflexivity].
    assert (Hu : truthy (config_username cfg) = false -> user = None).
    { intros H. rewrite (decrypt_if_absent _ _ _ _ H) in Eu. congruence. }
    assert (Hp : truthy (config_password cfg) = false -> pass = None).
    { intros H. rewrite (decrypt_if_absent _ _ _ _ H) in Ep. congruence. }
    unfold new_WebDAVClient, _createAuthHeader.
    destruct user as [u|]; [destruct pass as [p|]|].
    + destruct (negb (falsy u) && negb (falsy p)) eqn:E.
      * destruct (btoa (u ++ lit ":" ++ p)) as [credentials|e] eqn:Eb;
          [|unfold throw; eexists; reflexivity].
        unfold ret. cbn [baseUrl authHeader username password].
        split; [reflexivity|]. split.
        -- intros H. apply andb_false_iff in H. destruct H as [H | H].
           ++ specialize (Hu H). discriminate.
           ++ specialize (Hp H). discriminate.
        -- rewrite E. exists credentials. split; [exact Eb | reflexivity].
      * unfold ret. cbn [baseUrl authHeader username password].
        split; [reflexivity|]. split; [reflexivity|]. now rewrite E.
    + unfold ret. cbn [baseUrl authHeader username password].
      split; [reflexivity|]. split; reflexivity.
    + unfold ret. cbn [baseUrl authHeader username password].
      split; [reflexivity|]. split; reflexivity.
  - intros u p user pass credentials w1 w2 Hu Hune Hp Hpne Du Hus Dp Hpa Hb.
    unfold createWebDAVClient, try_catch, bind, decrypt_if_present, truthy.
    rewrite Hu, Hp.
    destruct u as [|u0 u']; [congruence|]. destruct p as [|p0 p']; [congruence|].
    cbn [falsy negb]. unfold bind, ret. rewrite Du, Dp.
    unfold new_WebDAVClient, _createAuthHeader.
    destruct user as [|x user']; [congruence|].
    destruct pass as [|y pass']; [congruence|].
    cbn [falsy negb andb]. rewrite Hb. reflexivity.
Qed.

Lemma createWebDAVClient_credentials_alice :
  createWebDAVClient (fun s => inl (lit "YWxpY2U6c2VjcmV0")) alice_decrypt
    alice_config (lit "key") {| remote := fun _ _ => inr ([], []); sent := [] |} =
  (inl {| baseUrl := lit "https://dav.example.org";
          username := Some (lit "alice"); password := Some (lit "secret");
          authHeader := [(lit "Authorization", lit "Basic YWxpY2U6c2VjcmV0")] |},
   {| remote := fun _ _ => inr ([], []); sent := [] |}).
Proof.
  destruct (createWebDAVClient_credentials (fun s => inl (lit "YWxpY2U6c2VjcmV0"))
              alice_decrypt alice_config (lit "key")
              {| remote := fun _ _ => inr ([], []); sent := [] |}) as [_ H].
  rewrite (H (lit "enc-user") (lit "enc-pass") (lit "alice") (lit "secret")
             (lit "YWxpY2U6c2VjcmV0")
             {| remote := fun _ _ => inr ([], []); sent := [] |}
             {| remote := fun _ _ => inr ([], []); sent := [] |});
    try reflexivity; try (vm_compute; discriminate).
Defined.

(** ** operations/WebDAVBatchOperations.js: what is sent and who lands
    where *)

Lemma sent_after_all (rqs : list Request) :
  forall w, sent (fold_left world_after rqs w) = sent w ++ rqs.
Proof.
  induction rqs as [|rq rqs IH]; intros w; cbn [fold_left].
  - now rewrite app_nil_r.
  - rewrite IH. unfold world_after. cbn [sent]. now rewrite <- app_assoc.
Qed.

Section BatchAnswers.

Context {I O : Type}.
Variable one : I -> M (O + O).
Variable rq : I -> Request.
Variable input_of : O -> I.
Variables done failed : O -> Prop.

(** An iteration that sends its request, never throws, and files its
    outcome by the answer. *)
Hypothesis one_follows :
  forall (item : I) (w : World),
    exists o : O,
      one item w =
        (inl (if answered_ok w (rq item) then inl o else inr o),
         world_after w (rq item)) /\
      input_of o = item /\
      (if answered_ok w (rq item) then done o else failed o).

Lemma batch_loop_follows (items : list I) :
  forall (results errors : list O) (w : World),
    exists goods bads : list O,
      WebDAVBatchOperations.batch_loop one items results errors w =
        (inl (results ++ goods, errors ++ bads),
         fold_left world_after (List.map rq items) w) /\
      List.map input_of goods = select (answers_ok rq items w) items /\
      List.map input_of bads = select (List.map negb (answers_ok rq items w)) items /\
      Forall done goods /\ Forall failed bads.
Proof.
  induction items as [|item rest IH]; intros results errors w.
  - exists [], []. cbn. rewrite !app_nil_r. repeat split; constructor.
  - destruct (one_follows item w) as (o & Hone & Hin & Hkind).
    cbn [WebDAVBatchOperations.batch_loop answers_ok List.map fold_left select].
    unfold bind at 1. rewrite Hone.
    destruct (answered_ok w (rq item)); cbn [negb].
    + destruct (IH (results ++ [o]) errors (world_after w (rq item)))
        as (goods & bads & Hrun & Hg & Hb & Fg & Fb).
      exists (o :: goods), bads. rewrite Hrun, <- app_assoc.
      split; [reflexivity|]. cbn [List.map]. rewrite Hin, Hg.
      split; [reflexivity|]. split; [exact Hb|].
      split; [constructor; assumption | exact Fb].
    + destruct (IH results (errors ++ [o]) (world_after w (rq item)))
        as (goods & bads & Hrun & Hg & Hb & Fg & Fb).
      exists goods, (o :: bads). rewrite Hrun, <- app_assoc.
      split; [reflexivity|]. cbn [List.map]. rewrite Hin, Hb.
      split; [exact Hg|]. split; [reflexivity|].
      split; [exact Fg | constructor; assumption].
Qed.

End BatchAnswers.

Lemma remove_one_follows (c : Client) (path : jsstring) (w : World) :
  exists o,
    WebDAVBatchOperations.remove_one c path w =
      (inl (if answered_ok w (delete_of c path) then inl o else inr o),
       world_after w (delete_of c path)) /\
    WebDAVBatchOperations.removed_path o = path /\
    (if answered_ok w (delete_of c path) then removed_as_done o
     else removed_as_failed o).
Proof.
  unfold WebDAVBatchOperations.remove_one, try_catch, bind, delete.
  rewrite request_outcome. unfold answered_ok, delete_of, request_of, world_after.
  destruct (remote w (sent w) _) as [answer | [n msg]]; cbv beta iota.
  - destruct (ok answer); cbv beta iota; eexists;
      (split; [reflexivity|]); split; try reflexivity; split; reflexivity.
  - eexists. split; [reflexivity|]. split; reflexivity.
Qed.

Lemma copy_one_follows (c : Client) (options : Options.t)
      (item : WebDAVBatchOperations.TransferItem) (w : World) :
  exists o,
    WebDAVBatchOperations.copy_one c options item w =
      (inl (if answered_ok w (copy_of_item c options item) then inl o else inr o),
       world_after w (copy_of_item c options item)) /\
    transfer_input o = item /\
    (if answered_ok w (copy_of_item c options item) then transferred_as_done o
     else transferred_as_failed o).
Proof.
  destruct item as [src tgt].
  unfold WebDAVBatchOperations.copy_one, try_catch, bind, copy.
  rewrite request_outcome.
  unfold answered_ok, copy_of_item, copy_of, request_of, world_after.
  cbn [WebDAVBatchOperations.sourcePath WebDAVBatchOperations.targetPath].
  destruct (remote w (sent w) _) as [answer | [n msg]]; cbv beta iota.
  - destruct (ok answer); cbv beta iota; eexists;
      (split; [reflexivity|]); split; try reflexivity; split; reflexivity.
  - eexists. split; [reflexivity|]. split; reflexivity.
Qed.

Lemma move_one_follows (c : Client) (options : Options.t)
      (item : WebDAVBatchOperations.TransferItem) (w : World) :
  exists o,
    WebDAVBatchOperations.move_one c options item w =
      (inl (if answered_ok w (move_of_item c options item) then inl o else inr o),
       world_after w (move_of_item c options item)) /\
    transfer_input o = item /\
    (if answered_ok w (move_of_item c options item) then transferred_as_done o
     else transferred_as_failed o).
Proof.
  destruct item as [src tgt].
  unfold WebDAVBatchOperations.move_one, try_catch, bind, move.
  rewrite request_outcome.
  unfold answered_ok, move_of_item, move_of, request_of, world_after.
  cbn [WebDAVBatchOperations.sourcePath WebDAVBatchOperations.targetPath].
  destruct (remote w (sent w) _) as [answer | [n msg]]; cbv beta iota.
  - destruct (ok answer); cbv beta iota; eexists;
      (split; [reflexivity|]); split; try reflexivity; split; reflexivity.
  - eexists. split; [reflexivity|]. split; reflexivity.
Qed.

Lemma batchRemoveItems_sent (c : Client) (paths : list jsstring) (w : World) :
  sent (snd (WebDAVBatchOperations.batchRemoveItems c paths w)) =
    sent w ++ List.map (delete_of c) paths.
Proof.
  destruct (batch_loop_follows (WebDAVBatchOperations.remove_one c) (delete_of c)
              WebDAVBatchOperations.removed_path removed_as_done removed_as_failed
              (remove_one_follows c) paths [] [] w)
    as (goods & bads & Hrun & _).
  unfold WebDAVBatchOperations.batchRemoveItems, bind. rewrite Hrun.
  cbn [snd]. apply sent_after_all.
Qed.

Lemma batchCopyItems_sent (c : Client) (options : Options.t)
      (items : list WebDAVBatchOperations.TransferItem) (w : World) :
  sent (snd (WebDAVBatchOperations.batchCopyItems c items options w)) =
    sent w ++ List.map (copy_of_item c options) items.
Proof.
  destruct (batch_loop_follows (WebDAVBatchOperations.copy_one c options)
              (copy_of_item c options) transfer_input
              transferred_as_done transferred_as_failed
              (copy_one_follows c options) items [] [] w)
    as (goods & bads & Hrun & _).
  unfold WebDAVBatchOperations.batchCopyItems, bind. rewrite Hrun.
  cbn [snd]. apply sent_after_all.
Qed.

Lemma batchMoveItems_sent (c : Client) (options : Options.t)
      (items : list WebDAVBatchOperations.TransferItem) (w : World) :
  sent (snd (WebDAVBatchOperations.batchMoveItems c items options w)) =
    sent w ++ List.map (move_of_item c options) items.
Proof.
  destruct (batch_loop_follows (WebDAVBatchOperations.move_one c options)
              (move_of_item c options) transfer_input
              transferred_as_done transferred_as_failed
              (move_one_follows c options) items [] [] w)
    as (goods & bads & Hrun & _).
  unfold WebDAVBatchOperations.batchMoveItems, bind. rewrite Hrun.
  cbn [snd]. apply sent_after_all.
Qed.

(** X18: a batch sends one request for every item of its input, in the
    order of the input and whatever the answers are: a failure does not
    end the batch and nothing is sent twice.  The requests are DELETE,
    COPY and MOVE, addressed to the paths as given. *)
Theorem batches_send_one_request_per_item
        (c : Client) (options : Options.t) (w : World)
        (paths : list jsstring) (items : list WebDAVBatchOperations.TransferItem) :
  sent (snd (WebDAVBatchOperations.batchRemoveItems c paths w)) =
    sent w ++ List.map (delete_of c) paths /\
  sent (snd (WebDAVBatchOperations.batchCopyItems c items options w)) =
    sent w ++ List.map (copy_of_item c options) items /\
  sent (snd (WebDAVBatchOperations.batchMoveItems c items options w)) =
    sent w ++ List.map (move_of_item c options) items /\
  List.map Http.method (List.map (delete_of c) paths) =
    List.map (fun _ => lit "DELETE") paths /\
  List.map url (List.map (delete_of c) paths) =
    List.map (fun path => baseUrl c ++ path) paths.
Proof.
  split; [apply batchRemoveItems_sent|].
  split; [apply batchCopyItems_sent|].
  split; [apply batchMoveItems_sent|].
  rewrite !map_map. split; apply map_ext; intros path; reflexivity.
Qed.

(** X19: an item of a batch is reported under [results] exactly when its
    own request was answered by a 2xx, and under [errors] otherwise (an
    answer outside 2xx or a failure of the network); both lists keep the
    order of the input; the entries of [results] say success and carry no
    status, the entries of [errors] say failure. *)
Theorem batch_results_follow_answers
        (c : Client) (options : Options.t) (w : World)
        (paths : list jsstring) (items : list WebDAVBatchOperations.TransferItem) :
  (exists r w',
     WebDAVBatchOperations.batchRemoveItems c paths w = (inl r, w') /\
     follows_answers WebDAVBatchOperations.removed_path
       removed_as_done removed_as_failed
       (answers_ok (delete_of c) paths w) paths r) /\
  (exists r w',
     WebDAVBatchOperations.batchCopyItems c items options w = (inl r, w') /\
     follows_answers transfer_input transferred_as_done transferred_as_failed
       (answers_ok (copy_of_item c options) items w) items r) /\
  (exists r w',
     WebDAVBatchOperations.batchMoveItems c items options w = (inl r, w') /\
     follows_answers transfer_input transferred_as_done transferred_as_failed
       (answers_ok (move_of_item c options) items w) items r).
Proof.
  split; [|split].
  - destruct (batch_loop_follows (WebDAVBatchOperations.remove_one c) (delete_of c)
                WebDAVBatchOperations.removed_path removed_as_done removed_as_failed
                (remove_one_follows c) paths [] [] w)
      as (goods & bads & Hrun & Hg & Hb & Fg & Fb).
    unfold WebDAVBatchOperations.batchRemoveItems, bind. rewrite Hrun.
    eexists. eexists. split; [reflexivity|].
    unfold follows_answers, WebDAVBatchOperations.summary.
    cbn [fst snd app WebDAVBatchOperations.results WebDAVBatchOperations.errors].
    repeat split; assumption.
  - destruct (batch_loop_follows (WebDAVBatchOperations.copy_one c options)
                (copy_of_item c options) transfer_input
                transferred_as_done transferred_as_failed
                (copy_one_follows c options) items [] [] w)
      as (goods & bads & Hrun & Hg & Hb & Fg & Fb).
    unfold WebDAVBatchOperations.batchCopyItems, bind. rewrite Hrun.
    eexists. eexists. split; [reflexivity|].
    unfold follows_answers, WebDAVBatchOperations.summary.
    cbn [fst snd app WebDAVBatchOperations.results WebDAVBatchOperations.errors].
    repeat split; assumption.
  - destruct (batch_loop_follows (WebDAVBatchOperations.move_one c options)
                (move_of_item c options) transfer_input
                transferred_as_done transferred_as_failed
                (move_one_follows c options) items [] [] w)
      as (goods & bads & Hrun & Hg & Hb & Fg & Fb).
    unfold WebDAVBatchOperations.batchMoveItems, bind. rewrite Hrun.
    eexists. eexists. split; [reflexivity|].
    unfold follows_answers, WebDAVBatchOperations.summary.
    cbn [fst snd app WebDAVBatchOperations.results WebDAVBatchOperations.errors].
    repeat split; assumption.
Qed.

(** C3: whatever the server answers, and also when requests fail on the
    network, [batchRemoveItems], [batchCopyItems] and [batchMoveItems]
    return a result (they do not throw) in which successCount + errorCount
    = total = the size of the input, the entries of [results] and [errors]
    together are the input items, each once, and [success] holds exactly
    when [errors] is empty.  An item lands in [results] when its own
    request was answered by a 2xx and in [errors] otherwise: an answer
    outside 2xx and an exception of the request (a failure of the
    network) are both recorded as a failure of that item, and the items
    after it are still processed. *)
Theorem batch_results_account_for_every_item
        (c : Client) (options : Options.t) (w : World)
        (paths : list jsstring) (items : list WebDAVBatchOperations.TransferItem) :
  (exists r w', WebDAVBatchOperations.batchRemoveItems c paths w = (inl r, w') /\
                accounts_for WebDAVBatchOperations.removed_path paths r /\
                follows_answers WebDAVBatchOperations.removed_path
                  removed_as_done removed_as_failed
                  (answers_ok (delete_of c) paths w) paths r) /\
  (exists r w', WebDAVBatchOperations.batchCopyItems c items options w = (inl r, w') /\
                accounts_for transfer_input items r /\
                follows_answers transfer_input
                  transferred_as_done transferred_as_failed
                  (answers_ok (copy_of_item c options) items w) items r) /\
  (exists r w', WebDAVBatchOperations.batchMoveItems c items options w = (inl r, w') /\
                accounts_for transfer_input items r /\
                follows_answers transfer_input
                  transferred_as_done transferred_as_failed
                  (answers_ok (move_of_item c options) items w) items r).
Proof.
  split; [|split].
  - destruct (batch_loop_spec (WebDAVBatchOperations.remove_one c)
                WebDAVBatchOperations.removed_path (remove_one_total c) paths [] [] w)
      as (rs & es & w' & Hrun & Hlen & Hperm & _).
    destruct (batch_loop_follows (WebDAVBatchOperations.remove_one c) (delete_of c)
                WebDAVBatchOperations.removed_path removed_as_done removed_as_failed
                (remove_one_follows c) paths [] [] w)
      as (goods & bads & Hrun' & Hg & Hb & Fg & Fb).
    rewrite Hrun in Hrun'. cbn [app] in Hrun'. injection Hrun' as -> -> _.
    unfold WebDAVBatchOperations.batchRemoveItems, bind. rewrite Hrun.
    eexists; eexists; split; [reflexivity|]. split.
    + apply summary_accounts; auto.
    + unfold follows_answers, WebDAVBatchOperations.summary.
      cbn [fst snd WebDAVBatchOperations.results WebDAVBatchOperations.errors].
      repeat split; assumption.
  - destruct (batch_loop_spec (WebDAVBatchOperations.copy_one c options)
                transfer_input (copy_one_total c options) items [] [] w)
      as (rs & es & w' & Hrun & Hlen & Hperm & _).
    destruct (batch_loop_follows (WebDAVBatchOperations.copy_one c options)
                (copy_of_item c options) transfer_input
                transferred_as_done transferred_as_failed
                (copy_one_follows c options) items [] [] w)
      as (goods & bads & Hrun' & Hg & Hb & Fg & Fb).
    rewrite Hrun in Hrun'. cbn [app] in Hrun'. injection Hrun' as -> -> _.
    unfold WebDAVBatchOperations.batchCopyItems, bind. rewrite Hrun.
    eexists; eexists; split; [reflexivity|]. split.
    + apply summary_accounts; auto.
    + unfold follows_answers, WebDAVBatchOperations.summary.
      cbn [fst snd WebDAVBatchOperations.results WebDAVBatchOperations.errors].
      repeat split; assumption.
  - destruct (batch_loop_spec (WebDAVBatchOperations.move_one c options)
                transfer_input (move_one_total c options) items [] [] w)
      as (rs & es & w' & Hrun & Hlen & Hperm & _).
    destruct (batch_loop_follows (WebDAVBatchOperations.move_one c options)
                (move_of_item c options) transfer_input
                transferred_as_done transferred_as_failed
                (move_one_follows c options) items [] [] w)
      as (goods & bads & Hrun' & Hg & Hb & Fg & Fb).
    rewrite Hrun in Hrun'. cbn [app] in Hrun'. injection Hrun' as -> -> _.
    unfold WebDAVBatchOperations.batchMoveItems, bind. rewrite Hrun.
    eexists; eexists; split; [reflexivity|]. split.
    + apply summary_accounts; auto.
    + unfold follows_answers, WebDAVBatchOperations.summary.
      cbn [fst snd WebDAVBatchOperations.results WebDAVBatchOperations.errors].
      repeat split; assumption.
Qed.

(** ** WebDAVStorageDriver.js: the paths the facade addresses *)

Lemma normalize_is_normal (P : jsstring) (c : bool) :
  normal_path (normalizeWebDAVPath P c) = true.
Proof.
  destruct (normalize_normal P c) as (Hh & Hn & _). cbv zeta in *.
  unfold normal_path. rewrite Hn, andb_true_r.
  destruct (normalizeWebDAVPath P c) as [|x r]; [discriminate|].
  simpl in Hh. injection Hh as ->. reflexivity.
Qed.

Lemma destination_of_move (c : Client) (old new : jsstring) (options : Options.t) :
  get_header DESTINATION (requestHeaders (move_of c old new options)) =
  Some (baseUrl c ++ new).
Proof.
  unfold move_of, request_of. cbn [requestHeaders].
  rewrite get_assign. cbn [rev app get_header].
  replace (str_eqb DESTINATION (lit "Overwrite")) with false by (vm_compute; reflexivity).
  fold DESTINATION. now rewrite str_eqb_refl.
Qed.

Lemma destination_of_copy (c : Client) (source target : jsstring)
      (options : Options.t) :
  get_header DESTINATION (requestHeaders (copy_of c source target options)) =
  Some (baseUrl c ++ target).
Proof.
  unfold copy_of, request_of. cbn [requestHeaders].
  rewrite get_assign. cbn [rev app get_header].
  replace (str_eqb DESTINATION (lit "Depth")) with false by (vm_compute; reflexivity).
  replace (str_eqb DESTINATION (lit "Overwrite")) with false by (vm_compute; reflexivity).
  fold DESTINATION. now rewrite str_eqb_refl.
Qed.

Lemma exists_sent (c : Client) (path : jsstring) (w : World) :
  sent (snd (WebDAVFileOperations.exists_ c path w)) =
  sent w ++ [request_of c "HEAD" path [] None].
Proof.
  unfold WebDAVFileOperations.exists_, try_catch, bind, head, request_of.
  rewrite request_outcome.
  destruct (remote w (sent w) _) as [answer | [n msg]]; reflexivity.
Qed.

Lemma uploadFile_sent (nowISOString : jsstring) (c : Client) (path : jsstring)
      (input : WebDAVUploadOperations.FileInput) (options : Options.t) (w : World) :
  exists new,
    sent (snd (WebDAVUploadOperations.uploadFile nowISOString c path input options w))
    = sent w ++ new /\
    List.map url new =
    match input with
    | WebDAVUploadOperations.Unsupported => []
    | _ => [baseUrl c ++ path]
    end.
Proof.
  pose proof (uploadFile_classifies nowISOString c path input options) as H.
  destruct input; cbn [WebDAVUploadOperations.inspect] in H;
    first [ exists []; rewrite H; cbn [snd]; now rewrite app_nil_r
          | destruct (H w) as [S _]; eexists; split; [exact S | reflexivity] ].
Qed.

Lemma forallb_normalized {A : Type} (f : A -> jsstring) (b : bool) (xs : list A) :
  forallb normal_path (List.map (fun x => normalizeWebDAVPath (f x) b) xs) = true.
Proof.
  induction xs as [|x xs IH]; [reflexivity|].
  cbn [List.map forallb]. now rewrite normalize_is_normal, IH.
Qed.

Section Addresses.

Import WebDAVStorageDriver.

Variable btoa : jsstring -> jsstring + exn.
Variable decryptValue : jsstring -> jsstring -> M jsstring.
Variable updateMountLastUsed : jsstring -> M unit.
Variable toLowerCase : jsstring -> jsstring.
Variable toISOString : jsstring -> option jsstring.
Variable nowISOString : jsstring.

Let call :=
  invoke btoa decryptValue updateMountLastUsed toLowerCase toISOString nowISOString.

Variable this : Driver.
Variable client : Client.
Hypothesis Hinit : initialized this = true.
Hypothesis Hclient : webdavClient this = Some client.
(** The update of the mount returns and sends nothing to the server. *)
Hypothesis Hmount :
  forall (id : jsstring) (w0 : World),
    exists w1, updateMountLastUsed id w0 = (inl tt, w1) /\ sent w1 = sent w0.

Lemma invoke_world (c : Method.call) (w : World) :
  c <> Method.initialize ->
  snd (call c this w) =
  snd (method updateMountLastUsed toLowerCase toISOString nowISOString c this w).
Proof.
  intros H. unfold call, invoke.
  destruct c; try congruence;
    match goal with |- context [method ?a ?b ?c ?d ?e ?f ?g] =>
      destruct (method a b c d e f g) end; reflexivity.
Qed.

(** A guarded call of an operation module on an initialized instance. *)
Lemma guarded_world {A : Type} (operation : Client -> M A) (wrap : A -> value)
      (w : World) :
  snd (bind (_ensureInitialized this)
         (fun _ => bind (module this operation) (fun x => ret (wrap x))) w) =
  snd (operation client w).
Proof.
  unfold bind, _ensureInitialized, module. rewrite Hinit, Hclient.
  cbn [negb]. unfold ret at 1. cbv beta iota.
  destruct (operation client w) as [[a | e] w1]; reflexivity.
Qed.

Lemma touch_mount_quiet (options : Options.t) (w : World) :
  negb (Options.db options) ||
  match Options.mount options with Some _ => true | None => false end = true ->
  exists w1,
    touch_mount updateMountLastUsed options w = (inl tt, w1) /\ sent w1 = sent w.
Proof.
  unfold touch_mount. destruct (Options.db options); cbn [negb orb].
  - destruct (Options.mount options) as [m|]; [intros _ | discriminate].
    destruct (Options.mount_id m) as [id|]; [|now exists w].
    destruct (falsy id); [now exists w | apply Hmount].
  - intros _. now exists w.
Qed.

Lemma listing_world (options : Options.t) (w : World) :
  negb (Options.db options) ||
  match Options.mount options with Some _ => true | None => false end = true ->
  sent (snd (do_listDirectory updateMountLastUsed toLowerCase toISOString
               nowISOString this options w)) =
  sent w ++ [propfind_of client (normalizeWebDAVPath (subPath_of options) true) 1].
Proof.
  intros H. destruct (touch_mount_quiet options w H) as (w1 & Ht & Hs).
  unfold do_listDirectory, bind, _ensureInitialized, module.
  rewrite Hinit, Hclient. cbn [negb]. unfold ret at 1. cbv beta iota zeta.
  rewrite Ht. cbv beta iota.
  pose proof (proj1 (listDirectory_classifies toLowerCase toISOString nowISOString client
                       (normalizeWebDAVPath (subPath_of options) true) w1)) as S.
  destruct (WebDAVDirectoryOperations.listDirectory _ _ _ _ _ w1) as [[l | e] w2];
    unfold ret; cbn [snd] in *; now rewrite S, Hs.
Qed.

(** X20: on an initialized instance every request of a call of the
    facade is addressed to the base address of the client followed by a
    normalized path: the normalized [options.subPath] for list, get,
    getInfo, stat, put and mkdir (whose [path] argument is not read), the
    normalized path argument for rename, move, copy, updateFile, exists
    and the batches; the [Destination] header of a rename or a copy is
    built in the same way from the normalized target. *)
Theorem facade_addresses_normalized_paths (c : Method.call) (w : World) :
  c <> Method.initialize ->
  mount_given c = true ->
  exists new : list Request,
    sent (snd (call c this w)) = sent w ++ new /\
    List.map url new = List.map (fun p => baseUrl client ++ p) (targets c) /\
    match destinations c with
    | Some ds =>
        List.map (fun rq => get_header DESTINATION (requestHeaders rq)) new =
        List.map (fun d => Some (baseUrl client ++ d)) ds /\
        forallb normal_path ds = true
    | None => True
    end /\
    forallb normal_path (targets c) = true.
Proof.
  intros Hc Hm. rewrite (invoke_world c w Hc).
  destruct c; try congruence; unfold method; cbn [mount_given] in Hm.
  - (* listDirectory *)
    eexists. split; [now apply listing_world|].
    cbn [targets destinations forallb List.map]. rewrite normalize_is_normal.
    repeat split.
  - (* list *)
    eexists. split; [now apply listing_world|].
    cbn [targets destinations forallb List.map]. rewrite normalize_is_normal.
    repeat split.
  - (* get *)
    eexists. split.
    + unfold do_downloadFile.
      rewrite (guarded_world (fun c0 => WebDAVFileOperations.downloadFile c0 _) OfResponse).
      apply (proj1 (downloadFile_classifies client _ w)).
    + cbn [targets destinations forallb List.map]. rewrite normalize_is_normal.
      repeat split.
  - (* getInfo *)
    eexists. split.
    + unfold do_getFileInfo.
      rewrite (guarded_world
                 (fun c0 => WebDAVFileOperations.getFileInfo toISOString nowISOString c0 _)
                 OfFileInfo).
      apply (proj1 (getFileInfo_classifies toISOString nowISOString client _ w)).
    + cbn [targets destinations forallb List.map]. rewrite normalize_is_normal.
      repeat split.
  - (* getFileInfo *)
    eexists. split.
    + unfold do_getFileInfo.
      rewrite (guarded_world
                 (fun c0 => WebDAVFileOperations.getFileInfo toISOString nowISOString c0 _)
                 OfFileInfo).
      apply (proj1 (getFileInfo_classifies toISOString nowISOString client _ w)).
    + cbn [targets destinations forallb List.map]. rewrite normalize_is_normal.
      repeat split.
  - (* downloadFile *)
    eexists. split.
    + unfold do_downloadFile.
      rewrite (guarded_world (fun c0 => WebDAVFileOperations.downloadFile c0 _) OfResponse).
      apply (proj1 (downloadFile_classifies client _ w)).
    + cbn [targets destinations forallb List.map]. rewrite normalize_is_normal.
      repeat split.
  - (* uploadFile *)
    unfold do_uploadFile.
    rewrite (guarded_world
               (fun c0 => WebDAVUploadOperations.uploadFile nowISOString c0 _ file options)
               OfUpload).
    destruct (uploadFile_sent nowISOString client
                (normalizeWebDAVPath (subPath_of options) false) file options w)
      as (new & S & U).
    exists new. split; [exact S|]. rewrite U.
    cbn [targets destinations]. split; [destruct file; reflexivity|].
    split; [exact I|].
    destruct file; cbn [forallb]; rewrite ?normalize_is_normal; reflexivity.
  - (* put *)
    unfold do_uploadFile.
    rewrite (guarded_world
               (fun c0 => WebDAVUploadOperations.uploadFile nowISOString c0 _ data options)
               OfUpload).
    destruct (uploadFile_sent nowISOString client
                (normalizeWebDAVPath (subPath_of options) false) data options w)
      as (new & S & U).
    exists new. split; [exact S|]. rewrite U.
    cbn [targets destinations]. split; [destruct data; reflexivity|].
    split; [exact I|].
    destruct data; cbn [forallb]; rewrite ?normalize_is_normal; reflexivity.
  - (* mkdir *)
    eexists. split.
    + unfold do_createDirectory.
      rewrite (guarded_world (fun c0 => WebDAVDirectoryOperations.createDirectory c0 _)
                 OfMkdir).
      apply (proj1 (createDirectory_classifies client _ w)).
    + cbn [targets destinations forallb List.map]. rewrite normalize_is_normal.
      repeat split.
  - (* createDirectory *)
    eexists. split.
    + unfold do_createDirectory.
      rewrite (guarded_world (fun c0 => WebDAVDirectoryOperations.createDirectory c0 _)
                 OfMkdir).
      apply (proj1 (createDirectory_classifies client _ w)).
    + cbn [targets destinations forallb List.map]. rewrite normalize_is_normal.
      repeat split.
  - (* renameItem *)
    eexists. split.
    + unfold do_renameItem.
      rewrite (guarded_world (fun c0 => WebDAVFileOperations.renameItem c0 _ _ options)
                 OfRename).
      apply (proj1 (renameItem_classifies client _ _ options w)).
    + cbn [targets destinations forallb List.map].
      rewrite destination_of_move, !normalize_is_normal. repeat split.
  - (* rename *)
    eexists. split.
    + unfold do_renameItem.
      rewrite (guarded_world (fun c0 => WebDAVFileOperations.renameItem c0 _ _ options)
                 OfRename).
      apply (proj1 (renameItem_classifies client _ _ options w)).
    + cbn [targets destinations forallb List.map].
      rewrite destination_of_move, !normalize_is_normal. repeat split.
  - (* move *)
    eexists. split.
    + unfold do_renameItem.
      rewrite (guarded_world (fun c0 => WebDAVFileOperations.renameItem c0 _ _ options)
                 OfRename).
      apply (proj1 (renameItem_classifies client _ _ options w)).
    + cbn [targets destinations forallb List.map].
      rewrite destination_of_move, !normalize_is_normal. repeat split.
  - (* copy *)
    eexists. split.
    + unfold do_copyItem.
      rewrite (guarded_world (fun c0 => WebDAVFileOperations.copyItem c0 _ _ options)
                 OfCopy).
      apply (proj1 (copyItem_classifies client _ _ options w)).
    + cbn [targets destinations forallb List.map].
      rewrite destination_of_copy, !normalize_is_normal. repeat split.
  - (* batchRemoveItems *)
    eexists. split.
    + unfold do_batchRemoveItems.
      rewrite (guarded_world (fun c0 => WebDAVBatchOperations.batchRemoveItems c0 _)
                 OfBatchRemove).
      apply batchRemoveItems_sent.
    + cbn [targets destinations]. rewrite !map_map.
      split; [reflexivity|]. split; [exact I|].
      apply (forallb_normalized (fun path : jsstring => path)).
  - (* copyItem *)
    eexists. split.
    + unfold do_copyItem.
      rewrite (guarded_world (fun c0 => WebDAVFileOperations.copyItem c0 _ _ options)
                 OfCopy).
      apply (proj1 (copyItem_classifies client _ _ options w)).
    + cbn [targets destinations forallb List.map].
      rewrite destination_of_copy, !normalize_is_normal. repeat split.
  - (* batchCopyItems *)
    eexists. split.
    + unfold do_batchCopyItems.
      rewrite (guarded_world
                 (fun c0 => WebDAVBatchOperations.batchCopyItems c0 _ options)
                 OfBatchCopy).
      apply batchCopyItems_sent.
    + cbn [targets destinations]. rewrite !map_map.
      split; [reflexivity|]. split.
      * split.
        -- apply map_ext. intros item. apply destination_of_copy.
        -- apply (forallb_normalized WebDAVBatchOperations.targetPath).
      * apply (forallb_normalized WebDAVBatchOperations.sourcePath).
  - (* generatePresignedUrl *)
    exists []. rewrite app_nil_r. repeat split.
  - (* updateFile *)
    eexists. split.
    + unfold do_updateFile.
      rewrite (guarded_world
                 (fun c0 => WebDAVFileOperations.updateFile c0 _ content options)
                 OfUpdate).
      apply (proj1 (updateFile_classifies client _ content options w)).
    + cbn [targets destinations forallb List.map]. rewrite normalize_is_normal.
      repeat split.
  - (* handleCrossStorageCopy *)
    exists []. rewrite app_nil_r. repeat split.
  - (* exists *)
    eexists. split.
    + unfold do_exists.
      rewrite (guarded_world (fun c0 => WebDAVFileOperations.exists_ c0 _) OfBoolean).
      apply exists_sent.
    + cbn [targets destinations forallb List.map]. rewrite normalize_is_normal.
      repeat split.
  - (* getStats *)
    exists []. rewrite app_nil_r. unfold do_getStats, bind, _ensureInitialized.
    rewrite Hinit. repeat split.
  - (* stat *)
    eexists. split.
    + unfold do_getFileInfo.
      rewrite (guarded_world
                 (fun c0 => WebDAVFileOperations.getFileInfo toISOString nowISOString c0 _)
                 OfFileInfo).
      apply (proj1 (getFileInfo_classifies toISOString nowISOString client _ w)).
    + cbn [targets destinations forallb List.map]. rewrite normalize_is_normal.
      repeat split.
  - (* abortBackendMultipartUpload *)
    exists []. rewrite app_nil_r. repeat split.
Qed.

End Addresses.

Lemma facade_addresses_normalized_paths_copy_batch :
  targets copy_batch = [lit "/docs/a.txt"; lit "/docs/b.txt"] /\
  destinations copy_batch = Some [lit "/backup/a.txt"; lit "/backup/b.txt"] /\
  exists new : list Request,
    sent (snd (WebDAVStorageDriver.invoke (fun s => inl s) (fun s _ => ret s)
                 (fun _ => ret tt) (fun s => s) (fun _ => None)
                 (lit "2024-01-01T00:00:00.000Z") copy_batch mounted_driver
                 quiet_world)) = sent quiet_world ++ new /\
    List.map url new =
      List.map (fun p => baseUrl plain_client ++ p) (targets copy_batch) /\
    match destinations copy_batch with
    | Some ds =>
        List.map (fun rq => get_header DESTINATION (requestHeaders rq)) new =
        List.map (fun d => Some (baseUrl plain_client ++ d)) ds /\
        forallb normal_path ds = true
    | None => True
    end /\
    forallb normal_path (targets copy_batch) = true.
Proof.
  split; [vm_compute; reflexivity|]. split; [vm_compute; reflexivity|].
  apply (facade_addresses_normalized_paths (fun s => inl s) (fun s _ => ret s)
           (fun _ => ret tt) (fun s => s) (fun _ => None)
           (lit "2024-01-01T00:00:00.000Z") mounted_driver plain_client).
  - reflexivity.
  - reflexivity.
  - intros id w0. exists w0. split; reflexivity.
  - discriminate.
  - reflexivity.
Defined.

(** ** webdavConfigService.js: the probes of the diagnostic *)

Lemma ok_or_201 (r : Response) : ok r || (status r =? 201) = ok r.
Proof.
  unfold ok. destruct (status r =? 201) eqn:E; [|now rewrite orb_false_r].
  apply Z.eqb_eq in E. rewrite E. reflexivity.
Qed.

(** *** The octets of a text without surrogates *)

Lemma not_surrogate_halves (c : Z) :
  is_surrogate c = false -> is_high_surrogate c = false /\ is_low_surrogate c = false.
Proof.
  unfold is_surrogate, is_high_surrogate, is_low_surrogate. intros H.
  apply andb_false_iff in H. split; apply andb_false_iff.
  - destruct H as [H | H]; [now left | right].
    apply Z.leb_gt in H. apply Z.leb_gt. lia.
  - destruct H as [H | H]; [left | now right].
    apply Z.leb_gt in H. apply Z.leb_gt. lia.
Qed.

Lemma utf8_encode_app (a b : jsstring) :
  no_surrogate a = true -> utf8_encode (a ++ b) = utf8_encode a ++ utf8_encode b.
Proof.
  induction a as [|c a IH]; [reflexivity|].
  cbn [no_surrogate forallb]. intros H. apply andb_true_iff in H.
  destruct H as [Hc Ha]. apply negb_true_iff in Hc.
  destruct (not_surrogate_halves c Hc) as [Hh Hl].
  cbn [app utf8_encode]. rewrite Hh, Hl, <- app_assoc. f_equal. now apply IH.
Qed.

Lemma ascii_no_surrogate (s : jsstring) : ascii_text s = true -> no_surrogate s = true.
Proof.
  unfold ascii_text, no_surrogate. induction s as [|c s IH]; [reflexivity|].
  cbn [forallb]. intros H. apply andb_true_iff in H. destruct H as [Hc Hs].
  rewrite (IH Hs), andb_true_r. apply negb_true_iff. unfold is_surrogate.
  apply andb_true_iff in Hc. destruct Hc as [_ Hc]. apply Z.ltb_lt in Hc.
  apply andb_false_iff. left. apply Z.leb_gt. lia.
Qed.

Lemma utf8_encode_ascii (s : jsstring) : ascii_text s = true -> utf8_encode s = s.
Proof.
  intros H. pose proof (ascii_no_surrogate s H) as N. revert H N.
  unfold ascii_text, no_surrogate. induction s as [|c s IH]; [reflexivity|].
  cbn [forallb]. intros H N. apply andb_true_iff in H. destruct H as [Hc Hs].
  apply andb_true_iff in N. destruct N as [Nc Ns]. apply negb_true_iff in Nc.
  destruct (not_surrogate_halves c Nc) as [Hh Hl].
  cbn [utf8_encode]. rewrite Hh, Hl, (IH Hs Ns). unfold utf8_octets.
  apply andb_true_iff in Hc. destruct Hc as [_ Hc]. now rewrite Hc.
Qed.

Lemma digits_fuel_ascii (fuel : nat) :
  forall (n : Z) (acc : jsstring),
    ascii_text acc = true -> ascii_text (digits_fuel fuel n acc) = true.
Proof.
  induction fuel as [|fuel IH]; intros n acc H; [exact H|].
  cbn [digits_fuel].
  assert (Hacc : ascii_text ((48 + n mod 10) :: acc) = true).
  { unfold ascii_text in *. cbn [forallb]. rewrite H, andb_true_r.
    pose proof (Z.mod_pos_bound n 10 ltac:(lia)).
    apply andb_true_iff. split; [apply Z.leb_le | apply Z.ltb_lt]; lia. }
  destruct (n <? 10); [exact Hacc | now apply IH].
Qed.

Lemma decimal_ascii (n : Z) : ascii_text (decimal n) = true.
Proof. unfold decimal. now apply digits_fuel_ascii. Qed.

Lemma zeros_ascii (n : Z) : ascii_text (zeros n) = true.
Proof.
  unfold zeros. induction (Z.to_nat n) as [|k IH]; [reflexivity|].
  cbn [List.repeat]. unfold ascii_text in *. cbn [forallb]. now rewrite IH.
Qed.

Lemma positive_toString_ascii (x : Z) : ascii_text (positive_toString x) = true.
Proof.
  unfold positive_toString. destruct (x <? 2 ^ 53); [apply decimal_ascii|].
  destruct (shortest x) as [[s k] n].
  destruct (n <=? 21).
  - now rewrite ascii_text_app, decimal_ascii, zeros_ascii.
  - pose proof (decimal_ascii s) as Hs.
    destruct (decimal s) as [|d ds]; [reflexivity|].
    unfold ascii_text in Hs. cbn [forallb] in Hs.
    apply andb_true_iff in Hs. destruct Hs as [Hd Hds].
    rewrite !ascii_text_app, decimal_ascii, andb_true_r.
    replace (ascii_text EXPONENT) with true by reflexivity.
    destruct (k =? 1); unfold ascii_text; cbn [forallb]; rewrite Hd, ?Hds;
      reflexivity.
Qed.

Lemma toString_ascii (n : Z) : ascii_text (toString n) = true.
Proof.
  unfold toString, number_toString.
  destruct (Number_of n) as [v| |]; try reflexivity.
  destruct (v <? 0); [|apply positive_toString_ascii].
  unfold ascii_text. cbn [forallb]. apply positive_toString_ascii.
Qed.

(** The text of the probe file has eight characters outside ASCII, of
    three octets each. *)
Lemma probe_text_octets (nowISOString : jsstring) (timestamp : Z) :
  ascii_text nowISOString = true ->
  Z.of_nat (List.length (utf8_encode (probe_text nowISOString timestamp))) =
  Z.of_nat (List.length (probe_text nowISOString timestamp)) + 16.
Proof.
  intros H. unfold probe_text.
  set (head := lit "CloudPaste WebDAV测试文件").
  set (time := lit "时间: ").
  set (id := lit "测试ID: ").
  pose proof (toString_ascii timestamp) as Ht.
  rewrite (utf8_encode_app head) by (vm_compute; reflexivity).
  rewrite (utf8_encode_app [10]) by reflexivity.
  rewrite (utf8_encode_app time) by (vm_compute; reflexivity).
  rewrite (utf8_encode_app nowISOString) by now apply ascii_no_surrogate.
  rewrite (utf8_encode_app [10]) by reflexivity.
  rewrite (utf8_encode_app id) by (vm_compute; reflexivity).
  rewrite (utf8_encode_ascii nowISOString H), (utf8_encode_ascii _ Ht).
  rewrite !length_app.
  replace (List.length (utf8_encode head)) with (List.length head + 8)%nat
    by (vm_compute; reflexivity).
  replace (List.length (utf8_encode time)) with (List.length time + 4)%nat
    by (vm_compute; reflexivity).
  replace (List.length (utf8_encode id)) with (List.length id + 4)%nat
    by (vm_compute; reflexivity).
  replace (List.length (utf8_encode [10])) with (List.length [10])
    by (vm_compute; reflexivity).
  lia.
Qed.

Section Probes.

Import webdavConfigService.

Variable btoa : jsstring -> jsstring + exn.
Variable AbortSignal_timeout : number -> unit + exn.
Variable nowISOString : jsstring.
Variable timestamp : Z.
Variable elapsed : Z.
Variable updateWebDAVLastUsedTime : M unit.
Variable config : StoredConfig.
Variable username password : jsstring.
Variable credentials : jsstring.
Hypothesis Hbtoa : btoa (username ++ lit ":" ++ password) = inl credentials.
(** The host accepts the two delays of the configuration. *)
Hypothesis Hconnection :
  AbortSignal_timeout
    (Number_of (or_seconds (connection_timeout config) 30 * 1000)) = inl tt.
Hypothesis Hreading :
  AbortSignal_timeout
    (Number_of (or_seconds (read_timeout config) 60 * 1000)) = inl tt.

Lemma connect_stage (stage : Stage) (w : World) :
  exists stage',
    executeWebDAVConnectTest btoa AbortSignal_timeout stage config username password w =
      (inl stage', world_after w (options_probe config credentials)) /\
    success stage' = reached (remote w (sent w) (options_probe config credentials)).
Proof.
  unfold executeWebDAVConnectTest, try_catch, bind, basic, signal.
  rewrite Hbtoa. unfold ret at 1. cbv beta iota zeta. rewrite Hconnection.
  unfold ret, fetch. cbv beta iota zeta.
  fold (basic_header credentials). fold (options_probe config credentials).
  unfold reached, world_after.
  destruct (remote w (sent w) (options_probe config credentials))
    as [r | [n m]]; cbv beta iota.
  - destruct (ok r || (status r =? 401)) eqn:E2; eexists; split; reflexivity.
  - eexists. split; reflexivity.
Qed.

Lemma propfind_stage (stage : Stage) (w : World) :
  exists auth',
    executeWebDAVAuthTest btoa AbortSignal_timeout stage config username password w =
      (inl auth', world_after w (auth_probe config credentials)) /\
    success auth' = accepted (remote w (sent w) (auth_probe config credentials)).
Proof.
  unfold executeWebDAVAuthTest, try_catch, bind, basic, signal.
  rewrite Hbtoa. unfold ret at 1. cbv beta iota zeta. rewrite Hconnection.
  unfold ret, fetch. cbv beta iota zeta.
  fold (basic_header credentials). fold (auth_probe config credentials).
  unfold accepted, world_after.
  destruct (remote w (sent w) (auth_probe config credentials))
    as [r | [n m]]; cbv beta iota.
  - destruct (ok r) eqn:E2; eexists; split; reflexivity.
  - eexists. split; reflexivity.
Qed.

Lemma read_stage (stage : Stage) (w : World) :
  exists read',
    executeWebDAVReadTest btoa AbortSignal_timeout stage config username password w =
      (inl read', world_after w (read_probe config credentials)) /\
    success read' = accepted (remote w (sent w) (read_probe config credentials)).
Proof.
  unfold executeWebDAVReadTest, try_catch, bind, basic, signal.
  rewrite Hbtoa. unfold ret at 1. cbv beta iota zeta. rewrite Hreading.
  unfold ret, fetch. cbv beta iota zeta.
  fold (basic_header credentials). fold (read_probe config credentials).
  unfold accepted, world_after.
  destruct (remote w (sent w) (read_probe config credentials))
    as [r | [n m]]; cbv beta iota.
  - destruct (ok r) eqn:E2; eexists; split; reflexivity.
  - eexists. split; reflexivity.
Qed.

Lemma write_stage (stage : Stage) (w : World) :
  exists write' put cleanup,
    executeWebDAVWriteTest btoa AbortSignal_timeout nowISOString timestamp elapsed
      stage config username password w =
      (inl write', {| remote := remote w; sent := sent w ++ put :: cleanup |}) /\
    Http.method put = lit "PUT" /\
    body put = Some (Text (probe_text nowISOString timestamp)) /\
    get_header CONTENT_LENGTH (requestHeaders put) =
      Some (toString (Z.of_nat (List.length (probe_text nowISOString timestamp)))) /\
    success write' = accepted (remote w (sent w) put) /\
    List.map Http.method cleanup =
      (if success write' then [lit "DELETE"] else []) /\
    List.map url cleanup = (if success write' then [url put] else []).
Proof.
  unfold executeWebDAVWriteTest, try_catch, bind, basic, signal.
  rewrite Hbtoa. unfold ret at 1. cbv beta iota zeta. rewrite Hreading, Hconnection.
  unfold ret, fetch. cbv beta iota zeta. fold (probe_text nowISOString timestamp).
  match goal with |- context [remote w (sent w) ?r] => set (put := r) end.
  assert (Hcl : get_header CONTENT_LENGTH (requestHeaders put) =
                Some (toString (Z.of_nat (List.length (probe_text nowISOString timestamp))))).
  { subst put. cbn [requestHeaders]. rewrite get_assign.
    cbn [rev app get_header]. unfold CONTENT_LENGTH. now rewrite str_eqb_refl. }
  unfold accepted.
  destruct (remote w (sent w) put) as [r | [n m]] eqn:E; cbv beta iota.
  - rewrite ok_or_201. destruct (ok r) eqn:E2; cbv beta iota.
    + cbn [remote sent].
      match goal with |- context [remote w (sent w ++ [put]) ?d] => set (del := d) end.
      destruct (remote w (sent w ++ [put]) del) as [r2 | [n2 m2]]; cbv beta iota;
        eexists; exists put, [del]; rewrite <- app_assoc; cbn [success app];
        (split; [reflexivity|]); rewrite E, E2; repeat split; assumption.
    + eexists. exists put, []. cbn [success]. rewrite E, E2.
      repeat split; assumption.
  - eexists. exists put, []. cbn [success]. rewrite E. repeat split; assumption.
Qed.

(** The update of the last-used time returns and sends nothing to the
    server. *)
Hypothesis Hlast :
  forall w0 : World,
    exists w1, updateWebDAVLastUsedTime w0 = (inl tt, w1) /\ sent w1 = sent w0.

(** X21: when the host builds the credentials and accepts the two delays
    of the configuration, the diagnostic never stops early.  Whatever
    the server answers (or when the network fails), the four probes are
    sent in the order OPTIONS, PROPFIND, PROPFIND, PUT, the two PROPFIND
    to the same address; the PUT that creates the probe file is sent
    also after a failed connection or authentication.  Each stage
    reports the answer to its own probe only (connect also accepts 401),
    and the DELETE that removes the probe file is sent exactly when the
    PUT was accepted. *)
Theorem diagnostic_sends_every_probe (w : World) :
  exists report w' options auth read put cleanup,
    testWebDAVConnection btoa AbortSignal_timeout nowISOString timestamp elapsed
      updateWebDAVLastUsedTime config username password w = (inl report, w') /\
    sent w' = sent w ++ [options; auth; read; put] ++ cleanup /\
    List.map Http.method [options; auth; read; put] =
      [lit "OPTIONS"; lit "PROPFIND"; lit "PROPFIND"; lit "PUT"] /\
    url auth = url read /\
    success (connect (result report)) = reached (remote w (sent w) options) /\
    success (webdavConfigService.auth (result report)) =
      accepted (remote w (sent w ++ [options]) auth) /\
    success (webdavConfigService.read (result report)) =
      accepted (remote w (sent w ++ [options; auth]) read) /\
    success (write (result report)) =
      accepted (remote w (sent w ++ [options; auth; read]) put) /\
    List.map Http.method cleanup =
      (if success (write (result report)) then [lit "DELETE"] else []) /\
    List.map url cleanup =
      (if success (write (result report)) then [url put] else []).
Proof.
  unfold testWebDAVConnection, bind.
  destruct (connect_stage (fresh_stage (lit "测试WebDAV服务器连接")) w)
    as (c' & E1 & S1).
  rewrite E1. cbv beta iota.
  destruct (propfind_stage (fresh_stage (lit "测试WebDAV认证"))
              (world_after w (options_probe config credentials)))
    as (a' & E2 & S2).
  rewrite E2. cbv beta iota.
  destruct (read_stage (fresh_stage (lit "测试WebDAV读取权限"))
              (world_after (world_after w (options_probe config credentials))
                 (auth_probe config credentials)))
    as (r' & E3 & S3).
  rewrite E3. cbv beta iota.
  destruct (write_stage (fresh_stage (lit "测试WebDAV写入权限"))
              (world_after
                 (world_after (world_after w (options_probe config credentials))
                    (auth_probe config credentials))
                 (read_probe config credentials)))
    as (w4 & put & cleanup & E4 & M4 & _ & _ & S4 & C4 & D4).
  rewrite E4. cbv beta iota.
  match goal with |- context [updateWebDAVLastUsedTime ?x] =>
    destruct (Hlast x) as (w5 & E5 & S5); rewrite E5 end.
  cbv beta iota. unfold ret.
  unfold world_after in *. cbn [remote sent] in *.
  rewrite <- !app_assoc in *. cbn [app] in *.
  eexists. exists w5, (options_probe config credentials), (auth_probe config credentials),
    (read_probe config credentials), put, cleanup.
  split; [reflexivity|]. cbn [result connect webdavConfigService.auth
                              webdavConfigService.read write List.map].
  split; [exact S5|]. split; [rewrite M4; reflexivity|].
  split; [unfold auth_probe, read_probe, propfind_request; cbn [url]; reflexivity|].
  split; [exact S1|]. split; [exact S2|]. split; [exact S3|].
  split; [exact S4|]. split; assumption.
Qed.

(** X22: when the host builds the credentials and accepts the delays,
    the probe file is uploaded with a [Content-Length] header that
    counts the UTF-16 code units of its text, which is sixteen less than
    the octets of the body: the text has eight characters outside
    ASCII. *)
Theorem write_probe_declares_code_units (stage : Stage) (w : World) :
  ascii_text nowISOString = true ->
  exists put cleanup content,
    sent (snd (executeWebDAVWriteTest btoa AbortSignal_timeout nowISOString
                 timestamp elapsed stage config username password w))
      = sent w ++ put :: cleanup /\
    Http.method put = lit "PUT" /\
    body put = Some (Text content) /\
    get_header CONTENT_LENGTH (requestHeaders put) =
      Some (toString (Z.of_nat (List.length content))) /\
    Z.of_nat (List.length (octets_written (Text content))) =
      Z.of_nat (List.length content) + 16.
Proof.
  intros H.
  destruct (write_stage stage w) as (w' & put & cleanup & E & M & B & L & _).
  exists put, cleanup, (probe_text nowISOString timestamp).
  rewrite E. cbn [snd sent octets_written].
  repeat split; try assumption. now apply probe_text_octets.
Qed.

End Probes.

(** C9: every run of the diagnostic that returns a report returns, as its
    flag, connect && auth && read of the stages of that report: the
    outcome of the write stage plays no role; when the flag is set and
    the write stage failed, the message is the partial-success one (write
    unavailable).  The run returns a report whenever the update of the
    last-used time returns: no stage throws, whatever the server, [btoa]
    or [AbortSignal.timeout] do.  When the host builds the credentials
    and accepts the two delays, the flag is decided by the answers to the
    first three probes alone: OPTIONS answered by a 2xx or 401, and both
    PROPFIND answered by a 2xx. *)
Theorem overall_success_ignores_write
        (btoa : jsstring -> jsstring + exn)
        (AbortSignal_timeout : number -> unit + exn)
        (nowISOString : jsstring) (timestamp elapsed : Z)
        (updateWebDAVLastUsedTime : M unit)
        (config : webdavConfigService.StoredConfig)
        (username password : jsstring) (w : World) :
  let run :=
    webdavConfigService.testWebDAVConnection btoa AbortSignal_timeout nowISOString
      timestamp elapsed updateWebDAVLastUsedTime config username password w in
  (forall (report : webdavConfigService.Report) (w' : World),
     run = (inl report, w') ->
     let stages := webdavConfigService.result report in
     webdavConfigService.report_success report =
       webdavConfigService.success (webdavConfigService.connect stages) &&
       webdavConfigService.success (webdavConfigService.auth stages) &&
       webdavConfigService.success (webdavConfigService.read stages) /\
     (webdavConfigService.report_success report = true ->
      webdavConfigService.success (webdavConfigService.write stages) = false ->
      webdavConfigService.report_message report = partial_success_message)) /\
  ((forall w0, exists w1, updateWebDAVLastUsedTime w0 = (inl tt, w1)) ->
   exists report w', run = (inl report, w')) /\
  (forall credentials : jsstring,
     btoa (username ++ lit ":" ++ password) = inl credentials ->
     AbortSignal_timeout
       (Number_of (webdavConfigService.or_seconds
                     (webdavConfigService.connection_timeout config) 30 * 1000))
       = inl tt ->
     AbortSignal_timeout
       (Number_of (webdavConfigService.or_seconds
                     (webdavConfigService.read_timeout config) 60 * 1000))
       = inl tt ->
     forall (report : webdavConfigService.Report) (w' : World),
       run = (inl report, w') ->
       let options := options_probe config credentials in
       let auth := auth_probe config credentials in
       let read := read_probe config credentials in
       webdavConfigService.report_success report =
         reached (remote w (sent w) options) &&
         accepted (remote w (sent w ++ [options]) auth) &&
         accepted (remote w (sent w ++ [options; auth]) read)).
Proof.
  cbv zeta. split; [|split].
  - unfold webdavConfigService.testWebDAVConnection, bind.
    destruct (connect_returns btoa AbortSignal_timeout config username password
                (webdavConfigService.fresh_stage (lit "测试WebDAV服务器连接")) w)
      as (c' & w1 & ->).
    destruct (auth_returns btoa AbortSignal_timeout config username password
                (webdavConfigService.fresh_stage (lit "测试WebDAV认证")) w1)
      as (a' & w2 & ->).
    destruct (read_returns btoa AbortSignal_timeout config username password
                (webdavConfigService.fresh_stage (lit "测试WebDAV读取权限")) w2)
      as (r' & w3 & ->).
    destruct (write_returns btoa AbortSignal_timeout nowISOString timestamp elapsed
                config username password
                (webdavConfigService.fresh_stage (lit "测试WebDAV写入权限")) w3)
      as (x' & w4 & ->).
    intros report w'.
    destruct (updateWebDAVLastUsedTime w4) as [[[] | e] w5]; [|discriminate].
    unfold ret. intros H. injection H as <- <-.
    cbn [webdavConfigService.result webdavConfigService.report_success
         webdavConfigService.report_message webdavConfigService.connect
         webdavConfigService.auth webdavConfigService.read
         webdavConfigService.write].
    unfold webdavConfigService.generateWebDAVTestSummary.
    cbn [webdavConfigService.overallSuccess webdavConfigService.summary_message
         webdavConfigService.connect webdavConfigService.auth
         webdavConfigService.read webdavConfigService.write].
    split; [reflexivity|].
    intros Hall Hw. rewrite Hw.
    apply andb_true_iff in Hall. destruct Hall as [Hca Hr].
    apply andb_true_iff in Hca. destruct Hca as [Hc Ha].
    rewrite Hc, Ha, Hr. vm_compute. reflexivity.
  - unfold webdavConfigService.testWebDAVConnection, bind.
    destruct (connect_returns btoa AbortSignal_timeout config username password
                (webdavConfigService.fresh_stage (lit "测试WebDAV服务器连接")) w)
      as (c' & w1 & ->).
    destruct (auth_returns btoa AbortSignal_timeout config username password
                (webdavConfigService.fresh_stage (lit "测试WebDAV认证")) w1)
      as (a' & w2 & ->).
    destruct (read_returns btoa AbortSignal_timeout config username password
                (webdavConfigService.fresh_stage (lit "测试WebDAV读取权限")) w2)
      as (r' & w3 & ->).
    destruct (write_returns btoa AbortSignal_timeout nowISOString timestamp elapsed
                config username password
                (webdavConfigService.fresh_stage (lit "测试WebDAV写入权限")) w3)
      as (x' & w4 & ->).
    intros Hlast. destruct (Hlast w4) as (w5 & ->).
    eexists. eexists. reflexivity.
  - intros credentials Hb Hc Hr report w'.
    unfold webdavConfigService.testWebDAVConnection, bind.
    destruct (connect_stage btoa AbortSignal_timeout config username password
                credentials Hb Hc
                (webdavConfigService.fresh_stage (lit "测试WebDAV服务器连接")) w)
      as (c' & -> & S1).
    destruct (propfind_stage btoa AbortSignal_timeout config username password
                credentials Hb Hc
                (webdavConfigService.fresh_stage (lit "测试WebDAV认证"))
                (world_after w (options_probe config credentials)))
      as (a' & -> & S2).
    destruct (read_stage btoa AbortSignal_timeout config username password
                credentials Hb Hr
                (webdavConfigService.fresh_stage (lit "测试WebDAV读取权限"))
                (world_after (world_after w (options_probe config credentials))
                   (auth_probe config credentials)))
      as (r' & -> & S3).
    match goal with |- context [webdavConfigService.executeWebDAVWriteTest
                                  ?a ?b ?c ?d ?e ?f ?g ?h ?i ?j] =>
      destruct (write_returns a b c d e g h i f j) as (x' & w4 & ->) end.
    destruct (updateWebDAVLastUsedTime w4) as [[[] | e] w5]; [|discriminate].
    unfold ret. intros H. injection H as <- <-.
    cbn [webdavConfigService.report_success].
    unfold webdavConfigService.generateWebDAVTestSummary.
    cbn [webdavConfigService.overallSuccess webdavConfigService.connect
         webdavConfigService.auth webdavConfigService.read].
    unfold world_after in S2, S3. cbn [remote sent] in S2, S3.
    rewrite <- app_assoc in S3. cbn [app] in S3.
    now rewrite S1, S2, S3.
Qed.

(** Scenario E run through the whole diagnostic: the statuses 200, 200,
    200 with three entries and 500 give the flag, two files counted, a
    failed write stage and the partial-success message. *)
Lemma overall_success_ignores_write_scenario_E :
  exists report w,
    scenario_E_run = (inl report, w) /\
    webdavConfigService.report_success report = true /\
    webdavConfigService.report_message report = partial_success_message /\
    webdavConfigService.success
      (webdavConfigService.write (webdavConfigService.result report)) = false /\
    webdavConfigService.statusCode
      (webdavConfigService.write (webdavConfigService.result report)) = Some 500 /\
    webdavConfigService.fileCount
      (webdavConfigService.read (webdavConfigService.result report)) = Some 2 /\
    List.length (sent w) = 4%nat.
Proof.
  destruct (overall_success_ignores_write (fun s => inl s) (fun _ => inl tt)
              (lit "2024-01-01T00:00:00.000Z") 1700000000000 12 (ret tt)
              scenario_E_config (lit "alice") (lit "secret")
              {| remote := scenario_E_remote; sent := [] |}) as (Hflag & Hrun & _).
  cbv zeta in Hflag, Hrun.
  destruct Hrun as (report & w & Hrun); [intros w0; exists w0; reflexivity|].
  exists report, w. split; [exact Hrun|].
  destruct (Hflag report w Hrun) as [Hsuccess Hmessage].
  assert (E : scenario_E_run = (inl report, w)) by exact Hrun.
  assert (Hc : (webdavConfigService.report_success report,
                webdavConfigService.success
                  (webdavConfigService.write (webdavConfigService.result report)),
                webdavConfigService.statusCode
                  (webdavConfigService.write (webdavConfigService.result report)),
                webdavConfigService.fileCount
                  (webdavConfigService.read (webdavConfigService.result report)),
                List.length (sent w)) = (true, false, Some 500, Some 2, 4%nat)).
  { replace report with (match fst scenario_E_run with
                         | inl r => r
                         | inr _ => report
                         end) by now rewrite E.
    replace w with (snd scenario_E_run) by now rewrite E.
    vm_compute. reflexivity. }
  injection Hc as H1 H2 H3 H4 H5.
  split; [exact H1|]. split; [now apply Hmessage|].
  split; [exact H2|]. split; [exact H3|]. split; [exact H4 | exact H5].
Defined.

Lemma diagnostic_sends_every_probe_scenario_E :
  exists report w' options auth read put cleanup,
    scenario_E_run = (inl report, w') /\
    sent w' = sent scenario_E_world ++ [options; auth; read; put] ++ cleanup /\
    List.map method [options; auth; read; put] =
      [lit "OPTIONS"; lit "PROPFIND"; lit "PROPFIND"; lit "PUT"] /\
    url auth = url read /\
    webdavConfigService.success
      (webdavConfigService.connect (webdavConfigService.result report)) =
      reached (remote scenario_E_world (sent scenario_E_world) options) /\
    webdavConfigService.success
      (webdavConfigService.auth (webdavConfigService.result report)) =
      accepted (remote scenario_E_world (sent scenario_E_world ++ [options]) auth) /\
    webdavConfigService.success
      (webdavConfigService.read (webdavConfigService.result report)) =
      accepted (remote scenario_E_world
                  (sent scenario_E_world ++ [options; auth]) read) /\
    webdavConfigService.success
      (webdavConfigService.write (webdavConfigService.result report)) =
      accepted (remote scenario_E_world
                  (sent scenario_E_world ++ [options; auth; read]) put) /\
    List.map method cleanup =
      (if webdavConfigService.success
            (webdavConfigService.write (webdavConfigService.result report))
       then [lit "DELETE"] else []) /\
    List.map url cleanup =
      (if webdavConfigService.success
            (webdavConfigService.write (webdavConfigService.result report))
       then [url put] else []).
Proof.
  apply (diagnostic_sends_every_probe (fun s => inl s) (fun _ => inl tt)
           (lit "2024-01-01T00:00:00.000Z") 1700000000000 12 (ret tt)
           scenario_E_config (lit "alice") (lit "secret")
           (lit "alice" ++ lit ":" ++ lit "secret")).
  - reflexivity.
  - reflexivity.
  - reflexivity.
  - intros w0. exists w0. split; reflexivity.
Defined.

Lemma write_probe_declares_code_units_scenario_E :
  ascii_text (lit "2024-01-01T00:00:00.000Z") = true /\
  exists put cleanup content,
    sent (snd (webdavConfigService.executeWebDAVWriteTest (fun s => inl s)
                 (fun _ => inl tt)
                 (lit "2024-01-01T00:00:00.000Z") 1700000000000 12
                 (webdavConfigService.fresh_stage (lit "测试WebDAV写入权限"))
                 scenario_E_config (lit "alice") (lit "secret")
                 scenario_E_world)) = sent scenario_E_world ++ put :: cleanup /\
    method put = lit "PUT" /\
    body put = Some (Text content) /\
    get_header CONTENT_LENGTH (requestHeaders put) =
      Some (toString (Z.of_nat (List.length content))) /\
    Z.of_nat (List.length (octets_written (Text content))) =
      Z.of_nat (List.length content) + 16.
Proof.
  split; [vm_compute; reflexivity|].
  apply (write_probe_declares_code_units (fun s => inl s) (fun _ => inl tt)
           (lit "2024-01-01T00:00:00.000Z") 1700000000000 12
           scenario_E_config (lit "alice") (lit "secret")
           (lit "alice" ++ lit ":" ++ lit "secret")).
  - reflexivity.
  - reflexivity.
  - reflexivity.
  - vm_compute. reflexivity.
Defined.
